(* ===== verification/_CoqProject ===== *)
-Q . S2P
Prelude.v
BlockSpec.v
Core.v
Primitives.v
Decompress.v
DecompressProofs.v
DecompressSpec.v
Validate.v
DecoderTheorems.v
Sequences.v
HashTable.v
Compress.v
CompressProofs.v
DictTableProofs.v
EncoderSpec.v
EncoderTheorems.v
FrameHeader.v
Display.v
FrameTheorems.v
DictTrainer.v
DictTheorems.v
FrameIO.v
FrameSpec.v
FrameEncoder.v
FrameEncoderProofs.v
FrameSession.v
FrameDecoder.v
FrameDecoderSpec.v
FrameDecoderProofs.v
FrameDecoderStream.v
FrameDecoderLive.v
FrameDecoderMemory.v
FrameFaults.v
FrameDamage.v
FrameReaders.v
FrameCodecTheorems.v
Reuse.v
FrameDecoderReuse.v
ReuseTheorems.v
FrameAnyReader.v
FrameInterrupts.v
FrameDecoderTheorems.v
ReaderTheorems.v
Bindings.v
BindingsTheorems.v
Fuzz.v
FuzzReuse.v
FuzzTheorems.v
Quickstart.v
Bench.v
BenchText.v
BenchTextProofs.v
BenchCache.v
BenchCacheProofs.v
BenchProofs.v
BenchTheorems.v
