(* ===== verification/Prelude.v ===== *)
(** * lz4rip: a verification library

    lz4rip is an LZ4 block and frame codec in safe Rust.  This library models
    its block decoder, validator and compressor, its dictionary trainer, and the
    encoder, the decoder and the wire format of frames.  It proves them correct
    against specifications of the LZ4 block format and of the LZ4 frame format.

    ** Parts of the program and of the library

    The crates form layers: [crates/core] (constants, errors, the copy routine,
    the [Sink] trait) is used by [crates/decode] and [crates/encode]; the frame
    module of the main crate is built on both.

    - [BlockSpec]: the specification.  [block_decode dict block] is the
      byte-by-byte decoder [reference_decode] of the tests of
      [crates/decode/src/decompress.rs], made total and extended with a
      dictionary.  [expand] is the overlapping copy of a match.
    - [Core]: [crates/core/src/{lib,fastcpy,sink}.rs].  [Target] is the
      compilation target, on which [cfg] branches depend: pointer width, byte
      order, AVX.  All theorems quantify over it.
    - [Primitives]: [crates/decode/src/{primitives,out}.rs], the copy routines
      of the decoder.
    - [Decompress]: [crates/decode/src/decompress.rs].  [fast_iter] is a pass of
      the fast loop, [general_step] one of the general path, [decompress_body]
      the loop of both, followed by the entry points and the two decompressor
      types.
    - [DecompressProofs], [DecompressSpec]: the simulation of both paths by one
      reference step, its equivalence with the specification, and the contracts
      of the entry points.
    - [Validate]: [crates/decode/src/validate.rs].
    - [DecoderTheorems]: the properties of [crates/decode].
    - [Sequences]: the encoder's view of the format, a list of sequences and a
      last run of literals, with its decoding and its end rules.
    - [HashTable]: [crates/encode/src/hashtable.rs].  The trait is the class
      [HashTable]; [HashTableLaws] states what the compressor needs of a table,
      and both table types are instances.
    - [Compress]: [crates/encode/src/{compress,compressor}.rs] and the entry
      point of [lib.rs].  [search_step], [probe] and [emit_step] are the passes
      of the core loop [compress_internal]; [compress_with_dict_table] is the
      loop with two tables.
    - [CompressProofs], [DictTableProofs], [EncoderSpec]: the invariants of the
      two loops, and the contracts of the entry points and of the reusable
      compressors.
    - [EncoderTheorems]: the properties of [crates/encode].
    - [DictTrainer], [DictTheorems]: [crates/encode/src/dict.rs].
    - [FrameHeader], [FrameTheorems]: [src/frame/header.rs] and the error type
      of [src/frame/mod.rs].
    - [Display]: the texts of the three error types.
    - [FrameIO]: readers and writers.  [Write] and [Read] are what the frame
      codec uses of [std::io]; [WriteLaws] and [ReadLaws] say what a reliable
      writer or reader of bytes does.  Vectors and slices are instances.
    - [FrameSpec]: the specification of frames.  [frames dict id l out] says that
      the bytes [l] are frames with content [out]; [block_carries] is one block.
    - [FrameEncoder]: [src/frame/compress.rs].  The [Record] has the fields of
      [FrameEncoder]; [write_block] is composed of [compress_block],
      [emit_block], [slide] and [reposition], which are stretches of its body.
    - [FrameEncoderProofs], [FrameSession]: the invariants of an open and of a
      closed frame, and the refinement of an abstract [session], whose state is
      the content of the finished frames and of the open one.
    - [FrameDecoder]: [src/frame/decompress.rs].  [read_block] is composed of
      [slide], [read_uncompressed], [read_compressed] and [read_end_mark].
    - [FrameDecoderSpec]: the frame format as a parser of what is left of a
      stream: [take_block] reads a block, [rest_of] is the meaning of the bytes
      after a point inside a frame, [owes] that of a stream that has not ended.
    - [FrameDecoderProofs], [FrameDecoderStream], [FrameDecoderLive]: the decoder
      against that parser: a block, the loop over blocks and frames with the
      methods of [Read] and [BufRead] and any client of them, and a stream that
      has not ended.
    - [FrameDecoderMemory]: the size of the decoder's buffers, and of the
      capacities it reserves for them, on frames that declare their sizes.
    - [FrameFaults]: what is wrong with a header by the values of its bytes
      ([header_fault], [bad_header]), and the error of each fault.
    - [FrameDamage]: the defects of a stream ([damage] inside a frame,
      [bad_header] between frames) and the error of each.
    - [FrameReaders], [FrameAnyReader], [FrameInterrupts]: a decoder over a reader
      that may fail, related to one over a slice of the bytes it delivered
      ([replays]), and the invariants that follow from it.
    - [FrameCodecTheorems], [FrameDecoderTheorems], [ReaderTheorems]: the
      properties of the frame codec: round trips and the encoder; the outcomes
      of the decoder; readers that fail.
    - [Reuse], [FrameDecoderReuse], [ReuseTheorems]: buffers and decoders that are
      used again.  [agree] relates two runs of the same code; [alike] is what two
      frame decoders share when their buffers and past differ.
    - [Bindings], [BindingsTheorems]: [jsr/wasm/src/lib.rs], the exported
      functions and objects of the WebAssembly module, and their properties.
    - [Fuzz], [FuzzReuse], [FuzzTheorems]: the programs of [fuzz/fuzz_targets], a
      [Module] for each, and the theorem that they never fail.  The C library
      that two of them call is an [Environment].
    - [Quickstart]: [examples/quickstart.rs].
    - [Bench], [BenchProofs], [BenchTheorems]: the benchmark,
      [examples/lz4rip_bench.rs] over [crates/bench-app].  [bench_loop] is its
      timing loop, [time_encode] and [time_decode] a pass over slices, [run_small]
      and its siblings the runs, [measure] the program but for its files.  The
      other codecs, the C library and the clock are [Libraries], with the laws
      [libraries_ok] and [steady].
    - [BenchText], [BenchTextProofs]: a row of the benchmark as a line of text, with
      what it uses of the formatting and parsing of the standard library.  A line
      is taken apart at its quotation marks.
    - [BenchCache], [BenchCacheProofs]: the files that the benchmark downloads,
      loads and saves, and [main].

    ** Conventions

    A [usize] is an [N]; a subtraction, an addition or an index that can panic
    is an operation of the outcome monad [res], whose values are [Ok], a Rust
    [Err], [Panic] and [NoFuel].  Where the order of checks makes an underflow
    impossible the plain operation of [N] is used.  A [&mut] argument is passed
    in and returned, also with an error when the caller can still see it.  The
    hypotheses [buffer_ok], [input_ok] and [alloc_ok] say that a slice length is
    at most [isize::MAX], as Rust guarantees, less a fixed slack, and that the
    size formula of the compressor does not overflow.

    A loop takes fuel, and the theorems exclude [NoFuel]: every pass of the
    decoder consumes a byte of its input, so [S (length input)] passes are
    enough; the compressor's loops advance [cur], which stays below the length
    of the input; the doubling and chunked copies advance by at least one byte
    per pass; the trainer's selection adds at least one byte to what it has
    collected.  The loop of [FrameEncoder::write] takes two passes per byte at
    most, one of which copies a byte; every pass of [FrameDecoder::read_more]
    consumes a header, a block or an end mark of the reader's bytes, and every
    pass of [read_to_end] comes after one of them.  The calibration of the benchmark
    doubles a batch 20 times at most.  A sample of [n] nanoseconds takes [n + 1]
    passes at most for each of the readings in a row that may be equal: [steady]
    says that the clock does not go back, and that these readings are fewer than
    [2 ^ 17].

    The inputs of the fuzz targets are bounded in [fuzz_input_ok]: the buffers of
    blocks have at most [2 ^ 24] bytes, and the numbers are within the limits of the
    attributes in the source; there is no bound for the targets of frames, except
    for the one that reuses a decoder.

    The hasher of a frame is the list of the bytes it was given.  Allocation
    succeeds.  The capacity of a vector is modelled where the code asserts it, and
    for the two buffers of the frame decoder as the largest capacity that was asked
    for.  [read_exact] that fails leaves a slice with unspecified bytes; the model
    keeps the old ones, in a buffer that has been resized, and the frame is closed.

    ** What the theorems show

    - Decoder: on every input it returns, stays inside its buffers, and
      succeeds exactly on the blocks of the format, with their bytes; the fast
      loop changes nothing that can be observed; the validator accepts exactly
      what decodes to the expected size.
    - Compressor: it never panics nor fails with enough room, and what it writes
      decodes to its input, with every table type, mode and stream offset, after
      any history of calls of a reusable compressor; blocks obey the end rules.
    - Trainer: the window invariant, the greedy selection by how often runs of eight
      bytes occur inside the samples, and the small limits for which training
      panics.
    - Frame headers: round trips in both directions, final outcomes, truncation.
    - Frame encoder: any sequence of calls refines the abstract session, with any
      reliable writer; a flush withholds nothing; with any writer at all an
      error is final; what is written exceeds the content by at most 27 bytes per
      frame that is finished or open, and 8 bytes per 64 KiB, per flush of an open
      frame and per frame that [try_finish] ends.
    - Frame decoder: after any history of calls it succeeds exactly on sequences
      of frames within the output limit, with their content; on any other byte
      string it hands out what precedes the first defect and reports the error of
      that defect, whose inner error is left open for a block that does not decode;
      it never panics; reads make progress; frames that declare their sizes make it
      reserve and use no more memory than their contents, beyond what it had.
    - Readers: over any reader, however its calls fail, the limits hold and an
      error closes the frame; interruptions lose nothing.
    - Error texts: a text determines its error, and that of a wrong dictionary
      has its two identifiers swapped.
    - Both: what is written to an encoder is read back by a decoder.
    - Reuse: what a buffer held is never observed, and a frame decoder with no open
      frame and nothing pending that gets a new reader, after any calls and errors,
      returns what a new decoder would, but for the numbers in an error of the limit.
    - Benchmark: for any arguments it runs to its end, unless it reads a dictionary
      file that is not there, which is a panic; every block of every codec decodes
      to its input, and each row has the sizes of inputs and of blocks that
      restore them; the rows that it saves are loaded again, with their times
      rounded to the nearest tenths.  The quickstart example runs too.
    - Fuzz targets: each runs to its end for every input within the bounds above, two
      of them with any C library that reads and writes the format.
    - Bindings: frames round trip for all flags, and blocks for any history of a
      compressor object, at their exact size only.

    ** Not modelled

    [Debug] implementations, and the reservation in the vector that [read_to_end]
    appends to, are not modelled: they do not change what the methods return.  The
    allocator may give a vector more than the capacity that was asked for.  Of the
    benchmark, the messages are left out; its cache files can all be created and
    hold text, and the commands of its downloads are a parameter.  The re-exports of [lib.rs], the charts and the loops for a profiler of
    [bench] and [benches], and the TypeScript of the npm and Deno packages are
    clients of the library or of its results.  The checksum of the twox-hash
    package is a parameter.

    This file holds what the components share: machine-indexed lists, the
    outcome monad and checked accesses, bytes and little-endian words, and the
    automation. *)

From Stdlib Require Export NArith Lia ZArith.
From Stdlib.Strings Require Export Byte.
From stdpp Require Export base numbers list option.

#[global] Open Scope N_scope.

(** ** Lists indexed by machine integers

    Positions and lengths of the source are [usize] values; they are [N] here.
    [len] is a notation, so that [lia] sees the underlying [length]. *)
Declare Scope lz4_scope.
Delimit Scope lz4_scope with lz4.
#[global] Open Scope lz4_scope.

Abbreviation len l := (N.of_nat (length l)) (only parsing).
Abbreviation bytes := (list byte) (only parsing).

(** [sub l a n]: the [n] elements of [l] from [a] (fewer at the end). *)
Definition sub {A} (l : list A) (a n : N) : list A :=
  take (N.to_nat n) (drop (N.to_nat a) l).

(** [splice l a d]: [l] with the elements from [a] replaced by [d]. *)
Definition splice {A} (l : list A) (a : N) (d : list A) : list A :=
  take (N.to_nat a) l ++ d ++ drop (N.to_nat a + length d)%nat l.

(** [at_ l i]: the element at a machine index. *)
Notation "l .[ i ]" := (l !! N.to_nat i)
  (at level 1, i at level 200, left associativity, format "l .[ i ]") : lz4_scope.

(** ** Outcomes

    [Err] is a Rust [Err]; [Panic] is a panic (slice index out of range,
    failed assertion, arithmetic overflow in a checked build); [NoFuel] marks
    a loop that ran out of the fuel of the model and is excluded by the
    totality theorems. *)
Inductive res (E A : Type) : Type :=
| Ok (a : A)
| Err (e : E)
| Panic
| NoFuel.
Arguments Ok {E A} a.
Arguments Err {E A} e.
Arguments Panic {E A}.
Arguments NoFuel {E A}.

#[export] Instance res_ret {E} : MRet (res E) := fun A a => Ok a.
#[export] Instance res_bind {E} : MBind (res E) := fun A B f m =>
  match m with Ok a => f a | Err e => Err e | Panic => Panic | NoFuel => NoFuel end.

(** [map_err] of Rust's [Result]. *)
Definition map_err {E F A} (f : E -> F) (m : res E A) : res F A :=
  match m with Ok a => Ok a | Err e => Err (f e) | Panic => Panic | NoFuel => NoFuel end.

(** [ok_or] of Rust's [Option]. *)
Definition ok_or {E A} (e : E) (o : option A) : res E A :=
  match o with Some a => Ok a | None => Err e end.

(** An [unwrap] or an unconditional index. *)
Definition or_panic {E A} (o : option A) : res E A :=
  match o with Some a => Ok a | None => Panic end.

(** [assert!(b)]. *)
Definition assert {E} (b : bool) : res E unit := if b then Ok tt else Panic.

(** [returns m P]: [m] neither panics, nor runs out of fuel, nor fails, and
    its value satisfies [P]. *)
Definition returns {E A} (m : res E A) (P : A -> Prop) : Prop :=
  exists a, m = Ok a /\ P a.

(** ** Checked slice accesses *)

(** [&l[a..b]] *)
Definition slice {E A} (l : list A) (a b : N) : res E (list A) :=
  if (a <=? b) && (b <=? len l) then Ok (sub l a (b - a)) else Panic.

(** [&l[a..]] *)
Definition slice_from {E A} (l : list A) (a : N) : res E (list A) :=
  if a <=? len l then Ok (drop (N.to_nat a) l) else Panic.

(** [l[a..a + d.len()].copy_from_slice(d)] *)
Definition write_at {E A} (l : list A) (a : N) (d : list A) : res E (list A) :=
  if a + len d <=? len l then Ok (splice l a d) else Panic.

(** [l[i]] *)
Definition index {E A} (l : list A) (i : N) : res E A := or_panic (l .[i]).

(** [a - b] on [usize] *)
Definition usub {E} (a b : N) : res E N := if b <=? a then Ok (a - b) else Panic.

(** ** Bytes and little-endian words *)

(** [b as usize] *)
Definition u8 (b : byte) : N := Byte.to_N b.

(** [n as u8] *)
Definition to_u8 (n : N) : byte :=
  match Byte.of_N (n mod 256) with Some b => b | None => x00 end.

(** [uN::from_le_bytes] *)
Fixpoint from_le (l : bytes) : N :=
  match l with [] => 0 | b :: r => u8 b + 256 * from_le r end.

(** [uN::to_le_bytes], [k] bytes *)
Fixpoint to_le (k : nat) (v : N) : bytes :=
  match k with O => [] | S k => to_u8 v :: to_le k (v / 256) end.

(** ** Automation *)

Ltac Zify.zify_post_hook ::= Z.to_euclidean_division_equations.

Create HintDb lz4.
Create Rewrite HintDb lz4_len.

(** Reduces a monadic step whose first computation is a value. *)
Ltac mstep := cbn [mbind res_bind mret res_ret map_err ok_or or_panic].

#[export] Hint Rewrite @length_app @length_take @length_drop @length_cons @length_nil
  @length_replicate : lz4_len.

(** Arithmetic goals about lengths and machine positions. *)
Ltac len_lia := autorewrite with lz4_len in *; lia.

(** Case analysis on a machine comparison of the goal; the impossible side is
    closed by arithmetic. *)
Ltac bcase :=
  match goal with
  | |- context [N.ltb ?a ?b] => destruct (N.ltb_spec a b)
  | |- context [N.leb ?a ?b] => destruct (N.leb_spec a b)
  | |- context [N.eqb ?a ?b] => destruct (N.eqb_spec a b)
  end; try (exfalso; len_lia).

(** ** Lemmas on outcomes *)

Lemma bind_Ok {E A B} (m : res E A) (f : A -> res E B) b :
  (m ≫= f) = Ok b <-> exists a, m = Ok a /\ f a = Ok b.
Proof. destruct m; cbn; naive_solver. Qed.

Lemma returns_bind {E A B} (m : res E A) (f : A -> res E B) (P : B -> Prop) :
  returns m (fun a => returns (f a) P) -> returns (m ≫= f) P.
Proof. intros (a & -> & b & Hf & HP). exists b. by cbn. Qed.

Lemma returns_mono {E A} (m : res E A) (P Q : A -> Prop) :
  returns m P -> (forall a, P a -> Q a) -> returns m Q.
Proof. unfold returns. naive_solver. Qed.

Lemma returns_ok {E A} (a : A) (P : A -> Prop) : P a -> returns (E:=E) (Ok a) P.
Proof. exists a. done. Qed.

(** ** Lemmas on slices *)

Section slices.
Context {E A : Type}.
Implicit Types (l d : list A) (a b i n : N).

Lemma length_sub l a n : a + n <= len l -> length (sub l a n) = N.to_nat n.
Proof. intros. unfold sub. rewrite length_take, length_drop. lia. Qed.

Lemma lookup_sub l a n i : i < n -> (sub l a n).[i] = l.[a + i].
Proof.
  intros. unfold sub. rewrite lookup_take_lt by lia. rewrite lookup_drop. f_equal. lia.
Qed.

Lemma sub_0 l n : sub l 0 n = take (N.to_nat n) l.
Proof. done. Qed.

Lemma sub_sub l a n b m : b + m <= n -> sub (sub l a n) b m = sub l (a + b) m.
Proof.
  intros. unfold sub. rewrite skipn_firstn_comm, take_take, drop_drop.
  f_equal; [lia|]. f_equal. lia.
Qed.

Lemma length_splice l a d : a + len d <= len l -> length (splice l a d) = length l.
Proof. intros. unfold splice. len_lia. Qed.

Lemma lookup_splice l a d i : a + len d <= len l ->
  (splice l a d).[i] =
    if i <? a then l.[i] else if i <? a + len d then d.[i - a] else l.[i].
Proof.
  intros Hl. unfold splice.
  destruct (N.ltb_spec i a).
  { rewrite lookup_app_l by len_lia. apply lookup_take_lt. lia. }
  rewrite lookup_app_r by len_lia. rewrite length_take.
  destruct (N.ltb_spec i (a + len d)).
  { rewrite lookup_app_l by lia. f_equal. lia. }
  rewrite lookup_app_r by lia. rewrite lookup_drop. f_equal. lia.
Qed.

Lemma slice_ok l a b : a <= b -> b <= len l -> slice (E:=E) l a b = Ok (sub l a (b - a)).
Proof.
  intros. unfold slice.
  destruct (N.leb_spec a b), (N.leb_spec b (len l)); try lia. done.
Qed.

Lemma slice_from_ok l a : a <= len l -> slice_from (E:=E) l a = Ok (drop (N.to_nat a) l).
Proof. intros. unfold slice_from. destruct (N.leb_spec a (len l)); [done|lia]. Qed.

Lemma write_at_ok l a d : a + len d <= len l -> write_at (E:=E) l a d = Ok (splice l a d).
Proof. intros. unfold write_at. destruct (N.leb_spec (a + len d) (len l)); [done|lia]. Qed.

Lemma index_ok l i : i < len l -> exists x, l.[i] = Some x /\ index (E:=E) l i = Ok x.
Proof.
  intros. destruct (l.[i]) as [x|] eqn:Hx.
  - exists x. unfold index. by rewrite Hx.
  - apply lookup_ge_None in Hx. lia.
Qed.

Lemma usub_ok (a b : N) : b <= a -> usub (E:=E) a b = Ok (a - b).
Proof. intros. unfold usub. destruct (N.leb_spec b a); [done|lia]. Qed.

(** Two lists of one length that agree at every machine index are equal. *)
Lemma list_eq_N l1 l2 :
  length l1 = length l2 -> (forall i, i < len l1 -> l1.[i] = l2.[i]) -> l1 = l2.
Proof.
  intros Hlen H. apply list_eq_same_length with (n := length l1); [done..|].
  intros i x y Hi Hx Hy. specialize (H (N.of_nat i)). rewrite Nat2N.id in H.
  rewrite H in Hx by lia. congruence.
Qed.

Lemma take_eq_lookup l1 l2 n i :
  take (N.to_nat n) l1 = take (N.to_nat n) l2 -> i < n -> l1.[i] = l2.[i].
Proof.
  intros H Hi. rewrite <-(lookup_take_lt l1 (N.to_nat n)), H by lia.
  apply lookup_take_lt. lia.
Qed.

Lemma take_eq_intro l1 l2 n : length l1 = length l2 ->
  (forall i, i < n -> l1.[i] = l2.[i]) -> take (N.to_nat n) l1 = take (N.to_nat n) l2.
Proof.
  intros Hlen H. apply list_eq_N; [by rewrite !length_take, Hlen|].
  intros i Hi. rewrite length_take in Hi. rewrite !lookup_take_lt by lia. apply H. lia.
Qed.

Lemma take_splice l a d : a + len d <= len l ->
  take (N.to_nat (a + len d)) (splice l a d) = take (N.to_nat a) l ++ d.
Proof.
  intros. unfold splice. rewrite app_assoc.
  rewrite take_app_length'; [done|]. len_lia.
Qed.

Lemma take_splice_le l a d n : a + len d <= len l -> n <= a ->
  take (N.to_nat n) (splice l a d) = take (N.to_nat n) l.
Proof.
  intros. unfold splice. rewrite take_app_le by len_lia.
  rewrite take_take. f_equal. lia.
Qed.

Lemma take_splice_part l a d n : a + len d <= len l -> n <= len d ->
  take (N.to_nat (a + n)) (splice l a d) = take (N.to_nat a) l ++ take (N.to_nat n) d.
Proof.
  intros. unfold splice. rewrite app_assoc, take_app_le by len_lia.
  rewrite take_app_ge by len_lia. do 2 f_equal. len_lia.
Qed.

Lemma take_sub l a n : a + n <= len l ->
  take (N.to_nat a) l ++ sub l a n = take (N.to_nat (a + n)) l.
Proof. intros. unfold sub. rewrite N2Nat.inj_add. apply take_take_drop. Qed.

Lemma lookup_some l i : i < len l -> is_Some (l.[i]).
Proof. intros. apply lookup_lt_is_Some. lia. Qed.

Lemma lookup_some_lt l i x : l.[i] = Some x -> i < len l.
Proof. intros H%lookup_lt_Some. lia. Qed.
End slices.

Lemma length_sub_min {A} (l : list A) a n :
  length (sub l a n) = (N.to_nat n `min` (length l - N.to_nat a))%nat.
Proof. unfold sub. by rewrite length_take, length_drop. Qed.

(** A shorter part with the same end. *)
Lemma sub_suffix {A} (l : list A) a n m : a + n <= len l -> m <= n ->
  exists P, sub l a n = P ++ sub l (a + m) (n - m).
Proof.
  intros. exists (sub l a m).
  replace (sub l a n) with (take (N.to_nat m) (sub l a n) ++ drop (N.to_nat m) (sub l a n))
    by apply take_drop.
  f_equal; unfold sub.
  - rewrite take_take. f_equal. lia.
  - rewrite skipn_firstn_comm, drop_drop. f_equal; [lia|]. f_equal. lia.
Qed.

Lemma length_splice_min {A} (l : list A) a d :
  length (splice l a d) = (N.to_nat a `min` length l + length d
                           + (length l - (N.to_nat a + length d)))%nat.
Proof. unfold splice. rewrite !length_app, length_take, length_drop. lia. Qed.

#[export] Hint Rewrite @length_sub_min @length_splice_min : lz4_len.

(** Runs the next checked access of the goal, discharging its bounds by
    arithmetic. *)
Ltac access :=
  first [ rewrite slice_ok by len_lia
        | rewrite slice_from_ok by len_lia
        | rewrite write_at_ok by len_lia
        | rewrite usub_ok by len_lia ]; mstep.

(** ** Lemmas on bytes *)

Lemma u8_lt b : u8 b < 256.
Proof. unfold u8. pose proof (Byte.to_N_bounded b). lia. Qed.

Lemma to_u8_u8 b : to_u8 (u8 b) = b.
Proof.
  unfold to_u8, u8. pose proof (Byte.to_N_bounded b).
  rewrite N.mod_small by lia. by rewrite Byte.of_to_N.
Qed.

Lemma u8_to_u8 n : u8 (to_u8 n) = n mod 256.
Proof.
  unfold to_u8, u8. destruct (Byte.of_N (n mod 256)) eqn:H.
  - by apply Byte.to_of_N.
  - apply Byte.of_N_None_iff in H. lia.
Qed.

Lemma u8_inj a b : u8 a = u8 b -> a = b.
Proof. intros H. by rewrite <-(to_u8_u8 a), <-(to_u8_u8 b), H. Qed.

#[export] Instance byte_eq_dec : EqDecision byte := Byte.byte_eq_dec.

(** The byte comparison of the source. *)
Definition byte_eqb (a b : byte) : bool := Byte.eqb a b.

Lemma byte_eqb_spec a b : reflect (a = b) (byte_eqb a b).
Proof.
  unfold byte_eqb. destruct (Byte.eqb a b) eqn:H; constructor.
  - by apply Byte.byte_dec_bl.
  - intros ->. rewrite Byte.byte_dec_lb in H; done.
Qed.

Lemma length_to_le k v : length (to_le k v) = k.
Proof. revert v. induction k; intros; cbn; [done|]. by rewrite IHk. Qed.
#[export] Hint Rewrite length_to_le : lz4_len.

Lemma from_le_to_le k v : from_le (to_le k v) = v mod 256 ^ N.of_nat k.
Proof.
  revert v. induction k as [|k IH]; intros v; cbn [to_le from_le].
  { by rewrite N.mod_1_r. }
  rewrite IH, u8_to_u8. replace (N.of_nat (S k)) with (1 + N.of_nat k) by lia.
  rewrite N.pow_add_r, N.pow_1_r.
  by rewrite N.Div0.mod_mul_r.
Qed.

Lemma from_le_bound l : from_le l < 256 ^ len l.
Proof.
  induction l as [|b l IH]; cbn [from_le length]; [done|].
  replace (N.of_nat (S (length l))) with (1 + len l) by lia.
  rewrite N.pow_add_r, N.pow_1_r. pose proof (u8_lt b). nia.
Qed.

Lemma to_le_from_le l : to_le (length l) (from_le l) = l.
Proof.
  induction l as [|b l IH]; cbn [to_le from_le length]; [done|].
  pose proof (u8_lt b).
  replace ((u8 b + 256 * from_le l) / 256) with (from_le l) by lia.
  rewrite IH. f_equal. apply u8_inj. rewrite u8_to_u8. lia.
Qed.
