(* ===== verification/BlockSpec.v ===== *)
(** * The LZ4 block format

    What a block means, independently of buffers, capacities and copy
    strategies: a byte-by-byte decoder over an unbounded history, as the test
    helper [reference_decode] of [crates/decode/src/decompress.rs], made total
    ([None] where the helper would panic) and extended with a dictionary, which
    is history that precedes the output.  The optimised decoder, the validator
    and the encoder are all proved against it. *)

From S2P Require Import Prelude.

(** ** Match expansion *)

(** [expand h off n]: [n] times, the byte [off] positions before the end of
    the history is appended to it. *)
Fixpoint expand (h : bytes) (off : N) (n : nat) : bytes :=
  match n with
  | O => h
  | S n => match h.[len h - off] with
           | Some b => expand (h ++ [b]) off n
           | None => h
           end
  end.

(** [match_copied off p n b b']: buffer [b'] is [b] with an [n]-byte match of offset
    [off] decoded at position [p]; bytes after the match are unconstrained. *)
Record match_copied (off p n : N) (b b' : bytes) : Prop := {
  copied_length : length b' = length b;
  copied_prefix : take (N.to_nat p) b' = take (N.to_nat p) b;
  copied_match : forall i, i < n -> b'.[p + i] = b'.[p + i - off]
}.

(** ** Blocks *)

(** Length extension bytes: the sum of the bytes up to the first that is not
    255. *)
Fixpoint read_ext (l : bytes) : option (N * bytes) :=
  match l with
  | [] => None
  | b :: l => if u8 b =? 255
              then '(n, l) ← read_ext l; Some (255 + n, l)
              else Some (u8 b, l)
  end.

(** A length whose nibble in the token is [nib]. *)
Definition read_len (nib : N) (l : bytes) : option (N * bytes) :=
  if nib =? 15 then '(n, l) ← read_ext l; Some (15 + n, l) else Some (nib, l).

(** Decodes the sequences of [l] after history [h]; the fuel bounds the number
    of sequences. *)
Fixpoint decode_from (fuel : nat) (h l : bytes) : option bytes :=
  match fuel, l with
  | O, _ | _, [] => None
  | S fuel, token :: l =>
      '(lit, l) ← read_len (u8 token / 16) l;
      if len l <? lit then None else
      let h := h ++ take (N.to_nat lit) l in
      match drop (N.to_nat lit) l with
      | [] => Some h
      | [_] => None
      | b0 :: b1 :: l =>
          let off := from_le [b0; b1] in
          '(mlen, l) ← read_len (u8 token mod 16) l;
          if (off =? 0) || (len h <? off) then None else
          decode_from fuel (expand h off (N.to_nat (4 + mlen))) l
      end
  end.

(** The decoded bytes of [block] with dictionary [dict]. *)
Definition block_decode (dict block : bytes) : option bytes :=
  drop (length dict) <$> decode_from (S (length block)) dict block.

#[global] Arguments read_len : simpl never.
#[global] Arguments block_decode : simpl never.
#[global] Arguments from_le : simpl never.

(** ** Expansion lemmas *)

Lemma length_expand h off n :
  1 <= off -> off <= len h -> length (expand h off n) = (length h + n)%nat.
Proof.
  revert h. induction n as [|n IH]; intros h H1 H2; cbn [expand]; [lia|].
  destruct (lookup_some h (len h - off)) as [b ->]; [lia|].
  rewrite IH; len_lia.
Qed.

Lemma expand_prefix h off n i : i < len h -> (expand h off n).[i] = h.[i].
Proof.
  revert h. induction n as [|n IH]; intros h Hi; cbn [expand]; [done|].
  destruct (h.[len h - off]); [|done].
  rewrite IH by len_lia. apply lookup_app_l. lia.
Qed.

Lemma expand_match h off n i : 1 <= off -> off <= len h -> i < N.of_nat n ->
  (expand h off n).[len h + i] = (expand h off n).[len h + i - off].
Proof.
  revert h i. induction n as [|n IH]; intros h i H1 H2 Hi; cbn [expand]; [lia|].
  destruct (lookup_some h (len h - off)) as [b Hb]; [lia|]. rewrite Hb.
  destruct (N.eq_dec i 0) as [->|].
  - rewrite !expand_prefix by len_lia.
    rewrite N.add_0_r, (lookup_app_l _ _ (N.to_nat (len h - off))) by lia. rewrite Hb.
    rewrite lookup_app_r by lia. by replace (_ - _)%nat with 0%nat by lia.
  - replace (len h + i) with (len (h ++ [b]) + (i - 1)) by len_lia.
    apply IH; len_lia.
Qed.

Lemma expand_0 h off : expand h off 0 = h.
Proof. done. Qed.

Lemma expand_add h off m n : 1 <= off -> off <= len h ->
  expand h off (m + n) = expand (expand h off m) off n.
Proof.
  revert h. induction m as [|m IH]; intros h H1 H2; cbn [expand Nat.add]; [done|].
  destruct (lookup_some h (len h - off)) as [b ->]; [lia|].
  apply IH; len_lia.
Qed.

(** The three properties above determine the expansion. *)
Lemma expand_unique h off n r :
  1 <= off -> off <= len h -> length r = (length h + n)%nat ->
  take (length h) r = h ->
  (forall i, i < N.of_nat n -> r.[len h + i] = r.[len h + i - off]) ->
  r = expand h off n.
Proof.
  intros H1 H2 Hl Hp Hm. apply list_eq_N; [by rewrite length_expand|].
  intros i. induction i as [i IH] using (well_founded_induction N.lt_wf_0). intros Hi.
  destruct (N.ltb_spec i (len h)).
  - rewrite expand_prefix by done. rewrite <-Hp at 1.
    rewrite lookup_take_lt by lia. done.
  - replace i with (len h + (i - len h)) by lia.
    rewrite Hm, expand_match by lia. apply IH; lia.
Qed.

(** History before the reach of a match is left in place. *)
Lemma expand_app_prefix (D h : bytes) off n :
  off <= len h -> expand (D ++ h) off n = D ++ expand h off n.
Proof.
  revert h. induction n as [|n IH]; intros h Ho; cbn [expand]; [done|].
  rewrite lookup_app_r by len_lia.
  replace (N.to_nat (len (D ++ h) - off) - length D)%nat with (N.to_nat (len h - off)) by len_lia.
  destruct (h.[len h - off]); [|done].
  rewrite <-app_assoc. apply IH. len_lia.
Qed.

(** A buffer copy realises the expansion of the history before it. *)
Lemma copied_expand off p n b b' :
  1 <= off -> off <= p -> p + n <= len b -> match_copied off p n b b' ->
  take (N.to_nat (p + n)) b' = expand (take (N.to_nat p) b) off (N.to_nat n).
Proof.
  intros H1 H2 Hn [Hl Hp Hm]. apply expand_unique.
  - done.
  - len_lia.
  - len_lia.
  - rewrite take_take, <-Hp. f_equal. len_lia.
  - intros i Hi. replace (len (take (N.to_nat p) b)) with p by len_lia.
    rewrite !lookup_take_lt by lia. apply Hm. lia.
Qed.

(** A copy whose bytes repeat the last [off] bytes of the history. *)
Lemma copied_of_pattern off p n b b' :
  1 <= off -> off <= p -> length b' = length b ->
  take (N.to_nat p) b' = take (N.to_nat p) b ->
  (forall i, i < n -> b'.[p + i] = b.[p - off + i mod off]) ->
  match_copied off p n b b'.
Proof.
  intros H1 H2 Hl Hp Hm. split; [done..|]. intros i Hi. rewrite (Hm i Hi).
  pose proof (N.mod_lt i off ltac:(lia)) as Hlt.
  destruct (N.ltb_spec i off) as [Hio|Hio].
  - rewrite N.mod_small by done. replace (p - off + i) with (p + i - off) by lia.
    symmetry. apply (take_eq_lookup _ _ p); [done|lia].
  - replace (p + i - off) with (p + (i - off)) by lia. rewrite (Hm (i - off)) by lia.
    f_equal. f_equal. f_equal. clear -H1 Hio.
    replace i with ((i - off) + 1 * off) at 1 by lia. apply N.Div0.mod_add.
Qed.

(** A copy from disjoint history. *)
Lemma copied_disjoint off p n b b' :
  1 <= off -> off <= p -> n <= off -> length b' = length b ->
  take (N.to_nat p) b' = take (N.to_nat p) b ->
  (forall i, i < n -> b'.[p + i] = b.[p - off + i]) ->
  match_copied off p n b b'.
Proof.
  intros H1 H2 Hn Hl Hp Hm. apply copied_of_pattern; [done..|].
  intros i Hi. rewrite N.mod_small by lia. by apply Hm.
Qed.

(** ** Decoding lemmas *)

Lemma read_ext_shorter l n r : read_ext l = Some (n, r) -> (length r < length l)%nat.
Proof.
  revert n r. induction l as [|b l IH]; intros n r; cbn [read_ext]; [done|].
  case_match; [|intros [= _ ->]; cbn; lia].
  destruct (read_ext l) as [[n' r']|] eqn:E; cbn; [|done].
  intros [= _ ->]. specialize (IH _ _ eq_refl). lia.
Qed.

Lemma read_len_shorter nib l n r : read_len nib l = Some (n, r) -> (length r <= length l)%nat.
Proof.
  unfold read_len. case_match.
  - destruct (read_ext l) as [[n' r']|] eqn:E; cbn; [|done].
    intros [= _ ->]. apply read_ext_shorter in E. lia.
  - by intros [= _ ->].
Qed.

(** More fuel than sequences does not change the result. *)
Lemma decode_from_fuel f1 f2 h l :
  (length l < f1)%nat -> (length l < f2)%nat -> decode_from f1 h l = decode_from f2 h l.
Proof.
  revert f2 h l. induction f1 as [|f1 IH]; intros [|f2] h l H1 H2; try lia.
  destruct l as [|tok l]; cbn [decode_from]; [done|]. cbn in H1, H2.
  destruct (read_len _ l) as [[lit l1]|] eqn:E1; cbn; [|done].
  apply read_len_shorter in E1. case_match; [done|].
  pose proof (length_drop l1 (N.to_nat lit)).
  destruct (drop _ l1) as [|b0 [|b1 l2]]; [done..|]. cbn in *.
  destruct (read_len _ l2) as [[ml l3]|] eqn:E2; cbn; [|done].
  apply read_len_shorter in E2. case_match; [done|]. apply IH; lia.
Qed.
