(* ===== verification/Core.v ===== *)
(** * crates/core: shared constants, errors, [slice_copy] and [SliceSink]

    Also the compilation target, on which the [cfg] branches of the source
    depend. *)

From S2P Require Import Prelude BlockSpec.

(** ** Compilation target *)

Inductive pointer_width := W32 | W64.

(** [target_pointer_width], [target_endian] and [target_feature = "avx"]. *)
Class Target := {
  target_width : pointer_width;
  target_big_endian : bool;
  target_avx : bool
}.

(** 64-bit little-endian, with AVX: the target of the concrete witnesses. *)
Definition x86_64 : Target :=
  {| target_width := W64; target_big_endian := false; target_avx := true |}.

Section machine.
Context `{T : Target}.

Definition usize_bits : N := match target_width with W32 => 32 | W64 => 64 end.
Definition usize_max : N := 2 ^ usize_bits - 1.
(** [isize::MAX], which Rust guarantees to bound the length of a slice. *)
Definition isize_max : N := 2 ^ (usize_bits - 1) - 1.

(** [a + b] on [usize]: overflow panics in a checked build. *)
Definition uadd {E} (a b : N) : res E N := if a + b <=? usize_max then Ok (a + b) else Panic.
Definition checked_add (a b : N) : option N :=
  if a + b <=? usize_max then Some (a + b) else None.
Definition saturating_add (a b : N) : N := N.min (a + b) usize_max.
Definition wrapping_sub (a b : N) : N := (a + 2 ^ usize_bits - b) mod 2 ^ usize_bits.

(** A buffer the machine can hold, with room for the fixed-size slack that
    position arithmetic adds to a length. *)
Definition buffer_ok (l : bytes) : Prop := len l + 1024 <= isize_max.
End machine.

Definition u16_max : N := 2 ^ 16 - 1.
Definition u32_max : N := 2 ^ 32 - 1.
Definition u64_max : N := 2 ^ 64 - 1.

(** [a + b] on a type whose largest value is [max]. *)
Definition checked_sum {E} (max a b : N) : res E N := if a + b <=? max then Ok (a + b) else Panic.

Lemma checked_sum_ok {E} max a b : a + b <= max -> checked_sum (E:=E) max a b = Ok (a + b).
Proof. intros. unfold checked_sum. by bcase. Qed.

(** ** Block format constants *)

Definition WINDOW_SIZE : N := 64 * 1024.
Definition MFLIMIT : N := 12.
Definition LAST_LITERALS : N := 5.
Definition END_OFFSET : N := LAST_LITERALS + 1.
Definition LZ4_MIN_LENGTH : N := MFLIMIT + 1.
Definition MAX_DISTANCE : N := 2 ^ 16 - 1.
Definition MINMATCH : N := 4.

(** ** Errors *)

Inductive DecompressError : Type :=
| OutputTooSmall (expected actual : N)
| LiteralOutOfBounds
| ExpectedAnotherByte
| OffsetZero
| OffsetOutOfBounds
| DecodedSizeMismatch (expected actual : N).

Inductive CompressError : Type :=
| COutputTooSmall
| InputTooLarge.

#[export] Instance DecompressError_eq_dec : EqDecision DecompressError.
Proof. solve_decision. Defined.
#[export] Instance CompressError_eq_dec : EqDecision CompressError.
Proof. solve_decision. Defined.

(** ** fastcpy.rs *)

Section fastcpy.
Context `{T : Target} {E A : Type}.
Implicit Types (src dst : list A).

Definition double_copy_trick (SIZE : N) src dst : res E (list A) :=
  s ← slice src 0 SIZE;
  dst ← write_at dst 0 s;
  start ← usub (len src) SIZE;
  s ← slice_from src start;
  write_at dst start s.

Definition short_copy src dst : res E (list A) :=
  x ← index src 0;
  dst ← write_at dst 0 [x];
  if 2 <=? len src then double_copy_trick 2 src dst else Ok dst.

Definition slice_copy src dst : res E (list A) :=
  if negb (len src =? len dst) then Panic
  else if len src =? 0 then Ok dst
  else if len src <? 4 then short_copy src dst
  else if len src <? 8 then double_copy_trick 4 src dst
  else if len src <=? 16 then double_copy_trick 8 src dst
  else if len src <=? 32 then double_copy_trick 16 src dst
  else if target_avx && (len src <=? 64) then double_copy_trick 32 src dst
  else write_at dst 0 src.

(** Two overlapping halves cover the slice. *)
Lemma double_copy_trick_ok SIZE src dst :
  length src = length dst -> SIZE <= len src -> len src <= 2 * SIZE ->
  double_copy_trick SIZE src dst = Ok src.
Proof.
  intros Hl H1 H2. unfold double_copy_trick. do 4 access.
  rewrite write_at_ok by len_lia. f_equal.
  apply list_eq_N; [by len_lia|]. intros i Hi.
  rewrite lookup_splice by len_lia.
  destruct (N.ltb_spec i (len src - SIZE)).
  - rewrite lookup_splice by len_lia. rewrite length_sub by lia.
    destruct (N.ltb_spec i 0); [lia|].
    destruct (N.ltb_spec i (0 + N.of_nat (N.to_nat (SIZE - 0)))); [|lia].
    rewrite lookup_sub by lia. f_equal. lia.
  - rewrite length_drop.
    destruct (N.ltb_spec i (len src - SIZE
      + N.of_nat (length src - N.to_nat (len src - SIZE)))).
    + rewrite lookup_drop. f_equal. lia.
    + autorewrite with lz4_len in Hi. lia.
Qed.

Lemma short_copy_ok src dst :
  length src = length dst -> 1 <= len src -> len src < 4 -> short_copy src dst = Ok src.
Proof.
  intros Hl H1 H2. unfold short_copy.
  destruct (index_ok (E:=E) src 0) as (x & Hx & ->); [lia|]. mstep. access.
  destruct (N.leb_spec 2 (len src)).
  - apply double_copy_trick_ok; len_lia.
  - destruct src as [|y [|]], dst as [|z [|]]; cbn in *; try lia. by injection Hx as ->.
Qed.

(** [slice_copy] is a plain copy for every length, on every target. *)
Lemma slice_copy_ok src dst : length src = length dst -> slice_copy src dst = Ok src.
Proof.
  intros Hl. unfold slice_copy.
  destruct (N.eqb_spec (len src) (len dst)); [|lia]. cbn [negb].
  destruct (N.eqb_spec (len src) 0).
  { destruct src, dst; done || (cbn in *; lia). }
  destruct (N.ltb_spec (len src) 4); [apply short_copy_ok; lia|].
  destruct (N.ltb_spec (len src) 8); [apply double_copy_trick_ok; lia|].
  destruct (N.leb_spec (len src) 16); [apply double_copy_trick_ok; lia|].
  destruct (N.leb_spec (len src) 32); [apply double_copy_trick_ok; lia|].
  destruct target_avx; cbn [andb].
  1: destruct (N.leb_spec (len src) 64); [apply double_copy_trick_ok; lia|].
  all: rewrite write_at_ok by lia; unfold splice;
    rewrite drop_ge by lia; cbn; by rewrite app_nil_r.
Qed.
End fastcpy.

(** ** Copies inside one buffer *)

Section copies.
Context {E : Type}.
Implicit Types (buf : bytes).

(** [buf.copy_within(a..b, dst)] *)
Definition copy_within buf (a b dst : N) : res E bytes :=
  s ← slice buf a b; write_at buf dst s.

(** [buf[a..b].fill(v)] *)
Definition fill buf (a b : N) (v : byte) : res E bytes :=
  s ← slice buf a b; write_at buf a (replicate (length s) v).

(** The doubling loop of [extend_from_within_overlapping]: the [copied] bytes
    from [src] are appended to themselves until [num_bytes] are written. *)
Fixpoint double_fill (fuel : nat) buf (src copied num_bytes : N) : res E bytes :=
  match fuel with
  | O => NoFuel
  | S fuel =>
      if copied <? num_bytes then
        let n := N.min copied (num_bytes - copied) in
        buf ← copy_within buf src (src + n) (src + copied);
        double_fill fuel buf src (copied + n) num_bytes
      else Ok buf
  end.

Lemma double_fill_ok fuel b buf off p copied num :
  1 <= off -> off <= p -> p + num <= len b -> 1 <= copied <= num ->
  copied = num \/ copied mod off = 0 ->
  length buf = length b -> take (N.to_nat p) buf = take (N.to_nat p) b ->
  (forall i, i < copied -> buf.[p + i] = b.[p - off + i mod off]) ->
  (N.to_nat (num - copied) < fuel)%nat ->
  returns (double_fill fuel buf p copied num) (match_copied off p num b).
Proof.
  intros H1 H2 Hn. revert buf copied.
  induction fuel as [|fuel IH]; intros buf copied Hc Hd Hl Hp Hi Hf; [lia|].
  cbn [double_fill]. destruct (N.ltb_spec copied num) as [Hlt|Hge].
  - destruct Hd as [->|Hd]; [lia|].
    set (n := N.min copied (num - copied)). unfold copy_within.
    rewrite slice_ok by lia. mstep. rewrite write_at_ok by len_lia. mstep.
    apply IH; try lia.
    + destruct (N.leb_spec num (2 * copied)); [left; lia|right].
      replace (copied + n) with (copied + copied) by lia.
      rewrite <-N.Div0.add_mod_idemp_l, Hd. apply Hd.
    + rewrite length_splice; len_lia.
    + rewrite take_splice_le by len_lia. done.
    + intros i Hin. rewrite lookup_splice by len_lia. rewrite length_sub by lia.
      destruct (N.ltb_spec (p + i) (p + copied)); [apply Hi; lia|].
      destruct (N.ltb_spec (p + i) (p + copied + N.of_nat (N.to_nat (p + n - p)))); [|lia].
      rewrite lookup_sub by lia.
      replace (p + (p + i - (p + copied))) with (p + (i - copied)) by lia.
      rewrite Hi by lia. f_equal. f_equal. f_equal.
      replace i with (copied + (i - copied)) at 2 by lia.
      rewrite <-(N.Div0.add_mod_idemp_l copied), Hd. done.
  - apply returns_ok. apply copied_of_pattern; try done.
    intros i Hin. apply Hi. lia.
Qed.

(** A single byte repeated is a match of offset 1. *)
Lemma fill_ok buf p n v :
  1 <= p -> p + n <= len buf -> buf.[p - 1] = Some v ->
  returns (fill buf p (p + n) v) (match_copied 1 p n buf).
Proof.
  intros H1 Hn Hv. unfold fill. access. rewrite write_at_ok by len_lia. apply returns_ok.
  apply copied_of_pattern; try lia.
  - rewrite length_splice; len_lia.
  - apply take_splice_le; len_lia.
  - intros i Hi. rewrite N.mod_1_r, N.add_0_r, Hv. rewrite lookup_splice by len_lia.
    autorewrite with lz4_len.
    destruct (N.ltb_spec (p + i) p); [lia|].
    destruct (N.ltb_spec (p + i)
      (p + N.of_nat (N.to_nat (p + n - p) `min` (length buf - N.to_nat p)))); [|lia].
    apply lookup_replicate_2. lia.
Qed.
End copies.

(** ** sink.rs *)

(** The [Sink] trait. *)
Class Sink (S : Type) := {
  push : forall {E}, S -> byte -> res E S;
  pos : S -> N;
  capacity : S -> N;
  extend_from_slice_wild : forall {E}, S -> bytes -> N -> res E S;
  extend_from_slice : forall {E}, S -> bytes -> res E S;
  extend_from_within_overlapping : forall {E}, S -> N -> N -> res E S;
  (** [output_mut_with_pos]: read access, and the write-back. *)
  output_mut_with_pos : S -> bytes * N;
  set_output_with_pos : S -> bytes * N -> S
}.

Record SliceSink := { sink_output : bytes; sink_pos : N }.

Module SliceSinkImpl.
Section ops.
Context `{T : Target} {E : Type}.
Implicit Types (s : SliceSink).

Definition new (output : bytes) (pos : N) : res E SliceSink :=
  _ ← slice output 0 pos;
  Ok {| sink_output := output; sink_pos := pos |}.

Definition push s (b : byte) : res E SliceSink :=
  output ← write_at (sink_output s) (sink_pos s) [b];
  Ok {| sink_output := output; sink_pos := sink_pos s + 1 |}.

Definition extend_from_slice_wild s (data : bytes) (copy_len : N) : res E SliceSink :=
  _ ← assert (copy_len <=? len data);
  dst ← slice (sink_output s) (sink_pos s) (sink_pos s + len data);
  dst ← slice_copy data dst;
  output ← write_at (sink_output s) (sink_pos s) dst;
  Ok {| sink_output := output; sink_pos := sink_pos s + copy_len |}.

Definition extend_from_slice s (data : bytes) : res E SliceSink :=
  extend_from_slice_wild s data (len data).

Definition extend_from_within_overlapping s (start num_bytes : N) : res E SliceSink :=
  let p := sink_pos s in
  offset ← usub p start;
  output ←
    (if offset =? 1 then
       val ← index (sink_output s) start;
       fill (sink_output s) p (p + num_bytes) val
     else
       let initial := N.min offset num_bytes in
       output ← copy_within (sink_output s) start (start + initial) p;
       double_fill (S (N.to_nat num_bytes)) output p initial num_bytes);
  Ok {| sink_output := output; sink_pos := p + num_bytes |}.
End ops.
End SliceSinkImpl.

#[export] Instance SliceSink_Sink `{T : Target} : Sink SliceSink := {
  push E := SliceSinkImpl.push;
  pos := sink_pos;
  capacity s := len (sink_output s);
  extend_from_slice_wild E := SliceSinkImpl.extend_from_slice_wild;
  extend_from_slice E := SliceSinkImpl.extend_from_slice;
  extend_from_within_overlapping E := SliceSinkImpl.extend_from_within_overlapping;
  output_mut_with_pos s := (sink_output s, sink_pos s);
  set_output_with_pos s '(o, p) := {| sink_output := o; sink_pos := p |}
}.

(** The invariant of the trait. *)
Definition sink_ok {S} `{Sink S} (s : S) : Prop := pos s <= capacity s.

(** The bytes written so far. *)
Definition written (s : SliceSink) : bytes := take (N.to_nat (sink_pos s)) (sink_output s).

Section sink_lemmas.
Context `{T : Target} {E : Type}.
Implicit Types (s : SliceSink).

(** A fitting wild extension appends the first [copy_len] bytes. *)
Lemma extend_from_slice_wild_ok s data copy_len :
  copy_len <= len data -> sink_pos s + len data <= len (sink_output s) ->
  returns (E:=E) (SliceSinkImpl.extend_from_slice_wild s data copy_len) (fun s' =>
    sink_pos s' = sink_pos s + copy_len /\
    length (sink_output s') = length (sink_output s) /\
    written s' = written s ++ take (N.to_nat copy_len) data).
Proof.
  intros H1 H2. unfold SliceSinkImpl.extend_from_slice_wild, assert.
  destruct (N.leb_spec copy_len (len data)); [|lia]. mstep. access.
  rewrite slice_copy_ok by len_lia. mstep. access. apply returns_ok. cbn.
  split; [done|]. split; [apply length_splice; lia|].
  unfold written. cbn. rewrite N2Nat.inj_add, <-take_take_drop.
  f_equal; [apply take_splice_le; lia|].
  unfold splice. rewrite drop_app_length' by len_lia.
  rewrite take_app_le by lia. done.
Qed.

(** [extend_from_within_overlapping] decodes an overlapping match. *)
Lemma extend_from_within_overlapping_ok s start num :
  1 <= num -> start < sink_pos s -> sink_pos s + num <= len (sink_output s) ->
  returns (E:=E) (SliceSinkImpl.extend_from_within_overlapping s start num) (fun s' =>
    sink_pos s' = sink_pos s + num /\
    match_copied (sink_pos s - start) (sink_pos s) num (sink_output s) (sink_output s')).
Proof.
  intros H0 H1 H2. unfold SliceSinkImpl.extend_from_within_overlapping. access.
  destruct (N.eqb_spec (sink_pos s - start) 1) as [He|].
  - destruct (index_ok (E:=E) (sink_output s) start) as (v & Hv & ->); [lia|]. mstep.
    destruct (fill_ok (E:=E) (sink_output s) (sink_pos s) num v) as (o & -> & Ho); try lia.
    { by replace (sink_pos s - 1) with start by lia. }
    mstep. apply returns_ok. by rewrite He.
  - unfold copy_within. access. rewrite write_at_ok by len_lia. mstep.
    match goal with |- context [double_fill ?f ?o ?q ?c ?n] =>
      assert (returns (E:=E) (double_fill f o q c n)
        (match_copied (sink_pos s - start) (sink_pos s) num (sink_output s)))
        as (o' & -> & Ho) end.
    { apply double_fill_ok; try lia.
      - destruct (N.leb_spec num (sink_pos s - start)); [left; lia|right].
        rewrite N.min_l by lia. by rewrite N.Div0.mod_same.
      - apply length_splice; len_lia.
      - apply take_splice_le; len_lia.
      - intros i Hi. rewrite lookup_splice by len_lia. rewrite length_sub by lia.
        destruct (N.ltb_spec (sink_pos s + i) (sink_pos s)); [lia|].
        bcase. rewrite lookup_sub by lia.
        rewrite N.mod_small by lia. f_equal. lia. }
    mstep. by apply returns_ok.
Qed.
End sink_lemmas.
