(* ===== verification/Primitives.v ===== *)
(** * crates/decode: memory primitives ([primitives.rs]) and [OutSink]
    ([out.rs])

    Each copy is the sequence of checked chunk loads and stores of the source,
    so a store out of range would panic.  The lemmas show that, with the slack
    the callers reserve, every match copy realises the byte-by-byte match
    ([match_copied]) and every literal copy the plain copy, for all lengths
    and offsets in its range. *)

From S2P Require Import Prelude BlockSpec Core.

(** ** Token constants (decompress.rs) *)

Definition ML_BITS : N := 4.
Definition ML_MASK : N := 15.
Definition RUN_MASK : N := 15.
Definition EXT_MORE : N := 255.
Definition TOKEN_LEN : N := 1.
Definition OFFSET_LEN : N := 2.
Definition EXT_LEN : N := 1.
Definition SHORT_LITERAL_MAX : N := RUN_MASK - 1.
Definition SHORT_MATCH_MAX : N := MINMATCH + ML_MASK - 1.
Definition FAST_IN : N := TOKEN_LEN + SHORT_LITERAL_MAX + OFFSET_LEN + EXT_LEN.
Definition WILD_LITERAL_MAX : N := 256.

(** ** Chunk constants *)

Definition MATCH_CHUNK : N := 8.
Definition WIDE_CHUNK : N := 2 * MATCH_CHUNK.
Definition LONG_CHUNK : N := 2 * WIDE_CHUNK.
Definition MIN_COPY_OFFSET : N := 2.
Definition LONG_UNROLLED : N := 2 * LONG_CHUNK.

(** Unfolds the constants for arithmetic. *)
Ltac consts :=
  unfold LONG_UNROLLED, LONG_CHUNK, WIDE_CHUNK, MATCH_CHUNK, MIN_COPY_OFFSET,
    FAST_IN, SHORT_LITERAL_MAX, SHORT_MATCH_MAX, ML_MASK, RUN_MASK, TOKEN_LEN, OFFSET_LEN,
    EXT_LEN, EXT_MORE, MINMATCH, WILD_LITERAL_MAX in *.
Ltac clia := consts; len_lia.

Section primitives.
Context {E : Type}.
Implicit Types (buf w src dst : bytes).

(** [i as u32 as usize] *)
Definition idx (i : N) : N := i mod 2 ^ 32.

Definition chunk (n : N) buf (at_ : N) : res E bytes := slice buf at_ (at_ + n).
Definition load (n : N) buf (at_ : N) : res E bytes := chunk n buf at_.
(** [*chunk_mut(buf, at) = c] *)
Definition store buf (at_ : N) (c : bytes) : res E bytes := write_at buf at_ c.

(** The window, to be put back with [put_window] after it is written. *)
Definition tail_window buf (end_ len_ : N) : res E bytes :=
  head ← slice buf 0 end_;
  start ← usub (len head) len_;
  slice_from head start.

Definition put_window buf (end_ len_ : N) w : bytes := splice buf (end_ - len_) w.

Definition copy_chunk (n : N) buf (src dst : N) : res E bytes :=
  c ← load n buf src;
  store buf dst c.

Definition wild_match_copy_18 buf (dst_pos offset advance : N) : res E (bytes * N) :=
  let REST := SHORT_MATCH_MAX - 2 * MATCH_CHUNK in
  let dst := dst_pos in
  let end_ := dst + SHORT_MATCH_MAX in
  let len_ := offset + SHORT_MATCH_MAX in
  w ← tail_window buf end_ len_;
  w ← copy_chunk MATCH_CHUNK w 0 offset;
  w ← copy_chunk MATCH_CHUNK w MATCH_CHUNK (offset + MATCH_CHUNK);
  w ← copy_chunk REST w (2 * MATCH_CHUNK) (offset + 2 * MATCH_CHUNK);
  Ok (put_window buf end_ len_ w, dst_pos + advance).

(** The [while done < len] loop of [wild_copy_match_long]. *)
Fixpoint long_steps (fuel : nat) w (offset done len_ : N) : res E bytes :=
  match fuel with
  | O => NoFuel
  | S fuel =>
      if done <? len_ then
        w ← copy_chunk WIDE_CHUNK w done (offset + done);
        w ← copy_chunk WIDE_CHUNK w (done + WIDE_CHUNK) (offset + done + WIDE_CHUNK);
        long_steps fuel w offset (done + LONG_CHUNK) len_
      else Ok w
  end.

Definition wild_copy_match_long buf (dst offset len_ : N) : res E bytes :=
  if (LONG_UNROLLED <? len_) && (len_ <=? offset) then
    history ← slice buf 0 dst;
    out ← slice_from buf dst;
    from ← usub dst offset;
    h ← slice_from history from;
    h ← slice h 0 len_;
    out ← write_at out 0 h;
    Ok (history ++ out)
  else
    let wend := dst + len_ + LONG_CHUNK in
    let wlen := offset + len_ + LONG_CHUNK in
    w ← tail_window buf wend wlen;
    w ← copy_chunk WIDE_CHUNK w 0 offset;
    w ← copy_chunk WIDE_CHUNK w WIDE_CHUNK (offset + WIDE_CHUNK);
    w ← (if LONG_CHUNK <? len_ then
           w ← copy_chunk WIDE_CHUNK w LONG_CHUNK (offset + LONG_CHUNK);
           w ← copy_chunk WIDE_CHUNK w (LONG_CHUNK + WIDE_CHUNK)
                 (offset + LONG_CHUNK + WIDE_CHUNK);
           long_steps (S (N.to_nat len_)) w offset LONG_UNROLLED len_
         else Ok w);
    Ok (put_window buf wend wlen w).

(** One iteration of the loop that spreads the period over the pattern. *)
Definition pattern_step w (offset : N) (pattern : bytes) (i : N) : res E bytes :=
  b ← (if i <? offset then index w i else index pattern (i - offset));
  write_at pattern i [b].

Fixpoint pattern_loop w (offset : N) (pattern : bytes) (js : list N) : res E bytes :=
  match js with
  | [] => Ok pattern
  | i :: js => pattern ← pattern_step w offset pattern i; pattern_loop w offset pattern js
  end.

Fixpoint pattern_stores (fuel : nat) w (pattern : bytes) (offset step done len_ : N)
  : res E bytes :=
  match fuel with
  | O => NoFuel
  | S fuel =>
      if done <? len_ then
        w ← store w (offset + done) pattern;
        pattern_stores fuel w pattern offset step (done + step) len_
      else Ok w
  end.

Definition wild_copy_match_short_offset buf (dst_pos offset len_ : N) : res E (bytes * N) :=
  let wend := dst_pos + len_ + MATCH_CHUNK in
  let wlen := offset + len_ + MATCH_CHUNK in
  w ← tail_window buf wend wlen;
  w0 ← index w 0;
  let pattern := replicate (N.to_nat MATCH_CHUNK) w0 in
  first ← slice w 0 MIN_COPY_OFFSET;
  pattern ← write_at pattern 0 first;
  pattern ← pattern_loop w offset pattern [2; 3; 4; 5; 6; 7];
  let step := MATCH_CHUNK - MATCH_CHUNK mod offset in
  w ← pattern_stores (S (N.to_nat len_)) w pattern offset step 0 len_;
  Ok (put_window buf wend wlen w, dst_pos + len_).

Definition copy_from_src src (src_pos : N) dst (dst_pos len_ : N) : res E (bytes * N) :=
  s ← slice src src_pos (src_pos + len_);
  dst ← write_at dst dst_pos s;
  Ok (dst, dst_pos + len_).

(** The doubling loop of [copy_within_overlapping], on the output half. *)
Fixpoint split_fill (fuel : nat) (out : bytes) (written match_len : N) : res E bytes :=
  match fuel with
  | O => NoFuel
  | S fuel =>
      if written <? match_len then
        let copy_len := N.min written (match_len - written) in
        done ← slice out 0 written;
        rest ← slice_from out written;
        s ← slice done 0 copy_len;
        rest ← write_at rest 0 s;
        split_fill fuel (done ++ rest) (written + copy_len) match_len
      else Ok out
  end.

Definition copy_within_overlapping buf (start dst_pos match_len offset : N)
  : res E (bytes * N) :=
  let initial := N.min offset match_len in
  history ← slice buf 0 dst_pos;
  tail ← slice_from buf dst_pos;
  out ← slice tail 0 match_len;
  h ← slice history start (start + initial);
  out ← write_at out 0 h;
  out ← split_fill (S (N.to_nat match_len)) out initial match_len;
  Ok (history ++ out ++ drop (N.to_nat match_len) tail, dst_pos + match_len).

(** The zip over [as_chunks_mut] and [as_chunks]. *)
Fixpoint copy_chunks (k : nat) (d s : bytes) (i : N) : res E bytes :=
  match k with
  | O => Ok d
  | S k => c ← chunk LONG_CHUNK s i;
           d ← store d i c;
           copy_chunks k d s (i + LONG_CHUNK)
  end.

Definition copy_literals_32 src (src_pos : N) dst (dst_pos len_ : N) : res E bytes :=
  let n := (len_ + (LONG_CHUNK - 1)) / LONG_CHUNK * LONG_CHUNK in
  s ← slice_from src src_pos;
  s ← slice s 0 n;
  d ← slice_from dst dst_pos;
  d ← slice d 0 n;
  d ← copy_chunks (N.to_nat (n / LONG_CHUNK)) d s 0;
  write_at dst dst_pos d.

Definition wild_copy_literals src (src_pos : N) dst (dst_pos len_ : N) : res E (bytes * N) :=
  dst ← copy_literals_32 src src_pos dst dst_pos len_;
  Ok (dst, dst_pos + len_).

(** The [loop] of [wild_copy_match]. *)
Fixpoint match_steps (fuel : nat) (STEP : N) w (offset done len_ : N) : res E bytes :=
  match fuel with
  | O => NoFuel
  | S fuel =>
      w ← copy_chunk STEP w done (offset + done);
      if len_ <=? done + STEP then Ok w
      else match_steps fuel STEP w offset (done + STEP) len_
  end.

Definition wild_copy_match (STEP : N) buf (src dst_pos len_ : N) : res E (bytes * N) :=
  offset ← usub dst_pos src;
  let wend := dst_pos + len_ + STEP in
  let wlen := offset + len_ + STEP in
  w ← tail_window buf wend wlen;
  w ← match_steps (S (N.to_nat len_)) STEP w offset 0 len_;
  Ok (put_window buf wend wlen w, dst_pos + len_).

Definition wild_copy_match_8 := wild_copy_match MATCH_CHUNK.
Definition wild_copy_match_16 := wild_copy_match WIDE_CHUNK.

Definition wild_copy_match_32 buf (src dst_pos len_ : N) : res E (bytes * N) :=
  offset ← usub dst_pos src;
  buf ← wild_copy_match_long buf dst_pos offset len_;
  Ok (buf, dst_pos + len_).

Definition copy_within_nonoverlap buf (src dst_pos len_ : N) : res E (bytes * N) :=
  history ← slice buf 0 dst_pos;
  out ← slice_from buf dst_pos;
  h ← slice history src (src + len_);
  out ← write_at out 0 h;
  Ok (history ++ out, dst_pos + len_).
End primitives.

(** ** OutSink (out.rs) *)

Record OutSink := { os_output : bytes; os_pos : N }.

Module OutSinkImpl.
Section ops.
Context `{T : Target} {E : Type}.

Definition new (output : bytes) (pos : N) : OutSink :=
  {| os_output := output; os_pos := pos |}.
Definition capacity (s : OutSink) : N := len (os_output s).

Definition extend_from_slice (s : OutSink) (data : bytes) : res E OutSink :=
  dst ← slice (os_output s) (os_pos s) (os_pos s + len data);
  dst ← slice_copy data dst;
  output ← write_at (os_output s) (os_pos s) dst;
  Ok {| os_output := output; os_pos := os_pos s + len data |}.
End ops.
End OutSinkImpl.

(** ** Windows *)

(** [ext off m w w']: window [w'] is [w] with the [m] bytes from [off]
    repeating the bytes [off] positions before them. *)
Record ext (off m : N) (w w' : bytes) : Prop := {
  ext_length : length w' = length w;
  ext_prefix : forall i, i < off -> w'.[i] = w.[i];
  ext_match : forall i, i < m -> w'.[off + i] = w'.[i]
}.

Lemma ext_refl off w : ext off 0 w w.
Proof. split; [done..|lia]. Qed.

Lemma ext_mono off m n w w' : n <= m -> ext off m w w' -> ext off n w w'.
Proof. intros ? [? ? H]. split; [done..|]. intros. apply H. lia. Qed.

(** A window written back over the end of the history is a match. *)
Lemma ext_window off p L m n buf w' :
  1 <= off -> off <= p -> p + L <= len buf -> n <= m -> n <= L ->
  ext off m (sub buf (p - off) (off + L)) w' ->
  match_copied off p n buf (put_window buf (p + L) (off + L) w').
Proof.
  intros H1 H2 HL Hnm HnL [Hl Hp Hm]. unfold put_window.
  replace (p + L - (off + L)) with (p - off) by lia.
  rewrite length_sub in Hl by lia.
  assert (Hw : forall i, i < off + L -> (splice buf (p - off) w').[p - off + i] = w'.[i]).
  { intros i Hi. rewrite lookup_splice by lia. repeat bcase. f_equal. lia. }
  split.
  - apply length_splice. lia.
  - apply take_eq_intro; [apply length_splice; lia|]. intros i Hi.
    destruct (N.ltb_spec i (p - off)).
    + rewrite lookup_splice by lia. by bcase.
    + replace i with (p - off + (i - (p - off))) by lia.
      rewrite Hw, Hp, lookup_sub by lia. done.
  - intros i Hi. replace (p + i) with (p - off + (off + i)) by lia.
    replace (p - off + (off + i) - off) with (p - off + i) by lia.
    rewrite !Hw by lia. apply Hm. lia.
Qed.

Section window_lemmas.
Context {E : Type}.
Implicit Types (buf w src dst : bytes).

Lemma tail_window_ok buf e l :
  l <= e -> e <= len buf -> tail_window (E:=E) buf e l = Ok (sub buf (e - l) l).
Proof.
  intros. unfold tail_window. do 2 access. rewrite slice_from_ok by len_lia. f_equal.
  unfold sub. rewrite drop_0, skipn_firstn_comm.
  f_equal; [len_lia|]. f_equal. len_lia.
Qed.

Lemma chunk_ok n buf a : a + n <= len buf -> chunk (E:=E) n buf a = Ok (sub buf a n).
Proof. intros. unfold chunk. rewrite slice_ok by lia. by replace (a + n - a) with n by lia. Qed.

Lemma copy_chunk_ext n off m w w' d :
  ext off m w w' -> n <= off -> off + m + n <= len w -> d = off + m ->
  returns (E:=E) (copy_chunk n w' m d) (ext off (m + n) w).
Proof.
  intros [Hl Hp Hm] Hn Hlen ->. unfold copy_chunk, load, chunk, store.
  access. rewrite write_at_ok by len_lia. apply returns_ok.
  replace (m + n - m) with n by lia.
  assert (Hlk : forall i, i < off + m -> (splice w' (off + m) (sub w' m n)).[i] = w'.[i]).
  { intros i Hi. rewrite lookup_splice by len_lia. by bcase. }
  split.
  - rewrite length_splice; len_lia.
  - intros i Hi. rewrite Hlk by lia. by apply Hp.
  - intros i Hi. rewrite (Hlk i) by lia. destruct (N.ltb_spec i m).
    + rewrite Hlk by lia. by apply Hm.
    + rewrite lookup_splice by len_lia. rewrite length_sub by lia. do 2 bcase.
      rewrite lookup_sub by lia. f_equal. lia.
Qed.

(** One chunk of a chunked copy; the continuation sees the extended window. *)
Lemma copy_chunk_then {B} n off m w w' s d (k : bytes -> res E B) P :
  ext off m w w' -> s = m -> d = off + m -> n <= off -> off + m + n <= len w ->
  (forall w'', ext off (m + n) w w'' -> returns (k w'') P) ->
  returns (copy_chunk n w' s d ≫= k) P.
Proof.
  intros Hw -> -> Hn Hl Hk. apply returns_bind.
  eapply returns_mono; [by eapply copy_chunk_ext|]. done.
Qed.

Lemma wild_match_copy_18_ok buf p off adv :
  MATCH_CHUNK <= off -> off <= p -> adv <= SHORT_MATCH_MAX ->
  p + SHORT_MATCH_MAX <= len buf ->
  returns (E:=E) (wild_match_copy_18 buf p off adv) (fun '(buf', p') =>
    p' = p + adv /\ match_copied off p adv buf buf').
Proof.
  intros H1 H2 H3 H4. unfold wild_match_copy_18.
  rewrite tail_window_ok by clia. mstep.
  replace (p + SHORT_MATCH_MAX - (off + SHORT_MATCH_MAX)) with (p - off) by clia.
  eapply copy_chunk_then; [apply (ext_refl off)|clia..|]. intros w1 Hw1.
  eapply copy_chunk_then; [done|clia..|]. intros w2 Hw2.
  eapply copy_chunk_then; [done|clia..|]. intros w3 Hw3.
  apply returns_ok. split; [done|]. eapply ext_window; [..|done]; clia.
Qed.

Lemma long_steps_ok fuel w w' off done_ l :
  WIDE_CHUNK <= off -> off + l + LONG_CHUNK <= len w -> ext off done_ w w' ->
  (N.to_nat (l - done_) < fuel)%nat ->
  returns (E:=E) (long_steps fuel w' off done_ l) (fun w'' => exists m, l <= m /\ ext off m w w'').
Proof.
  intros H1 H2. revert w' done_. induction fuel as [|fuel IH]; intros w' d Hw Hf; [lia|].
  cbn [long_steps]. bcase.
  - eapply copy_chunk_then; [done|clia..|]. intros w1 Hw1.
    eapply copy_chunk_then; [done|clia..|]. intros w2 Hw2.
    apply IH; [|clia]. by replace (d + LONG_CHUNK) with (d + WIDE_CHUNK + WIDE_CHUNK) by clia.
  - apply returns_ok. exists d. split; [lia|done].
Qed.

(** An exact copy from disjoint history is a match. *)
Lemma exact_copy_ok buf p off n :
  1 <= off -> off <= p -> n <= off -> p + n <= len buf ->
  match_copied off p n buf (splice buf p (sub buf (p - off) n)).
Proof.
  intros H1 H2 Hn Hl. apply copied_disjoint; try done.
  - apply length_splice; len_lia.
  - apply take_splice_le; len_lia.
  - intros i Hi. rewrite lookup_splice by len_lia. rewrite length_sub by lia. do 2 bcase.
    rewrite lookup_sub by lia. f_equal. lia.
Qed.

(** Writing into the second half of a split is writing into the buffer. *)
Lemma split_write buf p d : p + len d <= len buf ->
  take (N.to_nat p) buf ++ splice (drop (N.to_nat p) buf) 0 d = splice buf p d.
Proof.
  intros. unfold splice. cbn. by rewrite drop_drop.
Qed.

Lemma wild_copy_match_long_ok buf p off n :
  WIDE_CHUNK <= off -> off <= p -> p + n + LONG_CHUNK <= len buf ->
  returns (E:=E) (wild_copy_match_long buf p off n) (match_copied off p n buf).
Proof.
  intros H1 H2 H3. unfold wild_copy_match_long.
  destruct (LONG_UNROLLED <? n) eqn:Hu; cbn [andb].
  1: destruct (N.leb_spec n off).
  { access. rewrite slice_from_ok by clia. mstep. access.
    rewrite slice_from_ok by clia. mstep. rewrite slice_ok by clia. mstep.
    rewrite write_at_ok by clia. mstep. apply returns_ok.
    rewrite !N.sub_0_r. replace (sub (drop (N.to_nat (p - off)) (sub buf 0 p)) 0 n)
      with (sub buf (p - off) n).
    - rewrite sub_0, split_write by clia. apply exact_copy_ok; clia.
    - unfold sub. rewrite !drop_0, skipn_firstn_comm, take_take. f_equal. clia. }
  all: rewrite tail_window_ok by clia; mstep;
    replace (p + n + LONG_CHUNK - (off + n + LONG_CHUNK)) with (p - off) by clia;
    (eapply copy_chunk_then; [apply (ext_refl off)|clia..|]); intros w1 Hw1;
    (eapply copy_chunk_then; [done|clia..|]); intros w2 Hw2.
  all: apply returns_bind; eapply returns_mono
    with (P := fun w'' => exists m, n <= m /\ ext off m (sub buf (p - off) (off + n + LONG_CHUNK)) w'').
  2, 4: intros w3 (m & Hm & Hw3); apply returns_ok;
    replace (p + n + LONG_CHUNK) with (p + (n + LONG_CHUNK)) by lia;
    replace (off + n + LONG_CHUNK) with (off + (n + LONG_CHUNK)) in * by lia;
    (eapply ext_window; [..|done]); clia.
  all: destruct (N.ltb_spec LONG_CHUNK n); [|apply returns_ok; eexists; split; [|done]; clia].
  all: (eapply copy_chunk_then; [done|clia..|]); intros w3 Hw3;
    (eapply copy_chunk_then; [done|clia..|]); intros w4 Hw4;
    apply long_steps_ok; [done|clia| |lia];
    eapply ext_mono; [|done]; clia.
Qed.
End window_lemmas.

(** ** Short offsets, exact copies, literals *)

(** [lit_copied src sp d n dst dst']: [dst'] is [dst] with [n] literals from
    [src[sp..]] written at [d]; later bytes are unconstrained. *)
Definition lit_copied (src : bytes) (sp d n : N) (dst dst' : bytes) : Prop :=
  length dst' = length dst /\
  take (N.to_nat (d + n)) dst' = take (N.to_nat d) dst ++ sub src sp n.

Lemma take_app_sub_prefix (l h : bytes) n m :
  take (N.to_nat n) l = h -> m <= len h -> take (N.to_nat m) l = take (N.to_nat m) h.
Proof. intros <- Hm. rewrite take_take. f_equal. len_lia. Qed.

Section more_lemmas.
Context {E : Type}.
Implicit Types (buf w dst : bytes) (src p n : N).

Lemma match_steps_ok fuel STEP w w' off done_ l :
  1 <= STEP -> STEP <= off -> off + l + STEP <= len w -> ext off done_ w w' ->
  done_ <= l -> (N.to_nat (l - done_) < fuel)%nat ->
  returns (E:=E) (match_steps fuel STEP w' off done_ l)
    (fun w'' => exists m, l <= m /\ ext off m w w'').
Proof.
  intros H0 H1 H2. revert w' done_. induction fuel as [|fuel IH]; intros w' d Hw Hd Hf; [lia|].
  cbn [match_steps]. eapply copy_chunk_then; [done|lia..|]. intros w1 Hw1. bcase.
  - apply returns_ok. exists (d + STEP). split; [lia|done].
  - apply IH; [done|lia..].
Qed.

Lemma wild_copy_match_ok STEP buf src p n :
  1 <= STEP -> src + STEP <= p -> p + n + STEP <= len buf ->
  returns (E:=E) (wild_copy_match STEP buf src p n) (fun '(buf', p') =>
    p' = p + n /\ match_copied (p - src) p n buf buf').
Proof.
  intros H0 H1 H2. unfold wild_copy_match. access.
  rewrite tail_window_ok by lia. mstep.
  apply returns_bind. eapply returns_mono; [apply match_steps_ok; [..|apply ext_refl|lia|lia]|].
  1-3: len_lia.
  intros w (m & Hm & Hw). apply returns_ok. split; [done|].
  replace (p + n + STEP) with (p + (n + STEP)) by lia.
  replace (p - src + n + STEP) with (p - src + (n + STEP)) by lia.
  apply (ext_window _ _ (n + STEP) m); try lia.
  replace (p - (p - src)) with (p + n + STEP - (p - src + n + STEP)) by lia.
  by replace (p - src + (n + STEP)) with (p - src + n + STEP) by lia.
Qed.

Lemma wild_copy_match_32_ok buf src p n :
  src + WIDE_CHUNK <= p -> p + n + LONG_CHUNK <= len buf ->
  returns (E:=E) (wild_copy_match_32 buf src p n) (fun '(buf', p') =>
    p' = p + n /\ match_copied (p - src) p n buf buf').
Proof.
  intros H1 H2. unfold wild_copy_match_32. rewrite usub_ok by clia. mstep.
  apply returns_bind. eapply returns_mono; [apply wild_copy_match_long_ok; clia|].
  intros b Hb. by apply returns_ok.
Qed.

Lemma copy_within_nonoverlap_ok buf src p n :
  src < p -> src + n <= p -> p + n <= len buf ->
  returns (E:=E) (copy_within_nonoverlap buf src p n) (fun '(buf', p') =>
    p' = p + n /\ match_copied (p - src) p n buf buf').
Proof.
  intros H1 H2 H3. unfold copy_within_nonoverlap. do 3 access.
  rewrite write_at_ok by len_lia. mstep. apply returns_ok. split; [done|].
  rewrite N.sub_0_r, sub_0, split_write by len_lia.
  replace (sub (take (N.to_nat p) buf) src (src + n - src)) with (sub buf (p - (p - src)) n).
  - apply exact_copy_ok; lia.
  - unfold sub. rewrite skipn_firstn_comm, take_take. f_equal; [lia|]. f_equal. lia.
Qed.

(** The doubling loop on the output half is the loop on the whole buffer. *)
Lemma split_fill_double fuel (h out : bytes) (w n : N) :
  1 <= w -> n <= len out ->
  double_fill (E:=E) fuel (h ++ out) (len h) w n
  = (out' ← split_fill fuel out w n; Ok (h ++ out')).
Proof.
  revert out w. induction fuel as [|fuel IH]; intros out w Hw Hn; cbn [double_fill split_fill];
    [done|]. bcase; [|done].
  unfold copy_within. do 2 access. do 3 access.
  rewrite write_at_ok by len_lia. mstep.
  replace (splice (h ++ out) (len h + w)
    (sub (h ++ out) (len h) (len h + N.min w (n - w) - len h)))
    with (h ++ sub out 0 (w - 0) ++ splice (drop (N.to_nat w) out) 0
      (sub (sub out 0 (w - 0)) 0 (N.min w (n - w) - 0))).
  { apply IH; [lia|]. rewrite length_app, length_splice; len_lia. }
  rewrite !N.sub_0_r, !sub_0, split_write by len_lia.
  replace (len h + N.min w (n - w) - len h) with (N.min w (n - w)) by lia.
  unfold sub. rewrite drop_app_length' by lia. rewrite take_take.
  replace (N.to_nat (N.min w (n - w)) `min` N.to_nat w)%nat
    with (N.to_nat (N.min w (n - w))) by lia.
  unfold splice. rewrite take_app, drop_app, !length_take.
  rewrite (take_ge h), (drop_ge h) by lia. cbn.
  rewrite <-app_assoc. do 2 f_equal; [f_equal; lia|]. do 2 f_equal. lia.
Qed.

Lemma match_copied_app off p n b b' t :
  off <= p -> p + n <= len b -> match_copied off p n b b' ->
  match_copied off p n (b ++ t) (b' ++ t).
Proof.
  intros Ho Hn [Hl Hp Hm]. split.
  - by rewrite !length_app, Hl.
  - rewrite !take_app_le by lia. done.
  - intros i Hi. rewrite !lookup_app_l by lia. by apply Hm.
Qed.

Lemma copy_within_overlapping_ok buf src p n :
  src < p -> 1 <= n -> p + n <= len buf ->
  returns (E:=E) (copy_within_overlapping buf src p n (p - src)) (fun '(buf', p') =>
    p' = p + n /\ match_copied (p - src) p n buf buf').
Proof.
  intros H1 H2 H3. unfold copy_within_overlapping. do 4 access.
  rewrite write_at_ok by len_lia. mstep. rewrite !N.sub_0_r, !sub_0.
  set (m := N.min (p - src) n). set (tl := drop (N.to_nat p) buf).
  set (h := sub _ src _). set (hist := take (N.to_nat p) buf).
  assert (Hlen : len hist = p) by (subst hist; len_lia).
  assert (Hbuf : buf = (hist ++ take (N.to_nat n) tl) ++ drop (N.to_nat n) tl).
  { subst hist tl. rewrite <-app_assoc, !take_drop. done. }
  assert (Hd : returns (E:=E) (double_fill (S (N.to_nat n))
      (hist ++ splice (take (N.to_nat n) tl) 0 h) p m n)
      (match_copied (p - src) p n (hist ++ take (N.to_nat n) tl))).
  { apply double_fill_ok; try (subst hist tl h m; len_lia).
    - destruct (N.leb_spec n (p - src)); subst m; [left; lia|right].
      rewrite N.min_l by lia. by rewrite N.Div0.mod_same.
    - rewrite !take_app_le by len_lia. done.
    - intros i Hi. rewrite lookup_app_r by lia.
      replace (N.to_nat (p + i) - length hist)%nat with (N.to_nat i) by lia.
      rewrite lookup_splice by (subst hist tl h m; len_lia). bcase.
      subst h. rewrite length_sub by (subst hist tl m; len_lia). bcase.
      rewrite N.sub_0_r, lookup_sub by lia. rewrite N.mod_small by lia.
      rewrite lookup_app_l by (subst m; len_lia). f_equal. lia. }
  rewrite <-Hlen in Hd at 1. rewrite split_fill_double in Hd
    by (subst hist tl h m; len_lia).
  destruct (split_fill _ _ m n) as [out'| | |]; destruct Hd as (b & Hb & Hm); try done.
  injection Hb as <-. mstep. apply returns_ok. split; [done|].
  rewrite Hbuf at 1. rewrite app_assoc. apply match_copied_app; [lia|subst tl; len_lia|done].
Qed.

Lemma copy_from_src_ok (src : bytes) sp dst d n :
  sp + n <= len src -> d + n <= len dst ->
  returns (E:=E) (copy_from_src src sp dst d n) (fun '(dst', d') =>
    d' = d + n /\ lit_copied src sp d n dst dst').
Proof.
  intros H1 H2. unfold copy_from_src. access. rewrite write_at_ok by len_lia. mstep.
  apply returns_ok. replace (sp + n - sp) with n by lia. split; [done|]. split.
  - apply length_splice; len_lia.
  - replace (d + n) with (d + len (sub src sp n)) by len_lia. apply take_splice. len_lia.
Qed.
End more_lemmas.

Section literal_lemmas.
Context {E : Type}.
Implicit Types (buf w dst : bytes) (n p d i : N).

(** The chunked literal copy copies everything it covers. *)
Lemma copy_chunks_ok k dl s i :
  length dl = length s -> len s = i + N.of_nat k * LONG_CHUNK ->
  take (N.to_nat i) dl = take (N.to_nat i) s ->
  copy_chunks (E:=E) k dl s i = Ok s.
Proof.
  revert dl i. induction k as [|k IH]; intros dl i Hl Hk Hp; cbn [copy_chunks].
  - rewrite !take_ge in Hp by clia. by rewrite Hp.
  - unfold chunk, store. rewrite slice_ok by clia. mstep.
    rewrite write_at_ok by clia. mstep.
    replace (i + LONG_CHUNK - i) with LONG_CHUNK by lia. apply IH.
    + rewrite length_splice; clia.
    + lia.
    + replace (i + LONG_CHUNK) with (i + len (sub s i LONG_CHUNK)) at 1 by clia.
      rewrite take_splice by clia. rewrite Hp. apply take_sub. clia.
Qed.

Lemma copy_literals_32_ok (src : bytes) sp dst d n :
  sp + n + LONG_CHUNK <= len src -> d + n + LONG_CHUNK <= len dst ->
  returns (E:=E) (copy_literals_32 src sp dst d n) (lit_copied src sp d n dst).
Proof.
  intros H1 H2. unfold copy_literals_32.
  set (m := (n + (LONG_CHUNK - 1)) / LONG_CHUNK * LONG_CHUNK).
  assert (Hm : n <= m /\ m <= n + LONG_CHUNK /\ m = m / LONG_CHUNK * LONG_CHUNK).
  { subst m. change LONG_CHUNK with 32. lia. }
  destruct Hm as (Hm1 & Hm2 & Hm3). do 4 access. rewrite !N.sub_0_r, !sub_0.
  rewrite copy_chunks_ok; [mstep|len_lia| |done].
  2: { rewrite N2Nat.id, <-Hm3. len_lia. }
  rewrite write_at_ok by len_lia. apply returns_ok.
  change (take (N.to_nat m) (drop (N.to_nat sp) src)) with (sub src sp m). split.
  - apply length_splice; len_lia.
  - rewrite (take_app_sub_prefix _ (take (N.to_nat d) dst ++ sub src sp m) (d + len (sub src sp m)));
      [|apply take_splice; len_lia|len_lia].
    rewrite take_app. rewrite take_ge by len_lia. f_equal.
    unfold sub. rewrite take_take. f_equal. len_lia.
Qed.

Lemma wild_copy_literals_ok (src : bytes) sp dst d n :
  sp + n + LONG_CHUNK <= len src -> d + n + LONG_CHUNK <= len dst ->
  returns (E:=E) (wild_copy_literals src sp dst d n) (fun '(dst', d') =>
    d' = d + n /\ lit_copied src sp d n dst dst').
Proof.
  intros H1 H2. unfold wild_copy_literals. apply returns_bind.
  eapply returns_mono; [by apply copy_literals_32_ok|].
  intros dst' H. by apply returns_ok.
Qed.

(** A fixed-size literal chunk of which only the first [n] bytes count. *)
Lemma literal_chunk_ok (src : bytes) sp dst d n m :
  n <= m -> sp + m <= len src -> d + m <= len dst ->
  lit_copied src sp d n dst (splice dst d (sub src sp m)).
Proof.
  intros Hn H1 H2. split; [apply length_splice; len_lia|].
  rewrite (take_app_sub_prefix _ (take (N.to_nat d) dst ++ sub src sp m) (d + len (sub src sp m)));
    [|apply take_splice; len_lia|len_lia].
  rewrite take_app. rewrite take_ge by len_lia. f_equal.
  unfold sub. rewrite take_take. f_equal. len_lia.
Qed.

(** The pattern loop repeats the period. *)
Lemma pattern_step_ok w off pat i :
  2 <= off -> off < len w -> i < len pat ->
  (forall j, j < i -> pat.[j] = w.[j mod off]) ->
  returns (E:=E) (pattern_step w off pat i) (fun pat' =>
    length pat' = length pat /\ forall j, j < i + 1 -> pat'.[j] = w.[j mod off]).
Proof.
  intros H1 H2 H3 Hj. unfold pattern_step.
  assert (Hb : exists b, w.[i mod off] = Some b /\
    (if i <? off then index (E:=E) w i else index pat (i - off)) = Ok b).
  { bcase.
    - rewrite N.mod_small by lia. apply index_ok. lia.
    - destruct (index_ok (E:=E) pat (i - off)) as (b & Hb & Hi); [lia|]. exists b.
      split; [|done]. rewrite <-Hb, Hj by lia. f_equal. f_equal.
      replace i with (i - off + 1 * off) at 1 by lia. apply N.Div0.mod_add. }
  destruct Hb as (b & Hb & ->). mstep. rewrite write_at_ok by len_lia. apply returns_ok.
  split; [apply length_splice; len_lia|]. intros j Hlt. rewrite lookup_splice by len_lia.
  cbn [length]. repeat bcase; [by apply Hj|]. replace j with i by lia. by rewrite N.sub_diag, Hb.
Qed.

Lemma pattern_loop_ok w off pat k i :
  2 <= off -> off < len w -> i + N.of_nat k <= len pat ->
  (forall j, j < i -> pat.[j] = w.[j mod off]) ->
  returns (E:=E) (pattern_loop w off pat (N.of_nat <$> seq (N.to_nat i) k)) (fun pat' =>
    length pat' = length pat /\ forall j, j < i + N.of_nat k -> pat'.[j] = w.[j mod off]).
Proof.
  revert pat i. induction k as [|k IH]; intros pat i H1 H2 H3 Hj.
  - apply returns_ok. split; [done|]. intros j Hlt. apply Hj. lia.
  - cbn [seq fmap list_fmap pattern_loop]. rewrite N2Nat.id.
    apply returns_bind. eapply returns_mono; [apply pattern_step_ok; [done|done|lia|done]|].
    intros pat' [Hl Hp]. replace (S (N.to_nat i)) with (N.to_nat (i + 1)) by lia.
    eapply returns_mono; [apply IH; [done|done|lia|done]|].
    intros pat'' [Hl' Hp']. split; [congruence|]. intros j Hlt. apply Hp'. lia.
Qed.

Lemma pattern_stores_ok fuel w w' pat off step done_ l :
  2 <= off -> off < 8 -> step = 8 - 8 mod off -> off + l + 8 <= len w ->
  length pat = 8%nat -> (forall j, j < 8 -> pat.[j] = w.[j mod off]) ->
  length w' = length w -> done_ mod off = 0 -> (N.to_nat (l - done_) < fuel)%nat ->
  (forall i, i < off -> w'.[i] = w.[i]) ->
  (forall i, i < done_ -> w'.[off + i] = w.[i mod off]) ->
  done_ <= l + 7 ->
  returns (E:=E) (pattern_stores fuel w' pat off step done_ l) (fun w'' =>
    length w'' = length w /\ (forall i, i < off -> w''.[i] = w.[i]) /\
    forall i, i < l -> w''.[off + i] = w.[i mod off]).
Proof.
  intros H1 H2 Hs Hl Hpl Hpat.
  assert (Hst : step mod off = 0 /\ 1 <= step <= 8).
  { subst step. clear -H1 H2. assert (off = 2 \/ off = 3 \/ off = 4 \/ off = 5 \/ off = 6 \/ off = 7)
      as Hoff by lia. by decompose [or] Hoff; subst off; vm_compute. }
  clear Hs. destruct Hst as [Hs0 Hs].
  revert w' done_. induction fuel as [|fuel IH]; intros w' d Hl' Hd Hf Hp Hm Hb; [lia|].
  cbn [pattern_stores]. bcase; [|apply returns_ok; split_and!; [done..|]; intros i Hi; apply Hm; lia].
  unfold store. rewrite write_at_ok by lia. mstep. apply IH; try lia.
  - rewrite length_splice; lia.
  - rewrite <-N.Div0.add_mod_idemp_l, Hd. apply Hs0.
  - intros i Hi. rewrite lookup_splice by lia. bcase. by apply Hp.
  - intros i Hi. rewrite lookup_splice by lia. repeat bcase; [apply Hm; lia|].
    replace (off + i - (off + d)) with (i - d) by lia. rewrite Hpat by lia.
    f_equal. f_equal. replace i with (d + (i - d)) at 2 by lia.
    by rewrite <-(N.Div0.add_mod_idemp_l d), Hd.
Qed.

Lemma wild_copy_match_short_offset_ok buf p off n :
  MIN_COPY_OFFSET <= off -> off < MATCH_CHUNK -> off <= p -> p + n + MATCH_CHUNK <= len buf ->
  returns (E:=E) (wild_copy_match_short_offset buf p off n) (fun '(buf', p') =>
    p' = p + n /\ match_copied off p n buf buf').
Proof.
  intros H1 H2 H3 H4. unfold wild_copy_match_short_offset.
  rewrite tail_window_ok by clia. mstep.
  replace (p + n + MATCH_CHUNK - (off + n + MATCH_CHUNK)) with (p - off) by clia.
  set (w := sub buf (p - off) (off + n + MATCH_CHUNK)).
  assert (Hw : len w = off + n + MATCH_CHUNK) by (subst w; clia).
  destruct (index_ok (E:=E) w 0) as (w0 & Hw0 & ->); [clia|]. mstep.
  rewrite slice_ok by clia. mstep. rewrite write_at_ok by clia. mstep.
  set (pat := splice _ 0 _).
  assert (Hpat : length pat = 8%nat) by (subst pat; rewrite length_splice; clia).
  apply returns_bind. eapply returns_mono.
  { apply (pattern_loop_ok w off pat 6 2); [clia|clia|clia|].
    intros j Hj. subst pat. rewrite lookup_splice by clia. rewrite length_sub by clia.
    do 2 bcase; [|clia]. rewrite lookup_sub by clia. rewrite N.mod_small by clia.
    f_equal. clia. }
  intros pat' [Hl' Hp']. apply returns_bind.
  change MATCH_CHUNK with 8 in *. change MIN_COPY_OFFSET with 2 in *. eapply returns_mono.
  { eapply (pattern_stores_ok _ w); try done; try lia; intros; apply Hp'; lia. }
  intros w' (Hlw & Hpre & Hm). apply returns_ok. split; [done|].
  replace (p + n + 8) with (p + (n + 8)) by lia.
  replace (off + n + 8) with (off + (n + 8)) by lia.
  apply (ext_window _ _ (n + 8) n); try lia.
  replace (off + (n + 8)) with (off + n + 8) by lia. fold w.
  split; [done|done|]. intros i Hi. rewrite Hm by done.
  destruct (N.ltb_spec i off).
  - rewrite N.mod_small by done. by rewrite Hpre.
  - replace i with (off + (i - off)) at 2 by lia. rewrite Hm by lia.
    f_equal. f_equal. replace i with (i - off + 1 * off) at 1 by lia. apply N.Div0.mod_add.
Qed.
End literal_lemmas.
