(* ===== verification/Decompress.v ===== *)
(** * crates/decode: the block decoder ([decompress.rs])

    The hot loop [decompress_body] with its fast loop and its general path,
    the length and offset parsers it shares with the validator, and the entry
    points built on it.  A call that fails has already written to its output
    buffer, so outcomes carry the buffer and position on both sides. *)

From S2P Require Import Prelude BlockSpec Core Primitives.

Section decompress.
Context `{T : Target}.
Implicit Types (input out ext_dict : bytes).

(** ** Parsers *)

Fixpoint read_integer_loop (fuel : nat) input (input_pos n max : N)
  : res DecompressError (N * N) :=
  match fuel with
  | O => NoFuel
  | S fuel =>
      extra ← ok_or ExpectedAnotherByte (input.[input_pos]);
      let input_pos := input_pos + EXT_LEN in
      n ← ok_or LiteralOutOfBounds (checked_add n (u8 extra));
      if negb (u8 extra =? EXT_MORE) then Ok (n, input_pos)
      else if max <? n then Ok (n, input_pos)
      else read_integer_loop fuel input input_pos n max
  end.

(** The value and the new input position. *)
Definition read_integer_bounded input (input_pos max : N) : res DecompressError (N * N) :=
  read_integer_loop (S (length input)) input input_pos 0 max.

Definition read_integer input (input_pos : N) : res DecompressError (N * N) :=
  read_integer_bounded input input_pos usize_max.

Definition read_literal_length input (input_pos : N) (token : byte) (max_extension : N)
  : res DecompressError (N * N) :=
  let literal_length := N.shiftr (u8 token) ML_BITS in
  if literal_length =? RUN_MASK then
    '(n, input_pos) ← read_integer_bounded input input_pos max_extension;
    l ← ok_or LiteralOutOfBounds (checked_add literal_length n);
    Ok (l, input_pos)
  else Ok (literal_length, input_pos).

Definition read_match_length input (input_pos : N) (token : byte) (max_extension : N)
  : res DecompressError (N * N) :=
  let match_length := MINMATCH + N.land (u8 token) ML_MASK in
  if match_length =? MINMATCH + ML_MASK then
    '(n, input_pos) ← read_integer_bounded input input_pos max_extension;
    l ← ok_or LiteralOutOfBounds (checked_add match_length n);
    Ok (l, input_pos)
  else Ok (match_length, input_pos).

Definition read_offset input (input_pos : N) : res DecompressError (N * N) :=
  offset_bytes ← ok_or ExpectedAnotherByte
    (if input_pos + OFFSET_LEN <=? len input then Some (sub input input_pos OFFSET_LEN) else None);
  let input_pos := input_pos + OFFSET_LEN in
  let offset := from_le offset_bytes in
  if offset =? 0 then Err OffsetZero else Ok (offset, input_pos).

(** ** Width-dependent bounds tests *)

Definition has_headroom {E} (pos len_ slack cap : N) : res E bool :=
  match target_width with
  | W32 => Ok (match checked_add pos len_ with
               | Some end_ => match checked_add end_ slack with
                              | Some end_ => end_ <=? cap
                              | None => false
                              end
               | None => false
               end)
  | W64 => end_ ← uadd pos len_; end_ ← uadd end_ slack; Ok (end_ <=? cap)
  end.

Definition len_exceeds_capacity {E} (pos len_ cap : N) : res E bool :=
  match target_width with
  | W32 => Ok (cap - pos <? len_)
  | W64 => end_ ← uadd pos len_; Ok (cap <? end_)
  end.

Definition expected_output_size {E} (pos len_ : N) : res E N :=
  match target_width with
  | W32 => Ok (saturating_add pos len_)
  | W64 => uadd pos len_
  end.

(** ** The fast loop *)

(** How an iteration of the fast loop ends: [continue], [break] (nothing
    consumed), or [return Ok(n)]. *)
Inductive fast_exit :=
| FNext (out : bytes) (input_pos pos : N)
| FBreak
| FReturn (out : bytes) (pos n : N).

(** The last sequence, literals only, copied exactly. *)
Definition fast_last input (start : N) out (op literal_length initial : N)
  : res DecompressError fast_exit :=
  '(out, end_) ← copy_from_src input start out op literal_length;
  n ← usub end_ initial;
  Ok (FReturn out end_ n).

(** A token with a full literal nibble. *)
Definition fast_long_literal input (window : bytes) (token : byte) (ip : N) out
  (op initial : N) : res DecompressError fast_exit :=
  extra ← index window TOKEN_LEN;
  if u8 extra =? EXT_MORE then
    match read_integer_bounded input (ip + TOKEN_LEN) (len out) with
    | Ok (n, start) =>
        let literal_length := RUN_MASK + n in
        if (start + literal_length =? len input) && (op + literal_length <=? len out)
        then fast_last input start out op literal_length initial
        else Ok FBreak
    | Err _ => Ok FBreak
    | Panic => Panic
    | NoFuel => NoFuel
    end
  else
    let literal_length := RUN_MASK + u8 extra in
    let literal_start := ip + TOKEN_LEN + EXT_LEN in
    let literal_end := literal_start + literal_length in
    if (literal_end =? len input) && (op + literal_length <=? len out)
    then fast_last input literal_start out op literal_length initial
    else if (len input <? literal_end + LONG_CHUNK) || (len out <? op + literal_length + LONG_CHUNK)
    then Ok FBreak
    else
      offset_bytes ← chunk OFFSET_LEN input literal_end;
      let offset := from_le offset_bytes in
      let match_nib := N.land (u8 token) ML_MASK in
      let dst := op + literal_length in
      if (match_nib =? ML_MASK) || (offset <? MATCH_CHUNK) || (dst <? offset) then Ok FBreak
      else
        out ← copy_literals_32 input literal_start out op literal_length;
        '(out, end_) ← wild_match_copy_18 out dst offset (MINMATCH + match_nib);
        Ok (FNext out (literal_end + OFFSET_LEN) end_).

(** Stores the 16 bytes after the token as the literal run. *)
Definition store_short_literal (window out : bytes) (op : N) : res DecompressError bytes :=
  c ← chunk WIDE_CHUNK window TOKEN_LEN;
  store out op c.

Definition fast_iter (USE_DICT : bool) input out (input_pos pos initial : N) ext_dict
  : res DecompressError fast_exit :=
  let ip := idx input_pos in
  let op := idx pos in
  if len input <? ip + FAST_IN then Ok FBreak else
  window ← chunk FAST_IN input ip;
  token ← index window 0;
  let literal_length := N.shiftr (u8 token) ML_BITS in
  if literal_length =? RUN_MASK then fast_long_literal input window token ip out op initial
  else if len out <? op + literal_length + SHORT_MATCH_MAX then Ok FBreak
  else
    offset_bytes ← chunk OFFSET_LEN window (TOKEN_LEN + literal_length);
    let offset := from_le offset_bytes in
    let dst := op + literal_length in
    let match_nib := N.land (u8 token) ML_MASK in
    if negb (match_nib =? ML_MASK) then
      let match_length := MINMATCH + match_nib in
      if (MATCH_CHUNK <=? offset) && (offset <=? dst) then
        out ← store_short_literal window out op;
        '(out, end_) ← wild_match_copy_18 out dst offset match_length;
        Ok (FNext out (ip + TOKEN_LEN + OFFSET_LEN + literal_length) end_)
      else if USE_DICT && (dst <? offset) then
        let back := offset - dst in
        if (SHORT_MATCH_MAX <=? back) && (back <=? len ext_dict) then
          out ← store_short_literal window out op;
          from ← chunk SHORT_MATCH_MAX ext_dict (len ext_dict - back);
          out ← store out dst from;
          Ok (FNext out (ip + TOKEN_LEN + OFFSET_LEN + literal_length) (dst + match_length))
        else Ok FBreak
      else Ok FBreak
    else
      extra ← index window (TOKEN_LEN + OFFSET_LEN + literal_length);
      if (u8 extra =? EXT_MORE) || (offset <? WIDE_CHUNK) || (dst <? offset) then Ok FBreak
      else
        let match_length := MINMATCH + ML_MASK + u8 extra in
        if len out <? dst + match_length + LONG_CHUNK then Ok FBreak
        else
          out ← store_short_literal window out op;
          out ← wild_copy_match_long out dst offset match_length;
          Ok (FNext out (ip + TOKEN_LEN + OFFSET_LEN + EXT_LEN + literal_length)
                (dst + match_length)).

(** The inner [loop]: iterates until [break] or [return]. *)
Inductive fast_outcome :=
| FastBreak (out : bytes) (input_pos pos : N)
| FastReturn (out : bytes) (pos n : N).

Fixpoint fast_loop (fuel : nat) (USE_DICT : bool) input out (input_pos pos initial : N) ext_dict
  : res DecompressError fast_outcome :=
  match fuel with
  | O => NoFuel
  | S fuel =>
      e ← fast_iter USE_DICT input out input_pos pos initial ext_dict;
      match e with
      | FNext out input_pos pos => fast_loop fuel USE_DICT input out input_pos pos initial ext_dict
      | FBreak => Ok (FastBreak out input_pos pos)
      | FReturn out pos n => Ok (FastReturn out pos n)
      end
  end.

(** ** The general path *)

(** The output buffer and position when an error is returned. *)
Definition failure : Type := bytes * N * DecompressError.

Definition at_out {A} out (pos : N) (m : res DecompressError A) : res failure A :=
  map_err (fun e => (out, pos, e)) m.

Definition copy_from_dict out (pos : N) ext_dict (offset match_length : N)
  : res DecompressError (bytes * N * N) :=
  _ ← assert (pos <? offset);
  let d := offset - pos in
  if len ext_dict <? d then Err OffsetOutOfBounds else
  let dict_offset := len ext_dict - d in
  let dict_match_length := N.min match_length (len ext_dict - dict_offset) in
  ext_match ← slice ext_dict dict_offset (dict_offset + dict_match_length);
  s ← OutSinkImpl.extend_from_slice (OutSinkImpl.new out pos) ext_match;
  Ok (os_output s, os_pos s, dict_match_length).

(** The literal run of a sequence. *)
Definition general_literals input (input_pos : N) out (pos literal_length : N)
  : res failure (bytes * N * N) :=
  if literal_length =? 0 then Ok (out, input_pos, pos) else
  b ← len_exceeds_capacity input_pos literal_length (len input);
  if (b : bool) then Err (out, pos, LiteralOutOfBounds) else
  b ← len_exceeds_capacity pos literal_length (len out);
  if (b : bool) then
    expected ← expected_output_size pos literal_length;
    Err (out, pos, OutputTooSmall expected (len out))
  else
    h1 ← (if literal_length <=? WILD_LITERAL_MAX
          then has_headroom input_pos literal_length LONG_CHUNK (len input) else Ok false);
    h2 ← (if (h1 : bool) then has_headroom pos literal_length LONG_CHUNK (len out) else Ok false);
    '(out, pos) ← (if (h2 : bool)
                   then wild_copy_literals input input_pos out pos literal_length
                   else copy_from_src input input_pos out pos literal_length);
    Ok (out, input_pos + literal_length, pos).

(** The match copy: the first variant whose offset and headroom allow it. *)
Definition general_match out (start pos match_length offset : N) : res failure (bytes * N) :=
  h ← (if WIDE_CHUNK <=? offset then has_headroom pos match_length LONG_CHUNK (len out) else Ok false);
  if (h : bool) then wild_copy_match_32 out start pos match_length else
  h ← (if WIDE_CHUNK <=? offset then has_headroom pos match_length WIDE_CHUNK (len out) else Ok false);
  if (h : bool) then wild_copy_match_16 out start pos match_length else
  h ← (if MATCH_CHUNK <=? offset then has_headroom pos match_length MATCH_CHUNK (len out) else Ok false);
  if (h : bool) then wild_copy_match_8 out start pos match_length else
  h ← (if (MIN_COPY_OFFSET <=? offset) && (offset <? MATCH_CHUNK)
       then has_headroom pos match_length MATCH_CHUNK (len out) else Ok false);
  if (h : bool) then wild_copy_match_short_offset out pos offset match_length else
  if offset <? match_length then
    if offset <? MIN_COPY_OFFSET then
      val ← index out start;
      out ← fill out pos (pos + match_length) val;
      Ok (out, pos + match_length)
    else copy_within_overlapping out start pos match_length offset
  else copy_within_nonoverlap out start pos match_length.

(** The part of a match that lies in the dictionary: the match length that
    remains, or [None] when the dictionary held all of it. *)
Definition general_dict (USE_DICT : bool) out (pos : N) ext_dict (offset match_length : N)
  : res failure (bytes * N * option N) :=
  if USE_DICT && (pos <? offset) then
    '(out, pos, copied) ← at_out out pos (copy_from_dict out pos ext_dict offset match_length);
    Ok (out, pos, if copied =? match_length then None else Some (match_length - copied))
  else Ok (out, pos, Some match_length).

Inductive general_exit :=
| GNext (out : bytes) (input_pos pos : N)
| GBreak (out : bytes) (pos : N).

(** One pass of the general path. *)
Definition general_step (USE_DICT : bool) input out (input_pos pos : N) ext_dict
  : res failure general_exit :=
  token ← at_out out pos (ok_or ExpectedAnotherByte (input.[input_pos]));
  let input_pos := input_pos + TOKEN_LEN in
  '(literal_length, input_pos) ←
    at_out out pos (read_literal_length input input_pos token (len out));
  '(out, input_pos, pos) ← general_literals input input_pos out pos literal_length;
  if len input <=? input_pos then Ok (GBreak out pos) else
  '(offset, input_pos) ← at_out out pos (read_offset input input_pos);
  '(match_length, input_pos) ← at_out out pos (read_match_length input input_pos token (len out));
  b ← len_exceeds_capacity pos match_length (len out);
  if (b : bool) then
    expected ← expected_output_size pos match_length;
    Err (out, pos, OutputTooSmall expected (len out))
  else
    '(out, pos, remaining) ← general_dict USE_DICT out pos ext_dict offset match_length;
    match remaining with
    | None => Ok (GNext out input_pos pos)
    | Some match_length =>
        if pos <? offset then Err (out, pos, OffsetOutOfBounds) else
        let start := pos - offset in
        '(out, pos) ← general_match out start pos match_length offset;
        Ok (GNext out input_pos pos)
    end.

(** ** The decoder *)

Fixpoint body_loop (fuel : nat) (USE_DICT fast : bool) input out (input_pos pos initial : N)
  ext_dict : res failure (bytes * N * N) :=
  match fuel with
  | O => NoFuel
  | S fuel =>
      f ← at_out out pos
        (if fast then fast_loop (S (length input)) USE_DICT input out input_pos pos initial ext_dict
         else Ok (FastBreak out input_pos pos));
      match f with
      | FastReturn out pos n => Ok (out, pos, n)
      | FastBreak out input_pos pos =>
          g ← general_step USE_DICT input out input_pos pos ext_dict;
          match g with
          | GNext out input_pos pos =>
              body_loop fuel USE_DICT fast input out input_pos pos initial ext_dict
          | GBreak out pos => n ← usub pos initial; Ok (out, pos, n)
          end
      end
  end.

(** Whether positions fit the 32-bit indices of the fast loop. *)
Definition fast_enabled input out : bool := (len input <=? u32_max) && (len out <=? u32_max).

Definition decompress_body (USE_DICT : bool) input out (pos : N) ext_dict
  : res failure (bytes * N * N) :=
  _ ← assert (pos <=? len out);
  body_loop (S (length input)) USE_DICT (fast_enabled input out) input out 0 pos pos ext_dict.

(** [decompress_loop] and [decompress_internal] move the slice and the
    position in and out of the sink. *)
Definition decompress_internal (USE_DICT : bool) input (output : OutSink) ext_dict
  : res (OutSink * DecompressError) (OutSink * N) :=
  match decompress_body USE_DICT input (os_output output) (os_pos output) ext_dict with
  | Ok (out, pos, n) => Ok (OutSinkImpl.new out pos, n)
  | Err (out, pos, e) => Err (OutSinkImpl.new out pos, e)
  | Panic => Panic
  | NoFuel => NoFuel
  end.

(** ** Entry points *)

Definition decompress_into input (output : bytes)
  : res (bytes * DecompressError) (bytes * N) :=
  match decompress_internal false input (OutSinkImpl.new output 0) [] with
  | Ok (s, n) => Ok (os_output s, n)
  | Err (s, e) => Err (os_output s, e)
  | Panic => Panic
  | NoFuel => NoFuel
  end.

Definition decompress_into_with_dict input (output dict : bytes)
  : res (bytes * DecompressError) (bytes * N) :=
  match decompress_internal true input (OutSinkImpl.new output 0) dict with
  | Ok (s, n) => Ok (os_output s, n)
  | Err (s, e) => Err (os_output s, e)
  | Panic => Panic
  | NoFuel => NoFuel
  end.

(** Decodes into the sink of the frame decoder, which keeps its history. *)
Definition decompress_into_sink_with_dict (USE_DICT : bool) input (output : SliceSink) ext_dict
  : res (SliceSink * DecompressError) (SliceSink * N) :=
  let '(out, pos) := output_mut_with_pos output in
  match decompress_internal USE_DICT input (OutSinkImpl.new out pos) ext_dict with
  | Ok (s, n) => Ok (set_output_with_pos output (os_output s, os_pos s), n)
  | Err (s, e) => Err (set_output_with_pos output (os_output s, os_pos s), e)
  | Panic => Panic
  | NoFuel => NoFuel
  end.

(** The [Vec] after the call, also on error. *)
Definition decompress_append_internal (USE_DICT : bool) input (output : bytes) (max_size : N)
  ext_dict : res (bytes * DecompressError) (bytes * N) :=
  let start := len output in
  (* [reserve_exact]: a vector holds at most [isize::MAX] bytes *)
  _ ← assert (start + max_size <=? isize_max);
  let output := output ++ replicate (N.to_nat max_size) x00 in
  tail ← slice_from output start;
  let done (s : OutSink) (n : N) :=
    take (N.to_nat (start + n)) (take (N.to_nat start) output ++ os_output s) in
  match decompress_internal USE_DICT input (OutSinkImpl.new tail 0) ext_dict with
  | Ok (s, n) => Ok (done s n, n)
  | Err (s, e) => Err (done s 0, e)
  | Panic => Panic
  | NoFuel => NoFuel
  end.

Definition decompress_append input (output : bytes) (max_size : N) :=
  decompress_append_internal false input output max_size [].

Definition decompress input (uncompressed_size : N) : res DecompressError bytes :=
  '(decompressed, _) ← map_err snd (decompress_append input [] uncompressed_size);
  Ok decompressed.
End decompress.

#[global] Arguments read_integer_bounded : simpl never.

(** ** The decompressor structs: a dictionary and delegation *)

Record DecompressorRef := { dr_dict : bytes }.

Module DecompressorRefImpl.
Section ops.
Context `{T : Target}.

Definition with_dict (dict : bytes) : DecompressorRef := {| dr_dict := dict |}.

Definition decompress_append (d : DecompressorRef) (input output : bytes) (max_size : N) :=
  decompress_append_internal true input output max_size (dr_dict d).

Definition decompress_into (d : DecompressorRef) (input output : bytes) :=
  decompress_into_with_dict input output (dr_dict d).

Definition decompress (d : DecompressorRef) (input : bytes) (uncompressed_size : N)
  : res DecompressError bytes :=
  '(v, _) ← map_err snd (decompress_append d input [] uncompressed_size);
  Ok v.
End ops.
End DecompressorRefImpl.

Record Decompressor := { d_dict : bytes }.

Module DecompressorImpl.
Section ops.
Context `{T : Target}.

Definition new : Decompressor := {| d_dict := [] |}.
Definition with_dict (dict : bytes) : Decompressor := {| d_dict := dict |}.

Definition decompress (d : Decompressor) (input : bytes) (uncompressed_size : N) :=
  DecompressorRefImpl.decompress (DecompressorRefImpl.with_dict (d_dict d)) input uncompressed_size.

Definition decompress_into (d : Decompressor) (input output : bytes) :=
  DecompressorRefImpl.decompress_into (DecompressorRefImpl.with_dict (d_dict d)) input output.

Definition decompress_append (d : Decompressor) (input output : bytes) (max_size : N) :=
  DecompressorRefImpl.decompress_append
    (DecompressorRefImpl.with_dict (d_dict d)) input output max_size.
End ops.
End DecompressorImpl.
