(* ===== verification/DecompressProofs.v ===== *)
(** * Correctness of the block decoder

    A reference step on an unbounded history ([ref_step]) gives the outcome of
    one sequence, errors included.  The general path and every exit of the
    fast loop simulate it; the decoder therefore computes the closure
    [ref_eval] of the reference step, which in turn is [block_decode] on
    success. *)

From S2P Require Import Prelude BlockSpec Core Primitives Decompress.

(** ** Machine facts *)

Section machine_facts.
Context `{T : Target}.

Lemma usize_isize : usize_max = 2 * isize_max + 1.
Proof. unfold usize_max, isize_max, usize_bits. by destruct target_width. Qed.

Lemma isize_large : 2 ^ 31 - 1 <= isize_max.
Proof. unfold isize_max, usize_bits. destruct target_width; vm_compute; done. Qed.

Lemma checked_add_ok a b : a + b <= usize_max -> checked_add a b = Some (a + b).
Proof. intros. unfold checked_add. by bcase. Qed.

Lemma checked_add_inv a b c : checked_add a b = Some c -> c = a + b /\ a + b <= usize_max.
Proof. unfold checked_add. bcase; naive_solver. Qed.

Lemma uadd_ok {E} a b : a + b <= usize_max -> uadd (E:=E) a b = Ok (a + b).
Proof. intros. unfold uadd. by bcase. Qed.

Lemma len_exceeds_capacity_ok {E} p n cap :
  p <= cap -> p + n <= usize_max -> len_exceeds_capacity (E:=E) p n cap = Ok (cap <? p + n).
Proof.
  intros. unfold len_exceeds_capacity. destruct target_width.
  - f_equal. do 2 bcase; done.
  - by rewrite uadd_ok.
Qed.

Lemma has_headroom_ok {E} p n k cap :
  p + n + k <= usize_max -> has_headroom (E:=E) p n k cap = Ok (p + n + k <=? cap).
Proof.
  intros. unfold has_headroom. destruct target_width.
  - by rewrite !checked_add_ok by lia.
  - rewrite uadd_ok by lia. mstep. by rewrite uadd_ok.
Qed.

Lemma expected_output_size_ok {E} p n :
  p + n <= usize_max -> expected_output_size (E:=E) p n = Ok (p + n).
Proof.
  intros. unfold expected_output_size, saturating_add. destruct target_width.
  - f_equal. lia.
  - by apply uadd_ok.
Qed.
End machine_facts.

(** Brings the width facts into an arithmetic goal. *)
Ltac mlia := unfold buffer_ok in *; pose proof usize_isize; pose proof isize_large; clia.

(** ** Parsers *)

Section parsers.
Context `{T : Target}.
Implicit Types (input : bytes) (ip n m max : N).

(** What a parser may return: a value, or an error of the kind [P]. *)
Definition parses {A} (r : res DecompressError A) (Q : A -> Prop) : Prop :=
  match r with Ok a => Q a | Err _ => True | _ => False end.

Lemma read_integer_loop_total fuel input ip n max :
  (length input - N.to_nat ip < fuel)%nat ->
  parses (read_integer_loop fuel input ip n max) (fun '(m, ip') =>
    ip < ip' /\ ip' <= len input /\ n <= m /\ m <= N.max n max + 255).
Proof.
  revert ip n. induction fuel as [|fuel IH]; intros ip n Hf; [lia|]. cbn [read_integer_loop].
  destruct (input.[ip]) as [b|] eqn:Hb; mstep; [|done].
  apply lookup_some_lt in Hb. pose proof (u8_lt b). unfold EXT_LEN.
  destruct (checked_add n (u8 b)) as [n'|] eqn:Hn; mstep; [|done].
  apply checked_add_inv in Hn as [-> Hn].
  unfold EXT_MORE. destruct (N.eqb_spec (u8 b) 255); cbn [negb]; [|cbn; lia].
  bcase; [cbn; lia|]. specialize (IH (ip + 1) (n + u8 b) ltac:(lia)).
  destruct (read_integer_loop _ _ _ _ _) as [[m ip']| | |]; cbn in *; lia || done.
Qed.

(** A value within the limit is the sum of the extension bytes, and a sum
    within the limit is found. *)
Lemma read_integer_loop_ext fuel input ip n max m ip' :
  read_integer_loop fuel input ip n max = Ok (m, ip') -> m <= max ->
  read_ext (drop (N.to_nat ip) input) = Some (m - n, drop (N.to_nat ip') input) /\ n <= m.
Proof.
  revert ip n. induction fuel as [|fuel IH]; intros ip n; cbn [read_integer_loop]; [done|].
  destruct (input.[ip]) as [b|] eqn:Hb; mstep; [|done]. intros H Hm.
  rewrite (drop_S _ _ _ Hb). cbn [read_ext].
  replace (S (N.to_nat ip)) with (N.to_nat (ip + 1)) by lia.
  unfold EXT_LEN, EXT_MORE in H.
  destruct (checked_add n (u8 b)) as [n'|] eqn:Hn; mstep; [|done]. cbn in H.
  apply checked_add_inv in Hn as [-> Hn].
  destruct (N.eqb_spec (u8 b) 255) as [He|]; cbn [negb] in H.
  - destruct (N.ltb_spec max (n + u8 b)); [injection H as <- <-; lia|].
    apply IH in H as [-> Hle]; [|done]. cbn. split; [do 2 f_equal; lia|lia].
  - injection H as <- <-. split; [do 2 f_equal; lia|lia].
Qed.

Lemma read_integer_loop_complete fuel input ip n max k r :
  read_ext (drop (N.to_nat ip) input) = Some (k, r) -> n + k <= max -> max <= usize_max ->
  (length input - N.to_nat ip < fuel)%nat ->
  exists ip', read_integer_loop fuel input ip n max = Ok (n + k, ip') /\
    r = drop (N.to_nat ip') input /\ ip < ip' <= len input.
Proof.
  revert ip n k r. induction fuel as [|fuel IH]; intros ip n k r He Hk Hmax Hf; [lia|].
  cbn [read_integer_loop]. destruct (input.[ip]) as [b|] eqn:Hb; last first.
  { apply lookup_ge_None in Hb. rewrite drop_ge in He by lia. done. }
  mstep. pose proof (lookup_some_lt _ _ _ Hb). rewrite (drop_S _ _ _ Hb) in He.
  cbn [read_ext] in He. unfold EXT_LEN, EXT_MORE.
  replace (S (N.to_nat ip)) with (N.to_nat (ip + 1)) in He by lia.
  destruct (N.eqb_spec (u8 b) 255) as [Heq|].
  - destruct (read_ext _) as [[k' r']|] eqn:He'; [|done]. injection He as <- <-.
    rewrite checked_add_ok by lia. mstep. cbn [negb]. bcase.
    destruct (IH (ip + 1) (n + u8 b) k' r') as (ip' & -> & -> & Hip); [done|lia..|].
    exists ip'. split; [do 2 f_equal; lia|]. split; [done|lia].
  - injection He as <- <-. rewrite checked_add_ok by lia. mstep. cbn [negb].
    exists (ip + 1). split; [done|]. split; [done|lia].
Qed.

Lemma read_integer_bounded_total input ip max :
  parses (read_integer_bounded input ip max) (fun '(m, ip') =>
    ip < ip' /\ ip' <= len input /\ m <= max + 255).
Proof.
  pose proof (read_integer_loop_total (S (length input)) input ip 0 max ltac:(lia)) as H.
  unfold read_integer_bounded. destruct (read_integer_loop _ _ _ _ _) as [[m ip']| | |]; cbn in *;
    lia || done.
Qed.

Lemma nibble_hi b : N.shiftr (u8 b) ML_BITS = u8 b / 16.
Proof. unfold ML_BITS. by rewrite N.shiftr_div_pow2. Qed.

Lemma nibble_lo b : N.land (u8 b) ML_MASK = u8 b mod 16.
Proof. unfold ML_MASK. change 15 with (N.ones 4). by rewrite N.land_ones. Qed.

Lemma read_literal_length_total input ip tok max :
  ip <= len input ->
  parses (read_literal_length input ip tok max) (fun '(l, ip') =>
    ip <= ip' /\ ip' <= len input /\ l <= max + 270).
Proof.
  intros Hip. unfold read_literal_length. rewrite nibble_hi. pose proof (u8_lt tok).
  unfold RUN_MASK. destruct (N.eqb_spec (u8 tok / 16) 15); [|cbn; lia].
  pose proof (read_integer_bounded_total input ip max) as Hr.
  destruct (read_integer_bounded _ _ _) as [[m ip']| | |]; cbn in *; try done.
  unfold checked_add. bcase; cbn; [lia|done].
Qed.

Lemma read_match_length_total input ip tok max :
  ip <= len input ->
  parses (read_match_length input ip tok max) (fun '(l, ip') =>
    ip <= ip' /\ ip' <= len input /\ MINMATCH <= l /\ l <= max + 274).
Proof.
  intros Hip. unfold read_match_length. rewrite nibble_lo. pose proof (u8_lt tok).
  unfold ML_MASK, MINMATCH. destruct (N.eqb_spec (4 + u8 tok mod 16) (4 + 15)); [|cbn; lia].
  pose proof (read_integer_bounded_total input ip max) as Hr.
  destruct (read_integer_bounded _ _ _) as [[m ip']| | |]; cbn in *; try done.
  unfold checked_add. bcase; cbn; [lia|done].
Qed.

Lemma read_offset_total input ip :
  parses (read_offset input ip) (fun '(off, ip') =>
    ip' = ip + OFFSET_LEN /\ ip' <= len input /\ 1 <= off <= 65535).
Proof.
  unfold read_offset, OFFSET_LEN. bcase; cbn; [|done].
  pose proof (from_le_bound (sub input ip 2)) as Hb. rewrite length_sub in Hb by lia.
  change (256 ^ N.of_nat (N.to_nat 2)) with 65536 in Hb. bcase; cbn; lia || done.
Qed.
End parsers.

(** ** The reference step *)

Section reference.
Context `{T : Target}.
Implicit Types (input h : bytes).

Inductive ref_exit :=
| RNext (input_pos : N) (h : bytes)
| RDone (h : bytes).

Definition at_h {A} h (m : res DecompressError A) : res (bytes * DecompressError) A :=
  map_err (fun e => (h, e)) m.

(** One sequence at [input_pos], after history [h] of which the first [dl]
    bytes are dictionary, into an output of [cap] bytes. *)
Definition ref_step input (dl cap input_pos : N) h : res (bytes * DecompressError) ref_exit :=
  token ← at_h h (ok_or ExpectedAnotherByte (input.[input_pos]));
  '(lit, ip) ← at_h h (read_literal_length input (input_pos + 1) token cap);
  if len input <? ip + lit then Err (h, LiteralOutOfBounds)
  else if cap <? len h - dl + lit then Err (h, OutputTooSmall (len h - dl + lit) cap)
  else
    let h := h ++ sub input ip lit in
    let ip := ip + lit in
    if len input <=? ip then Ok (RDone h) else
    '(off, ip) ← at_h h (read_offset input ip);
    '(ml, ip) ← at_h h (read_match_length input ip token cap);
    if cap <? len h - dl + ml then Err (h, OutputTooSmall (len h - dl + ml) cap)
    else if len h <? off then Err (h, OffsetOutOfBounds)
    else Ok (RNext ip (expand h off (N.to_nat ml))).

(** The closure of the reference step: final history and outcome. *)
Inductive ref_eval input (dl cap : N) : N -> bytes -> bytes -> option DecompressError -> Prop :=
| ev_next ip h ip' h' hf e :
    ref_step input dl cap ip h = Ok (RNext ip' h') ->
    ref_eval input dl cap ip' h' hf e -> ref_eval input dl cap ip h hf e
| ev_done ip h hf :
    ref_step input dl cap ip h = Ok (RDone hf) -> ref_eval input dl cap ip h hf None
| ev_err ip h hf e :
    ref_step input dl cap ip h = Err (hf, e) -> ref_eval input dl cap ip h hf (Some e).

Lemma ref_eval_det input dl cap ip h h1 e1 h2 e2 :
  ref_eval input dl cap ip h h1 e1 -> ref_eval input dl cap ip h h2 e2 -> h1 = h2 /\ e1 = e2.
Proof.
  intros H1. revert h2 e2. induction H1 as [? ? ? ? ? ? Hs H1 IH|? ? ? Hs|? ? ? ? Hs];
    intros h2 e2 H2; inversion H2; subst; try congruence;
    match goal with H : ref_step _ _ _ _ _ = _ |- _ => rewrite Hs in H; injection H as; subst end;
    try done.
  by apply IH.
Qed.
End reference.

(** The history a buffer and position stand for. *)
Definition history (D out : bytes) (pos : N) : bytes := D ++ take (N.to_nat pos) out.

Lemma length_history D out pos :
  pos <= len out -> length (history D out pos) = (length D + N.to_nat pos)%nat.
Proof. intros. unfold history. len_lia. Qed.

(** The dictionary the decoder sees. *)
Definition dict_of (USE_DICT : bool) (ext_dict : bytes) : bytes := if USE_DICT then ext_dict else [].

(** ** The general path *)

Section general.
Context `{T : Target}.
Implicit Types (input out ext_dict : bytes) (ip pos : N).

Lemma lit_copied_history (D : bytes) input ip pos n out out' :
  lit_copied input ip pos n out out' ->
  history D out' (pos + n) = history D out pos ++ sub input ip n.
Proof. intros [_ H]. unfold history. rewrite H. by rewrite app_assoc. Qed.

Lemma general_literals_ok input ip out pos n :
  buffer_ok input -> buffer_ok out -> ip <= len input -> pos <= len out -> n <= len out + 270 ->
  if len input <? ip + n
  then general_literals input ip out pos n = Err (out, pos, LiteralOutOfBounds)
  else if len out <? pos + n
  then general_literals input ip out pos n = Err (out, pos, OutputTooSmall (pos + n) (len out))
  else returns (general_literals input ip out pos n) (fun '(out', ip', pos') =>
    ip' = ip + n /\ pos' = pos + n /\ lit_copied input ip pos n out out').
Proof.
  intros Hi Ho Hip Hpos Hn. unfold general_literals.
  destruct (N.eqb_spec n 0) as [->|Hn0].
  { do 2 bcase. apply returns_ok. split_and!; [lia..|]. split; [done|].
    by rewrite N.add_0_r, app_nil_r. }
  rewrite (len_exceeds_capacity_ok ip), (len_exceeds_capacity_ok pos),
    (expected_output_size_ok pos), (has_headroom_ok ip), (has_headroom_ok pos) by mlia.
  mstep. destruct (N.ltb_spec (len input) (ip + n)); [done|].
  destruct (N.ltb_spec (len out) (pos + n)); [done|].
  assert (Hc : forall b : bool,
    (b = true -> ip + n + LONG_CHUNK <= len input /\ pos + n + LONG_CHUNK <= len out) ->
    returns (E:=failure) ('(out', pos') ← (if b then wild_copy_literals input ip out pos n
      else copy_from_src input ip out pos n); Ok (out', ip + n, pos'))
    (fun '(out', ip', pos') =>
      ip' = ip + n /\ pos' = pos + n /\ lit_copied input ip pos n out out')).
  { intros b Hb. apply returns_bind. eapply returns_mono
      with (P := fun '(out', pos') => pos' = pos + n /\ lit_copied input ip pos n out out').
    - destruct b; [apply wild_copy_literals_ok; tauto|apply copy_from_src_ok; lia].
    - intros [out' pos'] [-> Hl]. by apply returns_ok. }
  destruct (n <=? WILD_LITERAL_MAX); mstep; [|by apply (Hc false)].
  destruct (N.leb_spec (ip + n + LONG_CHUNK) (len input)); mstep; [|by apply (Hc false)].
  destruct (N.leb_spec (pos + n + LONG_CHUNK) (len out)); mstep; [by apply (Hc true)|by apply (Hc false)].
Qed.

Lemma extend_from_slice_ok {E} out pos (d : bytes) :
  pos + len d <= len out ->
  OutSinkImpl.extend_from_slice (E:=E) (OutSinkImpl.new out pos) d
  = Ok (OutSinkImpl.new (splice out pos d) (pos + len d)).
Proof.
  intros. unfold OutSinkImpl.extend_from_slice, OutSinkImpl.new. cbn [os_output os_pos].
  access. rewrite slice_copy_ok by len_lia. mstep. by access.
Qed.

(** The dictionary part of a match. *)
Lemma expand_dict (D out : bytes) pos off n :
  pos < off -> off <= len D + pos -> pos <= len out -> n <= len D - (len D - (off - pos)) ->
  pos + n <= len out ->
  history D (splice out pos (sub D (len D - (off - pos)) n)) (pos + n)
  = expand (history D out pos) off (N.to_nat n).
Proof.
  intros H1 H2 H3 H4 H5. set (d := sub D _ n).
  assert (Hd : len d = n) by (subst d; len_lia).
  assert (Hh : history D (splice out pos d) (pos + n) = history D out pos ++ d).
  { unfold history. rewrite <-app_assoc. f_equal.
    rewrite <-Hd at 1. by rewrite take_splice by lia. }
  rewrite Hh. apply expand_unique.
  - lia.
  - rewrite length_history; lia.
  - rewrite length_app. lia.
  - by rewrite take_app_length.
  - intros i Hi. rewrite length_history by lia.
    rewrite lookup_app_r by (rewrite length_history; lia). rewrite length_history by lia.
    rewrite lookup_app_l by (rewrite length_history; lia).
    unfold history. rewrite lookup_app_l by lia.
    replace (N.to_nat _ - _)%nat with (N.to_nat i) by lia.
    subst d. rewrite lookup_sub by lia. f_equal. lia.
Qed.

Lemma general_dict_ok USE_DICT out pos ext_dict off ml :
  let D := dict_of USE_DICT ext_dict in
  pos <= len out -> 1 <= off -> pos + ml <= len out -> 1 <= ml ->
  if USE_DICT && (len D + pos <? off)
  then general_dict USE_DICT out pos ext_dict off ml = Err (out, pos, OffsetOutOfBounds)
  else returns (general_dict USE_DICT out pos ext_dict off ml) (fun '(out', pos', r) =>
    length out' = length out /\ pos' <= len out /\
    match r with
    | None => history D out' pos' = expand (history D out pos) off (N.to_nat ml)
    | Some ml' => exists k, ml = k + ml' /\ pos' = pos + k /\ 1 <= ml' /\
        (k = 0 \/ off <= pos') /\ (k <> 0 -> off <= len D + pos) /\ (USE_DICT = true -> off <= pos') /\
        history D out' pos' = expand (history D out pos) off (N.to_nat k)
    end).
Proof.
  intros D Hpos Hoff Hml Hml1. unfold general_dict. destruct USE_DICT; cbn [andb] in *; last first.
  { apply returns_ok. split_and!; [done|done|]. exists 0. split_and!; try (done || lia || tauto). }
  change D with ext_dict in *. clear D.
  destruct (N.ltb_spec pos off); last first.
  { bcase. apply returns_ok. split_and!; [done|done|]. exists 0.
    split_and!; try (done || lia || tauto). }
  unfold copy_from_dict, assert. rewrite (proj2 (N.ltb_lt pos off)) by lia. mstep. cbn zeta.
  destruct (N.ltb_spec (len ext_dict + pos) off); [by bcase|]. bcase.
  set (dm := N.min ml _). rewrite slice_ok by lia. mstep.
  replace (len ext_dict - (off - pos) + dm - (len ext_dict - (off - pos))) with dm by lia.
  rewrite extend_from_slice_ok by len_lia. mstep. apply returns_ok. unfold OutSinkImpl.new; cbn [os_output os_pos].
  replace (len (sub ext_dict (len ext_dict - (off - pos)) dm)) with dm by len_lia.
  split; [apply length_splice; len_lia|]. split; [lia|].
  destruct (N.eqb_spec dm ml) as [Hd|Hd].
  - rewrite <-Hd. apply expand_dict; lia.
  - exists dm. split_and!; try lia. apply expand_dict; lia.
Qed.

Lemma general_match_ok out start pos ml off :
  buffer_ok out -> start < pos -> off = pos - start -> 1 <= ml -> pos + ml <= len out ->
  returns (general_match out start pos ml off) (fun '(out', pos') =>
    pos' = pos + ml /\ match_copied off pos ml out out').
Proof.
  intros Hb H1 -> H3 H4. unfold general_match. rewrite !has_headroom_ok by mlia.
  destruct (N.leb_spec WIDE_CHUNK (pos - start)); mstep.
  1: destruct (N.leb_spec (pos + ml + LONG_CHUNK) (len out));
    [apply wild_copy_match_32_ok; clia|].
  1: destruct (N.leb_spec (pos + ml + WIDE_CHUNK) (len out));
    [apply wild_copy_match_ok; clia|].
  all: destruct (N.leb_spec MATCH_CHUNK (pos - start)); mstep; try (exfalso; clia).
  1, 2: destruct (N.leb_spec (pos + ml + MATCH_CHUNK) (len out));
    [apply wild_copy_match_ok; clia|].
  all: destruct (N.leb_spec MIN_COPY_OFFSET (pos - start)), (N.ltb_spec (pos - start) MATCH_CHUNK);
    cbn [andb]; mstep; try (exfalso; clia).
  3: destruct (N.leb_spec (pos + ml + MATCH_CHUNK) (len out));
    [apply wild_copy_match_short_offset_ok; clia|].
  all: destruct (N.ltb_spec (pos - start) ml); [|apply copy_within_nonoverlap_ok; lia].
  all: destruct (N.ltb_spec (pos - start) MIN_COPY_OFFSET); try (exfalso; clia).
  all: try (apply copy_within_overlapping_ok; lia).
  all: destruct (index_ok (E:=failure) out start) as (v & Hv & ->); [lia|]; mstep;
    destruct (fill_ok (E:=failure) out pos ml v) as (o & -> & Ho);
    [lia|lia|by replace (pos - 1) with start by clia|];
    mstep; apply returns_ok; split; [done|]; by replace (pos - start) with 1 by clia.
Qed.
End general.

(** ** Simulation of the reference step *)

Section simulation.
Context `{T : Target}.
Implicit Types (input out ext_dict : bytes) (ip pos : N).

(** [stands D n out pos h]: a buffer of [n] bytes, with [pos] written, stands
    for history [h]. *)
Definition stands (D : bytes) (n : nat) out (pos : N) (h : bytes) : Prop :=
  length out = n /\ pos <= len out /\ h = history D out pos.

(** The general path agrees with the reference step, errors included. *)
Definition general_sim (D : bytes) input (n : nat) (ip : N)
  (g : res failure general_exit) (r : res (bytes * DecompressError) ref_exit) : Prop :=
  match g, r with
  | Ok (GNext out ip1 pos), Ok (RNext ip2 h) =>
      ip1 = ip2 /\ ip < ip1 <= len input /\ stands D n out pos h
  | Ok (GBreak out pos), Ok (RDone h) => stands D n out pos h
  | Err (out, pos, e1), Err (h, e2) => e1 = e2 /\ stands D n out pos h
  | _, _ => False
  end.

(** The match half of the general path. *)
Lemma general_match_half USE_DICT out pos ext_dict off ml :
  let D := dict_of USE_DICT ext_dict in
  buffer_ok out -> pos <= len out -> 1 <= off -> 1 <= ml -> pos + ml <= len out ->
  forall (ip : N),
  let m :=
    '(out, pos, remaining) ← general_dict USE_DICT out pos ext_dict off ml;
    match remaining with
    | None => Ok (GNext out ip pos)
    | Some match_length =>
        if pos <? off then Err (out, pos, OffsetOutOfBounds) else
        '(out, pos) ← general_match out (pos - off) pos match_length off;
        Ok (GNext out ip pos)
    end in
  if len D + pos <? off then m = Err (out, pos, OffsetOutOfBounds)
  else returns m (fun e => exists out' pos', e = GNext out' ip pos' /\
    stands D (length out) out' pos' (expand (history D out pos) off (N.to_nat ml))).
Proof.
  intros D Hb Hpos Hoff Hml Hcap ip m.
  pose proof (general_dict_ok USE_DICT out pos ext_dict off ml Hpos Hoff Hcap Hml) as Hd.
  cbn zeta in Hd. fold D in Hd.
  assert (HDf : USE_DICT = false -> len D = 0) by (by intros ->).
  destruct (N.ltb_spec (len D + pos) off) as [Hlt|Hge].
  - destruct USE_DICT; cbn [andb] in Hd; subst m; [by rewrite Hd|].
    unfold general_dict. cbn [andb]. mstep. by bcase.
  - destruct USE_DICT; cbn [andb] in Hd.
    all: destruct Hd as ([[out' pos'] r] & Hd & Hl & Hp & Hr); subst m; rewrite Hd; mstep;
      (destruct r as [ml'|];
       [|apply returns_ok; exists out', pos'; split; [done|]; split_and!; [done|lia|done]]).
    all: destruct Hr as (k & Hk & -> & Hml' & Hk0 & Hkd & Hu & Hh);
      assert (Hop : off <= pos + k) by (specialize (HDf eq_refl) || specialize (Hu eq_refl); lia).
    all: destruct (N.ltb_spec (pos + k) off); [lia|];
      apply returns_bind; eapply returns_mono;
      [apply general_match_ok; unfold buffer_ok in *; rewrite ?Hl; (lia || done)|].
    all: intros [out'' pos''] [-> Hm]; apply returns_ok; exists out'', (pos + k + ml'); split; [done|].
    all: pose proof (copied_length _ _ _ _ _ Hm) as Hl'; split_and!; [congruence|lia|].
    all: rewrite Hk, N2Nat.inj_add, expand_add by (rewrite ?length_history by lia; lia).
    all: rewrite <-Hh; unfold history; rewrite (copied_expand off (pos + k) ml' out' out'') by (done || lia).
    all: apply expand_app_prefix; len_lia.
Qed.

Lemma general_step_sim USE_DICT input out ip pos ext_dict :
  let D := dict_of USE_DICT ext_dict in
  buffer_ok input -> buffer_ok out -> ip <= len input -> pos <= len out ->
  general_sim D input (length out) ip (general_step USE_DICT input out ip pos ext_dict)
    (ref_step input (len D) (len out) ip (history D out pos)).
Proof.
  intros D Hi Ho Hip Hpos. unfold general_step, ref_step, at_out, at_h.
  assert (Hst : stands D (length out) out pos (history D out pos)) by done.
  destruct (input.[ip]) as [tok|] eqn:Htok; mstep; [|done].
  apply lookup_some_lt in Htok. unfold TOKEN_LEN.
  pose proof (read_literal_length_total input (ip + 1) tok (len out) ltac:(lia)) as Hl.
  destruct (read_literal_length _ _ _ _) as [[lit ip1]| | |]; try done; mstep.
  destruct Hl as (Hip1 & Hip1' & Hlit).
  assert (Hhl : len (history D out pos) - len D = pos) by (rewrite length_history; lia).
  rewrite Hhl. clear Hhl.
  pose proof (general_literals_ok input ip1 out pos lit Hi Ho Hip1' Hpos Hlit) as Hg.
  destruct (N.ltb_spec (len input) (ip1 + lit)); [by rewrite Hg|].
  destruct (N.ltb_spec (len out) (pos + lit)); [by rewrite Hg|].
  destruct Hg as ([[out1 ip2] pos1] & Hg & -> & -> & Hlc). rewrite Hg. mstep. clear Hg.
  rewrite <-(lit_copied_history D _ _ _ _ _ _ Hlc).
  destruct Hlc as [Hlen1 _].
  assert (Hb1 : buffer_ok out1) by (unfold buffer_ok in *; rewrite Hlen1; done).
  assert (Hst1 : stands D (length out) out1 (pos + lit) (history D out1 (pos + lit))).
  { split; [done|]. split; [lia|done]. }
  destruct (N.leb_spec (len input) (ip1 + lit)); [done|].
  pose proof (read_offset_total input (ip1 + lit)) as Hro.
  destruct (read_offset _ _) as [[off ip3]| | |]; try done; mstep.
  destruct Hro as (-> & Hip3 & Hoff).
  rewrite Hlen1.
  pose proof (read_match_length_total input (ip1 + lit + OFFSET_LEN) tok (len out) Hip3) as Hml.
  destruct (read_match_length _ _ _ _) as [[ml ip4]| | |]; try done; mstep.
  destruct Hml as (Hip4 & Hip4' & Hml1 & Hml).
  assert (Hhl : len (history D out1 (pos + lit)) = len D + (pos + lit)) by (rewrite length_history; lia).
  rewrite Hhl. replace (len D + (pos + lit) - len D) with (pos + lit) by lia.
  rewrite len_exceeds_capacity_ok, expected_output_size_ok by mlia. mstep.
  destruct (N.ltb_spec (len out) (pos + lit + ml)); [done|].
  pose proof (general_match_half USE_DICT out1 (pos + lit) ext_dict off ml Hb1
    ltac:(lia) ltac:(lia) ltac:(clia) ltac:(lia) ip4) as Hm.
  cbn zeta in Hm. fold D in Hm.
  destruct (N.ltb_spec (len D + (pos + lit)) off); [by rewrite Hm|].
  destruct Hm as (e & -> & out2 & pos2 & -> & Hst2). rewrite Hlen1 in Hst2.
  split; [done|]. split; [clia|done].
Qed.
End simulation.

(** ** The fast loop simulates the reference step *)

Section fast_simulation.
Context `{T : Target}.
Implicit Types (input out ext_dict h : bytes) (ip pos : N).

Lemma read_integer_one input ip b max :
  input.[ip] = Some b -> u8 b <> 255 ->
  read_integer_bounded input ip max = Ok (u8 b, ip + 1).
Proof.
  intros Hb Hn. unfold read_integer_bounded. cbn [read_integer_loop]. rewrite Hb. mstep.
  pose proof (u8_lt b). rewrite checked_add_ok by mlia. mstep.
  unfold EXT_MORE. by destruct (N.eqb_spec (u8 b) 255).
Qed.

Lemma read_literal_length_short input ip tok max :
  N.shiftr (u8 tok) ML_BITS <> RUN_MASK ->
  read_literal_length input ip tok max = Ok (N.shiftr (u8 tok) ML_BITS, ip).
Proof. intros. unfold read_literal_length. by bcase. Qed.

Lemma read_literal_length_ext input ip tok max n ip' :
  N.shiftr (u8 tok) ML_BITS = RUN_MASK -> RUN_MASK + n <= usize_max ->
  read_integer_bounded input ip max = Ok (n, ip') ->
  read_literal_length input ip tok max = Ok (RUN_MASK + n, ip').
Proof.
  intros Hn Hm Hr. unfold read_literal_length. rewrite Hn, N.eqb_refl, Hr. mstep.
  by rewrite checked_add_ok.
Qed.

Lemma read_match_length_short input ip tok max :
  N.land (u8 tok) ML_MASK <> ML_MASK ->
  read_match_length input ip tok max = Ok (MINMATCH + N.land (u8 tok) ML_MASK, ip).
Proof. intros. unfold read_match_length. by bcase. Qed.

Lemma read_match_length_one input ip tok max b :
  N.land (u8 tok) ML_MASK = ML_MASK -> input.[ip] = Some b -> u8 b <> 255 ->
  read_match_length input ip tok max = Ok (MINMATCH + ML_MASK + u8 b, ip + 1).
Proof.
  intros Hn Hb Hx. unfold read_match_length. rewrite Hn, N.eqb_refl.
  rewrite (read_integer_one _ _ b) by done. mstep. pose proof (u8_lt b).
  by rewrite checked_add_ok by mlia.
Qed.

Lemma read_offset_ok input ip :
  ip + 2 <= len input -> from_le (sub input ip 2) <> 0 ->
  read_offset input ip = Ok (from_le (sub input ip 2), ip + 2).
Proof. intros. unfold read_offset, OFFSET_LEN. bcase. mstep. by bcase. Qed.

Lemma ref_step_done input dl cap ip h tok lit ip1 :
  input.[ip] = Some tok -> read_literal_length input (ip + 1) tok cap = Ok (lit, ip1) ->
  ip1 + lit = len input -> len h - dl + lit <= cap ->
  ref_step input dl cap ip h = Ok (RDone (h ++ sub input ip1 lit)).
Proof.
  intros Ht Hl He Hc. unfold ref_step, at_h. rewrite Ht. mstep. rewrite Hl. mstep.
  by repeat bcase.
Qed.

Lemma ref_step_next input dl cap ip h tok lit ip1 off ip2 ml ip3 :
  input.[ip] = Some tok -> read_literal_length input (ip + 1) tok cap = Ok (lit, ip1) ->
  ip1 + lit < len input -> dl <= len h -> len h - dl + lit + ml <= cap ->
  read_offset input (ip1 + lit) = Ok (off, ip2) ->
  read_match_length input ip2 tok cap = Ok (ml, ip3) ->
  off <= len h + lit ->
  ref_step input dl cap ip h = Ok (RNext ip3 (expand (h ++ sub input ip1 lit) off (N.to_nat ml))).
Proof.
  intros Ht Hl He Hd Hc Ho Hm Hoff. unfold ref_step, at_h. rewrite Ht. mstep. rewrite Hl. mstep.
  do 3 bcase. rewrite Ho. mstep. rewrite Hm. mstep.
  rewrite length_app, length_sub by lia. by repeat bcase.
Qed.

(** A literal run followed by a match within the output. *)
Lemma history_lit_match (D : bytes) input sp pos lit off ml out out1 out2 :
  lit_copied input sp pos lit out out1 -> match_copied off (pos + lit) ml out1 out2 ->
  1 <= off -> off <= pos + lit -> pos + lit + ml <= len out ->
  history D out2 (pos + lit + ml)
  = expand (history D out pos ++ sub input sp lit) off (N.to_nat ml).
Proof.
  intros [Hl Ht] Hm H1 H2 H3. unfold history at 1.
  rewrite (copied_expand off (pos + lit) ml out1 out2) by (done || lia).
  rewrite <-expand_app_prefix by len_lia. rewrite Ht. unfold history. by rewrite app_assoc.
Qed.

Definition fast_sim (D : bytes) input (n : nat) (ip initial : N)
  (f : res DecompressError fast_exit) (r : res (bytes * DecompressError) ref_exit) : Prop :=
  match f with
  | Ok FBreak => True
  | Ok (FNext out ip' pos) => exists h,
      r = Ok (RNext ip' h) /\ ip < ip' <= len input /\ initial <= pos /\ stands D n out pos h
  | Ok (FReturn out pos k) => exists h,
      r = Ok (RDone h) /\ initial <= pos /\ k = pos - initial /\ stands D n out pos h
  | _ => False
  end.

Lemma fast_last_sim (D : bytes) input ip start out pos lit initial tok cap :
  input.[ip] = Some tok -> cap = len out ->
  read_literal_length input (ip + 1) tok cap = Ok (lit, start) ->
  start + lit = len input -> pos + lit <= len out -> initial <= pos -> pos <= len out ->
  fast_sim D input (length out) ip initial (fast_last input start out pos lit initial)
    (ref_step input (len D) cap ip (history D out pos)).
Proof.
  intros Ht -> Hl He Hc Hi Hp. unfold fast_last.
  destruct (copy_from_src_ok (E:=DecompressError) input start out pos lit)
    as ([out' pos'] & -> & -> & Hlc); [lia|lia|]. mstep.
  rewrite usub_ok by lia. mstep. cbn [fast_sim].
  exists (history D out pos ++ sub input start lit). split_and!.
  - eapply ref_step_done; try done. rewrite length_history; lia.
  - lia.
  - done.
  - destruct Hlc as [Hlen Hlt]. split; [done|]. split; [lia|].
    unfold history. rewrite Hlt. by rewrite app_assoc.
Qed.

(** A sequence copied as a literal run and an in-output match. *)
Lemma fast_next_sim (D : bytes) input ip out pos tok lit ip1 off ml ip3 initial out1 out2 :
  input.[ip] = Some tok ->
  read_literal_length input (ip + 1) tok (len out) = Ok (lit, ip1) ->
  ip1 + lit + 2 <= len input -> ip < ip1 -> off = from_le (sub input (ip1 + lit) 2) ->
  read_match_length input (ip1 + lit + 2) tok (len out) = Ok (ml, ip3) ->
  ip1 + lit + 2 <= ip3 <= len input ->
  1 <= off -> off <= pos + lit -> pos + lit + ml <= len out -> initial <= pos ->
  lit_copied input ip1 pos lit out out1 -> match_copied off (pos + lit) ml out1 out2 ->
  fast_sim D input (length out) ip initial (Ok (FNext out2 ip3 (pos + lit + ml)))
    (ref_step input (len D) (len out) ip (history D out pos)).
Proof.
  intros Ht Hl Hin Hip -> Hm Hip3 H1 H2 H3 Hi Hlc Hmc. cbn [fast_sim]. eexists. split_and!.
  - eapply ref_step_next; [done|done|lia|rewrite length_history; lia| | |done|].
    + rewrite length_history; lia.
    + apply read_offset_ok; lia.
    + rewrite length_history; lia.
  - lia.
  - lia.
  - lia.
  - pose proof (copied_length _ _ _ _ _ Hmc). pose proof (proj1 Hlc).
    split; [congruence|]. split; [lia|].
    symmetry. by apply (history_lit_match D input ip1 pos lit _ ml out out1 out2).
Qed.

Lemma fast_long_literal_sim (D : bytes) input out ip pos initial tok :
  buffer_ok input -> buffer_ok out -> ip + FAST_IN <= len input ->
  input.[ip] = Some tok -> N.shiftr (u8 tok) ML_BITS = RUN_MASK ->
  initial <= pos -> pos <= len out ->
  fast_sim D input (length out) ip initial
    (fast_long_literal input (sub input ip FAST_IN) tok ip out pos initial)
    (ref_step input (len D) (len out) ip (history D out pos)).
Proof.
  intros Hbi Hbo Hin Ht Hn Hi Hp. unfold fast_long_literal.
  destruct (index_ok (E:=DecompressError) (sub input ip FAST_IN) TOKEN_LEN) as (b & Hb & ->); [clia|].
  rewrite lookup_sub in Hb by clia. mstep. pose proof (u8_lt b).
  destruct (N.eqb_spec (u8 b) EXT_MORE) as [He|He].
  - pose proof (read_integer_bounded_total input (ip + TOKEN_LEN) (len out)) as Hr.
    destruct (read_integer_bounded _ _ _) as [[n start]| | |] eqn:Hri; try done.
    destruct Hr as (Hs1 & Hs2 & Hs3).
    destruct (N.eqb_spec (start + (RUN_MASK + n)) (len input)); [|done].
    destruct (N.leb_spec (pos + (RUN_MASK + n)) (len out)); [|done]. cbn [andb].
    eapply fast_last_sim; try done. apply read_literal_length_ext; [done|mlia|done].
  - assert (Hl : read_literal_length input (ip + 1) tok (len out) = Ok (RUN_MASK + u8 b, ip + 1 + 1)).
    { apply read_literal_length_ext; [done|mlia|]. by apply read_integer_one. }
    set (lit := RUN_MASK + u8 b) in *. unfold TOKEN_LEN, EXT_LEN.
    destruct (N.eqb_spec (ip + 1 + 1 + lit) (len input)); cbn [andb].
    1: destruct (N.leb_spec (pos + lit) (len out)); [by eapply fast_last_sim|].
    all: destruct (N.ltb_spec (len input) (ip + 1 + 1 + lit + LONG_CHUNK)); [done|].
    all: destruct (N.ltb_spec (len out) (pos + lit + LONG_CHUNK)); [done|]; cbn [orb].
    1: exfalso; clia.
    rewrite chunk_ok by clia. mstep. change OFFSET_LEN with 2 at 1.
    set (off := from_le _).
    destruct (N.eqb_spec (N.land (u8 tok) ML_MASK) ML_MASK) as [|Hml]; [done|].
    destruct (N.ltb_spec off MATCH_CHUNK); [done|].
    destruct (N.ltb_spec (pos + lit) off); [done|]. cbn [orb].
    assert (Hmlb : N.land (u8 tok) ML_MASK < 15) by (rewrite nibble_lo in *; clia).
    destruct (copy_literals_32_ok (E:=DecompressError) input (ip + 1 + 1) out pos lit)
      as (out1 & -> & Hlc); [clia|clia|]. mstep. pose proof (proj1 Hlc).
    destruct (wild_match_copy_18_ok (E:=DecompressError) out1 (pos + lit) off
      (MINMATCH + N.land (u8 tok) ML_MASK)) as ([out2 pos2] & -> & -> & Hmc); [clia..|]. mstep.
    eapply fast_next_sim; try done; try clia.
    by apply read_match_length_short.
Qed.

Lemma store_short_literal_ok input ip out pos lit :
  ip + FAST_IN <= len input -> pos + WIDE_CHUNK <= len out -> lit <= WIDE_CHUNK ->
  returns (store_short_literal (sub input ip FAST_IN) out pos) (lit_copied input (ip + 1) pos lit out).
Proof.
  intros H1 H2 H3. unfold store_short_literal, chunk, store. rewrite slice_ok by clia. mstep.
  rewrite sub_sub by clia. replace (TOKEN_LEN + WIDE_CHUNK - TOKEN_LEN) with WIDE_CHUNK by clia.
  rewrite write_at_ok by clia. apply returns_ok. apply literal_chunk_ok; clia.
Qed.

(** A short match that lies wholly in the dictionary, copied as 18 bytes. *)
Lemma dict_match_history (D out : bytes) pos off ml :
  pos + SHORT_MATCH_MAX <= len out -> pos + SHORT_MATCH_MAX <= off -> off <= len D + pos ->
  ml <= SHORT_MATCH_MAX ->
  history D (splice out pos (sub D (len D - (off - pos)) SHORT_MATCH_MAX)) (pos + ml)
  = expand (history D out pos) off (N.to_nat ml).
Proof.
  intros H1 H2 H3 H4. rewrite <-expand_dict by clia.
  rewrite (lit_copied_history D D (len D - (off - pos)) pos ml out) by (apply literal_chunk_ok; clia).
  by rewrite (lit_copied_history D D (len D - (off - pos)) pos ml out) by (apply literal_chunk_ok; clia).
Qed.

Lemma fast_dict_sim (D : bytes) input ip out pos tok lit off initial out1 :
  input.[ip] = Some tok -> lit = N.shiftr (u8 tok) ML_BITS -> lit <> RUN_MASK ->
  N.land (u8 tok) ML_MASK <> ML_MASK ->
  ip + FAST_IN <= len input -> off = from_le (sub input (ip + 1 + lit) 2) ->
  pos + lit + SHORT_MATCH_MAX <= len out -> initial <= pos ->
  pos + lit + SHORT_MATCH_MAX <= off -> off - (pos + lit) <= len D ->
  lit_copied input (ip + 1) pos lit out out1 ->
  let ml := MINMATCH + N.land (u8 tok) ML_MASK in
  fast_sim D input (length out) ip initial
    (Ok (FNext (splice out1 (pos + lit) (sub D (len D - (off - (pos + lit))) SHORT_MATCH_MAX))
           (ip + TOKEN_LEN + OFFSET_LEN + lit) (pos + lit + ml)))
    (ref_step input (len D) (len out) ip (history D out pos)).
Proof.
  intros Ht Hlit Hl Hm Hin Hoff Ho Hi Hfar HD Hlc ml. cbn [fast_sim].
  assert (Hll : lit <= 14) by (subst lit; rewrite nibble_hi in *; pose proof (u8_lt tok); clia).
  assert (Hml : 4 <= ml <= 18) by (subst ml; rewrite nibble_lo in *; clia).
  eexists. split_and!.
  - eapply ref_step_next with (ip1 := ip + 1) (lit := lit) (off := off) (ml := ml);
      [done|subst lit; by apply read_literal_length_short|clia|rewrite length_history; clia| | | |].
    + rewrite length_history; clia.
    + subst off. apply read_offset_ok; clia.
    + subst ml. replace (ip + TOKEN_LEN + OFFSET_LEN + lit) with (ip + 1 + lit + 2) by clia.
      by apply read_match_length_short.
    + rewrite length_history; clia.
  - clia.
  - clia.
  - lia.
  - pose proof (proj1 Hlc). split; [rewrite length_splice; clia|].
    split; [rewrite length_splice; clia|].
    rewrite dict_match_history by clia. by rewrite (lit_copied_history D input (ip + 1) pos lit out out1).
Qed.

Lemma idx_small i : i <= u32_max -> idx i = i.
Proof. intros. unfold idx, u32_max in *. apply N.mod_small. lia. Qed.

Lemma fast_iter_sim USE_DICT input out ip pos initial ext_dict :
  let D := dict_of USE_DICT ext_dict in
  buffer_ok input -> buffer_ok out -> fast_enabled input out = true ->
  ip <= len input -> initial <= pos -> pos <= len out ->
  fast_sim D input (length out) ip initial
    (fast_iter USE_DICT input out ip pos initial ext_dict)
    (ref_step input (len D) (len out) ip (history D out pos)).
Proof.
  intros D Hbi Hbo Hf Hip Hi Hp. unfold fast_iter.
  unfold fast_enabled in Hf. apply andb_prop in Hf as [Hf1%N.leb_le Hf2%N.leb_le].
  rewrite !idx_small by lia.
  destruct (N.ltb_spec (len input) (ip + FAST_IN)) as [|Hin]; [done|].
  rewrite chunk_ok by clia. mstep.
  destruct (index_ok (E:=DecompressError) (sub input ip FAST_IN) 0) as (tok & Ht & ->); [clia|].
  rewrite lookup_sub, N.add_0_r in Ht by clia. mstep.
  destruct (N.eqb_spec (N.shiftr (u8 tok) ML_BITS) RUN_MASK) as [Hr|Hr].
  { by apply fast_long_literal_sim. }
  set (lit := N.shiftr (u8 tok) ML_BITS) in *.
  assert (Hll : lit <= 14) by (subst lit; rewrite nibble_hi in *; pose proof (u8_lt tok); clia).
  destruct (N.ltb_spec (len out) (pos + lit + SHORT_MATCH_MAX)) as [|Ho]; [done|].
  rewrite chunk_ok by clia. mstep. rewrite sub_sub by clia. change OFFSET_LEN with 2 at 1. replace (ip + (TOKEN_LEN + lit)) with (ip + 1 + lit) by clia.
  set (off := from_le _).
  destruct (store_short_literal_ok input ip out pos lit) as (out1 & Hs & Hlc); [clia..|].
  pose proof (proj1 Hlc).
  destruct (N.eqb_spec (N.land (u8 tok) ML_MASK) ML_MASK) as [Hm|Hm]; cbn [negb].
  - destruct (index_ok (E:=DecompressError) (sub input ip FAST_IN) (TOKEN_LEN + OFFSET_LEN + lit))
      as (b & Hb & ->); [clia|].
    rewrite lookup_sub in Hb by clia. mstep.
    destruct (N.eqb_spec (u8 b) EXT_MORE) as [|Hbx]; [done|].
    destruct (N.ltb_spec off WIDE_CHUNK); [done|].
    destruct (N.ltb_spec (pos + lit) off); [done|]. cbn [orb].
    destruct (N.ltb_spec (len out) (pos + lit + (MINMATCH + ML_MASK + u8 b) + LONG_CHUNK)); [done|].
    rewrite Hs. mstep.
    destruct (wild_copy_match_long_ok (E:=DecompressError) out1 (pos + lit) off
      (MINMATCH + ML_MASK + u8 b)) as (out2 & -> & Hmc); [clia..|]. mstep.
    eapply fast_next_sim; try done; try clia.
    + by apply read_literal_length_short.
    + replace (ip + TOKEN_LEN + OFFSET_LEN + EXT_LEN + lit) with (ip + 1 + lit + 2 + 1) by clia.
      apply read_match_length_one; [done| |done]. rewrite <-Hb. f_equal. clia.
  - assert (Hmlb : N.land (u8 tok) ML_MASK < 15) by (rewrite nibble_lo in *; clia).
    destruct (N.leb_spec MATCH_CHUNK off), (N.leb_spec off (pos + lit)); cbn [andb].
    1: { rewrite Hs. mstep.
      destruct (wild_match_copy_18_ok (E:=DecompressError) out1 (pos + lit) off
        (MINMATCH + N.land (u8 tok) ML_MASK)) as ([out2 pos2] & -> & -> & Hmc); [clia..|]. mstep.
      eapply fast_next_sim; try done; try clia.
      - by apply read_literal_length_short.
      - replace (ip + TOKEN_LEN + OFFSET_LEN + lit) with (ip + 1 + lit + 2) by clia.
        by apply read_match_length_short. }
    all: destruct USE_DICT; cbn [andb]; [|done].
    all: destruct (N.ltb_spec (pos + lit) off); [|done].
    all: destruct (N.leb_spec SHORT_MATCH_MAX (off - (pos + lit))); [|done]; cbn [andb].
    all: destruct (N.leb_spec (off - (pos + lit)) (len ext_dict)); [|done].
    all: rewrite Hs; mstep; rewrite chunk_ok by clia; mstep; unfold store.
    all: rewrite write_at_ok by clia; mstep.
    all: apply (fast_dict_sim ext_dict input ip out pos tok lit off initial out1); try done; clia.
Qed.
End fast_simulation.

(** ** The loops compute the closure of the reference step *)

Section loops.
Context `{T : Target}.
Implicit Types (input out ext_dict h : bytes) (ip pos initial : N).

(** What the fast loop has done when it ends. *)
Definition fast_outcome_ok (D : bytes) input (n : nat) cap ip initial h
  (o : fast_outcome) : Prop :=
  match o with
  | FastBreak out' ip' pos' =>
      ip <= ip' <= len input /\ initial <= pos' /\ pos' <= len out' /\ length out' = n /\
      forall hf e, ref_eval input (len D) cap ip' (history D out' pos') hf e ->
                   ref_eval input (len D) cap ip h hf e
  | FastReturn out' pos' k =>
      initial <= pos' /\ pos' <= len out' /\ length out' = n /\ k = pos' - initial /\
      ref_eval input (len D) cap ip h (history D out' pos') None
  end.

Lemma fast_loop_sim fuel USE_DICT input out ip pos initial ext_dict :
  let D := dict_of USE_DICT ext_dict in
  buffer_ok input -> buffer_ok out -> fast_enabled input out = true ->
  ip <= len input -> initial <= pos -> pos <= len out ->
  (length input - N.to_nat ip < fuel)%nat ->
  returns (fast_loop fuel USE_DICT input out ip pos initial ext_dict)
    (fast_outcome_ok D input (length out) (len out) ip initial (history D out pos)).
Proof.
  intros D Hbi. revert out ip pos. induction fuel as [|fuel IH];
    intros out ip pos Hbo Hf Hip Hi Hp Hfuel; [lia|]. cbn [fast_loop].
  pose proof (fast_iter_sim USE_DICT input out ip pos initial ext_dict Hbi Hbo Hf Hip Hi Hp) as Hs.
  fold D in Hs. cbn zeta in Hs. unfold fast_sim in Hs.
  destruct (fast_iter _ _ _ _ _ _ _) as [[out1 ip1 pos1| |out1 pos1 n]| | |]; try done; mstep.
  - destruct Hs as (h & Hr & Hip1 & Hi1 & Hl1 & Hp1 & ->).
    assert (Hlen : len out1 = len out) by (by rewrite Hl1).
    destruct (IH out1 ip1 pos1) as (o & Ho & Hok); try done; try lia.
    { unfold buffer_ok in *. by rewrite Hlen. }
    { unfold fast_enabled in *. by rewrite Hlen. }
    exists o. split; [done|]. rewrite Hl1 in Hok.
    destruct o as [out2 ip2 pos2|out2 pos2 n]; cbn in *.
    + destruct Hok as (? & ? & ? & ? & Hev). split_and!; try lia.
      intros hf e He. eapply ev_next; [done|]. by apply Hev.
    + destruct Hok as (? & ? & ? & ? & Hev). split_and!; try lia.
      by eapply ev_next.
  - apply returns_ok. cbn. split_and!; try lia. done.
  - destruct Hs as (h & Hr & Hi1 & -> & Hl1 & Hp1 & ->). apply returns_ok. cbn.
    split_and!; try lia. by apply ev_done.
Qed.

(** The outcome of the decoder, related to the reference. *)
Definition body_sim (D : bytes) input (n : nat) cap ip initial h
  (r : res failure (bytes * N * N)) : Prop :=
  match r with
  | Ok (out, pos, k) =>
      length out = n /\ initial <= pos /\ pos <= len out /\ k = pos - initial /\
      ref_eval input (len D) cap ip h (history D out pos) None
  | Err (out, pos, e) =>
      length out = n /\ pos <= len out /\
      ref_eval input (len D) cap ip h (history D out pos) (Some e)
  | _ => False
  end.

(** What can be observed of an outcome: the bytes up to the position, the count
    and the error. *)
Definition observe (r : res failure (bytes * N * N)) : option (bytes * N * option DecompressError) :=
  match r with
  | Ok (out, pos, n) => Some (take (N.to_nat pos) out, n, None)
  | Err (out, pos, e) => Some (take (N.to_nat pos) out, 0, Some e)
  | Panic | NoFuel => None
  end.

(** The reference determines what can be observed. *)
Lemma body_sim_det (D : bytes) input n cap ip initial h r1 r2 :
  body_sim D input n cap ip initial h r1 -> body_sim D input n cap ip initial h r2 ->
  observe r1 = observe r2.
Proof.
  intros H1 H2. destruct r1 as [[[o1 p1] n1]|[[o1 p1] e1]| |]; try done;
    destruct r2 as [[[o2 p2] n2]|[[o2 p2] e2]| |]; try done; cbn in H1, H2 |- *;
    repeat match goal with H : _ /\ _ |- _ => destruct H end;
    match goal with He1 : ref_eval _ _ _ _ _ _ _, He2 : ref_eval _ _ _ _ _ _ _ |- _ =>
      destruct (ref_eval_det _ _ _ _ _ _ _ _ _ He1 He2) as [Hh [=]] end;
    pose proof (f_equal length Hh) as Hlen; rewrite !length_history in Hlen by lia;
    apply app_inv_head in Hh; subst; rewrite Hh; do 2 f_equal; f_equal; lia.
Qed.

(** The position never moves back. *)
Lemma ref_step_grows input dl cap ip h ip' h' :
  dl <= len h -> ref_step input dl cap ip h = Ok (RNext ip' h') -> len h <= len h'.
Proof.
  intros Hd. unfold ref_step, at_h.
  destruct (input.[ip]); mstep; [|done].
  pose proof (read_literal_length_total input (ip + 1)) as Hrl.
  destruct (read_literal_length _ _ _ _) as [[lit ip1]| | |]; try done; mstep.
  do 3 (case_match; [done|]).
  pose proof (read_offset_total input (ip1 + lit)) as Hro.
  destruct (read_offset _ _) as [[off ip2]| | |]; try done; mstep. destruct Hro as (_ & _ & Hoff).
  destruct (read_match_length _ _ _ _) as [[ml ip3]| | |]; try done; mstep.
  bcase; [done|]. bcase; [done|]. intros [= <- <-]. rewrite length_expand by lia. len_lia.
Qed.

Lemma ref_step_done_grows input dl cap ip h h' :
  ref_step input dl cap ip h = Ok (RDone h') -> len h <= len h'.
Proof.
  unfold ref_step, at_h. destruct (input.[ip]); mstep; [|done].
  destruct (read_literal_length _ _ _ _) as [[lit ip1]| | |]; try done; mstep.
  do 2 (case_match; [done|]). bcase; [intros [= <-]; len_lia|].
  destruct (read_offset _ _) as [[off ip2]| | |]; try done; mstep.
  destruct (read_match_length _ _ _ _) as [[ml ip3]| | |]; try done; mstep.
  by repeat case_match.
Qed.

Lemma stands_grows (D : bytes) n out pos out' pos' h :
  stands D n out' pos' h -> length out = n -> pos <= len out ->
  len (history D out pos) <= len h -> pos <= pos'.
Proof. intros (Hl & Hp & ->) Hl' Hp'. rewrite !length_history by lia. lia. Qed.

Lemma body_loop_sim fuel USE_DICT fast input out ip pos initial ext_dict :
  let D := dict_of USE_DICT ext_dict in
  buffer_ok input -> buffer_ok out -> (fast = true -> fast_enabled input out = true) ->
  ip <= len input -> initial <= pos -> pos <= len out ->
  (length input - N.to_nat ip < fuel)%nat ->
  body_sim D input (length out) (len out) ip initial (history D out pos)
    (body_loop fuel USE_DICT fast input out ip pos initial ext_dict).
Proof.
  intros D Hbi. revert out ip pos. induction fuel as [|fuel IH];
    intros out ip pos Hbo Hf Hip Hi Hp Hfuel; [lia|]. cbn [body_loop].
  assert (Hfast : returns (if fast
      then fast_loop (S (length input)) USE_DICT input out ip pos initial ext_dict
      else Ok (FastBreak out ip pos))
    (fast_outcome_ok D input (length out) (len out) ip initial (history D out pos))).
  { destruct fast; [apply fast_loop_sim; auto; lia|].
    apply returns_ok. cbn. split_and!; try lia. done. }
  destruct Hfast as (o & -> & Ho). unfold at_out at 1. mstep.
  destruct o as [out1 ip1 pos1|out1 pos1 n]; cbn in Ho; [|by destruct Ho as (? & ? & ? & ? & ?)].
  destruct Ho as (Hip1 & Hi1 & Hp1 & Hl1 & Hev).
  assert (Hlen : len out1 = len out) by (by rewrite Hl1).
  assert (Hbo1 : buffer_ok out1) by (unfold buffer_ok in *; by rewrite Hlen).
  pose proof (general_step_sim USE_DICT input out1 ip1 pos1 ext_dict Hbi Hbo1 ltac:(lia) Hp1) as Hg.
  cbn zeta in Hg. fold D in Hg. rewrite Hl1 in Hg. unfold general_sim in Hg.
  destruct (general_step _ _ _ _ _ _) as [[out2 ip2 pos2|out2 pos2]|[[out2 pos2] e]| |]; try done;
    destruct (ref_step _ _ _ _ _) as [[ip2' h|h]|[h e']| |] eqn:Hr; try done; mstep.
  - destruct Hg as (<- & Hip2 & Hst).
    assert (Hi2 : pos1 <= pos2).
    { eapply stands_grows; [done..|]. eapply ref_step_grows; [|done].
      rewrite length_history; lia. }
    destruct Hst as (Hl2 & Hp2 & ->). assert (Hlen2 : len out2 = len out) by (by rewrite Hl2).
    specialize (IH out2 ip2 pos2). rewrite Hl2 in IH.
    assert (Hb : body_sim D input (length out) (len out) ip2 initial (history D out2 pos2)
      (body_loop fuel USE_DICT fast input out2 ip2 pos2 initial ext_dict)).
    { apply IH; try done; try lia.
      - unfold buffer_ok in *. by rewrite Hlen2.
      - unfold fast_enabled in *. by rewrite Hlen2. }
    destruct (body_loop _ _ _ _ _ _ _ _ _) as [[[out3 pos3] k]|[[out3 pos3] e]| |]; cbn in *;
      try done; naive_solver eauto using ev_next.
  - assert (Hi2 : pos1 <= pos2).
    { eapply stands_grows; [done..|]. eapply ref_step_done_grows. done. }
    destruct Hg as (Hl2 & Hp2 & ->). rewrite usub_ok by lia. mstep. cbn.
    split_and!; try done; try lia. apply Hev. by apply ev_done.
  - destruct Hg as (<- & Hl2 & Hp2 & ->). cbn. split_and!; try done. apply Hev. by apply ev_err.
Qed.

(** The decoder neither panics nor runs out of fuel, and computes the
    reference. *)
Lemma decompress_body_sim USE_DICT input out pos ext_dict :
  let D := dict_of USE_DICT ext_dict in
  buffer_ok input -> buffer_ok out -> pos <= len out ->
  body_sim D input (length out) (len out) 0 pos (history D out pos)
    (decompress_body USE_DICT input out pos ext_dict).
Proof.
  intros D Hbi Hbo Hp. unfold decompress_body, assert.
  destruct (N.leb_spec pos (len out)); [|lia]. mstep.
  apply body_loop_sim; try done; lia.
Qed.
End loops.
