(* ===== verification/DecompressSpec.v ===== *)
(** * The block decoder against the block format

    The reference step reads what [decode_from] reads; the decoder therefore
    succeeds exactly on the blocks of the format whose output fits, with the
    bytes of the format.  This file states the properties of the decoder's
    entry points. *)

From S2P Require Import Prelude BlockSpec Core Primitives Decompress DecompressProofs.

(** ** Lengths *)

Section lengths.
Context `{T : Target}.
Implicit Types (input h : bytes) (ip cap : N).

Lemma read_integer_bounded_ext input ip max m ip' :
  read_integer_bounded input ip max = Ok (m, ip') -> m <= max ->
  read_ext (drop (N.to_nat ip) input) = Some (m, drop (N.to_nat ip') input).
Proof.
  intros H Hm. apply read_integer_loop_ext in H as [-> _]; [|done]. by rewrite N.sub_0_r.
Qed.

Lemma read_integer_bounded_complete input ip max k r :
  read_ext (drop (N.to_nat ip) input) = Some (k, r) -> k <= max -> max <= usize_max ->
  exists ip', read_integer_bounded input ip max = Ok (k, ip') /\
    r = drop (N.to_nat ip') input /\ ip < ip' <= len input.
Proof. intros. by apply (read_integer_loop_complete _ input ip 0 max k r); [|lia..]. Qed.

(** A length of the source whose extension is within the limit is the
    format's, both ways. *)
Lemma read_literal_length_sound input ip tok max l ip' :
  read_literal_length input ip tok max = Ok (l, ip') -> l <= max + 15 ->
  read_len (u8 tok / 16) (drop (N.to_nat ip) input) = Some (l, drop (N.to_nat ip') input).
Proof.
  unfold read_literal_length, read_len. rewrite nibble_hi. unfold RUN_MASK.
  destruct (N.eqb_spec (u8 tok / 16) 15) as [Hn|]; [|by intros [= <- <-]].
  destruct (read_integer_bounded _ _ _) as [[n ip1]| | |] eqn:Hr; try done. mstep.
  destruct (checked_add _ n) as [l'|] eqn:Hc; [|done]. mstep. intros [= <- <-] Hl.
  apply checked_add_inv in Hc as [-> _].
  rewrite (read_integer_bounded_ext _ _ _ _ _ Hr) by lia. cbn. by rewrite Hn.
Qed.

Lemma read_match_length_sound input ip tok max l ip' :
  read_match_length input ip tok max = Ok (l, ip') -> l <= max + 19 ->
  exists m, read_len (u8 tok mod 16) (drop (N.to_nat ip) input)
            = Some (m, drop (N.to_nat ip') input) /\ l = 4 + m.
Proof.
  unfold read_match_length, read_len. rewrite nibble_lo. unfold ML_MASK, MINMATCH.
  pose proof (u8_lt tok).
  destruct (N.eqb_spec (4 + u8 tok mod 16) (4 + 15)) as [Hn|]; last first.
  { intros [= <- <-] _. bcase. by eexists. }
  destruct (read_integer_bounded _ _ _) as [[n ip1]| | |] eqn:Hr; try done. mstep.
  destruct (checked_add _ n) as [l'|] eqn:Hc; [|done]. mstep. intros [= <- <-] Hl.
  apply checked_add_inv in Hc as [-> _].
  rewrite (read_integer_bounded_ext _ _ _ _ _ Hr) by lia. cbn. bcase.
  exists (15 + n). split; [done|lia].
Qed.

Lemma read_literal_length_complete input ip tok max l r :
  read_len (u8 tok / 16) (drop (N.to_nat ip) input) = Some (l, r) ->
  ip <= len input -> l <= max + 15 -> max + 15 <= usize_max ->
  exists ip', read_literal_length input ip tok max = Ok (l, ip') /\
    r = drop (N.to_nat ip') input /\ ip <= ip' <= len input.
Proof.
  unfold read_literal_length, read_len. rewrite nibble_hi. unfold RUN_MASK.
  destruct (N.eqb_spec (u8 tok / 16) 15) as [Hn|].
  - destruct (read_ext _) as [[n r']|] eqn:He; [|done]. cbn. intros [= <- <-] Hip Hl Hc.
    destruct (read_integer_bounded_complete _ _ max _ _ He) as (ip' & -> & -> & ?); [lia..|].
    mstep. rewrite Hn, checked_add_ok by lia. exists ip'. split; [done|]. split; [done|lia].
  - intros [= <- <-]. eauto with lia.
Qed.

Lemma read_match_length_complete input ip tok max m r :
  read_len (u8 tok mod 16) (drop (N.to_nat ip) input) = Some (m, r) ->
  ip <= len input -> 4 + m <= max + 19 -> max + 19 <= usize_max ->
  exists ip', read_match_length input ip tok max = Ok (4 + m, ip') /\
    r = drop (N.to_nat ip') input /\ ip <= ip' <= len input.
Proof.
  unfold read_match_length, read_len. rewrite nibble_lo. unfold ML_MASK, MINMATCH.
  pose proof (u8_lt tok).
  destruct (N.eqb_spec (u8 tok mod 16) 15) as [Hn|Hn].
  - destruct (read_ext _) as [[n r']|] eqn:He; [|done]. cbn. intros [= <- <-] Hip Hl Hc.
    bcase. destruct (read_integer_bounded_complete _ _ max _ _ He) as (ip' & -> & -> & ?); [lia..|].
    mstep. rewrite Hn, checked_add_ok by lia. exists ip'. replace (4 + (15 + n)) with (4 + 15 + n) by lia. split; [done|].
    split; [done|lia].
  - intros [= <- <-] Hip Hl Hc. bcase. exists ip. split; [done|]. split; [done|lia].
Qed.

Lemma drop_two input ip b0 b1 l :
  drop (N.to_nat ip) input = b0 :: b1 :: l ->
  ip + 2 <= len input /\ sub input ip 2 = [b0; b1] /\ l = drop (N.to_nat (ip + 2)) input.
Proof.
  intros H. pose proof (f_equal length H) as Hl. cbn in Hl. rewrite length_drop in Hl.
  split; [lia|]. unfold sub. rewrite H. split; [done|].
  replace (N.to_nat (ip + 2)) with (N.to_nat ip + 2)%nat by lia. by rewrite <-drop_drop, H.
Qed.

Lemma two_left input ip : ip + 2 <= len input ->
  exists b0 b1 l, drop (N.to_nat ip) input = b0 :: b1 :: l.
Proof.
  intros H. pose proof (length_drop input (N.to_nat ip)).
  destruct (drop _ input) as [|b0 [|b1 l]]; cbn in *; [lia..|]. eauto.
Qed.

Lemma read_offset_format input ip off ip' :
  read_offset input ip = Ok (off, ip') ->
  exists b0 b1, drop (N.to_nat ip) input = b0 :: b1 :: drop (N.to_nat (ip + 2)) input /\
    off = from_le [b0; b1].
Proof.
  unfold read_offset, OFFSET_LEN. bcase; mstep; [|done].
  destruct (two_left input ip) as (b0 & b1 & l & Hb); [done|].
  destruct (drop_two _ _ _ _ _ Hb) as (_ & Hs & ->). rewrite Hs. bcase; [done|].
  intros [= <- <-]. by exists b0, b1.
Qed.
End lengths.

(** ** One sequence of the format *)

Lemma decode_from_grows fuel h l hf : decode_from fuel h l = Some hf -> len h <= len hf.
Proof.
  revert h l. induction fuel as [|fuel IH]; intros h l; [done|].
  destruct l as [|tok l]; [done|]. cbn [decode_from].
  destruct (read_len _ l) as [[lit l1]|]; cbn; [|done]. case_match; [done|].
  destruct (drop _ l1) as [|b0 [|b1 l2]]; [intros [= <-]; len_lia|done|].
  destruct (read_len _ l2) as [[ml l3]|]; cbn -[from_le]; [|done].
  destruct (N.eqb_spec (from_le [b0; b1]) 0); [done|].
  destruct (N.ltb_spec (len (h ++ take (N.to_nat lit) l1)) (from_le [b0; b1])); [done|].
  intros Hd%IH. rewrite length_expand in Hd by lia. len_lia.
Qed.

(** What follows the literals of a sequence: nothing, or a match. *)
Definition decode_tail (fuel : nat) (tok : byte) (h l : bytes) : option bytes :=
  match l with
  | [] => Some h
  | [_] => None
  | b0 :: b1 :: l =>
      let off := from_le [b0; b1] in
      '(mlen, l) ← read_len (u8 tok mod 16) l;
      if (off =? 0) || (len h <? off) then None else
      decode_from fuel (expand h off (N.to_nat (4 + mlen))) l
  end.

Lemma decode_seq fuel h tok l lit l1 :
  read_len (u8 tok / 16) l = Some (lit, l1) -> lit <= len l1 ->
  decode_from (S fuel) h (tok :: l)
  = decode_tail fuel tok (h ++ take (N.to_nat lit) l1) (drop (N.to_nat lit) l1).
Proof. intros Hl Hle. cbn [decode_from]. rewrite Hl. cbn. by bcase. Qed.

Lemma decode_match fuel tok h b0 b1 l2 ml l3 :
  read_len (u8 tok mod 16) l2 = Some (ml, l3) -> 1 <= from_le [b0; b1] <= len h ->
  decode_tail fuel tok h (b0 :: b1 :: l2)
  = decode_from fuel (expand h (from_le [b0; b1]) (N.to_nat (4 + ml))) l3.
Proof. intros Hm Ho. cbn -[from_le]. rewrite Hm. cbn. by do 2 bcase. Qed.

Lemma decode_seq_inv fuel h tok l hf :
  decode_from (S fuel) h (tok :: l) = Some hf ->
  exists lit l1, read_len (u8 tok / 16) l = Some (lit, l1) /\ lit <= len l1 /\
    decode_tail fuel tok (h ++ take (N.to_nat lit) l1) (drop (N.to_nat lit) l1) = Some hf.
Proof.
  cbn [decode_from]. destruct (read_len _ l) as [[lit l1]|] eqn:Hl; cbn; [|done].
  destruct (N.ltb_spec (len l1) lit); [done|]. intros Hd. by exists lit, l1.
Qed.

Lemma decode_tail_inv fuel tok h l hf :
  decode_tail fuel tok h l = Some hf -> len h <= len hf /\
  ((l = [] /\ hf = h) \/
   exists b0 b1 l2 ml l3, l = b0 :: b1 :: l2 /\ read_len (u8 tok mod 16) l2 = Some (ml, l3) /\
     1 <= from_le [b0; b1] <= len h /\
     decode_from fuel (expand h (from_le [b0; b1]) (N.to_nat (4 + ml))) l3 = Some hf).
Proof.
  destruct l as [|b0 [|b1 l2]]; cbn -[from_le]; [intros [= <-]; split; [lia|by left]|done|].
  destruct (read_len _ l2) as [[ml l3]|] eqn:Hm; cbn -[from_le]; [|done].
  destruct (N.eqb_spec (from_le [b0; b1]) 0); [done|].
  destruct (N.ltb_spec (len h) (from_le [b0; b1])); [done|]. cbn [orb]. intros Hd. split.
  - pose proof (decode_from_grows _ _ _ _ Hd) as Hg. rewrite length_expand in Hg by lia. lia.
  - right. exists b0, b1, l2, ml, l3. split_and!; try done; lia.
Qed.

(** ** The reference step and [decode_from] *)

Section steps.
Context `{T : Target}.
Implicit Types (input h : bytes) (ip dl cap : N).

(** A step of the reference is a sequence of the format. *)
Lemma ref_step_sound fuel input dl cap ip h e :
  dl <= len h -> ip <= len input -> ref_step input dl cap ip h = Ok e ->
  match e with
  | RNext ip' h' =>
      decode_from (S fuel) h (drop (N.to_nat ip) input)
      = decode_from fuel h' (drop (N.to_nat ip') input) /\
      ip < ip' <= len input /\ len h' - dl <= cap
  | RDone hf => decode_from (S fuel) h (drop (N.to_nat ip) input) = Some hf /\ len hf - dl <= cap
  end.
Proof.
  intros Hd Hip. unfold ref_step, at_h.
  destruct (input.[ip]) as [tok|] eqn:Ht; mstep; [|done]. pose proof (lookup_some_lt _ _ _ Ht).
  rewrite (drop_S _ _ _ Ht). cbn [decode_from].
  replace (S (N.to_nat ip)) with (N.to_nat (ip + 1)) by lia.
  pose proof (read_literal_length_total input (ip + 1) tok cap ltac:(lia)) as Hlt.
  destruct (read_literal_length _ _ _ _) as [[lit ip1]| | |] eqn:Hl; try done. mstep.
  destruct Hlt as (Hip1 & Hip1' & _).
  destruct (N.ltb_spec (len input) (ip1 + lit)); [done|].
  destruct (N.ltb_spec cap (len h - dl + lit)); [done|].
  rewrite (read_literal_length_sound _ _ _ _ _ _ Hl) by lia. cbn.
  rewrite drop_drop. replace (N.to_nat ip1 + N.to_nat lit)%nat with (N.to_nat (ip1 + lit)) by lia.
  change (take (N.to_nat lit) (drop (N.to_nat ip1) input)) with (sub input ip1 lit).
  destruct (N.ltb_spec (len (drop (N.to_nat ip1) input)) lit); [len_lia|].
  destruct (N.leb_spec (len input) (ip1 + lit)).
  { intros [= <-]. rewrite (drop_ge input) by lia. split; [done|]. rewrite length_app, length_sub; lia. }
  pose proof (read_offset_total input (ip1 + lit)) as Hrt.
  destruct (read_offset _ _) as [[off ip2]| | |] eqn:Ho; try done. mstep.
  destruct Hrt as (-> & Hip2 & Hoff). unfold OFFSET_LEN in *.
  destruct (read_offset_format _ _ _ _ Ho) as (b0 & b1 & -> & ->).
  pose proof (read_match_length_total input (ip1 + lit + 2) tok cap ltac:(lia)) as Hmt.
  destruct (read_match_length _ _ _ _) as [[ml ip3]| | |] eqn:Hm; try done. mstep.
  destruct Hmt as (Hip3 & Hip3' & _ & _).
  set (h1 := h ++ sub input ip1 lit).
  destruct (N.ltb_spec cap (len h1 - dl + ml)); [done|].
  destruct (read_match_length_sound _ _ _ _ _ _ Hm) as (m & Hrl & ->); [lia|].
  destruct (N.ltb_spec (len h1) (from_le [b0; b1])); [done|]. intros [= <-].
  rewrite Hrl. cbn.
  destruct (N.ltb_spec (len h1) (from_le [b0; b1])); [lia|].
  destruct (N.eqb_spec (from_le [b0; b1]) 0); [lia|]. cbn [orb].
  split; [done|]. split; [lia|]. rewrite length_expand by lia.
  assert (len h <= len h1) by (subst h1; len_lia). lia.
Qed.

(** A sequence of the format that fits is a step of the reference. *)
Lemma ref_step_complete fuel input dl cap ip h hf :
  dl <= len h -> ip <= len input -> cap + 1024 <= isize_max ->
  decode_from (S fuel) h (drop (N.to_nat ip) input) = Some hf -> len hf - dl <= cap ->
  ref_step input dl cap ip h = Ok (RDone hf) \/
  exists ip' h', ref_step input dl cap ip h = Ok (RNext ip' h') /\ ip < ip' <= len input /\
    len h <= len h' /\ decode_from fuel h' (drop (N.to_nat ip') input) = Some hf.
Proof.
  intros Hd Hip Hcap Hdec Hf. unfold ref_step, at_h.
  destruct (input.[ip]) as [tok|] eqn:Ht; last first.
  { apply lookup_ge_None in Ht. rewrite drop_ge in Hdec by lia. done. }
  mstep. pose proof (lookup_some_lt _ _ _ Ht).
  rewrite (drop_S _ _ _ Ht) in Hdec.
  replace (S (N.to_nat ip)) with (N.to_nat (ip + 1)) in Hdec by lia.
  apply decode_seq_inv in Hdec as (lit & l1 & Hl & Hl1 & Hdec).
  destruct (decode_tail_inv _ _ _ _ _ Hdec) as [Hg Htail].
  rewrite length_app, length_take in Hg.
  apply (read_literal_length_complete _ _ _ cap) in Hl as (ip1 & -> & -> & Hip1);
    [|lia|lia|mlia].
  mstep. rewrite length_drop in *. do 2 bcase. rewrite drop_drop in *.
  replace (N.to_nat ip1 + N.to_nat lit)%nat with (N.to_nat (ip1 + lit)) in * by lia.
  change (take (N.to_nat lit) (drop (N.to_nat ip1) input)) with (sub input ip1 lit) in *.
  destruct (N.leb_spec (len input) (ip1 + lit)) as [Hge|].
  { rewrite (drop_ge input) in Htail by lia.
    destruct Htail as [[_ ->]|(?&?&?&?&?&[=]&_)]. by left. }
  right. set (h1 := h ++ sub input ip1 lit) in *.
  destruct Htail as [[Hnil _]|(b0 & b1 & l & ml & l3 & Hb & Hm & Ho & Hrec)].
  { apply (f_equal length) in Hnil. rewrite length_drop in Hnil. cbn in Hnil. lia. }
  destruct (drop_two _ _ _ _ _ Hb) as (Hip2 & Hs & ->).
  pose proof (decode_from_grows _ _ _ _ Hrec) as Hg2. rewrite length_expand in Hg2 by lia.
  assert (Hh1 : len h <= len h1) by (subst h1; len_lia).
  rewrite read_offset_ok by (rewrite ?Hs; lia || done). mstep. rewrite Hs.
  apply (read_match_length_complete _ _ _ cap) in Hm as (ip3 & -> & -> & Hip3);
    [|lia|lia|mlia].
  mstep. do 2 bcase. eexists _, _. split; [done|]. split; [lia|].
  split; [|done]. rewrite length_expand; lia.
Qed.

Lemma ref_eval_sound input dl cap ip h hf :
  ref_eval input dl cap ip h hf None -> dl <= len h -> ip <= len input ->
  exists fuel, decode_from fuel h (drop (N.to_nat ip) input) = Some hf /\ len hf - dl <= cap.
Proof.
  intros He. remember None as e eqn:Hn.
  induction He as [ip h ip' h' hf e Hs He IH|ip h hf Hs|ip h hf e Hs]; intros Hd Hip; try done.
  - pose proof (ref_step_grows _ _ _ _ _ _ _ Hd Hs).
    assert (Hstep : forall fuel, decode_from (S fuel) h (drop (N.to_nat ip) input)
      = decode_from fuel h' (drop (N.to_nat ip') input) /\
      ip < ip' <= len input /\ len h' - dl <= cap)
      by (intros fuel; exact (ref_step_sound fuel _ _ _ _ _ _ Hd Hip Hs)).
    destruct (Hstep 0%nat) as (_ & ? & _). destruct (IH Hn) as (fuel & Hf & Hc); [lia..|].
    destruct (Hstep fuel) as (Heq & _). exists (S fuel). by rewrite Heq.
  - exists 1%nat. apply (ref_step_sound 0 _ _ _ _ _ _ Hd Hip Hs).
Qed.

Lemma ref_eval_complete fuel input dl cap ip h hf :
  dl <= len h -> ip <= len input -> cap + 1024 <= isize_max ->
  decode_from fuel h (drop (N.to_nat ip) input) = Some hf -> len hf - dl <= cap ->
  ref_eval input dl cap ip h hf None.
Proof.
  revert ip h. induction fuel as [|fuel IH]; intros ip h Hd Hip Hc Hdec Hf; [done|].
  destruct (ref_step_complete _ _ _ _ _ _ _ Hd Hip Hc Hdec Hf) as [Hs|(ip' & h' & Hs & ? & ? & ?)].
  - by apply ev_done.
  - eapply ev_next; [done|]. apply IH; try done; lia.
Qed.
End steps.

(** ** The decoder's contract *)

Lemma expand_prefix_of h off n : h `prefix_of` expand h off n.
Proof.
  revert h. induction n as [|n IH]; intros h; cbn [expand]; [done|].
  case_match; [|done]. etrans; [|apply IH]. by apply prefix_app_r.
Qed.

Section contract.
Context `{T : Target}.
Implicit Types (input out ext_dict h : bytes) (ip pos cap : N).

Lemma ref_step_prefix input dl cap ip h :
  match ref_step input dl cap ip h with
  | Ok (RNext _ h') | Ok (RDone h') | Err (h', _) => h `prefix_of` h'
  | _ => True
  end.
Proof.
  unfold ref_step, at_h. destruct (input.[ip]); mstep; [|done].
  destruct (read_literal_length _ _ _ _) as [[lit ip1]| | |]; mstep; try done.
  destruct (len input <? ip1 + lit); [done|]. destruct (cap <? len h - dl + lit); [done|].
  destruct (len input <=? ip1 + lit); [by apply prefix_app_r|].
  destruct (read_offset _ _) as [[off ip2]| | |]; mstep; try (done || by apply prefix_app_r).
  destruct (read_match_length _ _ _ _) as [[ml ip3]| | |]; mstep; try (done || by apply prefix_app_r).
  do 2 (match goal with |- context [if ?b then Err _ else _] => destruct b end;
    [by apply prefix_app_r|]).
  etrans; [|apply expand_prefix_of]. by apply prefix_app_r.
Qed.

Lemma ref_eval_prefix input dl cap ip h hf e :
  ref_eval input dl cap ip h hf e -> h `prefix_of` hf.
Proof.
  induction 1 as [ip h ip' h' hf e Hs He IH|ip h hf Hs|ip h hf e Hs];
    pose proof (ref_step_prefix input dl cap ip h) as Hp; rewrite Hs in Hp; [by etrans|done..].
Qed.

Lemma history_prefix (D : bytes) out pos out' pos' :
  pos <= len out -> history D out pos `prefix_of` history D out' pos' ->
  take (N.to_nat pos) out' = take (N.to_nat pos) out.
Proof.
  unfold history. intros Hp [k Hk]. rewrite <-app_assoc in Hk. apply app_inv_head in Hk.
  assert (Hpos : (N.to_nat pos <= N.to_nat pos')%nat).
  { apply (f_equal length) in Hk. autorewrite with lz4_len in Hk. lia. }
  replace (N.to_nat pos) with (N.to_nat pos `min` N.to_nat pos')%nat at 1 by lia.
  rewrite <-take_take, Hk. rewrite take_app_le by len_lia. rewrite take_take. f_equal. lia.
Qed.

(** What a call of the decoder guarantees on each outcome. *)
Definition decoder_post (D input out : bytes) (pos : N) (r : res failure (bytes * N * N)) : Prop :=
  match r with
  | Ok (out', pos', n) =>
      length out' = length out /\ pos <= pos' <= len out /\ n = pos' - pos /\
      take (N.to_nat pos) out' = take (N.to_nat pos) out /\
      decode_from (S (length input)) (history D out pos) input = Some (history D out' pos')
  | Err (out', pos', e) =>
      length out' = length out /\ pos' <= len out /\
      take (N.to_nat pos) out' = take (N.to_nat pos) out /\
      forall hf, decode_from (S (length input)) (history D out pos) input = Some hf ->
                 len out < len hf - len D
  | Panic | NoFuel => False
  end.

Lemma decode_from_enough fuel f2 h l hf :
  (length l < f2)%nat -> decode_from fuel h l = Some hf -> decode_from f2 h l = Some hf.
Proof.
  revert f2 h l. induction fuel as [|fuel IH]; intros f2 h l Hf; [done|].
  destruct f2 as [|f2]; [lia|].
  destruct l as [|tok l]; [done|]. cbn [decode_from]. cbn [length] in Hf.
  destruct (read_len _ l) as [[lit l1]|] eqn:E1; cbn; [|done].
  apply read_len_shorter in E1. case_match; [done|].
  pose proof (length_drop l1 (N.to_nat lit)) as Hd.
  destruct (drop _ l1) as [|b0 [|b1 l2]]; [done..|]. cbn [length] in Hd.
  destruct (read_len _ l2) as [[ml l3]|] eqn:E2; cbn; [|done].
  apply read_len_shorter in E2. case_match; [done|]. apply IH. lia.
Qed.

Lemma decoder_post_ok USE_DICT input out pos ext_dict :
  buffer_ok input -> buffer_ok out -> pos <= len out ->
  decoder_post (dict_of USE_DICT ext_dict) input out pos
    (decompress_body USE_DICT input out pos ext_dict).
Proof.
  intros Hbi Hbo Hp. set (D := dict_of USE_DICT ext_dict).
  pose proof (decompress_body_sim USE_DICT input out pos ext_dict Hbi Hbo Hp) as Hs.
  cbn zeta in Hs. fold D in Hs.
  destruct (decompress_body _ _ _ _ _) as [[[out' pos'] n]|[[out' pos'] e]| |]; cbn -[decode_from] in Hs; try done.
  - destruct Hs as (Hl & Hpp & Hp' & -> & He). cbn -[decode_from].
    pose proof (history_prefix D out pos out' pos' Hp (ref_eval_prefix _ _ _ _ _ _ _ He)).
    apply ref_eval_sound in He as (fuel & Hd & _); [|rewrite length_history; lia|lia].
    split_and!; try (done || lia). apply (decode_from_enough fuel); [lia|exact Hd].
  - destruct Hs as (Hl & Hp' & He). cbn -[decode_from].
    pose proof (history_prefix D out pos out' pos' Hp (ref_eval_prefix _ _ _ _ _ _ _ He)).
    split_and!; try (done || lia). intros hf Hd.
    destruct (N.ltb_spec (len out) (len hf - len D)) as [|Hle]; [done|].
    eapply (ref_eval_complete _ _ (len D) (len out) 0) in Hd as He';
      [|rewrite length_history; lia|lia|done|done].
    by destruct (ref_eval_det _ _ _ _ _ _ _ _ _ He He').
Qed.

(** Decoding at the start of an output buffer. *)
Lemma history_0 (D out : bytes) : history D out 0 = D.
Proof. unfold history. by rewrite app_nil_r. Qed.

Lemma block_decode_history (D input out' : bytes) pos' :
  decode_from (S (length input)) D input = Some (history D out' pos') ->
  block_decode D input = Some (take (N.to_nat pos') out').
Proof. intros H. unfold block_decode. rewrite H. cbn -[decode_from]. unfold history. by rewrite drop_app_length. Qed.

Lemma block_decode_some (D input d : bytes) :
  block_decode D input = Some d -> decode_from (S (length input)) D input = Some (D ++ d).
Proof.
  unfold block_decode. destruct (decode_from _ D input) as [hf|] eqn:Hd; cbn -[decode_from]; [|done].
  intros [= <-]. f_equal.
  assert (Hp : D `prefix_of` hf).
  { clear -Hd. revert Hd. generalize (S (length input)) as fuel. intros fuel. revert D input.
    induction fuel as [|fuel IH]; intros D l; [done|]. destruct l as [|tok l]; [done|].
    cbn [decode_from]. destruct (read_len _ l) as [[lit l1]|]; cbn; [|done]. case_match; [done|].
    destruct (drop _ l1) as [|b0 [|b1 l2]]; [intros [= <-]; by apply prefix_app_r|done|].
    destruct (read_len _ l2) as [[ml l3]|]; cbn; [|done]. case_match; [done|].
    intros Hd%IH. etrans; [|done]. etrans; [|apply expand_prefix_of]. by apply prefix_app_r. }
  destruct Hp as [k ->]. by rewrite drop_app_length.
Qed.

(** A successful call from position 0, in terms of [block_decode]. *)
Definition entry_post (D input output : bytes) (r : res (bytes * DecompressError) (bytes * N)) : Prop :=
  match r with
  | Ok (output', n) =>
      length output' = length output /\ n <= len output /\
      block_decode D input = Some (take (N.to_nat n) output')
  | Err (output', e) =>
      length output' = length output /\
      forall d, block_decode D input = Some d -> len output < len d
  | Panic | NoFuel => False
  end.

Lemma entry_post_ok USE_DICT input output ext_dict :
  buffer_ok input -> buffer_ok output ->
  match decompress_internal USE_DICT input (OutSinkImpl.new output 0) ext_dict with
  | Ok (s, n) => os_pos s = n /\
      entry_post (dict_of USE_DICT ext_dict) input output (Ok (os_output s, n))
  | Err (s, e) => entry_post (dict_of USE_DICT ext_dict) input output (Err (os_output s, e))
  | Panic | NoFuel => False
  end.
Proof.
  intros Hbi Hbo. unfold decompress_internal. cbn [os_output os_pos OutSinkImpl.new].
  pose proof (decoder_post_ok USE_DICT input output 0 ext_dict Hbi Hbo ltac:(lia)) as H.
  destruct (decompress_body _ _ _ _ _) as [[[out' pos'] n]|[[out' pos'] e]| |]; cbn -[decode_from] in H; try done;
    cbn [entry_post os_output os_pos OutSinkImpl.new]; rewrite history_0 in H.
  - destruct H as (Hl & Hp & -> & _ & Hd). rewrite N.sub_0_r. split_and!; try (done || lia).
    by apply block_decode_history.
  - destruct H as (Hl & Hp & _ & Hd). split; [done|]. intros d Hb.
    apply block_decode_some in Hb. apply Hd in Hb. rewrite length_app in Hb. lia.
Qed.

Lemma decompress_into_with_dict_post input output dict :
  buffer_ok input -> buffer_ok output ->
  entry_post dict input output (decompress_into_with_dict input output dict).
Proof.
  intros Hbi Hbo. pose proof (entry_post_ok true input output dict Hbi Hbo) as H.
  unfold decompress_into_with_dict.
  destruct (decompress_internal _ _ _ _) as [[s n]|[s e]| |]; [apply H|apply H|done..].
Qed.

Lemma decompress_into_post input output :
  buffer_ok input -> buffer_ok output ->
  entry_post [] input output (decompress_into input output).
Proof.
  intros Hbi Hbo. pose proof (entry_post_ok false input output [] Hbi Hbo) as H.
  unfold decompress_into.
  destruct (decompress_internal _ _ _ _) as [[s n]|[s e]| |]; [apply H|apply H|done..].
Qed.

(** The contract read as an equivalence with the format. *)
Lemma entry_post_iff D input output r d :
  entry_post D input output r ->
  (exists output', r = Ok (output', len d) /\ take (length d) output' = d) <->
  (block_decode D input = Some d /\ len d <= len output).
Proof.
  intros Hr. split.
  - intros (o & -> & Ht). destruct Hr as (Hl & Hn & Hd). rewrite Nat2N.id, Ht in Hd. done.
  - intros [Hd Hn]. destruct r as [[o n]|[o e]| |]; cbn in Hr; try done.
    + destruct Hr as (Hl & Hn' & Hd'). rewrite Hd in Hd'. injection Hd' as ->.
      exists o. split; [|f_equal; len_lia]. do 2 f_equal. len_lia.
    + destruct Hr as (_ & He). specialize (He _ Hd). lia.
Qed.
End contract.

(** ** Decoding with history in the buffer, and into a vector *)

Section appending.
Context `{T : Target}.
Implicit Types (input output dict : bytes).

(** A call that decodes after the bytes already written. *)
Definition sink_post (D input : bytes) (s : SliceSink)
  (r : res (SliceSink * DecompressError) (SliceSink * N)) : Prop :=
  match r with
  | Ok (s', n) =>
      length (sink_output s') = length (sink_output s) /\
      sink_pos s' = sink_pos s + n /\ sink_ok s' /\
      exists d, written s' = written s ++ d /\ len d = n /\
        block_decode (D ++ written s) input = Some d
  | Err (s', e) =>
      length (sink_output s') = length (sink_output s) /\ sink_ok s' /\
      take (N.to_nat (sink_pos s)) (sink_output s') = written s /\
      forall d, block_decode (D ++ written s) input = Some d ->
                len (sink_output s) < sink_pos s + len d
  | Panic | NoFuel => False
  end.

Lemma sink_post_ok USE_DICT input (s : SliceSink) ext_dict :
  buffer_ok input -> buffer_ok (sink_output s) -> sink_ok s ->
  sink_post (dict_of USE_DICT ext_dict) input s
    (decompress_into_sink_with_dict USE_DICT input s ext_dict).
Proof.
  intros Hbi Hbo Hp. unfold decompress_into_sink_with_dict, decompress_internal.
  cbn [output_mut_with_pos SliceSink_Sink os_output os_pos OutSinkImpl.new].
  pose proof (decoder_post_ok USE_DICT input (sink_output s) (sink_pos s) ext_dict Hbi Hbo Hp) as H.
  set (D := dict_of _ _) in *.
  destruct (decompress_body _ _ _ _ _) as [[[out' pos'] n]|[[out' pos'] e]| |];
    cbn -[decode_from] in H; try done; cbn -[decode_from].
  - destruct H as (Hl & Hpp & -> & Ht & Hd). split_and!; [done|lia| |].
    { unfold sink_ok. cbn. lia. }
    exists (sub out' (sink_pos s) (pos' - sink_pos s)). unfold written. cbn.
    split_and!.
    + rewrite <-Ht, take_sub by lia. f_equal. lia.
    + rewrite length_sub by lia. lia.
    + change (D ++ take _ _) with (history D (sink_output s) (sink_pos s)).
      unfold block_decode. rewrite Hd. cbn -[decode_from]. f_equal.
      unfold history. rewrite <-Ht.
      replace (take (N.to_nat pos') out') with
        (take (N.to_nat (sink_pos s)) out' ++ sub out' (sink_pos s) (pos' - sink_pos s)).
      { rewrite app_assoc, drop_app_length. done. }
      rewrite take_sub by lia. do 2 f_equal. lia.
  - destruct H as (Hl & Hpp & Ht & He). split_and!; [done| |done|].
    { unfold sink_ok. cbn. lia. }
    intros d Hd. change (D ++ written s) with (history D (sink_output s) (sink_pos s)) in Hd.
    pose proof Hp as Hp'. unfold sink_ok in Hp'. cbn in Hp'.
    apply block_decode_some in Hd. apply He in Hd.
    unfold history, written in Hd. autorewrite with lz4_len in Hd. lia.
Qed.

Definition append_post (D input output : bytes) (max_size : N)
  (r : res (bytes * DecompressError) (bytes * N)) : Prop :=
  match r with
  | Ok (output', n) =>
      exists d, output' = output ++ d /\ len d = n /\ n <= max_size /\
        block_decode D input = Some d
  | Err (output', e) =>
      output' = output /\ forall d, block_decode D input = Some d -> max_size < len d
  | Panic | NoFuel => False
  end.

Lemma append_post_ok USE_DICT input output max_size ext_dict :
  buffer_ok input -> len output + max_size + 1024 <= isize_max ->
  append_post (dict_of USE_DICT ext_dict) input output max_size
    (decompress_append_internal USE_DICT input output max_size ext_dict).
Proof.
  intros Hbi Hm. unfold decompress_append_internal, assert. bcase. mstep. access.
  rewrite drop_app_length' by lia.
  assert (Hbo : buffer_ok (replicate (N.to_nat max_size) x00)) by (unfold buffer_ok; len_lia).
  pose proof (entry_post_ok USE_DICT input _ ext_dict Hbi Hbo) as Hpost.
  rewrite !(take_app_length' output) by lia.
  destruct (decompress_internal _ _ _ _) as [[s n]|[s e]| |]; cbn [entry_post] in Hpost; try done;
    cbn [append_post].
  - destruct Hpost as (_ & Hl & Hn & Hd). autorewrite with lz4_len in Hl, Hn.
    exists (take (N.to_nat n) (os_output s)). split_and!; [|len_lia|lia|done].
    rewrite take_app_ge by lia. do 2 f_equal. lia.
  - destruct Hpost as (Hl & He). rewrite length_replicate in He. split.
    + apply take_app_length'. lia.
    + intros d Hd. specialize (He d Hd). lia.
Qed.

(** The contract of an appending call as an equivalence. *)
Lemma append_post_iff D input output max_size r d :
  append_post D input output max_size r ->
  r = Ok (output ++ d, len d) <-> (block_decode D input = Some d /\ len d <= max_size).
Proof.
  intros Hr. split.
  - intros ->. destruct Hr as (d' & Heq & _ & ? & Hd).
    apply app_inv_head in Heq as ->. done.
  - intros [Hd Hl]. destruct r as [[o n]|[o e]| |]; try done.
    + destruct Hr as (d' & -> & <- & ? & Hd'). congruence.
    + destruct Hr as (_ & He). specialize (He d Hd). lia.
Qed.

(** Decoding into a new vector. *)
Lemma decompress_vec_iff USE_DICT D input size d : buffer_ok input -> size + 1024 <= isize_max ->
  ('(v, _) ← map_err snd (decompress_append_internal USE_DICT input [] size D); Ok v) = Ok d
  <-> block_decode (dict_of USE_DICT D) input = Some d /\ len d <= size.
Proof.
  intros Hbi Hm. pose proof (append_post_ok USE_DICT input [] size D Hbi ltac:(cbn; lia)) as H.
  rewrite <-(append_post_iff _ _ _ _ _ d H). cbn [app].
  destruct (decompress_append_internal _ _ _ _ _) as [[o n]|[o e]| |] eqn:Ha; cbn in H |- *;
    try (split; [done|by intros [=]]).
  destruct H as (d' & -> & <- & _). split; [by intros [= ->]|by intros [= <-]].
Qed.
End appending.

(** ** Errors *)

Section errors.
Context `{T : Target}.
Implicit Types (input out h : bytes) (ip pos cap : N).

(** What an error value says about the call. *)
Definition error_ok (cap : N) (e : DecompressError) : Prop :=
  match e with
  | OutputTooSmall expected actual => actual = cap /\ cap < expected
  | DecodedSizeMismatch _ _ => False
  | _ => True
  end.

Lemma read_integer_loop_error fuel input ip n max e cap :
  read_integer_loop fuel input ip n max = Err e -> error_ok cap e.
Proof.
  revert ip n. induction fuel as [|fuel IH]; intros ip n; [done|]. cbn [read_integer_loop].
  destruct (input.[ip]); mstep; [|by intros [= <-]].
  destruct (checked_add _ _); mstep; [|by intros [= <-]].
  do 2 (case_match; [done|]). apply IH.
Qed.

Lemma read_length_errors input ip tok m cap e :
  read_literal_length input ip tok m = Err e \/ read_match_length input ip tok m = Err e \/
  read_offset input ip = Err e -> error_ok cap e.
Proof.
  unfold read_literal_length, read_match_length, read_offset, read_integer_bounded.
  intros [H|[H|H]]; revert H.
  1,2: case_match; [|done];
    destruct (read_integer_loop _ _ _ _ _) as [[n i]|e'| |] eqn:Hr; mstep; try done;
    [by destruct (checked_add _ _); mstep; intros [= <-]
    |intros [= <-]; by eapply read_integer_loop_error].
  case_match; mstep; [|by intros [= <-]]. case_match; by intros [= <-].
Qed.

Lemma ref_eval_error input dl cap ip h hf e :
  ref_eval input dl cap ip h hf (Some e) -> error_ok cap e.
Proof.
  intros He. remember (Some e) as o eqn:Ho.
  induction He as [ip h ip' h' hf o Hs He IH|ip h hf Hs|ip h hf o Hs]; [auto|done|].
  injection Ho as ->. revert Hs. unfold ref_step, at_h.
  destruct (input.[ip]) as [tok|]; mstep; [|by intros [= <- <-]].
  destruct (read_literal_length _ _ _ _) as [[lit ip1]|e1| |] eqn:E1; mstep; try done;
    [|intros [= <- <-]; eapply (read_length_errors input _ tok cap); eauto].
  destruct (N.ltb_spec (len input) (ip1 + lit)); [by intros [= <- <-]|].
  destruct (N.ltb_spec cap (len h - dl + lit)); [by intros [= <- <-]|].
  case_match; [done|].
  destruct (read_offset _ _) as [[off ip2]|e1| |] eqn:E2; mstep; try done;
    [|intros [= <- <-]; eapply (read_length_errors input _ tok cap); eauto].
  destruct (read_match_length _ _ _ _) as [[ml ip3]|e1| |] eqn:E3; mstep; try done;
    [|intros [= <- <-]; eapply (read_length_errors input _ tok cap); eauto].
  match goal with |- context [N.ltb cap ?x] => destruct (N.ltb_spec cap x) end;
    [by intros [= <- <-]|].
  case_match; [by intros [= <- <-]|done].
Qed.
End errors.
