(* ===== verification/Validate.v ===== *)
(** * crates/decode: the block validator ([validate.rs])

    The validator walks a block without producing bytes.  It is a parser of
    the same format, so it is proved to accept exactly the blocks that decode
    to the expected length. *)

From S2P Require Import Prelude BlockSpec Core Primitives Decompress DecompressProofs DecompressSpec.

Record BlockValidation := { decoded_len : N }.

Section validate.
Context `{T : Target}.
Implicit Types (input dict : bytes).

Definition extension_limit (decoded_pos base_length expected : N) : N :=
  expected - decoded_pos - base_length.

Definition advance_decoded (decoded_pos length_ expected : N) : res DecompressError N :=
  actual ← ok_or LiteralOutOfBounds (checked_add decoded_pos length_);
  if expected <? actual then Err (DecodedSizeMismatch expected actual) else Ok actual.

(** How a pass of the loop ends: another sequence, or [break]. *)
Inductive validate_exit :=
| VNext (input_pos decoded_pos : N)
| VBreak (decoded_pos : N).

Definition validate_step input (expected_decoded_len dict_len input_pos decoded_pos : N)
  : res DecompressError validate_exit :=
  token ← ok_or ExpectedAnotherByte (input.[input_pos]);
  let input_pos := input_pos + 1 in
  let literal_extension_limit := extension_limit decoded_pos 15 expected_decoded_len in
  '(literal_length, input_pos) ←
    read_literal_length input input_pos token literal_extension_limit;
  decoded_pos ← advance_decoded decoded_pos literal_length expected_decoded_len;
  input_pos ← ok_or LiteralOutOfBounds
    (end_ ← checked_add input_pos literal_length;
     if end_ <=? len input then Some end_ else None);
  if input_pos =? len input then Ok (VBreak decoded_pos) else
  '(offset, input_pos) ← read_offset input input_pos;
  let match_start := decoded_pos in
  let match_extension_limit := extension_limit decoded_pos (MINMATCH + 15) expected_decoded_len in
  '(match_length, input_pos) ← read_match_length input input_pos token match_extension_limit;
  decoded_pos ← advance_decoded decoded_pos match_length expected_decoded_len;
  if (match_start <? offset) && (dict_len <? offset - match_start) then Err OffsetOutOfBounds
  else Ok (VNext input_pos decoded_pos).

Fixpoint validate_loop (fuel : nat) input (expected_decoded_len dict_len input_pos decoded_pos : N)
  : res DecompressError N :=
  match fuel with
  | O => NoFuel
  | S fuel =>
      e ← validate_step input expected_decoded_len dict_len input_pos decoded_pos;
      match e with
      | VNext input_pos decoded_pos =>
          validate_loop fuel input expected_decoded_len dict_len input_pos decoded_pos
      | VBreak decoded_pos => Ok decoded_pos
      end
  end.

Definition validate_block_internal input (expected_decoded_len dict_len : N)
  : res DecompressError BlockValidation :=
  decoded_pos ← validate_loop (S (length input)) input expected_decoded_len dict_len 0 0;
  if negb (decoded_pos =? expected_decoded_len)
  then Err (DecodedSizeMismatch expected_decoded_len decoded_pos)
  else Ok {| decoded_len := decoded_pos |}.

Definition validate_block input (expected_decoded_len : N) :=
  validate_block_internal input expected_decoded_len 0.

Definition validate_block_with_dict input (expected_decoded_len : N) dict :=
  validate_block_internal input expected_decoded_len (len dict).
End validate.

(** ** The validator accepts the blocks of the format *)

Section proofs.
Context `{T : Target}.
Implicit Types (input h : bytes) (ip pos expected dl : N).

Lemma advance_decoded_ok pos n expected :
  expected <= usize_max -> pos + n <= expected ->
  advance_decoded pos n expected = Ok (pos + n).
Proof. intros. unfold advance_decoded. rewrite checked_add_ok by lia. mstep. by bcase. Qed.

Lemma advance_decoded_inv pos n expected p :
  advance_decoded pos n expected = Ok p -> p = pos + n /\ pos + n <= expected.
Proof.
  unfold advance_decoded. destruct (checked_add pos n) eqn:Hc; mstep; [|done].
  apply checked_add_inv in Hc as [-> _]. bcase; [done|]. by intros [= <-].
Qed.

Lemma advance_decoded_total pos n expected :
  parses (advance_decoded pos n expected) (fun p => p = pos + n /\ pos + n <= expected).
Proof.
  destruct (advance_decoded pos n expected) eqn:Ha; cbn; try done.
  - by apply advance_decoded_inv in Ha.
  - revert Ha. unfold advance_decoded. destruct (checked_add _ _); mstep; [|done]. by bcase.
  - revert Ha. unfold advance_decoded. destruct (checked_add _ _); mstep; [|done]. by bcase.
Qed.

Lemma limit_le pos base l expected : pos + l <= expected ->
  l <= extension_limit pos base expected + base.
Proof. unfold extension_limit. lia. Qed.

(** A pass of the validator is a sequence of the format, read from any
    history of the right length. *)
Lemma validate_step_sound input expected dl ip pos h e :
  len h = dl + pos -> ip <= len input -> pos <= expected ->
  validate_step input expected dl ip pos = Ok e ->
  match e with
  | VNext ip' pos' => exists h',
      (forall fuel, decode_from (S fuel) h (drop (N.to_nat ip) input)
                    = decode_from fuel h' (drop (N.to_nat ip') input)) /\
      ip < ip' <= len input /\ len h' = dl + pos' /\ pos' <= expected
  | VBreak pos' => exists hf,
      decode_from 1 h (drop (N.to_nat ip) input) = Some hf /\ len hf = dl + pos'
  end.
Proof.
  intros Hh Hip Hpos. unfold validate_step.
  destruct (input.[ip]) as [tok|] eqn:Ht; mstep; [|done]. pose proof (lookup_some_lt _ _ _ Ht).
  rewrite (drop_S _ _ _ Ht). replace (S (N.to_nat ip)) with (N.to_nat (ip + 1)) by lia.
  pose proof (read_literal_length_total input (ip + 1) tok (extension_limit pos 15 expected)
    ltac:(lia)) as Hlt.
  destruct (read_literal_length _ _ _ _) as [[lit ip1]| | |] eqn:Hl; try done. mstep.
  destruct Hlt as (Hip1 & Hip1' & _).
  destruct (advance_decoded pos lit _) as [p1| | |] eqn:Ha; try done. mstep.
  apply advance_decoded_inv in Ha as [-> Hp1].
  apply read_literal_length_sound in Hl; [|by apply limit_le].
  destruct (checked_add ip1 lit) as [ip2|] eqn:Hc; cbn [mbind option_bind ok_or]; [|done].
  apply checked_add_inv in Hc as [-> _].
  destruct (N.leb_spec (ip1 + lit) (len input)); mstep; [|done].
  assert (Hseq : forall fuel, decode_from (S fuel) h (tok :: drop (N.to_nat (ip + 1)) input)
    = decode_tail fuel tok (h ++ sub input ip1 lit) (drop (N.to_nat (ip1 + lit)) input)).
  { intros fuel. rewrite (decode_seq _ _ _ _ _ _ Hl) by len_lia. rewrite drop_drop.
    by replace (N.to_nat ip1 + N.to_nat lit)%nat with (N.to_nat (ip1 + lit)) by lia. }
  destruct (N.eqb_spec (ip1 + lit) (len input)) as [He|].
  { intros [= <-]. rewrite Hseq, He, (drop_ge input) by lia. eexists. split; [done|].
    rewrite length_app, length_sub by lia. lia. }
  pose proof (read_offset_total input (ip1 + lit)) as Hrt.
  destruct (read_offset _ _) as [[off ip2]| | |] eqn:Ho; try done. mstep.
  destruct Hrt as (-> & Hip2 & Hoff). unfold OFFSET_LEN in *.
  destruct (read_offset_format _ _ _ _ Ho) as (b0 & b1 & Hb & ->). rewrite Hb in Hseq.
  pose proof (read_match_length_total input (ip1 + lit + 2) tok
    (extension_limit (pos + lit) (MINMATCH + 15) expected) ltac:(lia)) as Hmt.
  destruct (read_match_length _ _ _ _) as [[ml ip3]| | |] eqn:Hm; try done. mstep.
  destruct Hmt as (Hip3 & Hip3' & _ & _).
  destruct (advance_decoded (pos + lit) ml _) as [p2| | |] eqn:Ha; try done. mstep.
  apply advance_decoded_inv in Ha as [-> Hp2].
  destruct (read_match_length_sound _ _ _ _ _ _ Hm) as (m & Hrl & ->);
    [by apply (limit_le _ (MINMATCH + 15))|].
  set (h1 := h ++ sub input ip1 lit) in *. set (off := from_le [b0; b1]) in *.
  assert (Hh1 : len h1 = dl + pos + lit) by (subst h1; rewrite length_app, length_sub; lia).
  intros He. assert (off <= len h1 /\ e = VNext ip3 (pos + lit + (4 + m))) as [Hoff1 ->].
  { destruct (N.ltb_spec (pos + lit) off); cbn [andb] in He;
      [destruct (N.ltb_spec dl (off - (pos + lit))); [done|]|];
      injection He as <-; (split; [lia|done]). }
  exists (expand h1 off (N.to_nat (4 + m))). split; [|rewrite length_expand by lia; lia].
  intros fuel. rewrite Hseq. apply decode_match; [done|]. subst off. lia.
Qed.

(** A sequence of the format that fits is a pass of the validator. *)
Lemma validate_step_complete fuel input expected dl ip pos h hf :
  len h = dl + pos -> ip <= len input -> expected + 1024 <= isize_max -> buffer_ok input ->
  decode_from (S fuel) h (drop (N.to_nat ip) input) = Some hf -> len hf <= dl + expected ->
  validate_step input expected dl ip pos = Ok (VBreak (len hf - dl)) \/
  exists ip' pos' h', validate_step input expected dl ip pos = Ok (VNext ip' pos') /\
    ip < ip' <= len input /\ len h' = dl + pos' /\
    decode_from fuel h' (drop (N.to_nat ip') input) = Some hf.
Proof.
  intros Hh Hip Hexp Hbi Hdec Hf. unfold validate_step.
  destruct (input.[ip]) as [tok|] eqn:Ht; last first.
  { apply lookup_ge_None in Ht. rewrite drop_ge in Hdec by lia. done. }
  mstep. pose proof (lookup_some_lt _ _ _ Ht).
  rewrite (drop_S _ _ _ Ht) in Hdec.
  replace (S (N.to_nat ip)) with (N.to_nat (ip + 1)) in Hdec by lia.
  apply decode_seq_inv in Hdec as (lit & l1 & Hl & Hl1 & Hdec).
  destruct (decode_tail_inv _ _ _ _ _ Hdec) as [Hg Htail]. rewrite length_app, length_take in Hg.
  apply (read_literal_length_complete _ _ _ (extension_limit pos 15 expected))
    in Hl as (ip1 & -> & -> & Hip1); [|lia|apply limit_le; lia|unfold extension_limit; mlia].
  mstep. rewrite length_drop in *.
  rewrite advance_decoded_ok by mlia. mstep. unfold buffer_ok in *.
  rewrite checked_add_ok by mlia. cbn. rewrite drop_drop in *.
  replace (N.to_nat ip1 + N.to_nat lit)%nat with (N.to_nat (ip1 + lit)) in * by lia.
  change (take (N.to_nat lit) (drop (N.to_nat ip1) input)) with (sub input ip1 lit) in *.
  destruct (N.leb_spec (ip1 + lit) (len input)); [|lia]. cbn.
  set (h1 := h ++ sub input ip1 lit) in *.
  assert (Hh1 : len h1 = dl + pos + lit) by (subst h1; rewrite length_app, length_sub; lia).
  destruct (N.eqb_spec (ip1 + lit) (len input)) as [He|Hne].
  { rewrite He, (drop_ge input) in Htail by lia. destruct Htail as [[_ ->]|(?&?&?&?&?&[=]&_)].
    left. do 2 f_equal. lia. }
  right. destruct Htail as [[Hnil _]|(b0 & b1 & l & ml & l3 & Hb & Hm & Ho & Hrec)].
  { apply (f_equal length) in Hnil. rewrite length_drop in Hnil. cbn in Hnil. lia. }
  destruct (drop_two _ _ _ _ _ Hb) as (Hip2 & Hs & ->).
  pose proof (decode_from_grows _ _ _ _ Hrec) as Hg2. rewrite length_expand in Hg2 by lia.
  rewrite read_offset_ok by (rewrite ?Hs; lia || done). mstep. rewrite Hs.
  apply (read_match_length_complete _ _ _ (extension_limit (pos + lit) (MINMATCH + 15) expected))
    in Hm as (ip3 & -> & -> & Hip3);
    [|lia|apply (limit_le _ (MINMATCH + 15)); lia|unfold extension_limit, MINMATCH; mlia].
  mstep. rewrite advance_decoded_ok by mlia. mstep. set (off := from_le [b0; b1]) in *.
  rewrite (proj2 (andb_false_iff _ _)); last first.
  { destruct (N.ltb_spec (pos + lit) off); [right|by left]. apply N.ltb_ge. lia. }
  eexists _, _, _. split; [done|]. split; [lia|]. split; [|done]. rewrite length_expand; lia.
Qed.

Lemma validate_step_total input expected dl ip pos :
  parses (validate_step input expected dl ip pos) (fun e =>
    match e with
    | VNext ip' pos' => ip < ip' <= len input /\ pos' <= expected
    | VBreak pos' => pos' <= expected
    end).
Proof.
  unfold validate_step.
  destruct (input.[ip]) as [tok|] eqn:Ht; mstep; [|done]. pose proof (lookup_some_lt _ _ _ Ht).
  pose proof (read_literal_length_total input (ip + 1) tok (extension_limit pos 15 expected)
    ltac:(lia)) as Hlt.
  destruct (read_literal_length _ _ _ _) as [[lit ip1]| | |]; cbn in Hlt; mstep; try done.
  pose proof (advance_decoded_total pos lit expected) as Ha.
  destruct (advance_decoded _ _ _) as [p1| | |]; cbn in Ha; mstep; try done.
  destruct (checked_add ip1 lit) as [ip2|] eqn:Hc; cbn; [|done].
  apply checked_add_inv in Hc as [-> _].
  destruct (N.leb_spec (ip1 + lit) (len input)); cbn; [|done].
  destruct (N.eqb_spec (ip1 + lit) (len input)); [cbn; lia|].
  pose proof (read_offset_total input (ip1 + lit)) as Hrt.
  destruct (read_offset _ _) as [[off ip2]| | |]; cbn in Hrt; mstep; try done.
  unfold OFFSET_LEN in *.
  pose proof (read_match_length_total input ip2 tok (extension_limit p1 (MINMATCH + 15) expected)
    ltac:(lia)) as Hmt.
  destruct (read_match_length _ _ _ _) as [[ml ip3]| | |]; cbn in Hmt; mstep; try done.
  pose proof (advance_decoded_total p1 ml expected) as Ha2.
  destruct (advance_decoded _ _ _) as [p2| | |]; cbn in Ha2; mstep; try done.
  case_match; cbn; [done|lia].
Qed.

Lemma validate_loop_total fuel input expected dl ip pos :
  (length input - N.to_nat ip < fuel)%nat ->
  parses (validate_loop fuel input expected dl ip pos) (fun _ => True).
Proof.
  revert ip pos. induction fuel as [|fuel IH]; intros ip pos Hf; [lia|]. cbn [validate_loop].
  pose proof (validate_step_total input expected dl ip pos) as Hs.
  destruct (validate_step _ _ _ _ _) as [[ip' pos'|pos']| | |]; cbn in Hs; mstep; try done.
  apply IH. lia.
Qed.

Lemma validate_loop_sound fuel input expected dl ip pos h p :
  len h = dl + pos -> ip <= len input -> pos <= expected ->
  validate_loop fuel input expected dl ip pos = Ok p ->
  exists fuel' hf, decode_from fuel' h (drop (N.to_nat ip) input) = Some hf /\ len hf = dl + p.
Proof.
  revert ip pos h. induction fuel as [|fuel IH]; intros ip pos h Hh Hip Hpos; [done|].
  cbn [validate_loop].
  destruct (validate_step _ _ _ _ _) as [e| | |] eqn:Hs; mstep; try done.
  pose proof (validate_step_sound _ _ _ _ _ _ _ Hh Hip Hpos Hs) as Hstep.
  destruct e as [ip' pos'|pos'].
  - destruct Hstep as (h' & Hd & ? & Hh' & ?). intros Hv.
    destruct (IH ip' pos' h' Hh' ltac:(lia) ltac:(lia) Hv) as (f & hf & Hf & Hl).
    exists (S f), hf. by rewrite Hd.
  - intros [= <-]. by exists 1%nat.
Qed.

Lemma validate_loop_complete fuel f input expected dl ip pos h hf :
  len h = dl + pos -> ip <= len input -> expected + 1024 <= isize_max -> buffer_ok input ->
  decode_from f h (drop (N.to_nat ip) input) = Some hf -> len hf <= dl + expected ->
  (length input - N.to_nat ip < fuel)%nat ->
  validate_loop fuel input expected dl ip pos = Ok (len hf - dl).
Proof.
  revert f ip pos h. induction fuel as [|fuel IH]; intros f ip pos h Hh Hip Hexp Hbi Hd Hl Hf; [lia|].
  destruct f as [|f]; [done|]. cbn [validate_loop].
  destruct (validate_step_complete _ _ _ _ _ _ _ _ Hh Hip Hexp Hbi Hd Hl)
    as [->|(ip' & pos' & h' & -> & ? & Hh' & Hd')]; mstep; [done|].
  by apply (IH f ip' pos' h'); try done; lia.
Qed.

(** What a call of the validator says about the block. *)
Definition validate_post (D input : bytes) (expected : N) (r : res DecompressError BlockValidation)
  : Prop :=
  match r with
  | Ok v => decoded_len v = expected /\ exists d, block_decode D input = Some d /\ len d = expected
  | Err _ => forall d, block_decode D input = Some d -> len d <> expected
  | Panic | NoFuel => False
  end.

Lemma validate_post_ok (D input : bytes) expected :
  buffer_ok input -> expected + 1024 <= isize_max ->
  validate_post D input expected (validate_block_internal input expected (len D)).
Proof.
  intros Hbi Hexp. unfold validate_block_internal.
  pose proof (validate_loop_total (S (length input)) input expected (len D) 0 0 ltac:(lia)) as Ht.
  assert (Hc : forall d, block_decode D input = Some d -> len d <= expected ->
    validate_loop (S (length input)) input expected (len D) 0 0 = Ok (len d)).
  { intros d Hd%block_decode_some Hl.
    rewrite (validate_loop_complete _ (S (length input)) _ _ _ _ _ D (D ++ d)); len_lia || done || idtac.
    f_equal. len_lia. }
  destruct (validate_loop _ _ _ _ _ _) as [p|e| |] eqn:Hv; try done; mstep.
  - apply (validate_loop_sound _ _ _ _ _ _ D) in Hv as (f & hf & Hd & Hl); [|lia..].
    apply (decode_from_enough _ (S (length input))) in Hd; [|rewrite drop_0; lia].
    assert (Hb : block_decode D input = Some (drop (length D) hf)).
    { unfold block_decode. change (drop (N.to_nat 0) input) with input in Hd. by rewrite Hd. }
    destruct (N.eqb_spec p expected) as [->|]; cbn [negb validate_post decoded_len].
    + split; [done|]. eexists. split; [exact Hb|]. len_lia.
    + intros d Hd'. rewrite Hb in Hd'. injection Hd' as <-. len_lia.
  - intros d Hd He. discriminate (Hc d Hd). lia.
Qed.

Lemma validate_post_iff (D input : bytes) expected r :
  validate_post D input expected r ->
  r = Ok {| decoded_len := expected |} <->
  exists d, block_decode D input = Some d /\ len d = expected.
Proof.
  intros Hr. split; [intros ->; apply Hr|]. intros (d & Hd & Hl).
  destruct r as [v|e| |]; try done.
  - destruct Hr as [Hv _]. destruct v. cbn in Hv. by subst.
  - by destruct (Hr d Hd).
Qed.
End proofs.
