(* ===== verification/DecoderTheorems.v ===== *)
(** * Properties of crates/decode

    The theorems that state what the decoder and the validator promise, with
    concrete instances.  They follow from the contracts of [DecompressSpec]
    and [Validate]. *)

From S2P Require Import Prelude BlockSpec Core Primitives Decompress DecompressProofs DecompressSpec Validate.

(** ** Sample blocks *)

Definition bytes_of (l : list N) : bytes := to_u8 <$> l.

(** ["abcd"], a match of length 8 at offset 4, ["efghi"]. *)
Definition sample_block : bytes :=
  bytes_of [68; 97; 98; 99; 100; 4; 0; 80; 101; 102; 103; 104; 105].
Definition sample_data : bytes :=
  bytes_of [97; 98; 99; 100; 97; 98; 99; 100; 97; 98; 99; 100; 101; 102; 103; 104; 105].

(** A match of length 4 into the dictionary, then ["efghi"]. *)
Definition dict_block : bytes := bytes_of [0; 4; 0; 80; 101; 102; 103; 104; 105].
Definition sample_dict : bytes := bytes_of [119; 120; 121; 122].
Definition dict_data : bytes := sample_dict ++ bytes_of [101; 102; 103; 104; 105].

(** Closes a decidable side condition on concrete data. *)
Ltac concrete := by vm_compute.

(** ** Decoding *)

(** C1: [decompress_into] never panics: it returns a count or an error, with a
    buffer of the same length.  It succeeds exactly when the input is a block of
    the format whose decoded bytes fit the output, and then the first bytes of the
    output are those of the format and the count is their number. *)
Theorem decompress_into_correct `{T : Target} input output :
  buffer_ok input -> buffer_ok output ->
  (exists output', length output' = length output /\
     ((exists n, decompress_into input output = Ok (output', n)) \/
      (exists e, decompress_into input output = Err (output', e)))) /\
  (forall d,
     (exists output', decompress_into input output = Ok (output', len d) /\
                      take (length d) output' = d) <->
     (block_decode [] input = Some d /\ len d <= len output)) /\
  (forall output' n, decompress_into input output = Ok (output', n) ->
     exists d, block_decode [] input = Some d /\ n = len d).
Proof.
  intros Hi Ho. pose proof (decompress_into_post input output Hi Ho) as H. split_and!.
  - destruct (decompress_into input output) as [[o n]|[o e]| |]; [..|done|done]; destruct H as [Hl _];
      exists o; (split; [done|]); eauto.
  - intros d. by apply entry_post_iff.
  - intros o n Heq. rewrite Heq in H. destruct H as (Hl & Hn & Hd). eexists. split; [exact Hd|]. len_lia.
Qed.

Lemma decompress_into_correct_witness :
  exists output', decompress_into (T:=x86_64) sample_block (replicate 40 x00) = Ok (output', 17) /\
    take 17 output' = sample_data.
Proof.
  apply (proj1 (proj2 (decompress_into_correct (T:=x86_64) sample_block (replicate 40 x00)
    ltac:(concrete) ltac:(concrete))) sample_data).
  split; concrete.
Defined.

(** C19: [decompress_into_with_dict] decodes the same format with the
    dictionary as history. *)
Theorem decompress_into_with_dict_correct `{T : Target} input output dict d :
  buffer_ok input -> buffer_ok output ->
  (exists output', decompress_into_with_dict input output dict = Ok (output', len d) /\
                   take (length d) output' = d) <->
  (block_decode dict input = Some d /\ len d <= len output).
Proof. intros. by apply entry_post_iff, decompress_into_with_dict_post. Qed.

Lemma decompress_into_with_dict_correct_witness :
  exists output',
    decompress_into_with_dict (T:=x86_64) dict_block (replicate 9 x00) sample_dict = Ok (output', 9) /\
    take 9 output' = dict_data.
Proof.
  apply (decompress_into_with_dict_correct (T:=x86_64) dict_block (replicate 9 x00) sample_dict dict_data);
    [concrete..|]. split; concrete.
Defined.

(** C7: on every input, the decoder returns (it neither panics nor runs out of
    fuel), keeps the length of the output buffer and every byte before the
    start position, also when it reports an error. *)
Theorem decompress_body_safe `{T : Target} USE_DICT input out pos ext_dict :
  buffer_ok input -> buffer_ok out -> pos <= len out ->
  exists out' pos',
    (decompress_body USE_DICT input out pos ext_dict = Ok (out', pos', pos' - pos) /\ pos <= pos' \/
     exists e, decompress_body USE_DICT input out pos ext_dict = Err (out', pos', e)) /\
    length out' = length out /\ pos' <= len out /\
    take (N.to_nat pos) out' = take (N.to_nat pos) out.
Proof.
  intros Hbi Hbo Hp. pose proof (decoder_post_ok USE_DICT input out pos ext_dict Hbi Hbo Hp) as H.
  destruct (decompress_body _ _ _ _ _) as [[[out' pos'] n]|[[out' pos'] e]| |];
    cbn -[decode_from] in H; try done; exists out', pos'.
  - destruct H as (? & ? & -> & ? & _). split_and!; try lia; [left|done]. split; [done|lia].
  - destruct H as (? & ? & ? & _). split_and!; try done. right. by exists e.
Qed.

Lemma decompress_body_safe_witness :
  exists out' pos',
    (decompress_body (T:=x86_64) false sample_block (replicate 20 x01) 8 []
       = Ok (out', pos', pos' - 8) /\ 8 <= pos' \/
     exists e, decompress_body (T:=x86_64) false sample_block (replicate 20 x01) 8 []
       = Err (out', pos', e)) /\
    length out' = 20%nat /\ pos' <= 20 /\ take 8 out' = replicate 8 x01.
Proof.
  apply (decompress_body_safe (T:=x86_64) false sample_block (replicate 20 x01) 8 []); concrete.
Defined.

(** C8: the fast loop is only an optimisation: with it and without it, and
    whatever the buffer holds after the start position, the decoder writes the
    same bytes and returns the same count or the same error. *)
Theorem fast_loop_transparent `{T : Target} USE_DICT input out1 out2 pos ext_dict :
  buffer_ok input -> buffer_ok out1 -> fast_enabled input out1 = true ->
  length out2 = length out1 -> pos <= len out1 ->
  take (N.to_nat pos) out2 = take (N.to_nat pos) out1 ->
  observe (body_loop (S (length input)) USE_DICT true input out1 0 pos pos ext_dict) =
  observe (body_loop (S (length input)) USE_DICT false input out2 0 pos pos ext_dict).
Proof.
  intros Hbi Hbo Hf Hl Hp Ht. assert (Hbo2 : buffer_ok out2) by (unfold buffer_ok in *; lia).
  pose proof (body_loop_sim (S (length input)) USE_DICT true input out1 0 pos pos ext_dict
    Hbi Hbo (fun _ => Hf)) as H1.
  pose proof (body_loop_sim (S (length input)) USE_DICT false input out2 0 pos pos ext_dict
    Hbi Hbo2 ltac:(done)) as H2.
  cbn zeta in H1, H2. specialize (H1 ltac:(lia) ltac:(lia) Hp ltac:(lia)).
  specialize (H2 ltac:(lia) ltac:(lia) ltac:(lia) ltac:(lia)).
  unfold history at 1 in H2. rewrite Hl, Ht in H2. fold (history (dict_of USE_DICT ext_dict) out1 pos) in H2.
  by eapply body_sim_det.
Qed.

Lemma fast_loop_transparent_witness :
  observe (body_loop (T:=x86_64) 14 false true sample_block (replicate 60 x00) 0 0 0 []) =
  observe (body_loop (T:=x86_64) 14 false false sample_block (replicate 60 x07) 0 0 0 []).
Proof.
  apply (fast_loop_transparent (T:=x86_64) false sample_block (replicate 60 x00) (replicate 60 x07) 0 []);
    concrete.
Defined.

(** Decoding into a sink appends to what it holds: the bytes already
    written are kept, they and the dictionary are the history of the block, and
    the sink never overflows its capacity. *)
Theorem decompress_into_sink_correct `{T : Target} (USE_DICT : bool) input s ext_dict :
  buffer_ok input -> buffer_ok (sink_output s) -> sink_ok s ->
  match decompress_into_sink_with_dict USE_DICT input s ext_dict with
  | Ok (s', n) => sink_ok s' /\ sink_pos s' = sink_pos s + n /\
      exists d, written s' = written s ++ d /\ len d = n /\
        block_decode ((if USE_DICT then ext_dict else []) ++ written s) input = Some d
  | Err (s', e) => sink_ok s' /\ take (N.to_nat (sink_pos s)) (sink_output s') = written s /\
      forall d, block_decode ((if USE_DICT then ext_dict else []) ++ written s) input = Some d ->
                capacity s < pos s + len d
  | Panic | NoFuel => False
  end.
Proof.
  intros Hbi Hbo Hs. pose proof (sink_post_ok USE_DICT input s ext_dict Hbi Hbo Hs) as H.
  unfold dict_of in H. destruct (decompress_into_sink_with_dict _ _ _ _) as [[s' n]|[s' e]| |];
    naive_solver.
Qed.

Lemma decompress_into_sink_correct_witness :
  match decompress_into_sink_with_dict (T:=x86_64) false dict_block
          {| sink_output := sample_dict ++ replicate 9 x00; sink_pos := 4 |} [] with
  | Ok (s', n) => sink_ok (H:=SliceSink_Sink (T:=x86_64)) s' /\ sink_pos s' = 4 + n /\
      exists d, written s' = sample_dict ++ d /\ len d = n /\ block_decode ([] ++ sample_dict) dict_block = Some d
  | _ => False
  end.
Proof.
  pose proof (decompress_into_sink_correct (T:=x86_64) false dict_block
    {| sink_output := sample_dict ++ replicate 9 x00; sink_pos := 4 |} [] ltac:(concrete)
    ltac:(concrete) ltac:(concrete)) as H.
  destruct (decompress_into_sink_with_dict _ _ _ _) as [[s n]|[s e]| |] eqn:E in H |- *;
    [exact H| |exact H..].
  vm_compute in E. discriminate E.
Defined.

(** C26: [decompress_append] appends exactly the decoded bytes, and on error
    leaves the vector as it was. *)
Theorem decompress_append_correct `{T : Target} input output max_size :
  buffer_ok input -> len output + max_size + 1024 <= isize_max ->
  (forall d, decompress_append input output max_size = Ok (output ++ d, len d) <->
             (block_decode [] input = Some d /\ len d <= max_size)) /\
  ((exists d, decompress_append input output max_size = Ok (output ++ d, len d)) \/
   (exists e, decompress_append input output max_size = Err (output, e))).
Proof.
  intros Hbi Hm. pose proof (append_post_ok false input output max_size [] Hbi Hm) as H.
  split; [intros d; by apply append_post_iff|].
  unfold decompress_append. cbn [dict_of] in H.
  destruct (decompress_append_internal _ _ _ _ _) as [[o n]|[o e]| |]; try done.
  - destruct H as (d & -> & <- & _). left. by exists d.
  - destruct H as [-> _]. right. by exists e.
Qed.

Lemma decompress_append_correct_witness :
  decompress_append (T:=x86_64) sample_block sample_dict 17 = Ok (sample_dict ++ sample_data, 17).
Proof.
  apply (proj2 (proj1 (decompress_append_correct (T:=x86_64) sample_block sample_dict 17
    ltac:(concrete) ltac:(concrete)) sample_data)).
  split; concrete.
Defined.

(** The owning decompressor with a dictionary decodes as the format does
    with that dictionary, and without one ([new]) as the plain decoder does. *)
Theorem decompressor_correct `{T : Target} dict input size d :
  buffer_ok input -> size + 1024 <= isize_max ->
  (DecompressorImpl.decompress (DecompressorImpl.with_dict dict) input size = Ok d <->
   block_decode dict input = Some d /\ len d <= size) /\
  (DecompressorImpl.decompress DecompressorImpl.new input size = Ok d <->
   Decompress.decompress input size = Ok d).
Proof.
  intros Hbi Hm. pose proof (fun USE_DICT D => decompress_vec_iff USE_DICT D input size d Hbi Hm) as Hok.
  split; [apply (Hok true)|]. etrans; [apply (Hok true)|]. symmetry. apply (Hok false []).
Qed.

Lemma decompressor_correct_witness :
  DecompressorImpl.decompress (T:=x86_64) (DecompressorImpl.with_dict sample_dict) dict_block 9
    = Ok dict_data /\
  (DecompressorImpl.decompress (T:=x86_64) DecompressorImpl.new dict_block 9 = Ok dict_data <->
   Decompress.decompress (T:=x86_64) dict_block 9 = Ok dict_data).
Proof.
  destruct (decompressor_correct (T:=x86_64) sample_dict dict_block 9 dict_data) as [H1 H2];
    [concrete..|]. split; [|exact H2]. apply H1. split; concrete.
Defined.

(** ** Validation *)

(** C24: the validator accepts a block exactly when it decodes, with that
    dictionary, to the expected number of bytes; it never panics. *)
Theorem validate_block_with_dict_correct `{T : Target} input expected dict :
  buffer_ok input -> expected + 1024 <= isize_max ->
  (validate_block_with_dict input expected dict = Ok {| decoded_len := expected |} <->
   exists d, block_decode dict input = Some d /\ len d = expected) /\
  (validate_block_with_dict input expected dict = Ok {| decoded_len := expected |} \/
   exists e, validate_block_with_dict input expected dict = Err e).
Proof.
  intros Hbi He. pose proof (validate_post_ok dict input expected Hbi He) as H.
  unfold validate_block_with_dict. split; [by apply validate_post_iff|].
  destruct (validate_block_internal _ _ _) as [[v]|e| |]; try done; [left|right; by eexists].
  destruct H as [Hv _]. cbn in Hv. by subst.
Qed.

Lemma validate_block_with_dict_correct_witness :
  validate_block_with_dict (T:=x86_64) dict_block 9 sample_dict = Ok {| decoded_len := 9 |}.
Proof.
  apply (validate_block_with_dict_correct (T:=x86_64) dict_block 9 sample_dict); [concrete..|].
  exists dict_data. split; concrete.
Defined.

(** C25: a validated block decompresses into any output of the validated size,
    and to no other length. *)
Theorem validated_blocks_decompress `{T : Target} input n output :
  buffer_ok input -> n + 1024 <= isize_max -> buffer_ok output -> n <= len output ->
  validate_block input n = Ok {| decoded_len := n |} <->
  exists output', decompress_into input output = Ok (output', n).
Proof.
  intros Hbi Hn Hbo Hle. pose proof (validate_post_ok [] input n Hbi Hn) as Hv.
  unfold validate_block. rewrite (validate_post_iff [] input n _ Hv).
  pose proof (decompress_into_post input output Hbi Hbo) as Hd. split.
  - intros (d & Hb & <-).
    destruct (proj2 (entry_post_iff _ _ _ _ d Hd)) as (o & -> & _); [done|]. by exists o.
  - intros (o & Ho). rewrite Ho in Hd. destruct Hd as (Hl & Hn' & Hb).
    eexists. split; [exact Hb|]. len_lia.
Qed.

Lemma validated_blocks_decompress_witness :
  exists output', decompress_into (T:=x86_64) sample_block (replicate 20 x00) = Ok (output', 17).
Proof.
  apply (validated_blocks_decompress (T:=x86_64) sample_block 17 (replicate 20 x00)); concrete.
Defined.

(** ** Errors, lengths and copies *)

(** An output-size error reports the capacity of the output and a size
    that exceeds it; the decoder never reports a size mismatch. *)
Theorem decompress_into_error `{T : Target} USE_DICT input output pos ext_dict out' pos' e :
  buffer_ok input -> buffer_ok output -> pos <= len output ->
  decompress_body USE_DICT input output pos ext_dict = Err (out', pos', e) ->
  match e with
  | OutputTooSmall expected actual => actual = len output /\ len output < expected
  | DecodedSizeMismatch _ _ => False
  | _ => True
  end.
Proof.
  intros Hbi Hbo Hp He.
  pose proof (decompress_body_sim USE_DICT input output pos ext_dict Hbi Hbo Hp) as H.
  cbn zeta in H. rewrite He in H. destruct H as (_ & _ & H). by apply ref_eval_error in H.
Qed.

Lemma decompress_into_error_witness :
  exists out' pos' e,
    decompress_body (T:=x86_64) false sample_block (replicate 16 x00) 0 [] = Err (out', pos', e) /\
    match e with
    | OutputTooSmall expected actual => actual = 16 /\ 16 < expected
    | DecodedSizeMismatch _ _ => False
    | _ => True
    end.
Proof.
  destruct (decompress_body (T:=x86_64) false sample_block (replicate 16 x00) 0 [])
    as [?|[[o p] e]| |] eqn:E; [by vm_compute in E| |by vm_compute in E..].
  exists o, p, e. split; [exact eq_refl|].
  apply (decompress_into_error (T:=x86_64) false sample_block (replicate 16 x00) 0 [] o p e);
    [concrete..|exact E].
Defined.

(** Whichever copy strategy the general path selects, from the 32-byte
    chunks to the exact overlapping copy, the output up to the end of the match
    is the byte-by-byte expansion of the history. *)
Theorem general_match_expands `{T : Target} out start pos match_length :
  buffer_ok out -> start < pos -> 1 <= match_length -> pos + match_length <= len out ->
  exists out', general_match out start pos match_length (pos - start) = Ok (out', pos + match_length) /\
    length out' = length out /\
    take (N.to_nat (pos + match_length)) out'
    = expand (take (N.to_nat pos) out) (pos - start) (N.to_nat match_length).
Proof.
  intros Hb Hs Hm Hl.
  destruct (general_match_ok out start pos match_length _ Hb Hs eq_refl Hm Hl)
    as ([out' pos'] & -> & -> & Hc).
  exists out'. split; [done|]. split; [apply Hc|]. apply copied_expand; try done; lia.
Qed.

Lemma general_match_expands_witness :
  exists out', general_match (T:=x86_64) (sample_dict ++ replicate 9 x00) 1 4 7 3 = Ok (out', 11) /\
    length out' = 13%nat /\
    take 11 out' = expand sample_dict 3 7.
Proof.
  apply (general_match_expands (T:=x86_64) (sample_dict ++ replicate 9 x00) 1 4 7); concrete.
Defined.

(** [slice_copy] copies the whole source, for every length and on every
    target, and panics exactly when the lengths differ. *)
Theorem slice_copy_correct `{T : Target} (src dst : bytes) :
  slice_copy (E:=DecompressError) src dst = if len src =? len dst then Ok src else Panic.
Proof.
  destruct (N.eqb_spec (len src) (len dst)) as [He|Hn]; [apply slice_copy_ok; lia|].
  unfold slice_copy. destruct (N.eqb_spec (len src) (len dst)); done.
Qed.

Definition sum_u8 (l : bytes) : N := foldr (fun b n => u8 b + n) 0 l.

Lemma read_integer_loop_bytes `{T : Target} fuel input ip n max m ip' :
  read_integer_loop fuel input ip n max = Ok (m, ip') ->
  ip < ip' <= len input /\
  m = n + sum_u8 (sub input ip (ip' - ip)) /\
  (ip' = ip + 1 \/ n + 255 * (ip' - ip - 1) <= max).
Proof.
  revert ip n. induction fuel as [|fuel IH]; intros ip n; [done|]. cbn [read_integer_loop].
  destruct (input.[ip]) as [b|] eqn:Hb; mstep; [|done]. pose proof (lookup_some_lt _ _ _ Hb).
  destruct (checked_add n (u8 b)) as [n'|] eqn:Hc; mstep; [|done].
  apply checked_add_inv in Hc as [-> _]. unfold EXT_LEN, EXT_MORE.
  assert (Hone : sub input ip 1 = [b]).
  { unfold sub. rewrite (drop_S _ _ _ Hb). done. }
  assert (Hend : Ok (E:=DecompressError) (n + u8 b, ip + 1) = Ok (m, ip') -> ip < ip' <= len input /\
    m = n + sum_u8 (sub input ip (ip' - ip)) /\
    (ip' = ip + 1 \/ n + 255 * (ip' - ip - 1) <= max)).
  { intros [= <- <-]. replace (ip + 1 - ip) with 1 by lia. rewrite Hone. unfold sum_u8. cbn [foldr].
    split_and!; [lia..|by left]. }
  destruct (N.eqb_spec (u8 b) 255) as [He|]; cbn [negb]; [|by apply Hend].
  bcase; [by apply Hend|]. intros (Hip & Hm & Hmax)%IH.
  split; [lia|]. split; [|right; lia].
  replace (sub input ip (ip' - ip)) with (b :: sub input (ip + 1) (ip' - (ip + 1))).
  - unfold sum_u8 in *. cbn [foldr]. lia.
  - unfold sub. rewrite (drop_S _ _ _ Hb).
    replace (N.to_nat (ip' - ip)) with (S (N.to_nat (ip' - (ip + 1)))) by lia.
    replace (N.to_nat (ip + 1)) with (S (N.to_nat ip)) by lia. done.
Qed.

(** The bounded length reader returns the sum of the bytes it consumes,
    stays inside the input, and consumes at most [max / 255 + 1] of them, so an
    adversarial run of 255s cannot make it read on; without an error its value
    exceeds the bound by at most 255. *)
Theorem read_integer_bounded_bounds `{T : Target} input ip max :
  match read_integer_bounded input ip max with
  | Ok (n, ip') =>
      ip < ip' <= len input /\ ip' - ip <= max / 255 + 1 /\ n <= max + 255 /\
      n = sum_u8 (sub input ip (ip' - ip))
  | Err _ => True
  | Panic | NoFuel => False
  end.
Proof.
  pose proof (read_integer_bounded_total input ip max) as Ht.
  destruct (read_integer_bounded _ _ _) as [[n ip']| | |] eqn:Hr; cbn in Ht; try done.
  apply read_integer_loop_bytes in Hr as (Hip & Hn & Hmax). rewrite N.add_0_l in Hn.
  split_and!; try done; lia.
Qed.

(** The two forms of the bounds tests agree: the overflow-checked 32-bit
    form and the plain 64-bit form both compare the exact sums. *)
Theorem width_tests_agree `{T : Target} (pos n slack cap : N) :
  pos <= cap -> cap <= usize_max -> (target_width = W64 -> pos + n + slack <= usize_max) ->
  has_headroom (E:=DecompressError) pos n slack cap = Ok (pos + n + slack <=? cap) /\
  len_exceeds_capacity (E:=DecompressError) pos n cap = Ok (cap <? pos + n).
Proof.
  intros Hp Hc Hw. unfold has_headroom, len_exceeds_capacity. destruct target_width.
  - split; [|do 2 bcase; done]. f_equal. unfold checked_add.
    do 2 (bcase; [|by bcase]). done.
  - specialize (Hw eq_refl). rewrite !uadd_ok by lia. mstep. by rewrite uadd_ok by lia.
Qed.

Lemma width_tests_agree_witness :
  has_headroom (T:={| target_width := W32; target_big_endian := true; target_avx := false |})
    (E:=DecompressError) 10 (2 ^ 32 - 1) 32 100 = Ok false /\
  len_exceeds_capacity (T:={| target_width := W32; target_big_endian := true; target_avx := false |})
    (E:=DecompressError) 10 (2 ^ 32 - 1) 100 = Ok true.
Proof.
  apply (width_tests_agree (T:={| target_width := W32; target_big_endian := true; target_avx := false |})
    10 (2 ^ 32 - 1) 32 100); [concrete|concrete|discriminate].
Defined.

(** [extend_from_within_overlapping] of the slice sink appends the
    expansion of a match, and keeps the sink's invariant. *)
Theorem extend_from_within_overlapping_expands `{T : Target} (s : SliceSink) start num_bytes :
  1 <= num_bytes -> start < sink_pos s -> sink_pos s + num_bytes <= len (sink_output s) ->
  exists s', extend_from_within_overlapping (E:=CompressError) s start num_bytes = Ok s' /\
    sink_ok s' /\
    written s' = expand (written s) (sink_pos s - start) (N.to_nat num_bytes).
Proof.
  intros Hn Hs Hl.
  destruct (extend_from_within_overlapping_ok (E:=CompressError) s start num_bytes Hn Hs Hl)
    as (s' & He & Hp & Hc).
  exists s'. split; [exact He|]. pose proof (copied_length _ _ _ _ _ Hc). split.
  - unfold sink_ok. cbn. lia.
  - unfold written. rewrite Hp. apply copied_expand; try done; lia.
Qed.

Lemma extend_from_within_overlapping_expands_witness :
  exists s', extend_from_within_overlapping (Sink:=SliceSink_Sink (T:=x86_64)) (E:=CompressError)
      {| sink_output := sample_dict ++ replicate 9 x00; sink_pos := 4 |} 2 9 = Ok s' /\
    sink_ok (H:=SliceSink_Sink (T:=x86_64)) s' /\ written s' = expand sample_dict 2 9.
Proof.
  apply (extend_from_within_overlapping_expands (T:=x86_64)
    {| sink_output := sample_dict ++ replicate 9 x00; sink_pos := 4 |} 2 9); concrete.
Defined.
