(* ===== verification/Sequences.v ===== *)
(** * Blocks as lists of sequences

    The other direction of the block format: a block is built from sequences
    (a literal run, then a match) and a final literal run.  [encode_block] is
    the encoding the format prescribes, independent of how the encoder writes
    it; its decoding is the history the sequences describe. *)

From S2P Require Import Prelude BlockSpec Core Primitives Decompress DecompressProofs DecompressSpec.

(** A literal run followed by a match. *)
Record sequence := { seq_lit : bytes; seq_off : N; seq_len : N }.

(** The bytes of a length above its nibble. *)
Definition encode_ext (n : N) : bytes := replicate (N.to_nat (n / 255)) xff ++ [to_u8 (n mod 255)].

(** The extension of a length: none below 15. *)
Definition encode_len (n : N) : bytes := if n <? 15 then [] else encode_ext (n - 15).

Definition token_of (lit dup : N) : byte := to_u8 (16 * N.min lit 15 + N.min dup 15).

(** The match length of a token is [4] more than what is stored. *)
Definition encode_seq (s : sequence) : bytes :=
  token_of (len (seq_lit s)) (seq_len s - MINMATCH) :: encode_len (len (seq_lit s)) ++ seq_lit s
    ++ to_le 2 (seq_off s) ++ encode_len (seq_len s - MINMATCH).

Definition encode_last (last : bytes) : bytes :=
  token_of (len last) 0 :: encode_len (len last) ++ last.

Fixpoint encode_block (ss : list sequence) (last : bytes) : bytes :=
  match ss with [] => encode_last last | s :: ss => encode_seq s ++ encode_block ss last end.

(** What the sequences append to a history. *)
Definition apply_seq (h : bytes) (s : sequence) : bytes :=
  expand (h ++ seq_lit s) (seq_off s) (N.to_nat (seq_len s)).

Definition seq_valid (h : bytes) (s : sequence) : Prop :=
  1 <= seq_off s <= MAX_DISTANCE /\ seq_off s <= len (h ++ seq_lit s) /\ MINMATCH <= seq_len s.

Fixpoint seqs_valid (h : bytes) (ss : list sequence) : Prop :=
  match ss with [] => True | s :: ss => seq_valid h s /\ seqs_valid (apply_seq h s) ss end.

Definition apply_seqs (h : bytes) (ss : list sequence) : bytes := foldl apply_seq h ss.

(** The end rules of the format: a block with matches ends with at least
    [LAST_LITERALS] literals, and its last match starts at least [MFLIMIT]
    bytes before its end. *)
Definition end_rules (ss : list sequence) (last : bytes) : Prop :=
  match list.last ss with
  | None => True
  | Some s => LAST_LITERALS <= len last /\ MFLIMIT <= seq_len s + len last
  end.

(** ** Encoding lengths *)

Lemma read_ext_encode n r : read_ext (encode_ext n ++ r) = Some (n, r).
Proof.
  unfold encode_ext. assert (Hn : n = 255 * (n / 255) + n mod 255) by lia.
  pose proof (N.mod_lt n 255 ltac:(lia)) as Hm.
  rewrite Hn at 3. generalize (n / 255) as q. intros q. clear Hn.
  rewrite <-(N2Nat.id q) at 2. induction (N.to_nat q) as [|k IH]; cbn [replicate app read_ext].
  - rewrite u8_to_u8. bcase. do 2 f_equal. lia.
  - rewrite IH. cbn. do 2 f_equal. lia.
Qed.

Lemma length_encode_ext n : length (encode_ext n) = N.to_nat (n / 255 + 1).
Proof. unfold encode_ext. len_lia. Qed.

Lemma token_nibbles lit dup :
  u8 (token_of lit dup) / 16 = N.min lit 15 /\ u8 (token_of lit dup) mod 16 = N.min dup 15.
Proof. unfold token_of. rewrite u8_to_u8. lia. Qed.

Lemma read_len_encode n r : read_len (N.min n 15) (encode_len n ++ r) = Some (n, r).
Proof.
  unfold read_len, encode_len. destruct (N.ltb_spec n 15).
  - bcase. cbn. do 2 f_equal. lia.
  - rewrite N.min_r by lia. cbn [N.eqb Pos.eqb]. rewrite read_ext_encode. cbn. do 2 f_equal. lia.
Qed.

Lemma from_le_2 off : off <= MAX_DISTANCE -> exists b0 b1, to_le 2 off = [b0; b1] /\ from_le [b0; b1] = off.
Proof.
  intros H. exists (to_u8 off), (to_u8 (off / 256)). split; [done|].
  pose proof (from_le_to_le 2 off) as He. cbn [to_le] in He. rewrite He.
  apply N.mod_small. unfold MAX_DISTANCE in H. cbn in *. lia.
Qed.

(** ** Decoding an encoded block *)

Lemma decode_encode_seq fuel h s r :
  seq_valid h s -> decode_from (S fuel) h (encode_seq s ++ r) = decode_from fuel (apply_seq h s) r.
Proof.
  intros (Ho & Hh & Hm). unfold encode_seq.
  destruct (token_nibbles (len (seq_lit s)) (seq_len s - MINMATCH)) as [Hn1 Hn2].
  cbn [app]. rewrite <-!app_assoc.
  erewrite decode_seq; [|rewrite Hn1; apply read_len_encode|len_lia].
  rewrite take_app_length', drop_app_length' by lia.
  destruct (from_le_2 (seq_off s)) as (b0 & b1 & -> & Hb); [lia|]. cbn [app].
  erewrite decode_match; [|rewrite Hn2; apply read_len_encode|rewrite Hb; lia].
  rewrite Hb. unfold apply_seq. do 2 f_equal. unfold MINMATCH in *. lia.
Qed.

Lemma decode_encode_last fuel h last :
  decode_from (S fuel) h (encode_last last) = Some (h ++ last).
Proof.
  unfold encode_last. destruct (token_nibbles (len last) 0) as [Hn1 _].
  erewrite decode_seq; [|rewrite Hn1; apply read_len_encode|len_lia].
  rewrite take_ge, drop_ge by lia. done.
Qed.

Lemma decode_encode_block fuel h ss last :
  seqs_valid h ss -> (length ss < fuel)%nat ->
  decode_from fuel h (encode_block ss last) = Some (apply_seqs h ss ++ last).
Proof.
  revert fuel h. induction ss as [|s ss IH]; intros fuel h Hv Hf; (destruct fuel as [|fuel]; [cbn in Hf; lia|]).
  - apply decode_encode_last.
  - destruct Hv as [Hs Hv]. cbn [encode_block]. rewrite decode_encode_seq by done.
    apply IH; [done|]. cbn in Hf. lia.
Qed.

Lemma length_encode_block ss last : (length ss < length (encode_block ss last))%nat.
Proof.
  induction ss as [|s ss IH]; cbn [encode_block length]; [cbn; lia|].
  rewrite length_app. cbn [encode_seq length]. lia.
Qed.

(** The block decodes, with dictionary [D], to what its sequences append. *)
Lemma block_decode_encode (D d : bytes) ss last :
  seqs_valid D ss -> apply_seqs D ss ++ last = D ++ d ->
  block_decode D (encode_block ss last) = Some d.
Proof.
  intros Hv Hd. unfold block_decode. pose proof (length_encode_block ss last).
  rewrite decode_encode_block by (done || lia). cbn -[apply_seqs]. by rewrite Hd, drop_app_length.
Qed.

(** ** Sizes *)

Lemma length_encode_len n : len (encode_len n) <= n / 255 + 1 /\ (n < 15 -> encode_len n = []).
Proof.
  unfold encode_len. destruct (N.ltb_spec n 15); [cbn; split; [lia|done]|].
  rewrite length_encode_ext. split; lia.
Qed.

(** A sequence takes at most 110% of the bytes it covers. *)
Lemma length_encode_seq s : MINMATCH <= seq_len s ->
  100 * len (encode_seq s) <= 110 * (len (seq_lit s) + seq_len s).
Proof.
  intros Hm. unfold encode_seq. cbn [length]. autorewrite with lz4_len.
  destruct (length_encode_len (len (seq_lit s))) as [H1 H1'].
  destruct (length_encode_len (seq_len s - MINMATCH)) as [H2 H2']. unfold MINMATCH in *.
  destruct (N.ltb_spec (len (seq_lit s)) 15); [rewrite H1' in *; cbn [length] in *|];
    (destruct (N.ltb_spec (seq_len s - 4) 15); [rewrite H2' in *; cbn [length] in *|]); try lia.
Qed.

Lemma length_encode_last last : 100 * len (encode_last last) <= 110 * len last + 200.
Proof.
  unfold encode_last. cbn [length]. autorewrite with lz4_len.
  destruct (length_encode_len (len last)) as [H1 H1'].
  destruct (N.ltb_spec (len last) 15); [rewrite H1' in *; cbn [length] in *|]; lia.
Qed.

(** ** Appending sequences *)

Lemma apply_seqs_app h ss s : apply_seqs h (ss ++ [s]) = apply_seq (apply_seqs h ss) s.
Proof. unfold apply_seqs. by rewrite foldl_app. Qed.

Lemma seqs_valid_app h ss s :
  seqs_valid h (ss ++ [s]) <-> seqs_valid h ss /\ seq_valid (apply_seqs h ss) s.
Proof.
  revert h. induction ss as [|s' ss IH]; intros h; cbn [app seqs_valid apply_seqs foldl]; [tauto|].
  rewrite IH. unfold apply_seqs. tauto.
Qed.
