(* ===== verification/HashTable.v ===== *)
(** * crates/encode: word reads, match counting and hash tables ([hashtable.rs])

    Native-endian word reads, the word-at-a-time common-prefix count, the hash
    and the two tables.  The compressors are stated against the [HashTable]
    class; [HashTableLaws] is what they rely on. *)

From S2P Require Import Prelude BlockSpec Core.

(** ** Machine words *)

(** [<[T]>::first_chunk::<N>] *)
Definition first_chunk (n : N) (l : bytes) : option bytes :=
  if n <=? len l then Some (take (N.to_nat n) l) else None.

(** [uN::trailing_zeros], the width being the value for 0. *)
Fixpoint trailing_zeros_pos (p : positive) : N :=
  match p with xO p => 1 + trailing_zeros_pos p | _ => 0 end.
Definition trailing_zeros (width v : N) : N :=
  match v with 0 => width | N.pos p => trailing_zeros_pos p end.

Section words.
Context `{T : Target}.

(** [uN::from_ne_bytes], [uN::to_ne_bytes] and [uN::to_le] for words of [k]
    bytes. *)
Definition from_ne_bytes (l : bytes) : N := from_le (if target_big_endian then rev l else l).
Definition to_ne_bytes (k : nat) (v : N) : bytes :=
  if target_big_endian then rev (to_le k v) else to_le k v.
Definition word_to_le (k : nat) (v : N) : N :=
  if target_big_endian then from_le (rev (to_le k v)) else v.

(** Bytes of the lowest-address mismatch in the difference of two words. *)
Definition mismatch (k : nat) (diff : N) : N := trailing_zeros (8 * N.of_nat k) (word_to_le k diff) / 8.
End words.

(** ** count_same_bytes *)

Section count.
Context `{T : Target}.
Implicit Types (a b input source : bytes).

(** The loop over 8-byte chunks: the result, or what is left of both sides. *)
Fixpoint chunks8 (k : nat) a b (num : N) : N + (bytes * bytes * N) :=
  match k with
  | O => inr (a, b, num)
  | S k =>
      let diff := N.lxor (from_ne_bytes (take 8 a)) (from_ne_bytes (take 8 b)) in
      if negb (diff =? 0) then inl (num + mismatch 8 diff)
      else chunks8 k (drop 8 a) (drop 8 b) (num + 8)
  end.

(** The tests for a last 2-byte and a last 1-byte chunk. *)
Definition tail2 a b (num : N) : bytes * bytes * N :=
  match first_chunk 2 a, first_chunk 2 b with
  | Some x, Some y => if decide (x = y) then (drop 2 a, drop 2 b, num + 2) else (a, b, num)
  | _, _ => (a, b, num)
  end.

Definition tail1 a b (num : N) : N :=
  match head a, head b with
  | Some x, Some y => if decide (x = y) then num + 1 else num
  | _, _ => num
  end.

Definition count_same_bytes_long a b : N :=
  let n := N.min (len a) (len b) in
  let a := take (N.to_nat n) a in
  let b := take (N.to_nat n) b in
  match chunks8 (N.to_nat (n / 8)) a b 0 with
  | inl num => num
  | inr (ra, rb, num) =>
      match first_chunk 4 ra, first_chunk 4 rb with
      | Some x, Some y =>
          let diff := N.lxor (from_ne_bytes x) (from_ne_bytes y) in
          if negb (diff =? 0) then num + mismatch 4 diff
          else let '(ra, rb, num) := tail2 (drop 4 ra) (drop 4 rb) (num + 4) in tail1 ra rb num
      | _, _ => let '(ra, rb, num) := tail2 ra rb num in tail1 ra rb num
      end
  end.

(** The new [cur] and the count. *)
Definition count_same_bytes {E} input (cur : N) source (candidate end_offset : N)
  : res E (N * N) :=
  e ← usub (len input) end_offset;
  a ← slice input cur e;
  b ← slice_from source candidate;
  let num :=
    match first_chunk 8 a, first_chunk 8 b with
    | Some x, Some y =>
        let diff := N.lxor (from_ne_bytes x) (from_ne_bytes y) in
        if negb (diff =? 0) then mismatch 8 diff
        else 8 + count_same_bytes_long (drop 8 a) (drop 8 b)
    | _, _ => count_same_bytes_long a b
    end in
  Ok (cur + num, num).

(** ** Word reads *)

Definition rd32 {E} (src : bytes) (pos : N) : res E N :=
  t ← slice_from src pos; c ← or_panic (first_chunk 4 t); Ok (from_ne_bytes c).

Definition rd64 {E} (src : bytes) (pos : N) : res E N :=
  t ← slice_from src pos; c ← or_panic (first_chunk 8 t); Ok (from_ne_bytes c).

Definition rd64_upto {E} (src : bytes) (pos limit : N) : res E N :=
  _ ← assert (pos <=? limit); rd64 src (N.min pos limit).

Definition first4 (v : N) : N := from_ne_bytes (take 4 (to_ne_bytes 8 v)).

(** ** Hashing *)

Definition KNUTH : N := 2654435761.
Definition PRIME5 : N := if target_big_endian then 11400714785074694791 else 889523592379.

(** [N.log2] is [ilog2]. *)
Definition hash_n (n bytes_ : N) : N :=
  match target_width with
  | W64 => N.shiftr ((N.shiftl bytes_ 24 mod 2 ^ 64) * PRIME5 mod 2 ^ 64) (64 - N.log2 n)
  | W32 => N.shiftr (first4 bytes_ * KNUTH mod 2 ^ 32) (32 - N.log2 n)
  end.
End count.

(** ** Tables *)

Definition DEFAULT_NODICT_ENTRIES : N := 2 * 1024.
Definition DEFAULT_DICT_ENTRIES : N := 4 * 1024.
Definition MIN_ENTRIES : N := 256.

Definition is_power_of_two (n : N) : bool := (1 <=? n) && (n =? 2 ^ N.log2 n).

Definition assert_valid_entries (n : N) : bool := is_power_of_two n && (MIN_ENTRIES <=? n).

(** The trait.  [hash] depends on the type only; indexing out of range
    panics. *)
Class HashTable (Tb : Type) := {
  get_at : forall {E}, Tb -> N -> res E N;
  put_at : forall {E}, Tb -> N -> N -> res E Tb;
  clear : Tb -> Tb;
  hash : N -> N
}.

Definition get_hash_at (Tb : Type) `{Target, HashTable Tb} {E} (input : bytes) (pos : N) : res E N :=
  w ← rd64 input pos; Ok (hash (Tb:=Tb) w).

(** [HashTableU32U16<N>] and [HashTableU32<N>]: the entry count is in the type. *)
Record HashTableU32U16 (n : N) := { dict16 : list N }.
Record HashTableU32 (n : N) := { dict32 : list N }.
Arguments dict16 {n}. Arguments dict32 {n}.
Arguments Build_HashTableU32U16 {n}. Arguments Build_HashTableU32 {n}.

(** [l[i] = v] *)
Definition set_index {E} (l : list N) (i v : N) : res E (list N) :=
  if i <? len l then Ok (<[N.to_nat i := v]> l) else Panic.

Module HashTableU32U16Impl.
Section ops.
Context `{T : Target} {n : N}.
Implicit Types (t : HashTableU32U16 n).

Definition new : HashTableU32U16 n := {| dict16 := replicate (N.to_nat n) 0 |}.
Definition get_at {E} t (i : N) : res E N := index (dict16 t) i.
Definition put_at {E} t (i v : N) : res E (HashTableU32U16 n) :=
  d ← set_index (dict16 t) i (v mod 2 ^ 16); Ok {| dict16 := d |}.
Definition clear t : HashTableU32U16 n := {| dict16 := replicate (length (dict16 t)) 0 |}.
Definition hash (w : N) : N := hash_n n w.
End ops.
End HashTableU32U16Impl.

Module HashTableU32Impl.
Section ops.
Context `{T : Target} {n : N}.
Implicit Types (t : HashTableU32 n).

Definition new : HashTableU32 n := {| dict32 := replicate (N.to_nat n) 0 |}.
Definition get_at {E} t (i : N) : res E N := index (dict32 t) i.
Definition put_at {E} t (i v : N) : res E (HashTableU32 n) :=
  d ← set_index (dict32 t) i (v mod 2 ^ 32); Ok {| dict32 := d |}.
Definition clear t : HashTableU32 n := {| dict32 := replicate (length (dict32 t)) 0 |}.
Definition hash (w : N) : N := hash_n n w.
(** Saturating subtraction is that of [N]. *)
Definition reposition t (offset : N) : HashTableU32 n :=
  {| dict32 := (fun i => i - offset) <$> dict32 t |}.
End ops.
End HashTableU32Impl.

#[export] Instance HashTableU32U16_HashTable `{T : Target} n : HashTable (HashTableU32U16 n) := {
  get_at E := HashTableU32U16Impl.get_at;
  put_at E := HashTableU32U16Impl.put_at;
  clear := HashTableU32U16Impl.clear;
  hash := HashTableU32U16Impl.hash (n:=n)
}.

#[export] Instance HashTableU32_HashTable `{T : Target} n : HashTable (HashTableU32 n) := {
  get_at E := HashTableU32Impl.get_at;
  put_at E := HashTableU32Impl.put_at;
  clear := HashTableU32Impl.clear;
  hash := HashTableU32Impl.hash (n:=n)
}.

(** ** What the compressors rely on *)

(** [table_ok t]: the table has its full length.  [below t b]: every entry is
    less than [b]. *)
Class HashTableLaws (Tb : Type) `{HashTable Tb} := {
  table_ok : Tb -> Prop;
  below : Tb -> N -> Prop;
  get_law : forall {E} t w b, table_ok t -> below t b ->
    exists v, get_at (E:=E) t (hash (Tb:=Tb) w) = Ok v /\ v < b;
  put_law : forall {E} t w v b, table_ok t -> below t b -> v < b ->
    exists t', put_at (E:=E) t (hash (Tb:=Tb) w) v = Ok t' /\ table_ok t' /\ below t' b;
  clear_law : forall t, table_ok t -> table_ok (clear t) /\ below (clear t) 1;
  below_mono : forall t b b', below t b -> b <= b' -> below t b'
}.

(** ** Bits and bytes of words *)

Lemma land_shiftl_small (b r : N) : b < 2 ^ 8 -> N.land b (N.shiftl r 8) = 0.
Proof.
  intros Hb. apply N.bits_inj_0. intros i. rewrite N.land_spec. destruct (N.ltb_spec i 8).
  - by rewrite N.shiftl_spec_low, andb_false_r by done.
  - rewrite <-(N.mod_small b (2 ^ 8)) by done. by rewrite N.mod_pow2_bits_high.
Qed.

Lemma lxor_lt (b c : N) : b < 256 -> c < 256 -> N.lxor b c < 256.
Proof.
  intros Hb Hc. change 256 with (2 ^ 8) in *.
  destruct (N.eq_dec (N.lxor b c) 0) as [->|]; [done|].
  apply N.log2_lt_pow2; [lia|]. eapply N.le_lt_trans; [apply N.log2_lxor|].
  apply N.max_lub_lt; [destruct (N.eq_dec b 0) as [->|]|destruct (N.eq_dec c 0) as [->|]];
    done || (apply N.log2_lt_pow2; lia).
Qed.

Lemma word_split (b r : N) : b < 256 -> b + 256 * r = N.lxor b (N.shiftl r 8).
Proof.
  intros Hb. rewrite <-N.add_nocarry_lxor by by apply land_shiftl_small.
  rewrite N.shiftl_mul_pow2. change (2 ^ 8) with 256. lia.
Qed.

Lemma lxor_byte_word (b c r s : N) : b < 256 -> c < 256 ->
  N.lxor (b + 256 * r) (c + 256 * s) = N.lxor b c + 256 * N.lxor r s.
Proof.
  intros Hb Hc. rewrite !word_split by (done || by apply lxor_lt).
  rewrite N.shiftl_lxor, !N.lxor_assoc. f_equal.
  rewrite <-!N.lxor_assoc. f_equal. apply N.lxor_comm.
Qed.

Definition byte_xor (a b : byte) : byte := to_u8 (N.lxor (u8 a) (u8 b)).

Lemma u8_byte_xor a b : u8 (byte_xor a b) = N.lxor (u8 a) (u8 b).
Proof.
  unfold byte_xor. rewrite u8_to_u8. apply N.mod_small, lxor_lt; apply u8_lt.
Qed.

Lemma byte_xor_0 a b : u8 (byte_xor a b) = 0 <-> a = b.
Proof. rewrite u8_byte_xor, N.lxor_eq_0_iff. split; [apply u8_inj|by intros ->]. Qed.

Lemma lxor_from_le (x y : bytes) : length x = length y ->
  N.lxor (from_le x) (from_le y) = from_le (zip_with byte_xor x y).
Proof.
  revert y. induction x as [|b x IH]; intros [|c y] Hl; try done. unfold from_le; fold from_le.
  cbn [zip_with]. unfold from_le at 3; fold from_le. rewrite <-IH by by injection Hl.
  rewrite lxor_byte_word by apply u8_lt. by rewrite u8_byte_xor.
Qed.

Lemma zip_with_rev {A B C} (f : A -> B -> C) (x : list A) (y : list B) : length x = length y ->
  zip_with f (rev x) (rev y) = rev (zip_with f x y).
Proof.
  revert y. induction x as [|a x IH]; intros [|b y] Hl; try done. cbn [rev zip_with].
  rewrite zip_with_app by (rewrite !length_rev; by injection Hl).
  rewrite IH by by injection Hl. done.
Qed.

(** The number of equal leading bytes. *)
Fixpoint common_prefix (x y : bytes) : N :=
  match x, y with
  | a :: x, b :: y => if decide (a = b) then 1 + common_prefix x y else 0
  | _, _ => 0
  end.

(** Trailing zeros of a word are the zero bits of its low bytes. *)
Lemma trailing_zeros_byte p : 8 <= trailing_zeros_pos p -> N.pos p mod 256 = 0.
Proof.
  intros H. do 8 (destruct p as [p|p|]; cbn [trailing_zeros_pos] in H; try lia).
Qed.

Lemma trailing_zeros_shift p : trailing_zeros_pos (256 * p) = 8 + trailing_zeros_pos p.
Proof. change (256 * p)%positive with (p~0~0~0~0~0~0~0~0)%positive. cbn [trailing_zeros_pos]. lia. Qed.

Lemma trailing_zeros_diff k (x y : bytes) : length x = k -> length y = k -> x <> y ->
  trailing_zeros (8 * N.of_nat k) (from_le (zip_with byte_xor x y)) / 8 = common_prefix x y.
Proof.
  revert x y. induction k as [|k IH]; intros [|a x] [|b y] Hx Hy Hne; try done.
  unfold from_le; fold from_le. cbn [zip_with common_prefix]. unfold from_le; fold from_le.
  injection Hx as Hx. injection Hy as Hy.
  set (d := from_le _). pose proof (u8_lt (byte_xor a b)).
  destruct (decide (a = b)) as [->|Hab].
  - rewrite (proj2 (byte_xor_0 b b)), N.add_0_l by done.
    specialize (IH x y Hx Hy ltac:(congruence)). fold d in IH.
    assert (Hd : d <> 0).
    { subst d. intros Hd. rewrite <-lxor_from_le in Hd by congruence. apply N.lxor_eq in Hd.
      apply Hne. f_equal. rewrite <-(to_le_from_le x), <-(to_le_from_le y), Hd. congruence. }
    destruct d as [|p]; [done|]. change (256 * N.pos p) with (N.pos (256 * p)).
    cbn [trailing_zeros] in *. rewrite trailing_zeros_shift, <-IH. lia.
  - destruct (N.eq_dec (u8 (byte_xor a b)) 0) as [H0|H0]; [by apply byte_xor_0 in H0|].
    destruct (u8 (byte_xor a b) + 256 * d) as [|p] eqn:Hp; [lia|]. cbn [trailing_zeros].
    destruct (N.leb_spec 8 (trailing_zeros_pos p)) as [H8|]; [|lia].
    apply trailing_zeros_byte in H8. rewrite <-Hp in H8. lia.
Qed.

Section counting.
Context `{T : Target}.
Implicit Types (a b x y : bytes).

(** On either endianness, the difference of two words locates the first
    mismatch of their bytes. *)
Lemma mismatch_ok k x y : length x = k -> length y = k -> x <> y ->
  mismatch k (N.lxor (from_ne_bytes x) (from_ne_bytes y)) = common_prefix x y.
Proof.
  intros Hx Hy Hne. rewrite <-(trailing_zeros_diff k) by done. unfold mismatch, word_to_le, from_ne_bytes.
  destruct target_big_endian; [|by rewrite lxor_from_le by congruence].
  rewrite lxor_from_le by (rewrite !length_rev; congruence).
  rewrite zip_with_rev by congruence.
  replace k with (length (rev (zip_with byte_xor x y))) at 2
    by (rewrite length_rev, length_zip_with; lia).
  by rewrite to_le_from_le, rev_involutive.
Qed.

Lemma from_ne_inj x y : length x = length y -> from_ne_bytes x = from_ne_bytes y -> x = y.
Proof.
  intros Hl He. unfold from_ne_bytes in He.
  assert (Hinj : forall u v, length u = length v -> from_le u = from_le v -> u = v).
  { intros u v Huv Hf. by rewrite <-(to_le_from_le u), <-(to_le_from_le v), Hf, Huv. }
  destruct target_big_endian; [|by apply Hinj].
  apply Hinj in He; [|by rewrite !length_rev]. by apply rev_inj.
Qed.

Lemma diff_zero x y : length x = length y ->
  (N.lxor (from_ne_bytes x) (from_ne_bytes y) =? 0) = bool_decide (x = y).
Proof.
  intros Hl. destruct (N.eqb_spec (N.lxor (from_ne_bytes x) (from_ne_bytes y)) 0) as [H|H].
  - apply N.lxor_eq, from_ne_inj in H; [|done]. by rewrite bool_decide_true.
  - rewrite bool_decide_false; [done|]. intros ->. by rewrite N.lxor_nilpotent in H.
Qed.

(** A common prefix, chunk by chunk. *)
Lemma common_prefix_take k x y : (k <= length x)%nat -> (k <= length y)%nat ->
  common_prefix x y = if decide (take k x = take k y)
                      then N.of_nat k + common_prefix (drop k x) (drop k y)
                      else common_prefix (take k x) (take k y).
Proof.
  revert x y. induction k as [|k IH]; intros [|a x] [|b y] Hx Hy; cbn in Hx, Hy; try lia;
    cbn [take drop common_prefix].
  1-4: destruct (decide _); done || lia.
  rewrite (IH x y) by lia. destruct (decide (a = b)) as [->|]; last first.
  { rewrite decide_False; [done|]. congruence. }
  destruct (decide (take k x = take k y)) as [->|]; [rewrite decide_True by done; lia|].
  rewrite decide_False by congruence. done.
Qed.

Lemma common_prefix_min x y :
  common_prefix (take (N.to_nat (N.min (len x) (len y))) x) (take (N.to_nat (N.min (len x) (len y))) y)
  = common_prefix x y.
Proof.
  revert y. induction x as [|a x IH]; intros [|b y]; [done..|].
  replace (N.to_nat (N.min (len (a :: x)) (len (b :: y)))) with
    (S (N.to_nat (N.min (len x) (len y)))) by (cbn [length]; lia).
  cbn [take common_prefix]. by rewrite IH.
Qed.
End counting.

Section count_lemmas.
Context `{T : Target}.
Implicit Types (a b x y input source : bytes).

Lemma chunks8_ok k a b num :
  length a = length b -> (8 * k <= length a)%nat ->
  match chunks8 k a b num with
  | inl n => n = num + common_prefix a b
  | inr (ra, rb, n) => num + common_prefix a b = n + common_prefix ra rb /\
      ra = drop (8 * k) a /\ rb = drop (8 * k) b
  end.
Proof.
  revert a b num. induction k as [|k IH]; intros a b num Hl Hk; cbn [chunks8].
  { rewrite Nat.mul_0_r, !drop_0. done. }
  rewrite diff_zero by len_lia. rewrite (common_prefix_take 8 a b) by lia.
  destruct (decide (take 8 a = take 8 b)) as [He|Hne].
  - rewrite bool_decide_true by done. cbn [negb].
    specialize (IH (drop 8 a) (drop 8 b) (num + 8)). rewrite !length_drop in IH.
    specialize (IH ltac:(lia) ltac:(lia)).
    destruct (chunks8 _ _ _ _) as [n|[[ra rb] n]]; [lia|]. rewrite !drop_drop in IH.
    replace (8 + 8 * k)%nat with (8 * S k)%nat in IH by lia. split; [lia|apply IH].
  - rewrite bool_decide_false by done. cbn [negb]. by rewrite mismatch_ok by (done || len_lia).
Qed.

Lemma first_chunk_some n a : n <= len a -> first_chunk n a = Some (take (N.to_nat n) a).
Proof. intros. unfold first_chunk. by bcase. Qed.
Lemma first_chunk_none n a : len a < n -> first_chunk n a = None.
Proof. intros. unfold first_chunk. by bcase. Qed.

Lemma tails_ok a b num :
  length a = length b -> (length a < 4)%nat ->
  (let '(ra, rb, num) := tail2 a b num in tail1 ra rb num) = num + common_prefix a b.
Proof.
  intros Hl H4. unfold tail2, tail1.
  destruct a as [|a0 [|a1 [|a2 [|]]]], b as [|c0 [|c1 [|c2 [|]]]]; cbn in Hl, H4; try lia;
    repeat first [rewrite first_chunk_some by (cbn; lia) | rewrite first_chunk_none by (cbn; lia)];
    change (N.to_nat 2) with 2%nat; cbn -[decide];
    repeat (case_decide; simplify_eq; cbn -[decide]); try lia; done.
Qed.

(** The word-at-a-time count is the length of the common prefix. *)
Lemma count_same_bytes_long_ok a b : count_same_bytes_long a b = common_prefix a b.
Proof.
  unfold count_same_bytes_long. rewrite <-(common_prefix_min a b).
  remember (N.min (len a) (len b)) as n eqn:Hn.
  assert (Ha : length (take (N.to_nat n) a) = N.to_nat n) by len_lia.
  assert (Hb : length (take (N.to_nat n) b) = N.to_nat n) by len_lia.
  revert Ha Hb. generalize (take (N.to_nat n) a) as a', (take (N.to_nat n) b) as b'.
  clear a b Hn. intros a b Ha Hb.
  pose proof (chunks8_ok (N.to_nat (n / 8)) a b 0 ltac:(lia) ltac:(lia)) as Hc.
  destruct (chunks8 _ _ _ _) as [k|[[ra rb] k]]; [lia|]. destruct Hc as (Hc & Hra & Hrb).
  rewrite N.add_0_l in Hc. rewrite Hc.
  assert (Hla : length ra = N.to_nat (n mod 8)) by (subst ra; len_lia).
  assert (Hlb : length rb = N.to_nat (n mod 8)) by (subst rb; len_lia).
  destruct (N.ltb_spec (n mod 8) 4).
  - rewrite !first_chunk_none by lia. apply tails_ok; lia.
  - rewrite !first_chunk_some by lia. change (N.to_nat 4) with 4%nat.
    rewrite diff_zero by len_lia. rewrite (common_prefix_take 4 ra rb) by lia.
    destruct (decide (take 4 ra = take 4 rb)) as [He|Hne].
    + rewrite bool_decide_true by done. cbn [negb]. rewrite tails_ok by len_lia. lia.
    + rewrite bool_decide_false by done. cbn [negb]. by rewrite mismatch_ok by (done || len_lia).
Qed.

Lemma count_same_bytes_ok {E} input cur source cand e :
  cur + e <= len input -> cand <= len source ->
  count_same_bytes (E:=E) input cur source cand e =
    let n := common_prefix (sub input cur (len input - e - cur)) (drop (N.to_nat cand) source) in
    Ok (cur + n, n).
Proof.
  intros H1 H2. unfold count_same_bytes. do 3 access.
  set (a := sub _ _ _). set (b := drop _ _). cbn zeta.
  assert (Hn : match first_chunk 8 a, first_chunk 8 b with
    | Some x, Some y =>
        if negb (N.lxor (from_ne_bytes x) (from_ne_bytes y) =? 0)
        then mismatch 8 (N.lxor (from_ne_bytes x) (from_ne_bytes y))
        else 8 + count_same_bytes_long (drop 8 a) (drop 8 b)
    | _, _ => count_same_bytes_long a b
    end = common_prefix a b); [|by rewrite Hn].
  rewrite !count_same_bytes_long_ok.
  destruct (N.ltb_spec (len a) 8); [by rewrite first_chunk_none by done|].
  destruct (N.ltb_spec (len b) 8); [by rewrite (first_chunk_none 8 b); [case_match|]|].
  rewrite !first_chunk_some by done. change (N.to_nat 8) with 8%nat.
  rewrite diff_zero by len_lia. rewrite (common_prefix_take 8 a b) by lia.
  destruct (decide (take 8 a = take 8 b)).
  - by rewrite bool_decide_true.
  - rewrite bool_decide_false by done. cbn [negb]. by apply mismatch_ok; [len_lia..|].
Qed.

(** ** Word reads *)

Lemma rd32_ok {E} src p : p + 4 <= len src -> rd32 (E:=E) src p = Ok (from_ne_bytes (sub src p 4)).
Proof. intros. unfold rd32. access. rewrite first_chunk_some by len_lia. done. Qed.

Lemma rd64_ok {E} src p : p + 8 <= len src -> rd64 (E:=E) src p = Ok (from_ne_bytes (sub src p 8)).
Proof. intros. unfold rd64. access. rewrite first_chunk_some by len_lia. done. Qed.

Lemma rd64_upto_ok {E} src p l : p <= l -> p + 8 <= len src ->
  rd64_upto (E:=E) src p l = Ok (from_ne_bytes (sub src p 8)).
Proof. intros. unfold rd64_upto, assert. bcase. mstep. rewrite N.min_l by done. by apply rd64_ok. Qed.

Lemma to_ne_from_ne x : to_ne_bytes (length x) (from_ne_bytes x) = x.
Proof.
  unfold to_ne_bytes, from_ne_bytes. destruct target_big_endian; [|apply to_le_from_le].
  rewrite <-(length_rev x) at 1. by rewrite to_le_from_le, rev_involutive.
Qed.

(** The first four of eight bytes are those [rd32] reads. *)
Lemma first4_ok src p : p + 8 <= len src ->
  first4 (from_ne_bytes (sub src p 8)) = from_ne_bytes (sub src p 4).
Proof.
  intros. unfold first4. replace 8%nat with (length (sub src p 8)) by (rewrite length_sub; lia).
  rewrite to_ne_from_ne. f_equal. unfold sub. by rewrite take_take.
Qed.

Lemma from_ne_bound x : from_ne_bytes x < 256 ^ len x.
Proof.
  unfold from_ne_bytes. pose proof (from_le_bound x). pose proof (from_le_bound (rev x)) as Hr.
  rewrite length_rev in Hr. by destruct target_big_endian.
Qed.

(** Equal words are equal bytes. *)
Lemma word_eq_bytes n s p s' p' :
  p + n <= len s -> p' + n <= len s' ->
  from_ne_bytes (sub s p n) = from_ne_bytes (sub s' p' n) -> sub s p n = sub s' p' n.
Proof. intros ? ?. apply from_ne_inj. by rewrite !length_sub. Qed.

(** ** Hashes and tables *)

Lemma assert_valid_entries_pow2 n : assert_valid_entries n = true -> n = 2 ^ N.log2 n /\ 256 <= n.
Proof.
  unfold assert_valid_entries, is_power_of_two, MIN_ENTRIES.
  destruct (N.eqb_spec n (2 ^ N.log2 n)), (N.leb_spec 1 n), (N.leb_spec 256 n); done.
Qed.

Lemma hash_n_lt n w : assert_valid_entries n = true -> hash_n n w < n.
Proof.
  intros [Hn _]%assert_valid_entries_pow2. unfold hash_n.
  assert (Hs : forall v width, v < 2 ^ width -> N.shiftr v (width - N.log2 n) < n).
  { intros v width Hv. rewrite N.shiftr_div_pow2. rewrite Hn at 2.
    apply N.Div0.div_lt_upper_bound. rewrite <-N.pow_add_r.
    eapply N.lt_le_trans; [done|]. apply N.pow_le_mono_r; lia. }
  destruct target_width; apply Hs; by apply N.mod_lt.
Qed.

Lemma set_index_ok {E} (l : list N) i v : i < len l ->
  set_index (E:=E) l i v = Ok (<[N.to_nat i := v]> l).
Proof. intros. unfold set_index. by bcase. Qed.

Lemma index_below {E} (l : list N) i (b : N) : i < len l -> Forall (fun e => e < b) l ->
  exists v, index (E:=E) l i = Ok v /\ v < b.
Proof.
  intros Hi Hb. destruct (index_ok (E:=E) l i Hi) as (v & Hv & He).
  exists v. split; [done|]. by eapply Forall_lookup_1 in Hb.
Qed.

Lemma replicate_below n : Forall (fun e => e < 1) (replicate n 0).
Proof. apply Forall_replicate. lia. Qed.
End count_lemmas.

(** A table of entry count [n]: its length, and that [n] is a valid count. *)
Definition entries_ok (n : N) (l : list N) : Prop := len l = n /\ assert_valid_entries n = true.

#[export] Instance HashTableU32U16_laws `{T : Target} n : HashTableLaws (HashTableU32U16 n).
Proof.
  refine {| table_ok t := entries_ok n (dict16 t);
            below t b := Forall (fun e => e < b) (dict16 t) |}.
  - intros E t w b [Hl Hn] Hb. apply index_below; [|done]. rewrite Hl. by apply hash_n_lt.
  - intros E t w v b [Hl Hn] Hb Hv. cbn. unfold HashTableU32U16Impl.put_at.
    rewrite set_index_ok by (rewrite Hl; by apply hash_n_lt). mstep. eexists. split; [reflexivity|].
    split; [split; [cbn [dict16 dict32]; by rewrite length_insert|done]|]. cbn [dict16 dict32]. apply Forall_insert; [done|].
    pose proof (N.Div0.mod_le v (2 ^ 16)). lia.
  - intros t [Hl Hn]. split; [split; [cbn; by rewrite length_replicate|done]|apply replicate_below].
  - intros t b b' Hb Hle. eapply Forall_impl; [|exact Hb]. intros e He. cbn in He. lia.
Defined.

#[export] Instance HashTableU32_laws `{T : Target} n : HashTableLaws (HashTableU32 n).
Proof.
  refine {| table_ok t := entries_ok n (dict32 t);
            below t b := Forall (fun e => e < b) (dict32 t) |}.
  - intros E t w b [Hl Hn] Hb. apply index_below; [|done]. rewrite Hl. by apply hash_n_lt.
  - intros E t w v b [Hl Hn] Hb Hv. cbn. unfold HashTableU32Impl.put_at.
    rewrite set_index_ok by (rewrite Hl; by apply hash_n_lt). mstep. eexists. split; [reflexivity|].
    split; [split; [cbn [dict16 dict32]; by rewrite length_insert|done]|]. cbn [dict16 dict32]. apply Forall_insert; [done|].
    pose proof (N.Div0.mod_le v (2 ^ 32)). lia.
  - intros t [Hl Hn]. split; [split; [cbn; by rewrite length_replicate|done]|apply replicate_below].
  - intros t b b' Hb Hle. eapply Forall_impl; [|exact Hb]. intros e He. cbn in He. lia.
Defined.

(** A new table satisfies the laws' invariants. *)
Section new_tables.
Context `{T : Target} (n : N) (Hn : assert_valid_entries n = true).

Lemma new_table16_ok : table_ok (HashTableU32U16Impl.new (n:=n)) /\ below (HashTableU32U16Impl.new (n:=n)) 1.
Proof. split; [split; [cbn; len_lia|done]|apply replicate_below]. Qed.

Lemma new_table32_ok : table_ok (HashTableU32Impl.new (n:=n)) /\ below (HashTableU32Impl.new (n:=n)) 1.
Proof. split; [split; [cbn; len_lia|done]|apply replicate_below]. Qed.

(** [reposition] shifts the bound down with the entries. *)
Lemma reposition_ok (t : HashTableU32 n) b offset :
  table_ok t -> below t b ->
  table_ok (HashTableU32Impl.reposition t offset) /\
  below (HashTableU32Impl.reposition t offset) (N.max 1 (b - offset)).
Proof.
  intros [Hl _] Hb. split; [split; [cbn; by rewrite length_fmap|done]|].
  apply Forall_fmap. eapply Forall_impl; [|exact Hb]. intros e He. cbn in He |- *. lia.
Qed.
End new_tables.
