(* ===== verification/Compress.v ===== *)
(** * crates/encode: the block compressor ([compress.rs])

    The output window, the two compression loops and their entry points.
    A slice access out of range and a failed [debug_assert] are panics. *)

From S2P Require Import Prelude BlockSpec Core HashTable.

Definition EPOCH_THRESHOLD : N := 1024.
Definition INCREASE_STEPSIZE_BITSHIFT : N := 3.
Definition DICT_READONLY_LIMIT : N := 256.
Definition DICT_EPOCH_THRESHOLD : N := 1024.

(** ** Tokens and the output window *)

Definition token_from_literal (lit_len : N) : byte :=
  if lit_len <? 15 then to_u8 (N.shiftl (lit_len mod 256) 4) else to_u8 240.

Definition token_from_literal_and_match_length (lit_len duplicate_length : N) : byte :=
  let token := if lit_len <? 15 then N.shiftl (lit_len mod 256) 4 mod 256 else 240 in
  to_u8 (N.lor token (if duplicate_length <? 15 then duplicate_length mod 256 else 15)).

(** [rest], the unwritten tail of the output, with the bytes split off its
    front so far. *)
Record window := { w_done : bytes; w_rest : bytes }.

Section window.
Context `{T : Target} {E : Type}.
Implicit Types (w : window) (input : bytes).

Definition push_byte {Sk} `{Sink Sk} (output : Sk) (el : byte) : res E Sk := push output el.

(** [while n >= 0xFF], then the rest. *)
Fixpoint write_integer_loop {Sk} `{Sink Sk} (fuel : nat) (output : Sk) (n : N) : res E Sk :=
  match fuel with
  | O => NoFuel
  | S fuel =>
      if 255 <=? n then output ← push_byte output xff; write_integer_loop fuel output (n - 255)
      else push_byte output (to_u8 n)
  end.

Definition write_integer {Sk} `{Sink Sk} (output : Sk) (n : N) : res E Sk :=
  write_integer_loop (S (N.to_nat (n / 255))) output n.

Definition put_byte w (b : byte) : res E window :=
  match w_rest w with
  | [] => Panic
  | _ :: tail => Ok {| w_done := w_done w ++ [b]; w_rest := tail |}
  end.

Definition put_slice w (d : bytes) : res E window :=
  _ ← assert (len d <=? len (w_rest w));
  dst ← slice_copy d (take (length d) (w_rest w));
  Ok {| w_done := w_done w ++ dst; w_rest := drop (length d) (w_rest w) |}.

Fixpoint put_integer_loop (fuel : nat) w (n : N) : res E window :=
  match fuel with
  | O => NoFuel
  | S fuel =>
      if 255 <=? n then w ← put_byte w xff; put_integer_loop fuel w (n - 255)
      else put_byte w (to_u8 n)
  end.

Definition put_integer w (n : N) : res E window := put_integer_loop (S (N.to_nat (n / 255))) w n.

(** The window after the final literal run; what is left is [w_rest]. *)
Definition handle_last_literals w input (start : N) : res E window :=
  lit_len ← usub (len input) start;
  w ← put_byte w (token_from_literal lit_len);
  w ← (if 15 <=? lit_len then put_integer w (lit_len - 15) else Ok w);
  s ← slice_from input start;
  put_slice w s.

(** The new position and the count. *)
Definition finish_output (start total rest_len : N) : res E (N * N) :=
  written ← usub total rest_len; Ok (start + written, written).

(** The exact writes, of any lengths. *)
Definition emit_general w input (literal_start lit_len offset match_len : N) : res E window :=
  literals ← slice input literal_start (literal_start + lit_len);
  w ← put_byte w (token_from_literal_and_match_length lit_len match_len);
  w ← (if 15 <=? lit_len then put_integer w (lit_len - 15) else Ok w);
  w ← put_slice w literals;
  w ← put_slice w (to_le 2 offset);
  if 15 <=? match_len then put_integer w (match_len - 15) else Ok w.

(** The token, 16 bytes from the literals on and the offset, in the 19 bytes
    [seq] at the front of the window. *)
Definition emit_short w (seq src : bytes) (lit_len offset match_len : N) : res E window :=
  seq ← write_at seq 0 [to_u8 (N.lor (N.shiftl (lit_len mod 256) 4 mod 256) (match_len mod 256))];
  seq ← write_at seq 1 src;
  seq ← write_at seq (1 + lit_len) (to_le 2 offset);
  rest ← slice_from (seq ++ drop 19 (w_rest w)) (3 + lit_len);
  Ok {| w_done := w_done w ++ take (N.to_nat (3 + lit_len)) seq; w_rest := rest |}.

Definition emit_sequence w input (literal_start lit_len offset match_len : N) : res E window :=
  if (lit_len <? 15) && (match_len <? 15) then
    let src := if literal_start <=? len input
               then first_chunk 16 (drop (N.to_nat literal_start) input) else None in
    match first_chunk 19 (w_rest w), src with
    | Some seq, Some src => emit_short w seq src lit_len offset match_len
    | _, _ => emit_general w input literal_start lit_len offset match_len
    end
  else emit_general w input literal_start lit_len offset match_len.
End window.

Section limits.
Context `{T : Target}.

(** The product is computed on [u64]. *)
Definition get_maximum_output_size {E} (input_len : N) : res E N :=
  if input_len * 110 <? 2 ^ 64 then
    let raw := 16 + 4 + input_len * 110 / 100 in
    Ok (if usize_max <? raw then usize_max else raw)
  else Panic.

(** [ensure_stream_bounds] on 32-bit targets, [assert_stream_bounds] on the
    others. *)
Definition ensure_stream_bounds (input_stream_offset input_len ext_dict_len : N)
  : res CompressError unit :=
  if input_stream_offset <? ext_dict_len then Err InputTooLarge else
  match (i ← checked_add input_stream_offset input_len; checked_add i ext_dict_len) with
  | None => Err InputTooLarge
  | Some span => if isize_max <? span then Err InputTooLarge else Ok tt
  end.

Definition assert_stream_bounds (input_stream_offset input_len ext_dict_len : N)
  : res CompressError unit :=
  _ ← assert (ext_dict_len <=? input_stream_offset);
  assert (match (i ← checked_add input_stream_offset input_len; checked_add i ext_dict_len) with
          | Some i => i <=? isize_max
          | None => false
          end).

Definition stream_bounds (input_stream_offset input_len ext_dict_len : N) : res CompressError unit :=
  match target_width with
  | W32 => ensure_stream_bounds input_stream_offset input_len ext_dict_len
  | W64 => assert_stream_bounds input_stream_offset input_len ext_dict_len
  end.
End limits.

(** ** Match extension *)

Section backtrack.
Context {E : Type}.
Implicit Types (input source : bytes).

Fixpoint backtrack_loop (fuel : nat) input (cur literal_start : N) source (candidate : N)
  : res E (N * N) :=
  match fuel with
  | O => NoFuel
  | S fuel =>
      if (0 <? candidate) && (literal_start <? cur) then
        a ← index input (cur - 1);
        b ← index source (candidate - 1);
        if byte_eqb a b then backtrack_loop fuel input (cur - 1) literal_start source (candidate - 1)
        else Ok (cur, candidate)
      else Ok (cur, candidate)
  end.

(** The new [cur] and [candidate]. *)
Definition backtrack_match input (cur literal_start : N) source (candidate : N) : res E (N * N) :=
  backtrack_loop (S (N.to_nat cur)) input cur literal_start source candidate.
End backtrack.

(** ** The core loop *)

(** What the loops carry. *)
Record cstate (Tb : Type) := {
  c_table : Tb;
  c_cur : N;
  c_forward_bytes : N;
  c_forward_hash : N;
  c_literal_start : N;
  c_rest : window
}.
Arguments c_table {Tb}. Arguments c_cur {Tb}. Arguments c_forward_bytes {Tb}.
Arguments c_forward_hash {Tb}. Arguments c_literal_start {Tb}. Arguments c_rest {Tb}.
Arguments Build_cstate {Tb}.

(** A match: the candidate's position in its source, and its offset. *)
Record candidate_match := { m_candidate : N; m_source : bytes; m_offset : N }.

(** How a pass of the search loop ends. *)
Inductive search_exit (Tb : Type) :=
| SNext (st : cstate Tb)
| SEnd (st : cstate Tb)
| SFound (st : cstate Tb) (m : candidate_match).
Arguments SNext {Tb}. Arguments SEnd {Tb}. Arguments SFound {Tb}.

(** How a pass of the emission loop ends: a rematch, or [break]. *)
Inductive emit_exit (Tb : Type) :=
| EAgain (st : cstate Tb) (m : candidate_match)
| EBreak (st : cstate Tb).
Arguments EAgain {Tb}. Arguments EBreak {Tb}.

(** [x as u16] *)
Definition as_u16 (n : N) : N := n mod 2 ^ 16.

(** The end of a call: the window goes back into the sink. *)
Definition finish_call {E Tb Sk} `{Sink Sk} (output : Sk) (out : bytes) (out_start out_total : N)
  (t : Tb) (w : window) : res E (Sk * Tb * N) :=
  '(out_pos, n) ← finish_output out_start out_total (len (w_rest w));
  Ok (set_output_with_pos output
        (take (N.to_nat out_start) out ++ w_done w ++ w_rest w, out_pos), t, n).

(** [&&] of two computations. *)
Definition and_then {E} (a : bool) (b : res E bool) : res E bool := if a then b else Ok false.

Section compress_internal.
Context `{T : Target} {Tb : Type} `{HashTable Tb}.
Context (USE_DICT HAS_OFFSET READONLY NEAR : bool).
Implicit Types (st : cstate Tb).

Section loops.
Context (input ext_dict : bytes) (input_stream_offset : N).

Definition carry_hash : bool := HAS_OFFSET && negb USE_DICT.

Definition curr_bytes {E} (cur next_cur bytes_ : N) : res E N :=
  if carry_hash then rd32 input (N.min cur next_cur) else Ok (first4 bytes_).

(** A put that [READONLY] suppresses. *)
Definition put_unless_readonly {E} (t : Tb) (h v : N) : res E Tb :=
  if READONLY then Ok t else put_at t h v.

(** The candidate test: the match, or [None] to go on. *)
Definition probe (cur next_cur bytes_ candidate : N) : res CompressError (option candidate_match) :=
  let input_pos := wrapping_sub candidate input_stream_offset in
  let ext_dict_stream_offset := input_stream_offset - len ext_dict in
  if READONLY then
    e ← uadd candidate 4;
    if len ext_dict <? e then Ok None else
    _ ← assert (input_stream_offset + cur - candidate <=? MAX_DISTANCE);
    _ ← assert (ext_dict_stream_offset =? 0);
    let offset := as_u16 (input_stream_offset + cur - candidate) in
    cand_bytes ← rd32 ext_dict candidate;
    b ← curr_bytes cur next_cur bytes_;
    Ok (if cand_bytes =? b
        then Some {| m_candidate := candidate; m_source := ext_dict; m_offset := offset |} else None)
  else if (input_pos <? next_cur)
          && (negb (HAS_OFFSET && negb USE_DICT) || (cur - input_pos <=? MAX_DISTANCE)) then
    c ← rd32 input input_pos;
    b ← curr_bytes cur next_cur bytes_;
    Ok (if (c =? b) && (NEAR || (cur - input_pos <=? MAX_DISTANCE))
        then Some {| m_candidate := input_pos; m_source := input;
                     m_offset := as_u16 (cur - input_pos) |} else None)
  else if USE_DICT && (ext_dict_stream_offset <=? candidate)
          && (candidate - ext_dict_stream_offset + 4 <=? len ext_dict) then
    let dict_pos := candidate - ext_dict_stream_offset in
    c ← rd32 ext_dict dict_pos;
    b ← curr_bytes cur next_cur bytes_;
    Ok (if (c =? b) && (NEAR || (input_stream_offset + cur - candidate <=? MAX_DISTANCE))
        then Some {| m_candidate := dict_pos; m_source := ext_dict;
                     m_offset := as_u16 (input_stream_offset + cur - candidate) |} else None)
  else Ok None.

(** One pass of the search loop. *)
Definition search_step (non_match_count : N) st : res CompressError (search_exit Tb) :=
  let cur := c_cur st in
  end_pos_check ← usub (len input) MFLIMIT;
  let step := N.shiftr non_match_count INCREASE_STEPSIZE_BITSHIFT in
  let next_cur := cur + step in
  if end_pos_check + 1 <? next_cur then Ok (SEnd st) else
  let bytes_ := c_forward_bytes st in
  let h := if carry_hash then c_forward_hash st else hash (Tb:=Tb) bytes_ in
  candidate ← get_at (c_table st) h;
  forward_bytes ← rd64 input next_cur;
  let forward_hash := hash (Tb:=Tb) forward_bytes in
  t ← put_unless_readonly (c_table st) h (cur + input_stream_offset);
  _ ← assert (READONLY || (candidate <=? input_stream_offset + cur));
  m ← probe cur next_cur bytes_ candidate;
  let st' c := {| c_table := t; c_cur := c; c_forward_bytes := forward_bytes;
                  c_forward_hash := forward_hash; c_literal_start := c_literal_start st;
                  c_rest := c_rest st |} in
  Ok (match m with Some m => SFound (st' cur) m | None => SNext (st' next_cur) end).

Fixpoint search_loop (fuel : nat) (non_match_count : N) st : res CompressError (search_exit Tb) :=
  match fuel with
  | O => NoFuel
  | S fuel =>
      e ← search_step non_match_count st;
      match e with
      | SNext st => search_loop fuel (non_match_count + 1) st
      | e => Ok e
      end
  end.

(** One pass of the emission loop. *)
Definition emit_step st (m : candidate_match) : res CompressError (emit_exit Tb) :=
  end_pos_check ← usub (len input) MFLIMIT;
  let literal_start := c_literal_start st in
  '(cur, candidate) ←
    backtrack_match input (c_cur st) literal_start (m_source m) (m_candidate m);
  lit_len ← usub cur literal_start;
  let cur := cur + MINMATCH in
  let candidate := candidate + MINMATCH in
  '(cur, duplicate_length) ← count_same_bytes input cur (m_source m) candidate END_OFFSET;
  p ← usub cur 2;
  limit ← usub (len input) 8;
  w ← rd64_upto input p limit;
  t ← put_unless_readonly (c_table st) (hash (Tb:=Tb) w) (p + input_stream_offset);
  rest ← emit_sequence (c_rest st) input literal_start lit_len (m_offset m) duplicate_length;
  let st' t fb fh := {| c_table := t; c_cur := cur; c_forward_bytes := fb; c_forward_hash := fh;
                        c_literal_start := cur; c_rest := rest |} in
  if negb USE_DICT && (cur <=? end_pos_check) then
    bytes_ ← rd64 input cur;
    let h := hash (Tb:=Tb) bytes_ in
    rematch ← get_at t h;
    let rc := wrapping_sub rematch input_stream_offset in
    found ← and_then (rc <? cur)
      (r ← rd32 input rc; Ok ((first4 bytes_ =? r) && (NEAR || (cur - rc <=? MAX_DISTANCE))));
    if (found : bool) then
      t ← put_at t h (cur + input_stream_offset);
      Ok (EAgain (st' t (c_forward_bytes st) (c_forward_hash st))
            {| m_candidate := rc; m_source := input; m_offset := as_u16 (cur - rc) |})
    else Ok (EBreak (st' t bytes_ h))
  else if cur <=? end_pos_check then
    bytes_ ← rd64 input cur;
    Ok (EBreak (st' t bytes_ (hash (Tb:=Tb) bytes_)))
  else Ok (EBreak (st' t (c_forward_bytes st) (c_forward_hash st))).

Fixpoint emit_loop (fuel : nat) st (m : candidate_match) : res CompressError (cstate Tb) :=
  match fuel with
  | O => NoFuel
  | S fuel =>
      e ← emit_step st m;
      match e with
      | EAgain st m => emit_loop fuel st m
      | EBreak st => Ok st
      end
  end.

(** The outer loop: the state and the window after the last literals. *)
Fixpoint compress_loop (fuel : nat) st : res CompressError (Tb * window) :=
  match fuel with
  | O => NoFuel
  | S fuel =>
      e ← search_loop (S (length input)) (N.shiftl 1 INCREASE_STEPSIZE_BITSHIFT) st;
      match e with
      | SEnd st | SNext st =>
          w ← handle_last_literals (c_rest st) input (c_literal_start st); Ok (c_table st, w)
      | SFound st m =>
          st ← emit_loop (S (length input)) st m;
          compress_loop fuel st
      end
  end.
End loops.

(** The assertions at entry, and the stream-bounds test. *)
Definition check_call (input : bytes) (input_pos : N) (ext_dict : bytes) (input_stream_offset : N)
  : res CompressError unit :=
  _ ← assert (input_pos <=? len input);
  _ ← (if USE_DICT then
         _ ← assert (len ext_dict <=? WINDOW_SIZE);
         stream_bounds input_stream_offset (len input) (len ext_dict)
       else assert (len ext_dict =? 0));
  _ ← (if HAS_OFFSET then Ok tt else assert (input_stream_offset =? 0));
  _ ← (if READONLY then
         _ ← assert (USE_DICT && (input_stream_offset =? len ext_dict));
         assert (len ext_dict + len input <? u16_max)
       else Ok tt);
  if NEAR then assert (len ext_dict + len input <=? MAX_DISTANCE + 1) else Ok tt.

(** The first position of a stream is indexed before the search. *)
Definition index_start (input : bytes) (input_pos : N) (table : Tb) (input_stream_offset : N)
  : res CompressError (Tb * N) :=
  if (input_pos =? 0) && (input_stream_offset =? 0) then
    h ← get_hash_at Tb input 0;
    t ← put_unless_readonly table h 0;
    Ok (t, 1)
  else Ok (table, input_pos).

(** The sink, the table and the count. *)
Definition compress_internal {Sk} `{Sink Sk} (input : bytes) (input_pos : N) (output : Sk) (table : Tb)
  (ext_dict : bytes) (input_stream_offset : N) : res CompressError (Sk * Tb * N) :=
  _ ← check_call input input_pos ext_dict input_stream_offset;
  let input_stream_offset := if HAS_OFFSET then input_stream_offset else 0 in
  let '(out, out_start) := output_mut_with_pos output in
  tail ← slice_from out out_start;
  let rest := {| w_done := []; w_rest := tail |} in
  let out_total := len tail in
  max ← get_maximum_output_size (len input - input_pos);
  if out_total <? max then Err COutputTooSmall else
  if (len input <? LZ4_MIN_LENGTH) || (len input - input_pos <? LZ4_MIN_LENGTH) then
    w ← handle_last_literals rest input input_pos;
    finish_call output out out_start out_total table w
  else
    _ ← usub input_stream_offset (len ext_dict); (* [ext_dict_stream_offset] *)
    '(table, cur) ← index_start input input_pos table input_stream_offset;
    forward_bytes ← rd64 input cur;
    '(table, w) ← compress_loop input ext_dict input_stream_offset (S (length input))
      {| c_table := table; c_cur := cur; c_forward_bytes := forward_bytes;
         c_forward_hash := hash (Tb:=Tb) forward_bytes; c_literal_start := input_pos;
         c_rest := rest |};
    finish_call output out out_start out_total table w.
End compress_internal.

(** ** The dual-table loop *)

Section compress_with_dict_table.
Context `{T : Target} {Tb : Type} `{HashTable Tb}.

Section loops.
Context (input ext_dict : bytes) (input_stream_offset main_base : N) (dict_table : Tb).
Implicit Types (st : cstate Tb).

(** The main table's candidate, a position of this input. *)
Definition probe_main (cur next_cur main_candidate : N) : res CompressError (option candidate_match) :=
  let main_pos := wrapping_sub main_candidate main_base in
  if (main_base <=? main_candidate) && (main_pos <? next_cur) then
    _ ← assert (main_pos <? cur);
    c ← rd32 input main_pos;
    b ← rd32 input (N.min cur next_cur);
    Ok (if c =? b
        then Some {| m_candidate := main_pos; m_source := input;
                     m_offset := as_u16 (cur - main_pos) |} else None)
  else Ok None.

(** The pristine table's candidate, a position of the dictionary. *)
Definition probe_dict (cur next_cur dict_candidate : N) : res CompressError (option candidate_match) :=
  e ← uadd dict_candidate 4;
  if e <=? len ext_dict then
    _ ← assert (input_stream_offset + cur - dict_candidate <=? MAX_DISTANCE);
    c ← rd32 ext_dict dict_candidate;
    b ← rd32 input (N.min cur next_cur);
    Ok (if c =? b
        then Some {| m_candidate := dict_candidate; m_source := ext_dict;
                     m_offset := as_u16 (input_stream_offset + cur - dict_candidate) |} else None)
  else Ok None.

Definition dict_search_step (non_match_count : N) st : res CompressError (search_exit Tb) :=
  let cur := c_cur st in
  end_pos_check ← usub (len input) MFLIMIT;
  let step := N.shiftr non_match_count INCREASE_STEPSIZE_BITSHIFT in
  let next_cur := cur + step in
  if end_pos_check + 1 <? next_cur then Ok (SEnd st) else
  let h := c_forward_hash st in
  forward_hash ← get_hash_at Tb input next_cur;
  main_candidate ← get_at (c_table st) h;
  t ← put_at (c_table st) h (cur + main_base);
  let st' c := {| c_table := t; c_cur := c; c_forward_bytes := 0; c_forward_hash := forward_hash;
                  c_literal_start := c_literal_start st; c_rest := c_rest st |} in
  m ← probe_main cur next_cur main_candidate;
  match m with
  | Some m => Ok (SFound (st' cur) m)
  | None =>
      dict_candidate ← get_at dict_table h;
      m ← probe_dict cur next_cur dict_candidate;
      Ok (match m with Some m => SFound (st' cur) m | None => SNext (st' next_cur) end)
  end.

Fixpoint dict_search_loop (fuel : nat) (non_match_count : N) st
  : res CompressError (search_exit Tb) :=
  match fuel with
  | O => NoFuel
  | S fuel =>
      e ← dict_search_step non_match_count st;
      match e with
      | SNext st => dict_search_loop fuel (non_match_count + 1) st
      | e => Ok e
      end
  end.

(** The sequence of a match found. *)
Definition dict_emit st (m : candidate_match) : res CompressError (cstate Tb) :=
  end_pos_check ← usub (len input) MFLIMIT;
  let literal_start := c_literal_start st in
  '(cur, candidate) ←
    backtrack_match input (c_cur st) literal_start (m_source m) (m_candidate m);
  lit_len ← usub cur literal_start;
  let cur := cur + MINMATCH in
  let candidate := candidate + MINMATCH in
  '(cur, duplicate_length) ← count_same_bytes input cur (m_source m) candidate END_OFFSET;
  p ← usub cur 2;
  limit ← usub (len input) 8;
  w ← rd64_upto input p limit;
  t ← put_at (c_table st) (hash (Tb:=Tb) w) (p + main_base);
  rest ← emit_sequence (c_rest st) input literal_start lit_len (m_offset m) duplicate_length;
  fh ← (if cur <=? end_pos_check then get_hash_at Tb input cur else Ok (c_forward_hash st));
  Ok {| c_table := t; c_cur := cur; c_forward_bytes := 0; c_forward_hash := fh;
        c_literal_start := cur; c_rest := rest |}.

Fixpoint dict_compress_loop (fuel : nat) st : res CompressError (Tb * window) :=
  match fuel with
  | O => NoFuel
  | S fuel =>
      e ← dict_search_loop (S (length input)) (N.shiftl 1 INCREASE_STEPSIZE_BITSHIFT) st;
      match e with
      | SEnd st | SNext st =>
          w ← handle_last_literals (c_rest st) input (c_literal_start st); Ok (c_table st, w)
      | SFound st m => st ← dict_emit st m; dict_compress_loop fuel st
      end
  end.
End loops.

Definition compress_with_dict_table {Sk} `{Sink Sk} (input : bytes) (output : Sk) (table dict_table : Tb)
  (ext_dict : bytes) (input_stream_offset main_base : N) : res CompressError (Sk * Tb * N) :=
  _ ← assert (input_stream_offset =? len ext_dict);
  _ ← assert (main_base + len input <=? u16_max);
  _ ← assert (len ext_dict <=? WINDOW_SIZE);
  _ ← stream_bounds input_stream_offset (len input) (len ext_dict);
  let '(out, out_start) := output_mut_with_pos output in
  tail ← slice_from out out_start;
  let rest := {| w_done := []; w_rest := tail |} in
  let out_total := len tail in
  max ← get_maximum_output_size (len input);
  if out_total <? max then Err COutputTooSmall else
  if len input <? LZ4_MIN_LENGTH then
    w ← handle_last_literals rest input 0;
    finish_call output out out_start out_total table w
  else
    h ← get_hash_at Tb input 0;
    table ← put_at table h main_base;
    forward_hash ← get_hash_at Tb input 1;
    '(table, w) ← dict_compress_loop input ext_dict input_stream_offset main_base dict_table
      (S (length input))
      {| c_table := table; c_cur := 1; c_forward_bytes := 0; c_forward_hash := forward_hash;
         c_literal_start := 0; c_rest := rest |};
    finish_call output out out_start out_total table w.
End compress_with_dict_table.

(** ** Seeding tables *)

Section seeding.
Context `{T : Target} {Tb : Type} `{HashTable Tb} {E : Type}.

(** [while i + 8 <= len], a put every three bytes. *)
Fixpoint seed_loop (fuel : nat) (table : Tb) (data : bytes) (i stream_offset : N) : res E Tb :=
  match fuel with
  | O => NoFuel
  | S fuel =>
      if i + 8 <=? len data then
        h ← get_hash_at Tb data i;
        table ← put_at table h (i + stream_offset);
        seed_loop fuel table data (i + 3) stream_offset
      else Ok table
  end.

Definition init_dict (dict : Tb) (dict_data : bytes) : res E (Tb * bytes) :=
  let dict_data := if WINDOW_SIZE <? len dict_data
                   then drop (N.to_nat (len dict_data - WINDOW_SIZE)) dict_data else dict_data in
  dict ← seed_loop (S (length dict_data)) dict dict_data 0 0;
  Ok (dict, dict_data).
End seeding.

Definition seed_table_with_input `{T : Target} {E} (table : HashTableU32 DEFAULT_NODICT_ENTRIES)
  (input : bytes) (input_stream_offset : N) : res E (HashTableU32 DEFAULT_NODICT_ENTRIES) :=
  seed_loop (S (length input)) table input 0 input_stream_offset.

(** ** One-shot entry points *)

Section entry_points.
Context `{T : Target}.
Implicit Types (input : bytes).

Definition compress_into_sink_with_table_inner {Sk} `{Sink Sk}
  (USE_DICT HAS_OFFSET READONLY : bool) input (input_pos : N) (output : Sk)
  (table : HashTableU32 DEFAULT_NODICT_ENTRIES) (ext_dict : bytes) (input_stream_offset : N)
  : res CompressError (Sk * HashTableU32 DEFAULT_NODICT_ENTRIES * N) :=
  compress_internal USE_DICT HAS_OFFSET READONLY false input input_pos output table ext_dict
    input_stream_offset.

(** The public name, in [lib.rs]. *)
Definition compress_into_sink_with_table {Sk} `{Sink Sk} (USE_DICT HAS_OFFSET READONLY : bool) input
  (input_pos : N) (output : Sk) (table : HashTableU32 DEFAULT_NODICT_ENTRIES) (ext_dict : bytes)
  (input_stream_offset : N) : res CompressError (Sk * HashTableU32 DEFAULT_NODICT_ENTRIES * N) :=
  compress_into_sink_with_table_inner USE_DICT HAS_OFFSET READONLY input input_pos output table
    ext_dict input_stream_offset.

(** The body after the test for a short dictionary. *)
Definition compress_into_sink_body {Sk} `{Sink Sk} (USE_DICT : bool) input (output : Sk)
  (dict_data : bytes) : res CompressError (Sk * N) :=
  n ← uadd (len dict_data) (len input);
  if n <? u16_max then
    '(dict, dict_data) ←
      init_dict (HashTableU32U16Impl.new (n:=DEFAULT_DICT_ENTRIES)) dict_data;
    '(output, _, n) ← compress_internal USE_DICT USE_DICT false true input 0 output dict dict_data
                        (len dict_data);
    Ok (output, n)
  else
    '(dict, dict_data) ←
      init_dict (HashTableU32Impl.new (n:=DEFAULT_NODICT_ENTRIES)) dict_data;
    '(output, _, n) ← compress_internal USE_DICT USE_DICT false false input 0 output dict dict_data
                        (len dict_data);
    Ok (output, n).

Definition compress_into_sink_with_dict {Sk} `{Sink Sk} (USE_DICT : bool) input (output : Sk)
  (dict_data : bytes) : res CompressError (Sk * N) :=
  if USE_DICT && (len dict_data <? MINMATCH) then compress_into_sink_body false input output []
  else compress_into_sink_body USE_DICT input output dict_data.

(** The output buffer and the count. *)
Definition compress_into input (output : bytes) : res CompressError (bytes * N) :=
  s ← SliceSinkImpl.new output 0;
  '(s, n) ← compress_into_sink_with_dict false input s [];
  Ok (sink_output s, n).

Definition compress_into_with_dict input (output dict : bytes) : res CompressError (bytes * N) :=
  s ← SliceSinkImpl.new output 0;
  '(s, n) ← compress_into_sink_with_dict true input s dict;
  Ok (sink_output s, n).

(** [unwrap]: an error panics. *)
Definition unwrap {E F A} (m : res E A) : res F A :=
  match m with Ok a => Ok a | Err _ | Panic => Panic | NoFuel => NoFuel end.

(** A call into a new buffer of the maximum size, truncated to the count. *)
Definition compress input : res CompressError bytes :=
  max_compressed_size ← get_maximum_output_size (len input);
  _ ← assert (max_compressed_size <=? isize_max); (* [vec!]: a larger capacity panics *)
  let compressed := replicate (N.to_nat max_compressed_size) x00 in
  '(compressed, compressed_len) ← unwrap (compress_into input compressed);
  Ok (take (N.to_nat compressed_len) compressed).
End entry_points.

(** ** Reusable compressors *)

Section reusable.
Context `{T : Target} {n : N}.
Implicit Types (input output dict : bytes).

(** The table, the stream offset and the offset of the call. *)
Definition prepare_plain_table (table : HashTableU32 n) (stream_offset input_len : N)
  : HashTableU32 n * N * N :=
  if EPOCH_THRESHOLD <? input_len then
    (HashTableU32Impl.clear table, input_len + MAX_DISTANCE + 1, 0)
  else
    let offset := stream_offset in
    let next := v ← checked_add offset input_len; checked_add v (MAX_DISTANCE + 1) in
    match (m ← next; if m <=? u32_max then Some m else None) with
    | Some next => (table, next, offset)
    | None => (HashTableU32Impl.clear table, input_len + MAX_DISTANCE + 1, 0)
    end.

(** The outcome of the call, with the table and stream offset it leaves, also
    on error. *)
Definition compress_plain_table (table : HashTableU32 n) (stream_offset : N) input output
  : res (HashTableU32 n * N * CompressError) (HashTableU32 n * N * bytes * N) :=
  let '(table, stream_offset, offset) := prepare_plain_table table stream_offset (len input) in
  s ← SliceSinkImpl.new output 0;
  '(s, table, k) ← map_err (fun e => (table, stream_offset, e))
    (if 0 <? offset then compress_internal false true false true input 0 s table [] offset
     else if len input <=? MAX_DISTANCE + 1
     then compress_internal false false false true input 0 s table [] 0
     else compress_internal false false false false input 0 s table [] 0);
  Ok (table, stream_offset, sink_output s, k).

Definition tables : Type := HashTableU32U16 n * HashTableU32U16 n * N.

(** The main table, the pristine table and the base, then the output and the
    count. *)
Definition compress_dict_tables (table pristine : HashTableU32U16 n) (main_base : N) dict input output
  : res (tables * CompressError) (tables * bytes * N) :=
  s ← SliceSinkImpl.new output 0;
  total ← uadd (len dict) (len input);
  if (len input <=? DICT_READONLY_LIMIT) && (total <? u16_max) then
    '(s, pristine, k) ← map_err (fun e => (table, pristine, main_base, e))
      (compress_internal true true true true input 0 s pristine dict (len dict));
    Ok (table, pristine, main_base, sink_output s, k)
  else if total <? u16_max then
    let '(table, main_base) :=
      if (DICT_EPOCH_THRESHOLD <? len input) || (u16_max <? main_base + len input)
      then (HashTableU32U16Impl.clear table, 1) else (table, main_base) in
    let base := main_base in
    let main_base := main_base + len input in
    '(s, table, k) ← map_err (fun e => (table, pristine, main_base, e))
      (compress_with_dict_table input s table pristine dict (len dict) base);
    Ok (table, pristine, main_base, sink_output s, k)
  else
    '(u32_table, dict_data) ← init_dict (HashTableU32Impl.new (n:=n)) dict;
    '(s, _, k) ← map_err (fun e => (table, pristine, main_base, e))
      (compress_internal true true false false input 0 s u32_table dict_data (len dict_data));
    Ok (table, pristine, main_base, sink_output s, k).
End reusable.

(** [CompressorRefN] and [DictCompressorRefN]: a call returns the new state on
    both sides. *)
Record CompressorRefN (n : N) := { cr_table : HashTableU32 n; cr_stream_offset : N }.
Arguments cr_table {n}. Arguments cr_stream_offset {n}. Arguments Build_CompressorRefN {n}.

Module CompressorRefNImpl.
Section ops.
Context `{T : Target} {n : N}.
Implicit Types (c : CompressorRefN n).

(** [new] checks the entry count at compile time. *)
Definition new : CompressorRefN n :=
  {| cr_table := HashTableU32Impl.new; cr_stream_offset := 0 |}.

Definition compress_into c (input output : bytes)
  : res (CompressorRefN n * CompressError) (CompressorRefN n * bytes * N) :=
  '(t, o, out, k) ← map_err (fun '(t, o, e) => ({| cr_table := t; cr_stream_offset := o |}, e))
    (compress_plain_table (cr_table c) (cr_stream_offset c) input output);
  Ok ({| cr_table := t; cr_stream_offset := o |}, out, k).

Definition compress c (input : bytes) : res CompressError (CompressorRefN n * bytes) :=
  max_compressed ← get_maximum_output_size (len input);
  _ ← assert (max_compressed <=? isize_max);
  let compressed := replicate (N.to_nat max_compressed) x00 in
  '(c, compressed, k) ← unwrap (compress_into c input compressed);
  Ok (c, take (N.to_nat k) compressed).
End ops.
End CompressorRefNImpl.

Record DictCompressorRefN (n : N) := {
  dc_table : HashTableU32U16 n;
  dc_pristine : HashTableU32U16 n;
  dc_main_base : N;
  dc_dict : bytes
}.
Arguments dc_table {n}. Arguments dc_pristine {n}. Arguments dc_main_base {n}. Arguments dc_dict {n}.
Arguments Build_DictCompressorRefN {n}.

Module DictCompressorRefNImpl.
Section ops.
Context `{T : Target} {n : N}.
Implicit Types (c : DictCompressorRefN n).

Definition new (dict : bytes) : res CompressError (DictCompressorRefN n) :=
  let trimmed := if len dict <? MINMATCH then []
                 else if WINDOW_SIZE <? len dict
                 then drop (N.to_nat (len dict - WINDOW_SIZE)) dict else dict in
  '(pristine, _) ← init_dict HashTableU32U16Impl.new trimmed;
  Ok {| dc_table := HashTableU32U16Impl.new; dc_pristine := pristine; dc_main_base := 1;
        dc_dict := trimmed |}.

Definition with_tables c (t : tables (n:=n)) : DictCompressorRefN n :=
  let '(table, pristine, main_base) := t in
  {| dc_table := table; dc_pristine := pristine; dc_main_base := main_base; dc_dict := dc_dict c |}.

Definition compress_into c (input output : bytes)
  : res (DictCompressorRefN n * CompressError) (DictCompressorRefN n * bytes * N) :=
  '(t, out, k) ← map_err (fun '(t, e) => (with_tables c t, e))
    (compress_dict_tables (dc_table c) (dc_pristine c) (dc_main_base c) (dc_dict c) input output);
  Ok (with_tables c t, out, k).

Definition compress c (input : bytes) : res CompressError (DictCompressorRefN n * bytes) :=
  max_compressed ← get_maximum_output_size (len input);
  _ ← assert (max_compressed <=? isize_max);
  let compressed := replicate (N.to_nat max_compressed) x00 in
  '(c, compressed, k) ← unwrap (compress_into c input compressed);
  Ok (c, take (N.to_nat k) compressed).
End ops.
End DictCompressorRefNImpl.

(** ** compressor.rs: the owning compressors *)

Record CompressorN (n : N) := { cn_inner : CompressorRefN n }.
Arguments cn_inner {n}. Arguments Build_CompressorN {n}.

Module CompressorNImpl.
Section ops.
Context `{T : Target} {n : N}.
Implicit Types (c : CompressorN n).

Definition new : CompressorN n := {| cn_inner := CompressorRefNImpl.new |}.

Definition compress_into c (input output : bytes)
  : res (CompressorN n * CompressError) (CompressorN n * bytes * N) :=
  '(i, out, k) ← map_err (fun '(i, e) => ({| cn_inner := i |}, e))
    (CompressorRefNImpl.compress_into (cn_inner c) input output);
  Ok ({| cn_inner := i |}, out, k).

Definition compress c (input : bytes) : res CompressError (CompressorN n * bytes) :=
  '(i, out) ← CompressorRefNImpl.compress (cn_inner c) input;
  Ok ({| cn_inner := i |}, out).
End ops.
End CompressorNImpl.

(** The owning dictionary compressor has the fields of the borrowing one. *)
Record DictCompressorN (n : N) := {
  dn_dict : bytes;
  dn_table : HashTableU32U16 n;
  dn_pristine : HashTableU32U16 n;
  dn_main_base : N
}.
Arguments dn_table {n}. Arguments dn_pristine {n}. Arguments dn_main_base {n}. Arguments dn_dict {n}.
Arguments Build_DictCompressorN {n}.

Module DictCompressorNImpl.
Section ops.
Context `{T : Target} {n : N}.
Implicit Types (c : DictCompressorN n).

Definition new (dict : bytes) : res CompressError (DictCompressorN n) :=
  let trimmed := if len dict <? MINMATCH then []
                 else if WINDOW_SIZE <? len dict
                 then drop (N.to_nat (len dict - WINDOW_SIZE)) dict else dict in
  '(pristine, _) ← init_dict HashTableU32U16Impl.new trimmed;
  Ok {| dn_dict := trimmed; dn_table := HashTableU32U16Impl.new; dn_pristine := pristine;
        dn_main_base := 1 |}.

Definition with_tables c (t : tables (n:=n)) : DictCompressorN n :=
  let '(table, pristine, main_base) := t in
  {| dn_dict := dn_dict c; dn_table := table; dn_pristine := pristine; dn_main_base := main_base |}.

Definition compress_into c (input output : bytes)
  : res (DictCompressorN n * CompressError) (DictCompressorN n * bytes * N) :=
  '(t, out, k) ← map_err (fun '(t, e) => (with_tables c t, e))
    (compress_dict_tables (dn_table c) (dn_pristine c) (dn_main_base c) (dn_dict c) input output);
  Ok (with_tables c t, out, k).

Definition compress c (input : bytes) : res CompressError (DictCompressorN n * bytes) :=
  max ← get_maximum_output_size (len input);
  _ ← assert (max <=? isize_max);
  let out := replicate (N.to_nat max) x00 in
  '(c, out, k) ← unwrap (compress_into c input out);
  Ok (c, take (N.to_nat k) out).
End ops.
End DictCompressorNImpl.
