(* ===== verification/CompressProofs.v ===== *)
(** * Lemmas on the block compressor

    The window writes the encoding of [Sequences]; the loops keep an invariant
    that relates the table, the position, the sequences emitted so far and the
    room left in the output. *)

From S2P Require Import Prelude BlockSpec Core Primitives Decompress DecompressProofs DecompressSpec Sequences HashTable Compress.

(** ** The window *)

(** [emits w d w']: [d] was written to the front of the rest of [w]. *)
Definition emits (w : window) (d : bytes) (w' : window) : Prop :=
  w_done w' = w_done w ++ d /\ (length d + length (w_rest w') = length (w_rest w))%nat.

Lemma emits_nil w : emits w [] w.
Proof. split; [by rewrite app_nil_r|done]. Qed.

Lemma emits_app w1 w2 w3 d1 d2 : emits w1 d1 w2 -> emits w2 d2 w3 -> emits w1 (d1 ++ d2) w3.
Proof. intros [H1 L1] [H2 L2]. split; [by rewrite H2, H1, app_assoc|len_lia]. Qed.

Lemma lor_nibbles a b : a < 16 -> b < 16 -> N.lor (N.shiftl a 4 mod 256) b = 16 * a + b.
Proof.
  intros Ha Hb. assert (Hs : N.shiftl a 4 = 16 * a) by (rewrite N.shiftl_mul_pow2; lia).
  rewrite N.mod_small by lia.
  assert (Hl : N.land (N.shiftl a 4) b = 0).
  { apply N.bits_inj_0. intros i. rewrite N.land_spec. destruct (N.ltb_spec i 4).
    - by rewrite N.shiftl_spec_low.
    - rewrite <-(N.mod_small b (2 ^ 4)) by (change (2 ^ 4) with 16; lia). by rewrite N.mod_pow2_bits_high, andb_false_r. }
  rewrite <-(N.lxor_lor _ _ Hl), <-N.add_nocarry_lxor by done. lia.
Qed.

Lemma lor_nibbles' a b : a < 15 -> b < 15 ->
  N.lor (N.shiftl (a mod 256) 4 mod 256) (b mod 256) = 16 * a + b.
Proof. intros. rewrite (N.mod_small a), (N.mod_small b) by lia. apply lor_nibbles; lia. Qed.

Lemma token_from_literal_ok n : token_from_literal n = token_of n 0.
Proof.
  unfold token_from_literal, token_of. bcase; f_equal; [|lia].
  rewrite N.shiftl_mul_pow2, N.mod_small by lia. cbn. lia.
Qed.

Lemma token_from_lengths_ok n m : token_from_literal_and_match_length n m = token_of n m.
Proof.
  unfold token_from_literal_and_match_length, token_of. f_equal.
  assert (Hn : (if n <? 15 then N.shiftl (n mod 256) 4 mod 256 else 240)
               = N.shiftl (N.min n 15) 4 mod 256).
  { bcase; [by rewrite (N.mod_small n), N.min_l by lia|by rewrite N.min_r by lia]. }
  rewrite Hn.
  replace (if m <? 15 then m mod 256 else 15) with (N.min m 15)
    by (bcase; [rewrite N.mod_small by lia|]; lia).
  apply lor_nibbles; lia.
Qed.

Section writes.
Context `{T : Target} {E : Type}.
Implicit Types (w : window) (input : bytes).

Lemma put_byte_ok w b : 1 <= len (w_rest w) -> returns (E:=E) (put_byte w b) (emits w [b]).
Proof.
  intros H. unfold put_byte. destruct (w_rest w) as [|r0 r] eqn:Hr; cbn in H; [lia|].
  apply returns_ok. split; cbn; [done|]. by rewrite Hr.
Qed.

Lemma put_slice_ok w d : len d <= len (w_rest w) -> returns (E:=E) (put_slice w d) (emits w d).
Proof.
  intros H. unfold put_slice, assert. bcase. mstep. rewrite slice_copy_ok by len_lia. mstep.
  apply returns_ok. split; [done|]. cbn. len_lia.
Qed.

Lemma put_integer_loop_ok fuel w n :
  len (encode_ext n) <= len (w_rest w) -> (N.to_nat (n / 255) < fuel)%nat ->
  returns (E:=E) (put_integer_loop fuel w n) (emits w (encode_ext n)).
Proof.
  revert w n. induction fuel as [|fuel IH]; intros w n Hl Hf; [lia|]. cbn [put_integer_loop].
  rewrite length_encode_ext in Hl. destruct (N.leb_spec 255 n).
  - apply returns_bind. eapply returns_mono; [apply put_byte_ok; lia|]. intros w1 H1.
    eapply returns_mono; [apply IH|].
    + rewrite length_encode_ext. destruct H1 as [_ H1]. cbn in H1. lia.
    + lia.
    + intros w2 H2. pose proof (emits_app _ _ _ _ _ H1 H2) as H3. cbn [app] in H3.
      replace (encode_ext n) with (xff :: encode_ext (n - 255)); [done|].
      unfold encode_ext. replace (N.to_nat (n / 255)) with (S (N.to_nat ((n - 255) / 255))) by lia.
      cbn [replicate app]. do 3 f_equal. f_equal. lia.
  - eapply returns_mono; [apply put_byte_ok; lia|]. intros w1 H1. unfold encode_ext.
    rewrite N.div_small, N.mod_small by lia. done.
Qed.

Lemma put_len_ok w n :
  len (encode_len n) <= len (w_rest w) ->
  returns (E:=E) (if 15 <=? n then put_integer w (n - 15) else Ok w) (emits w (encode_len n)).
Proof.
  unfold encode_len. intros H. destruct (N.ltb_spec n 15), (N.leb_spec 15 n); try lia.
  - apply returns_ok, emits_nil.
  - apply put_integer_loop_ok; [done|lia].
Qed.

Lemma handle_last_literals_ok w input start :
  start <= len input -> len (encode_last (drop (N.to_nat start) input)) <= len (w_rest w) ->
  returns (E:=E) (handle_last_literals w input start)
    (emits w (encode_last (drop (N.to_nat start) input))).
Proof.
  unfold handle_last_literals, encode_last. intros Hs Hl. do 2 access.
  replace (len (drop (N.to_nat start) input)) with (len input - start) in * by len_lia.
  rewrite token_from_literal_ok. cbn [length] in Hl. rewrite length_app in Hl.
  apply returns_bind. eapply returns_mono; [apply put_byte_ok; lia|]. intros w1 H1.
  apply returns_bind. eapply returns_mono; [apply put_len_ok; destruct H1 as [_ H1]; cbn in H1; lia|].
  intros w2 H2. pose proof (emits_app _ _ _ _ _ H1 H2) as H12.
  eapply returns_mono; [apply put_slice_ok; destruct H12 as [_ H12]; cbn in H12; len_lia|].
  intros w3 H3. apply (emits_app _ _ _ _ _ H12 H3).
Qed.

(** The bytes of a sequence, from its parts. *)
Lemma encode_seq_parts input ls lit off dup : ls + lit <= len input ->
  encode_seq {| seq_lit := sub input ls lit; seq_off := off; seq_len := MINMATCH + dup |}
  = [token_of lit dup] ++ encode_len lit ++ sub input ls lit ++ to_le 2 off ++ encode_len dup.
Proof.
  intros Hls. unfold encode_seq. cbn [seq_lit seq_off seq_len app]. rewrite length_sub by lia.
  replace (N.of_nat (N.to_nat lit)) with lit by lia.
  by replace (MINMATCH + dup - MINMATCH) with dup by lia.
Qed.

Lemma emit_general_ok w input ls lit off dup : ls + lit <= len input ->
  let enc := [token_of lit dup] ++ encode_len lit ++ sub input ls lit ++ to_le 2 off ++ encode_len dup in
  len enc <= len (w_rest w) ->
  returns (E:=E) (emit_general w input ls lit off dup) (emits w enc).
Proof.
  intros Hls enc Hl. subst enc. unfold emit_general.
  rewrite !length_app, length_sub, length_to_le in Hl by lia. cbn [length] in Hl.
  access. replace (ls + lit - ls) with lit by lia. rewrite token_from_lengths_ok.
  apply returns_bind. eapply returns_mono; [apply put_byte_ok; lia|]. intros w1 H1.
  apply returns_bind. eapply returns_mono; [apply put_len_ok; destruct H1 as [_ H1]; cbn in H1; lia|].
  intros w2 H2%(emits_app _ _ _ _ _ H1). clear H1.
  apply returns_bind. eapply returns_mono;
    [apply put_slice_ok; destruct H2 as [_ H2]; rewrite length_app in H2; cbn in H2; len_lia|].
  intros w3 H3%(emits_app _ _ _ _ _ H2). clear H2.
  apply returns_bind. eapply returns_mono;
    [apply put_slice_ok; destruct H3 as [_ H3]; rewrite !length_app, length_sub in H3 by lia;
     cbn in H3; rewrite length_to_le; lia|].
  intros w4 H4%(emits_app _ _ _ _ _ H3). clear H3.
  eapply returns_mono;
    [apply put_len_ok; destruct H4 as [_ H4];
     rewrite !length_app, length_sub, length_to_le in H4 by lia; cbn in H4; lia|].
  intros w5 H5%(emits_app _ _ _ _ _ H4). rewrite <-!app_assoc in H5. exact H5.
Qed.

(** The bytes over-copied after the literals are overwritten or stay in the
    unwritten part. *)
Lemma emit_short_ok w input ls lit off dup :
  lit < 15 -> dup < 15 -> 19 <= len (w_rest w) -> ls + 16 <= len input ->
  returns (E:=E)
    (emit_short w (take 19 (w_rest w)) (take 16 (drop (N.to_nat ls) input)) lit off dup)
    (emits w ([token_of lit dup] ++ sub input ls lit ++ to_le 2 off)).
Proof.
  intros Hlit Hdup H19 H16. unfold emit_short.
  assert (Hlen19 : len (take 19 (w_rest w)) = 19) by len_lia.
  rewrite write_at_ok by (cbn [length]; lia). mstep.
  rewrite write_at_ok by (rewrite length_splice by (cbn [length]; lia); len_lia). mstep.
  set (s2 := splice (splice _ 0 _) 1 _).
  assert (Hs2 : len s2 = 19).
  { subst s2. rewrite !length_splice; [done|cbn [length]; lia|].
    rewrite length_splice by (cbn [length]; lia). len_lia. }
  assert (Ht2 : take (N.to_nat (1 + lit)) s2 = [token_of lit dup] ++ sub input ls lit).
  { subst s2. rewrite take_splice_part; [| |len_lia].
    - f_equal; [|unfold sub; rewrite take_take; f_equal; lia].
      rewrite (take_splice_part _ 0 _ 1) by (cbn [length]; lia).
      unfold token_of. rewrite lor_nibbles' by lia.
      by replace (16 * N.min lit 15 + N.min dup 15) with (16 * lit + dup) by lia.
    - rewrite length_splice by (cbn [length]; lia). len_lia. }
  rewrite write_at_ok by (rewrite length_to_le; lia). mstep.
  rewrite slice_from_ok by (rewrite length_app, length_splice, length_drop; rewrite ?length_to_le; lia).
  mstep. apply returns_ok. split; cbn [w_done w_rest].
  - f_equal. replace (3 + lit) with (1 + lit + len (to_le 2 off)) by (rewrite length_to_le; lia).
    rewrite take_splice by (rewrite length_to_le; lia). by rewrite Ht2, <-app_assoc.
  - rewrite !length_app, length_sub, length_to_le, length_drop, length_app, length_splice, length_drop;
      rewrite ?length_to_le; try lia. cbn [length]. lia.
Qed.

(** Both paths of [emit_sequence] write the sequence. *)
Lemma emit_sequence_ok w input ls lit off dup :
  ls + lit <= len input ->
  let s := {| seq_lit := sub input ls lit; seq_off := off; seq_len := MINMATCH + dup |} in
  len (encode_seq s) <= len (w_rest w) ->
  returns (E:=E) (emit_sequence w input ls lit off dup) (emits w (encode_seq s)).
Proof.
  intros Hls s Hl. subst s. rewrite encode_seq_parts in * by done. unfold emit_sequence.
  pose proof (emit_general_ok w input ls lit off dup Hls Hl) as Hg.
  destruct (N.ltb_spec lit 15); [|done]. destruct (N.ltb_spec dup 15); [|done]. cbn [andb].
  unfold first_chunk. destruct (N.leb_spec 19 (len (w_rest w))); [|done].
  destruct (N.leb_spec ls (len input)); [|done].
  destruct (N.leb_spec 16 (len (drop (N.to_nat ls) input))) as [H16|]; [|done].
  eapply returns_mono; [apply emit_short_ok; try done; len_lia|].
  intros w'. unfold encode_len. do 2 bcase. cbn [app]. by rewrite app_nil_r.
Qed.
End writes.

(** ** Common prefixes *)

Lemma common_prefix_le x y : common_prefix x y <= len x /\ common_prefix x y <= len y.
Proof.
  revert y. induction x as [|a x IH]; intros [|b y]; cbn [common_prefix length]; try lia.
  destruct (decide (a = b)); [specialize (IH y)|]; lia.
Qed.

Lemma common_prefix_lookup x y i : i < common_prefix x y -> x.[i] = y.[i].
Proof.
  revert y i. induction x as [|a x IH]; intros [|b y] i; cbn [common_prefix]; try lia.
  destruct (decide (a = b)) as [->|]; [|lia]. intros Hi.
  destruct (N.eq_dec i 0) as [->|]; [done|]. replace (N.to_nat i) with (S (N.to_nat (i - 1))) by lia.
  cbn. apply IH. lia.
Qed.

Lemma common_prefix_ge x y k : k <= len x -> k <= len y ->
  (forall i, i < k -> x.[i] = y.[i]) -> k <= common_prefix x y.
Proof.
  revert y k. induction x as [|a x IH]; intros [|b y] k Hx Hy Hi; cbn [common_prefix length] in *; try lia.
  destruct (N.eq_dec k 0) as [->|]; [lia|].
  pose proof (Hi 0 ltac:(lia)) as H0. cbn in H0. injection H0 as ->. rewrite decide_True by done.
  assert (k - 1 <= common_prefix x y); [|lia].
  apply IH; [lia..|]. intros i Hlt. specialize (Hi (i + 1) ltac:(lia)).
  by replace (N.to_nat (i + 1)) with (S (N.to_nat i)) in Hi by lia.
Qed.

(** ** Matches *)

(** [n] bytes of [source] from [cand] are those of [input] from [cur]. *)
Definition same_bytes (input : bytes) (cur : N) (source : bytes) (cand n : N) : Prop :=
  cand + n <= len source /\ cur + n <= len input /\
  forall i, i < n -> source.[cand + i] = input.[cur + i].

Lemma same_bytes_word {T : Target} input cur source cand :
  cand + 4 <= len source -> cur + 4 <= len input ->
  from_ne_bytes (sub source cand 4) = from_ne_bytes (sub input cur 4) ->
  same_bytes input cur source cand 4.
Proof.
  intros H1 H2 He%word_eq_bytes; [|done..]. split_and!; [done..|]. intros i Hi.
  by rewrite <-(lookup_sub source cand 4), He, lookup_sub.
Qed.

Lemma same_bytes_shift input cur source cand n m k :
  same_bytes input (cur - k) source (cand - k) n -> k <= cur -> k <= cand -> m + k <= n ->
  same_bytes input cur source cand m.
Proof.
  intros (H1 & H2 & H) Hk1 Hk2 Hm. split_and!; [lia..|]. intros i Hi.
  specialize (H (k + i) ltac:(lia)).
  by replace (cand - k + (k + i)) with (cand + i) in H by lia;
     replace (cur - k + (k + i)) with (cur + i) in H by lia.
Qed.

(** A candidate for position [cur]: its source is part of the dictionary
    followed by the input, and its offset is the distance to it. *)
Definition cand_at (D input : bytes) (cur : N) (m : candidate_match) : Prop :=
  exists base,
    (forall i, i < len (m_source m) -> (D ++ input).[base + i] = (m_source m).[i]) /\
    base + m_candidate m + m_offset m = len D + cur /\ 1 <= m_offset m <= MAX_DISTANCE.

Lemma cand_at_input (D input : bytes) cur p :
  p < cur -> cur - p <= MAX_DISTANCE ->
  cand_at D input cur {| m_candidate := p; m_source := input; m_offset := as_u16 (cur - p) |}.
Proof.
  intros H1 H2. unfold cand_at, MAX_DISTANCE, as_u16 in *. change (2 ^ 16) with 65536 in *. exists (len D). cbn. split_and!; try lia.
  intros i Hi. rewrite lookup_app_r by lia. f_equal. lia.
Qed.

Lemma cand_at_dict (D input : bytes) cur p :
  p < len D -> len D + cur - p <= MAX_DISTANCE -> 1 <= len D + cur - p ->
  cand_at D input cur {| m_candidate := p; m_source := D; m_offset := as_u16 (len D + cur - p) |}.
Proof.
  intros H1 H2 H3. unfold cand_at, MAX_DISTANCE, as_u16 in *. change (2 ^ 16) with 65536 in *. exists 0. cbn. split_and!; try lia.
  intros i Hi. by rewrite lookup_app_l by lia.
Qed.

(** The match a candidate stands for repeats the history at its offset. *)
Lemma cand_expand (D input : bytes) cur m n :
  cand_at D input cur m -> same_bytes input cur (m_source m) (m_candidate m) n ->
  expand (D ++ take (N.to_nat cur) input) (m_offset m) (N.to_nat n)
  = D ++ take (N.to_nat (cur + n)) input.
Proof.
  intros (base & Hs & Hb & Ho) (H1 & H2 & H). symmetry. apply expand_unique; try len_lia.
  - rewrite take_app_ge by len_lia. f_equal. rewrite take_take. f_equal. len_lia.
  - intros i Hi. rewrite length_app, length_take.
    replace (N.of_nat (length D + (N.to_nat cur `min` length input))) with (len D + cur) by lia.
    assert (HV : forall j, j < len D + cur + n ->
      (D ++ take (N.to_nat (cur + n)) input).[j] = (D ++ input).[j]).
    { intros j Hj. destruct (N.ltb_spec j (len D)).
      - by rewrite !lookup_app_l by lia.
      - rewrite !lookup_app_r by lia. apply lookup_take_lt. lia. }
    rewrite !HV by lia. replace (len D + cur + i - m_offset m) with (base + (m_candidate m + i)) by lia.
    rewrite Hs by lia. rewrite H by lia. rewrite lookup_app_r by lia. f_equal. lia.
Qed.

Section extension.
Context `{T : Target} {E : Type}.
Implicit Types (input source : bytes).

(** Backtracking extends a match to the left. *)
Lemma backtrack_loop_ok fuel input cur ls source cand n :
  same_bytes input cur source cand n -> 1 <= n -> (N.to_nat cur < fuel)%nat ->
  returns (E:=E) (backtrack_loop fuel input cur ls source cand) (fun '(cur', cand') =>
    exists k, k <= cur /\ k <= cand /\ cur' = cur - k /\ cand' = cand - k /\
      (ls <= cur -> ls <= cur') /\ same_bytes input cur' source cand' (n + k)).
Proof.
  revert cur cand n. induction fuel as [|fuel IH]; intros cur cand n Hs Hn Hf; [lia|].
  cbn [backtrack_loop].
  assert (Hstop : returns (E:=E) (Ok (cur, cand)) (fun '(cur', cand') =>
    exists k, k <= cur /\ k <= cand /\ cur' = cur - k /\ cand' = cand - k /\
      (ls <= cur -> ls <= cur') /\ same_bytes input cur' source cand' (n + k))).
  { apply returns_ok. exists 0. rewrite !N.sub_0_r, N.add_0_r. split_and!; done || lia. }
  destruct (N.ltb_spec 0 cand); [|done]. destruct (N.ltb_spec ls cur); [|done]. cbn [andb].
  pose proof Hs as (Hs1 & Hs2 & Hsb).
  destruct (index_ok (E:=E) input (cur - 1)) as (a & Ha & ->); [lia|].
  destruct (index_ok (E:=E) source (cand - 1)) as (b & Hb & ->); [lia|]. mstep.
  destruct (byte_eqb_spec a b) as [<-|]; [|done].
  eapply returns_mono; [apply (IH (cur - 1) (cand - 1) (n + 1))|].
  - split_and!; [lia..|]. intros i Hi. destruct (N.eq_dec i 0) as [->|].
    + rewrite !N.add_0_r. congruence.
    + specialize (Hsb (i - 1) ltac:(lia)).
      by replace (cand + (i - 1)) with (cand - 1 + i) in Hsb by lia;
         replace (cur + (i - 1)) with (cur - 1 + i) in Hsb by lia.
  - lia.
  - lia.
  - intros [cur' cand'] (k & Hk1 & Hk2 & -> & -> & Hls & Hk). exists (k + 1).
    split_and!; try lia.
    replace (n + (k + 1)) with (n + 1 + k) by lia. by replace (cur - (k + 1)) with (cur - 1 - k) by lia;
      replace (cand - (k + 1)) with (cand - 1 - k) by lia.
Qed.

(** Backtracking and counting around four equal bytes: the match found starts
    at or before [cur] and ends past the four bytes. *)
Lemma extend_match_ok input cur ls (m : candidate_match) D :
  cand_at D input cur m -> same_bytes input cur (m_source m) (m_candidate m) 4 ->
  ls <= cur -> cur + MFLIMIT <= len input ->
  returns (E:=E)
    ('(c, cand) ← backtrack_match input cur ls (m_source m) (m_candidate m);
     '(c2, dup) ← count_same_bytes input (c + MINMATCH) (m_source m) (cand + MINMATCH) END_OFFSET;
     Ok (c, c2, dup))
    (fun '(c, c2, dup) => ls <= c <= cur /\ cur + 4 <= c2 /\ c2 + END_OFFSET <= len input /\
       c2 = c + (MINMATCH + dup) /\
       expand (D ++ take (N.to_nat c) input) (m_offset m) (N.to_nat (MINMATCH + dup))
       = D ++ take (N.to_nat c2) input /\
       m_offset m <= len D + c).
Proof.
  intros Hc Hs Hls Hcur. unfold MFLIMIT, MINMATCH, END_OFFSET, LAST_LITERALS in *.
  pose proof Hs as (H1 & H2 & _). unfold backtrack_match.
  apply returns_bind. eapply returns_mono; [apply (backtrack_loop_ok _ _ _ _ _ _ 4); [done|lia..]|].
  intros [c cand] (k & Hk1 & Hk2 & -> & -> & Hl & Hk).
  rewrite count_same_bytes_ok by (change (5 + 1) with 6; lia). cbn zeta. mstep. apply returns_ok.
  set (n := common_prefix _ _).
  assert (Hn : k <= n).
  { apply common_prefix_ge; [rewrite length_sub by lia; lia|len_lia|]. intros i Hi.
    rewrite lookup_sub by lia. rewrite lookup_drop. destruct Hk as (_ & _ & Hk).
    specialize (Hk (4 + i) ltac:(lia)).
    replace (N.to_nat (m_candidate m - k + 4) + N.to_nat i)%nat with (N.to_nat (m_candidate m - k + (4 + i))) by lia.
    rewrite Hk. f_equal. lia. }
  destruct (common_prefix_le (sub input (cur - k + 4) (len input - (5 + 1) - (cur - k + 4)))
    (drop (N.to_nat (m_candidate m - k + 4)) (m_source m))) as [Hn1 Hn2]. fold n in Hn1, Hn2.
  rewrite length_sub in Hn1 by lia. rewrite length_drop in Hn2.
  assert (Hall : same_bytes input (cur - k) (m_source m) (m_candidate m - k) (4 + n)).
  { split_and!; [lia..|]. intros i Hi. destruct (N.ltb_spec i 4); [apply Hk; lia|].
    assert (He : i - 4 < n) by lia. apply common_prefix_lookup in He.
    rewrite lookup_sub in He by lia. rewrite lookup_drop in He.
    replace (N.to_nat (m_candidate m - k + 4) + N.to_nat (i - 4))%nat
      with (N.to_nat (m_candidate m - k + i)) in He by lia.
    rewrite <-He. f_equal. lia. }
  split_and!; try lia.
  - destruct Hc as (base & Hb & He & Ho).
    replace (cur - k + 4 + n) with (cur - k + (4 + n)) by lia.
    apply (cand_expand D input (cur - k) {| m_candidate := m_candidate m - k; m_source := m_source m;
      m_offset := m_offset m |}); [|done]. exists base; cbn; split_and!; try done; lia.
  - destruct Hc as (base & _ & He & _). lia.
Qed.

Lemma extend_match_eq input cur ls (m : candidate_match) D :
  cand_at D input cur m -> same_bytes input cur (m_source m) (m_candidate m) 4 ->
  ls <= cur -> cur + MFLIMIT <= len input ->
  exists c cand c2 dup,
    backtrack_match (E:=E) input cur ls (m_source m) (m_candidate m) = Ok (c, cand) /\
    count_same_bytes (E:=E) input (c + MINMATCH) (m_source m) (cand + MINMATCH) END_OFFSET
      = Ok (c2, dup) /\
    ls <= c <= cur /\ cur + 4 <= c2 /\ c2 + END_OFFSET <= len input /\
    c2 = c + (MINMATCH + dup) /\
    expand (D ++ take (N.to_nat c) input) (m_offset m) (N.to_nat (MINMATCH + dup))
    = D ++ take (N.to_nat c2) input /\
    m_offset m <= len D + c.
Proof.
  intros H1 H2 H3 H4. destruct (extend_match_ok _ _ _ _ _ H1 H2 H3 H4) as ([[c c2] dup] & He & HP).
  apply bind_Ok in He as ([c' cand] & Hb & He). apply bind_Ok in He as ([c2' dup'] & Hc & [= -> -> ->]).
  exists c, cand, c2, dup. done.
Qed.
End extension.

(** ** Progress through the input *)

Lemma encode_block_concat ss last :
  encode_block ss last = concat (encode_seq <$> ss) ++ encode_last last.
Proof. induction ss as [|s ss IH]; [done|]. cbn. by rewrite IH, app_assoc. Qed.

Section progress.
Context `{T : Target} {E : Type}.
Context (D input : bytes) (ip total : N).

(** The sequences [ss] have been written, and cover the input from [ip] to
    [ls]. *)
Record progress (ls : N) (w : window) (ss : list sequence) : Prop := {
  pr_done : w_done w = concat (encode_seq <$> ss);
  pr_valid : seqs_valid (D ++ take (N.to_nat ip) input) ss;
  pr_hist : apply_seqs (D ++ take (N.to_nat ip) input) ss = D ++ take (N.to_nat ls) input;
  pr_total : len (w_done w) + len (w_rest w) = total;
  pr_size : 100 * len (w_done w) <= 110 * (ls - ip);
  pr_bounds : ip <= ls /\ ls <= len input;
  pr_end : match list.last ss with
           | None => True
           | Some s => ls + END_OFFSET <= len input /\ ls + MFLIMIT <= seq_len s + len input
           end
}.

(** The block is complete. *)
Definition block_written (w : window) : Prop :=
  exists ss last, w_done w = encode_block ss last /\ len (w_done w) + len (w_rest w) = total /\
    len (w_done w) <= 20 + 110 * (len input - ip) / 100 /\
    seqs_valid (D ++ take (N.to_nat ip) input) ss /\
    apply_seqs (D ++ take (N.to_nat ip) input) ss ++ last = D ++ input /\ end_rules ss last.

(** The room [get_maximum_output_size] asks for. *)
Context (Hroom : 20 + 110 * (len input - ip) / 100 <= total).

Lemma progress_start w : w_done w = [] -> len (w_rest w) = total -> ip <= len input ->
  progress ip w [].
Proof. intros Hd Hr Hip. split; cbn; try done; rewrite ?Hd; cbn; lia. Qed.

Lemma progress_emit ls w ss c c2 off dup :
  progress ls w ss -> ls <= c -> c + MFLIMIT <= len input -> c2 + END_OFFSET <= len input ->
  c2 = c + (MINMATCH + dup) -> 1 <= off <= MAX_DISTANCE -> off <= len D + c ->
  expand (D ++ take (N.to_nat c) input) off (N.to_nat (MINMATCH + dup))
  = D ++ take (N.to_nat c2) input ->
  returns (E:=E) (emit_sequence w input ls (c - ls) off dup) (fun w' =>
    progress c2 w' (ss ++ [{| seq_lit := sub input ls (c - ls); seq_off := off;
                              seq_len := MINMATCH + dup |}])).
Proof.
  intros Hp Hc Hend Hend2 -> Ho1 Ho2 Hx. destruct Hp.
  set (s := {| seq_lit := _ |}).
  assert (Hh : D ++ take (N.to_nat ls) input ++ seq_lit s = D ++ take (N.to_nat c) input).
  { f_equal. cbn. unfold MFLIMIT in *. rewrite take_sub by lia. do 2 f_equal. lia. }
  pose proof (length_encode_seq s ltac:(cbn; lia)) as Hs. cbn [seq_lit seq_len s] in Hs.
  unfold MFLIMIT, END_OFFSET, LAST_LITERALS in *. rewrite length_sub in Hs by lia.
  eapply returns_mono; [apply emit_sequence_ok; [lia|]|].
  - fold s. unfold MINMATCH in *. lia.
  - fold s. intros w' [Hw Hl].
    assert (Hlw : len (w_done w') = len (w_done w) + len (encode_seq s)) by (rewrite Hw; len_lia).
    split.
    + rewrite Hw, pr_done0. rewrite fmap_app, concat_app. cbn. by rewrite app_nil_r.
    + apply seqs_valid_app. split; [done|]. rewrite pr_hist0.
      unfold seq_valid. rewrite <-app_assoc, Hh. cbn [seq_off seq_len s].
      split_and!; try lia. len_lia.
    + rewrite apply_seqs_app, pr_hist0. unfold apply_seq. rewrite <-app_assoc, Hh. exact Hx.
    + lia.
    + unfold MINMATCH in *. lia.
    + lia.
    + rewrite last_snoc. cbn [seq_len s]. unfold END_OFFSET, MFLIMIT, LAST_LITERALS, MINMATCH in *. lia.
Qed.

Lemma progress_finish ls w ss :
  progress ls w ss ->
  returns (E:=E) (handle_last_literals w input ls) block_written.
Proof.
  intros Hp. destruct Hp.
  pose proof (length_encode_last (drop (N.to_nat ls) input)) as Hl. rewrite length_drop in Hl.
  eapply returns_mono; [apply handle_last_literals_ok; [lia|]|].
  - lia.
  - intros w' [Hw Hr]. exists ss, (drop (N.to_nat ls) input).
    split; [by rewrite Hw, pr_done0, encode_block_concat|].
    split; [rewrite Hw; len_lia|]. split; [rewrite Hw, length_app; lia|]. split; [done|].
    split; [by rewrite pr_hist0, <-app_assoc, take_drop|].
    unfold end_rules. destruct (list.last ss); [|done].
    unfold END_OFFSET in *. rewrite length_drop. lia.
Qed.
End progress.

(** A complete block decodes to the input, within the size limit. *)
Lemma block_written_decodes (D input : bytes) ip total w : ip <= len input ->
  block_written D input ip total w ->
  block_decode (D ++ take (N.to_nat ip) input) (w_done w) = Some (drop (N.to_nat ip) input).
Proof.
  intros Hip (ss & last & -> & _ & _ & Hv & Hd & _). apply block_decode_encode; [done|].
  by rewrite Hd, <-app_assoc, take_drop.
Qed.

(** ** The core loop *)

Lemma usize_pow `{T : Target} : 2 ^ usize_bits = usize_max + 1.
Proof. unfold usize_max. pose proof (N.pow_nonzero 2 usize_bits ltac:(done)). lia. Qed.

Lemma wrapping_sub_cases `{T : Target} a b :
  a <= usize_max -> b <= usize_max ->
  wrapping_sub a b = if b <=? a then a - b else 2 ^ usize_bits - (b - a).
Proof.
  unfold wrapping_sub. rewrite usize_pow. intros Ha Hb. bcase.
  - replace (a + (usize_max + 1) - b) with (a - b + 1 * (usize_max + 1)) by lia.
    rewrite N.Div0.mod_add. apply N.mod_small. lia.
  - rewrite N.mod_small by lia. lia.
Qed.

Lemma step_size k : 8 <= k -> 1 <= N.shiftr k INCREASE_STEPSIZE_BITSHIFT.
Proof. intros. unfold INCREASE_STEPSIZE_BITSHIFT. rewrite N.shiftr_div_pow2. change (2 ^ 3) with 8. lia. Qed.

Section core_loop.
Context `{T : Target} {Tb : Type} `{HashTableLaws Tb}.
Context (USE_DICT HAS_OFFSET READONLY NEAR : bool).
Context (input ext_dict : bytes) (iso ip total : N) (t0 : Tb).

(** What [compress_internal] has checked or assumes when it enters the
    loop. *)
Record call_ok : Prop := {
  co_len : ip + LZ4_MIN_LENGTH <= len input;
  co_stream : iso + len input + len ext_dict <= usize_max;
  co_dict : len ext_dict <= iso;
  co_nodict : USE_DICT = false -> ext_dict = [];
  co_readonly : READONLY = true -> USE_DICT = true /\ iso = len ext_dict /\
                len ext_dict + len input < u16_max;
  co_near : NEAR = true -> len ext_dict + len input <= MAX_DISTANCE + 1;
  co_room : 20 + 110 * (len input - ip) / 100 <= total
}.
Context (Hok : call_ok).

(** The table's entries are below [b]; a read-only table is unchanged. *)
Definition table_inv (t : Tb) (b : N) : Prop :=
  table_ok t /\ if READONLY then t = t0 /\ below t (2 ^ 16) else below t b.

(** Between two sequences. *)
Record loop_inv (st : cstate Tb) (ss : list sequence) : Prop := {
  li_progress : progress ext_dict input ip total (c_literal_start st) (c_rest st) ss;
  li_cur : c_literal_start st <= c_cur st /\ c_cur st + END_OFFSET <= len input;
  li_pos : 1 <= iso + c_cur st;
  li_table : table_inv (c_table st) (iso + c_cur st);
  li_forward : c_cur st + MFLIMIT <= len input ->
    c_forward_bytes st = from_ne_bytes (sub input (c_cur st) 8) /\
    c_forward_hash st = hash (Tb:=Tb) (c_forward_bytes st)
}.

(** A match has been found at [c_cur st]. *)
Record found_inv (st : cstate Tb) (m : candidate_match) (ss : list sequence) : Prop := {
  fi_progress : progress ext_dict input ip total (c_literal_start st) (c_rest st) ss;
  fi_cur : c_literal_start st <= c_cur st /\ c_cur st + MFLIMIT <= len input;
  fi_table : table_inv (c_table st) (iso + c_cur st + 1);
  fi_cand : cand_at ext_dict input (c_cur st) m;
  fi_same : same_bytes input (c_cur st) (m_source m) (m_candidate m) 4
}.

Lemma table_get {E} t b w : table_inv t b ->
  exists v, get_at (E:=E) t (hash (Tb:=Tb) w) = Ok v /\ v < (if READONLY then 2 ^ 16 else b).
Proof. intros [Ht Hb]. destruct READONLY; [destruct Hb|]; by apply get_law. Qed.

Lemma table_put {E} t b w v : table_inv t b -> v < b ->
  exists t', put_unless_readonly READONLY (E:=E) t (hash (Tb:=Tb) w) v = Ok t' /\ table_inv t' b.
Proof.
  intros [Ht Hb] Hv. unfold put_unless_readonly, table_inv.
  destruct READONLY; [by exists t|]. destruct (put_law (E:=E) t w v b Ht Hb Hv) as (t' & -> & ? & ?).
  by exists t'.
Qed.

Lemma table_mono t b b' : table_inv t b -> b <= b' -> table_inv t b'.
Proof.
  intros [Ht Hb] Hle. split; [done|]. destruct READONLY; [done|]. by eapply below_mono.
Qed.

Lemma curr_bytes_ok {E} cur next_cur : cur <= next_cur -> cur + 8 <= len input ->
  curr_bytes USE_DICT HAS_OFFSET input (E:=E) cur next_cur (from_ne_bytes (sub input cur 8))
  = Ok (from_ne_bytes (sub input cur 4)).
Proof.
  intros H1 H2. unfold curr_bytes. rewrite N.min_l by done.
  case_match; [by rewrite rd32_ok by lia|by rewrite first4_ok].
Qed.

(** The candidate test only accepts candidates. *)
Lemma probe_ok cur next_cur cand :
  cur < next_cur -> cur + MFLIMIT <= len input -> next_cur + 8 <= len input -> 1 <= iso + cur ->
  cand < (if READONLY then 2 ^ 16 else iso + cur) ->
  returns (probe USE_DICT HAS_OFFSET READONLY NEAR input ext_dict iso cur next_cur
             (from_ne_bytes (sub input cur 8)) cand)
    (fun o => match o with
              | Some m => cand_at ext_dict input cur m /\
                          same_bytes input cur (m_source m) (m_candidate m) 4
              | None => True
              end).
Proof using Hok.
  intros Hcur Hend Hnext Hpos Hcand. destruct Hok. unfold probe.
  assert (Hiso : iso <= usize_max) by mlia.
  rewrite curr_bytes_ok by (unfold MFLIMIT in *; lia).
  destruct READONLY.
  { destruct co_readonly0 as (-> & Hi & Hs); [done|]. unfold u16_max, MAX_DISTANCE, MFLIMIT in *.
    change (2 ^ 16) with 65536 in *.
    rewrite uadd_ok by mlia. mstep. bcase; [by apply returns_ok|].
    unfold assert. bcase. mstep. bcase. mstep. rewrite rd32_ok by lia. mstep. apply returns_ok.
    destruct (N.eqb_spec (from_ne_bytes (sub ext_dict cand 4)) (from_ne_bytes (sub input cur 4)));
      [|done]. rewrite Hi. split; [apply cand_at_dict; unfold MAX_DISTANCE; cbn; lia|].
    by apply same_bytes_word; cbn; [lia..|]. }
  rewrite wrapping_sub_cases by mlia. pose proof usize_pow as Hpow.
  destruct (N.leb_spec iso cand) as [Hic|Hic].
  - destruct (N.ltb_spec (cand - iso) next_cur); [|lia].
    destruct (negb _ || _); cbn [andb]; last first.
    { rewrite (proj2 (andb_false_iff _ _)); [by apply returns_ok|]. right. apply N.leb_gt.
      destruct USE_DICT; [lia|]. rewrite co_nodict0 by done. cbn. lia. }
    rewrite rd32_ok by (unfold MFLIMIT in *; lia). mstep. apply returns_ok.
    destruct (N.eqb_spec (from_ne_bytes (sub input (cand - iso) 4)) (from_ne_bytes (sub input cur 4)));
      cbn [andb]; [|done].
    assert (Hd : NEAR || (cur - (cand - iso) <=? MAX_DISTANCE) = true ->
      cur - (cand - iso) <= MAX_DISTANCE).
    { intros [Hn|Hn]%orb_true_iff; [|by apply N.leb_le]. specialize (co_near0 Hn).
      unfold MFLIMIT in *. lia. }
    destruct (NEAR || _); [|done]. unfold MFLIMIT in *. split; [apply cand_at_input; auto; lia|].
    by apply same_bytes_word; cbn; [lia..|].
  - destruct (N.ltb_spec (2 ^ usize_bits - (iso - cand)) next_cur); [mlia|]. cbn [andb].
    destruct USE_DICT; cbn [andb]; [|by apply returns_ok].
    destruct (N.leb_spec (iso - len ext_dict) cand); cbn [andb]; [|by apply returns_ok].
    destruct (N.leb_spec (cand - (iso - len ext_dict) + 4) (len ext_dict)); [|by apply returns_ok].
    rewrite rd32_ok by lia. mstep. apply returns_ok.
    destruct (N.eqb_spec (from_ne_bytes (sub ext_dict (cand - (iso - len ext_dict)) 4))
      (from_ne_bytes (sub input cur 4))); cbn [andb]; [|done].
    assert (Hd : NEAR || (iso + cur - cand <=? MAX_DISTANCE) = true -> iso + cur - cand <= MAX_DISTANCE).
    { intros [Hn|Hn]%orb_true_iff; [|by apply N.leb_le]. specialize (co_near0 Hn).
      unfold MFLIMIT in *. lia. }
    destruct (NEAR || _); [|done]. specialize (Hd eq_refl). unfold MFLIMIT in *.
    replace (iso + cur - cand) with (len ext_dict + cur - (cand - (iso - len ext_dict))) in * by lia.
    split; [apply cand_at_dict; lia|]. by apply same_bytes_word; cbn; [lia..|].
Qed.

Abbreviation search := (search_step USE_DICT HAS_OFFSET READONLY NEAR input ext_dict iso).
Abbreviation searches := (search_loop USE_DICT HAS_OFFSET READONLY NEAR input ext_dict iso).
Abbreviation emit := (emit_step USE_DICT READONLY NEAR input iso).
Abbreviation emits_loop := (emit_loop USE_DICT READONLY NEAR input iso).

(** How a search may end, started in state [st]. *)
Definition search_post (st : cstate Tb) (ss : list sequence) (e : search_exit Tb) : Prop :=
  match e with
  | SNext st' => loop_inv st' ss /\ c_cur st < c_cur st'
  | SEnd st' => loop_inv st' ss
  | SFound st' m => found_inv st' m ss /\ c_cur st <= c_cur st'
  end.

Lemma search_step_ok k st ss :
  loop_inv st ss -> 8 <= k -> returns (search k st) (search_post st ss).
Proof using Hok.
  intros Hi Hk. pose proof (step_size k Hk) as Hstep. destruct Hi as [Hp [Hls Hcur] Hpos Ht Hf].
  unfold search_step, LZ4_MIN_LENGTH in *. pose proof (co_len Hok) as Hlen.
  pose proof (co_stream Hok) as Hstream. unfold LZ4_MIN_LENGTH in *.
  rewrite usub_ok by lia. mstep. set (next := c_cur st + _).
  destruct (N.ltb_spec (len input - MFLIMIT + 1) next) as [|Hn].
  { apply returns_ok. by split. }
  assert (Hend : c_cur st + MFLIMIT <= len input) by lia. destruct (Hf Hend) as [Hfb Hfh].
  rewrite Hfh. replace (if carry_hash USE_DICT HAS_OFFSET then _ else _)
    with (hash (Tb:=Tb) (c_forward_bytes st)) by by case_match.
  destruct (table_get (E:=CompressError) (c_table st) _ (c_forward_bytes st) Ht) as (cand & -> & Hc).
  mstep. unfold MFLIMIT in *. rewrite rd64_ok by lia. mstep.
  destruct (table_put (E:=CompressError) (c_table st) (iso + c_cur st + 1) (c_forward_bytes st)
    (c_cur st + iso)) as (t & -> & Ht'); [apply (table_mono _ (iso + c_cur st)); [done|lia]|lia|]. mstep.
  replace (READONLY || (cand <=? iso + c_cur st)) with true
    by (destruct READONLY; [done|]; symmetry; apply N.leb_le; lia).
  cbn [assert]. mstep. rewrite Hfb.
  apply returns_bind. eapply returns_mono; [apply probe_ok; try done; unfold MFLIMIT; lia|].
  intros [m|] Hm; apply returns_ok; cbn.
  - split; [|lia]. destruct Hm as [Hm1 Hm2]. by split; cbn; unfold MFLIMIT.
  - split; [|lia]. split; cbn; unfold END_OFFSET, LAST_LITERALS, MFLIMIT in *; try done; try lia.
    eapply table_mono; [done|]. lia.
Qed.

Lemma search_loop_ok fuel k st ss :
  loop_inv st ss -> 8 <= k -> (length input - N.to_nat (c_cur st) < fuel)%nat ->
  returns (searches fuel k st) (fun e =>
    match e with SNext _ => False | e => search_post st ss e end).
Proof using Hok.
  revert k st. induction fuel as [|fuel IH]; intros k st Hi Hk Hf; [lia|]. cbn [search_loop].
  apply returns_bind. eapply returns_mono; [by apply search_step_ok|].
  pose proof (li_cur _ _ Hi) as [_ Hcur]. unfold END_OFFSET, LAST_LITERALS in *.
  intros [st'|st'|st' m] Hs; cbn in Hs.
  - destruct Hs as [Hi' Hlt]. eapply returns_mono; [apply IH; [done|lia|lia]|].
    intros [|st2|st2 m]; cbn; [done..|]. intros [? ?]. split; [done|lia].
  - by apply returns_ok.
  - by apply returns_ok.
Qed.

(** A pass of the emission loop: the sequence is written, and the position
    moves past the match. *)
Definition emit_post (st : cstate Tb) (e : emit_exit Tb) : Prop :=
  match e with
  | EAgain st' m => (exists ss', found_inv st' m ss') /\ c_cur st < c_cur st'
  | EBreak st' => (exists ss', loop_inv st' ss') /\ c_cur st < c_cur st'
  end.

(** The rematch test after a sequence only accepts candidates. *)
Lemma rematch_ok st t c2 w ss :
  USE_DICT = false -> c2 + MFLIMIT <= len input -> 1 <= c2 -> c_cur st < c2 ->
  table_inv t (iso + c2) -> progress ext_dict input ip total c2 w ss ->
  (forall fb fh, fb = from_ne_bytes (sub input c2 8) /\ fh = hash (Tb:=Tb) fb ->
    emit_post st (EBreak {| c_table := t; c_cur := c2; c_forward_bytes := fb; c_forward_hash := fh;
                            c_literal_start := c2; c_rest := w |})) ->
  let bytes_ := from_ne_bytes (sub input c2 8) in
  let st' t fb fh := {| c_table := t; c_cur := c2; c_forward_bytes := fb; c_forward_hash := fh;
                        c_literal_start := c2; c_rest := w |} in
  returns (E:=CompressError)
    (rematch ← get_at t (hash (Tb:=Tb) bytes_);
     let rc := wrapping_sub rematch iso in
     found ← and_then (rc <? c2)
       (r ← rd32 input rc; Ok ((first4 bytes_ =? r) && (NEAR || (c2 - rc <=? MAX_DISTANCE))));
     if (found : bool) then
       t ← put_at t (hash (Tb:=Tb) bytes_) (c2 + iso);
       Ok (EAgain (st' t (c_forward_bytes st) (c_forward_hash st))
             {| m_candidate := rc; m_source := input; m_offset := as_u16 (c2 - rc) |})
     else Ok (EBreak (st' t bytes_ (hash (Tb:=Tb) bytes_))))
    (emit_post st).
Proof using Hok.
  intros Hud Hend Hc1 Hc2 Ht Hp Hnext bytes_ st'. destruct Hok. unfold MFLIMIT in *.
  assert (Hro : READONLY = false).
  { destruct READONLY; [|done]. by destruct co_readonly0 as (? & _); [|congruence]. }
  destruct (table_get (E:=CompressError) t _ bytes_ Ht) as (v & -> & Hv). rewrite Hro in Hv. mstep.
  rewrite wrapping_sub_cases by mlia. pose proof usize_pow as Hpow. cbn zeta.
  assert (Hno : returns (E:=CompressError) (Ok (EBreak (st' t bytes_ (hash (Tb:=Tb) bytes_)))) (emit_post st))
    by (by apply returns_ok, Hnext).
  destruct (N.leb_spec iso v) as [Hic|Hic]; last first.
  { destruct (N.ltb_spec (2 ^ usize_bits - (iso - v)) c2); [mlia|done]. }
  destruct (N.ltb_spec (v - iso) c2); [|done]. cbn [and_then].
  rewrite rd32_ok by lia. mstep. subst bytes_. rewrite first4_ok by lia.
  destruct (N.eqb_spec (from_ne_bytes (sub input c2 4)) (from_ne_bytes (sub input (v - iso) 4))) as [Heq|];
    cbn [andb]; [|done].
  assert (Hd : NEAR || (c2 - (v - iso) <=? MAX_DISTANCE) = true -> c2 - (v - iso) <= MAX_DISTANCE).
  { intros [Hn|Hn]%orb_true_iff; [|by apply N.leb_le]. specialize (co_near0 Hn). lia. }
  destruct (NEAR || _); [|done]. specialize (Hd eq_refl).
  destruct (table_put (E:=CompressError) t (iso + c2 + 1) (from_ne_bytes (sub input c2 8)) (c2 + iso))
    as (t' & Hput & Ht'); [apply (table_mono _ (iso + c2)); [done|lia]|lia|].
  unfold put_unless_readonly in Hput. rewrite Hro in Hput. rewrite Hput. mstep.
  apply returns_ok. split; [|cbn; lia]. exists ss. split; cbn; [done|unfold MFLIMIT; lia|done| |].
  - apply cand_at_input; done.
  - apply same_bytes_word; cbn; [lia..|done].
Qed.

Lemma emit_step_ok st m ss :
  found_inv st m ss -> returns (emit st m) (emit_post st).
Proof using Hok.
  intros [Hp [Hls Hcur] Ht Hc Hs]. unfold emit_step. pose proof (co_stream Hok) as Hstream.
  destruct (extend_match_eq (E:=CompressError) _ _ _ _ _ Hc Hs Hls Hcur)
    as (c & cand & c2 & dup & -> & Hcnt & Hcc & Hc2 & Hend & Heq & Hx & Hoff).
  unfold MFLIMIT, END_OFFSET, LAST_LITERALS, MINMATCH in Hcur, Hend, Heq.
  rewrite !(usub_ok (len input)) by (unfold MFLIMIT; lia). mstep. rewrite (usub_ok c) by lia. mstep.
  rewrite Hcnt. mstep. rewrite (usub_ok c2) by lia. mstep.
  rewrite rd64_upto_ok by lia. mstep.
  destruct (table_put (E:=CompressError) (c_table st) (iso + c2)
    (from_ne_bytes (sub input (c2 - 2) 8)) (c2 - 2 + iso)) as (t & -> & Ht');
    [apply (table_mono _ (iso + c_cur st + 1)); [done|lia]|lia|]. mstep.
  apply returns_bind. destruct Hc as (base & _ & _ & Hmo).
  eapply returns_mono;
    [apply (progress_emit _ _ _ _ (co_room Hok) _ _ _ _ c2 _ _ Hp); try done;
     unfold MFLIMIT, END_OFFSET, LAST_LITERALS, MINMATCH; lia|].
  cbn zeta. intros w Hw. cbv beta in Hw.
  assert (Hnext : forall fb fh,
    (c2 + MFLIMIT <= len input -> fb = from_ne_bytes (sub input c2 8) /\ fh = hash (Tb:=Tb) fb) ->
    emit_post st (EBreak {| c_table := t; c_cur := c2; c_forward_bytes := fb; c_forward_hash := fh;
                            c_literal_start := c2; c_rest := w |})).
  { intros fb fh Hf. split; [|cbn; lia]. eexists.
    split; cbn; [exact Hw|unfold END_OFFSET, LAST_LITERALS; lia|lia|done|exact Hf]. }
  destruct (negb USE_DICT && (c2 <=? len input - MFLIMIT)) eqn:Hb.
  - apply andb_true_iff in Hb as [Hud Hle]. apply negb_true_iff in Hud. apply N.leb_le in Hle.
    unfold MFLIMIT in Hle. rewrite rd64_ok by lia. mstep.
    eapply rematch_ok; [done|unfold MFLIMIT; lia|lia|lia|done|exact Hw|]. intros fb fh Hf. by apply Hnext.
  - destruct (N.leb_spec c2 (len input - MFLIMIT)) as [Hle|Hle].
    + unfold MFLIMIT in Hle. rewrite rd64_ok by lia. mstep. by apply returns_ok, Hnext.
    + apply returns_ok, Hnext. unfold MFLIMIT in *. lia.
Qed.

Lemma emit_loop_ok fuel st m ss :
  found_inv st m ss -> (length input - N.to_nat (c_cur st) < fuel)%nat ->
  returns (emits_loop fuel st m) (fun st' =>
    (exists ss', loop_inv st' ss') /\ c_cur st < c_cur st').
Proof using Hok.
  revert st m ss. induction fuel as [|fuel IH]; intros st m ss Hi Hf; [lia|]. cbn [emit_loop].
  apply returns_bind. eapply returns_mono; [by eapply emit_step_ok|].
  pose proof (fi_cur _ _ _ Hi) as [_ Hcur]. unfold MFLIMIT in *.
  intros [st' m'|st'] [[ss' Hi'] Hlt]; [|apply returns_ok; eauto].
  eapply returns_mono; [eapply IH; [done|lia]|]. intros st2 [? ?]. split; [done|lia].
Qed.

Lemma compress_loop_ok fuel st ss :
  loop_inv st ss -> (length input - N.to_nat (c_cur st) < fuel)%nat ->
  returns (compress_loop USE_DICT HAS_OFFSET READONLY NEAR input ext_dict iso fuel st)
    (fun '(t, w) => table_inv t (iso + len input) /\ block_written ext_dict input ip total w).
Proof using Hok.
  revert st ss. induction fuel as [|fuel IH]; intros st ss Hi Hf; [lia|]. cbn [compress_loop].
  apply returns_bind.
  eapply returns_mono; [apply (search_loop_ok _ _ _ ss); [done|done|lia]|].
  intros [st'|st'|st' m] Hs; [done| |].
  - destruct Hs as [Hp [_ Hcur] _ Ht _].
    apply returns_bind. eapply returns_mono; [eapply progress_finish; [apply Hok|done]|].
    intros w Hw. apply returns_ok. split; [|done]. eapply table_mono; [done|lia].
  - destruct Hs as [Hs Hle]. pose proof (fi_cur _ _ _ Hs) as [_ Hcur]. unfold MFLIMIT in *.
    apply returns_bind. eapply returns_mono; [eapply emit_loop_ok; [done|lia]|].
    intros st2 [[ss2 Hi2] Hlt]. eapply IH; [done|lia].
Qed.
End core_loop.

(** ** A whole call *)

(** What a call that succeeds has written: a block that encodes the input from
    [ip] after the history [D], within the size limit and the end rules. *)
Definition block_of (D input : bytes) (ip : N) (block : bytes) : Prop :=
  block_decode (D ++ take (N.to_nat ip) input) block = Some (drop (N.to_nat ip) input) /\
  len block <= 20 + 110 * (len input - ip) / 100 /\
  exists ss last, block = encode_block ss last /\ seqs_valid (D ++ take (N.to_nat ip) input) ss /\
    apply_seqs (D ++ take (N.to_nat ip) input) ss ++ last = D ++ input /\ end_rules ss last.

(** The sink after it. *)
Definition appended `{T : Target} (s : SliceSink) (block : bytes) (s' : SliceSink) : Prop :=
  written s' = written s ++ block /\ sink_pos s' = sink_pos s + len block /\
  length (sink_output s') = length (sink_output s) /\ sink_ok s'.

Section limits_lemmas.
Context `{T : Target} {E : Type}.

Lemma get_maximum_output_size_ok n : n * 110 < 2 ^ 64 ->
  get_maximum_output_size (E:=E) n = Ok (N.min (20 + 110 * n / 100) usize_max).
Proof.
  intros H. unfold get_maximum_output_size. bcase. f_equal.
  replace (16 + 4 + n * 110 / 100) with (20 + 110 * n / 100) by lia. bcase; lia.
Qed.

Lemma stream_bounds_ok iso n dl : dl <= iso -> iso + n + dl <= isize_max ->
  stream_bounds iso n dl = Ok tt.
Proof.
  intros H1 H2. unfold stream_bounds, ensure_stream_bounds, assert_stream_bounds.
  rewrite (checked_add_ok iso n) by mlia. cbn [mbind option_bind]. rewrite checked_add_ok by mlia.
  destruct target_width; [by do 2 bcase|]. unfold assert. by do 2 bcase.
Qed.

(** Putting the window back into the sink. *)
Lemma finish_ok (s : SliceSink) D input ip w :
  sink_ok s -> ip <= len input ->
  block_written D input ip (len (sink_output s) - sink_pos s) w ->
  finish_output (E:=E) (sink_pos s) (len (sink_output s) - sink_pos s) (len (w_rest w))
  = Ok (sink_pos s + len (w_done w), len (w_done w)) /\
  block_of D input ip (w_done w) /\
  appended s (w_done w)
    {| sink_output := take (N.to_nat (sink_pos s)) (sink_output s) ++ w_done w ++ w_rest w;
       sink_pos := sink_pos s + len (w_done w) |}.
Proof.
  intros Hs Hip Hw. unfold sink_ok in Hs. cbn in Hs.
  pose proof (block_written_decodes _ _ _ _ _ Hip Hw) as Hd.
  destruct Hw as (ss & last & He & Ht & Hl & Hv & Ha & Hend). split_and!.
  - unfold finish_output. rewrite usub_ok by lia. mstep. do 2 f_equal; lia.
  - split_and!; [done..|]. by exists ss, last.
  - unfold appended, written, sink_ok. cbn [sink_output sink_pos]. split_and!.
    + rewrite app_assoc, take_app_length'; [done|]. len_lia.
    + done.
    + len_lia.
    + cbn. len_lia.
Qed.

Lemma finish_call_ok {Tb} (s : SliceSink) D input ip w (t : Tb) (Q : Tb -> Prop) :
  sink_ok s -> ip <= len input ->
  block_written D input ip (len (sink_output s) - sink_pos s) w -> Q t ->
  returns (E:=E)
    (finish_call s (sink_output s) (sink_pos s) (len (sink_output s) - sink_pos s) t w)
    (fun '(s', t', n) => exists block, len block = n /\
       block_of D input ip block /\ appended s block s' /\ Q t').
Proof.
  intros Hs Hip Hw Ht. destruct (finish_ok s D input ip w Hs Hip Hw) as (Hf & Hb & Ha).
  unfold finish_call. rewrite Hf. mstep. apply returns_ok. by exists (w_done w).
Qed.
End limits_lemmas.

Section calls.
Context `{T : Target} {Tb : Type} `{HashTableLaws Tb}.
Context (USE_DICT HAS_OFFSET READONLY NEAR : bool).
Implicit Types (s : SliceSink) (t : Tb).

(** The caller's obligations: those the source asserts, and the table's
    entries lie before the input position. *)
Record call_pre (input : bytes) (ip : N) s t (ext_dict : bytes) (iso : N) : Prop := {
  cp_pos : ip <= len input;
  cp_u64 : len input * 110 < 2 ^ 64;
  cp_stream : iso + len input + len ext_dict <= if USE_DICT then isize_max else usize_max;
  cp_dict : len ext_dict <= iso;
  cp_window : USE_DICT = true -> len ext_dict <= WINDOW_SIZE;
  cp_nodict : USE_DICT = false -> ext_dict = [];
  cp_offset : HAS_OFFSET = false -> iso = 0;
  cp_readonly : READONLY = true -> USE_DICT = true /\ iso = len ext_dict /\
                len ext_dict + len input < u16_max;
  cp_near : NEAR = true -> len ext_dict + len input <= MAX_DISTANCE + 1;
  cp_sink : sink_ok s;
  cp_buffer : len (sink_output s) <= isize_max;
  cp_table : table_ok t /\ if READONLY then below t (2 ^ 16) else below t (N.max 1 (iso + ip))
}.

(** The table's entries stay within the stream; a read-only table does not
    change. *)
Definition table_post (t t' : Tb) (bound : N) : Prop :=
  table_ok t' /\ if READONLY then t' = t else below t' (N.max 1 bound).

(** The obligations pass the assertions at entry. *)
Lemma check_call_ok input ip s t ext_dict iso : call_pre input ip s t ext_dict iso ->
  check_call USE_DICT HAS_OFFSET READONLY NEAR input ip ext_dict iso = Ok tt.
Proof.
  intros []. unfold check_call, assert. destruct (N.leb_spec ip (len input)); [|lia]. mstep.
  assert (Hd : (if USE_DICT then _ ← (if len ext_dict <=? WINDOW_SIZE then Ok () else Panic);
                  stream_bounds iso (len input) (len ext_dict)
                else if len ext_dict =? 0 then Ok () else Panic) = Ok (E:=CompressError) ()).
  { destruct USE_DICT.
    - specialize (cp_window0 eq_refl). bcase. mstep. by apply stream_bounds_ok.
    - rewrite cp_nodict0 by done. done. }
  rewrite Hd. mstep. clear Hd.
  replace (if HAS_OFFSET then Ok () else if iso =? 0 then Ok () else Panic) with (Ok (E:=CompressError) ())
    by (destruct HAS_OFFSET; [done|]; rewrite cp_offset0 by done; done).
  mstep.
  assert (Hro : (if READONLY then
      _ ← (if USE_DICT && (iso =? len ext_dict) then Ok () else Panic);
      if len ext_dict + len input <? u16_max then Ok () else Panic
    else Ok ()) = Ok (E:=CompressError) ()).
  { destruct READONLY; [|done]. destruct (cp_readonly0 eq_refl) as (-> & -> & ?).
    rewrite N.eqb_refl. mstep. by bcase. }
  rewrite Hro. mstep. destruct NEAR; [|done]. specialize (cp_near0 eq_refl). by bcase.
Qed.

(** The position and the table that the search starts from. *)
Lemma index_start_ok input ip s t ext_dict iso : call_pre input ip s t ext_dict iso ->
  ip + LZ4_MIN_LENGTH <= len input ->
  returns (index_start READONLY input ip t iso) (fun '(t1, c) =>
    table_inv READONLY t t1 (iso + c) /\ ip <= c /\ c + MFLIMIT <= len input /\ 1 <= iso + c).
Proof.
  intros [] Hl. unfold index_start, LZ4_MIN_LENGTH, MFLIMIT in *.
  assert (Ht : table_inv READONLY t t (N.max 1 (iso + ip))).
  { destruct cp_table0 as [Ht1 Ht2]. split; [done|]. by destruct READONLY. }
  destruct (N.eqb_spec ip 0) as [->|]; [destruct (N.eqb_spec iso 0) as [->|]|]; cbn [andb].
  - unfold get_hash_at. rewrite rd64_ok by lia. mstep.
    destruct (table_put (E:=CompressError) READONLY t t _ (from_ne_bytes (sub input 0 8)) 0 Ht)
      as (t1 & -> & Ht1); [lia|]. mstep. apply returns_ok. split_and!; try lia. done.
  - apply returns_ok. split_and!; try lia. by replace (iso + 0) with (N.max 1 (iso + 0)) by lia.
  - apply returns_ok. split_and!; try lia. by replace (iso + ip) with (N.max 1 (iso + ip)) by lia.
Qed.

Lemma compress_internal_ok input ip s t ext_dict iso :
  call_pre input ip s t ext_dict iso ->
  let r := compress_internal USE_DICT HAS_OFFSET READONLY NEAR input ip s t ext_dict iso in
  if len (sink_output s) - sink_pos s <? N.min (20 + 110 * (len input - ip) / 100) usize_max
  then r = Err COutputTooSmall
  else returns r (fun '(s', t', n) => exists block, len block = n /\
         block_of ext_dict input ip block /\ appended s block s' /\
         table_post t t' (iso + len input)).
Proof.
  intros Hp. unfold compress_internal. cbn zeta. rewrite (check_call_ok _ _ _ _ _ _ Hp). mstep.
  pose proof (index_start_ok _ _ _ _ _ _ Hp) as Hstart. destruct Hp.
  assert (Hs : sink_pos s <= len (sink_output s)) by exact cp_sink0.
  replace (if HAS_OFFSET then iso else 0) with iso by (destruct HAS_OFFSET; auto).
  cbn [output_mut_with_pos SliceSink_Sink]. access.
  rewrite get_maximum_output_size_ok by lia. mstep. rewrite length_drop.
  replace (N.of_nat (length (sink_output s) - N.to_nat (sink_pos s)))
    with (len (sink_output s) - sink_pos s) by lia.
  set (total := len (sink_output s) - sink_pos s). destruct (total <? _) eqn:Hroom; [done|].
  apply N.ltb_ge in Hroom.
  assert (Hroom' : 20 + 110 * (len input - ip) / 100 <= total) by mlia. clear Hroom.
  set (w0 := {| w_done := []; w_rest := _ |}).
  assert (Hw0 : progress ext_dict input ip total ip w0 []).
  { apply progress_start; [done|done|subst w0 total; cbn [w_rest]; len_lia|done]. }
  destruct ((len input <? LZ4_MIN_LENGTH) || (len input - ip <? LZ4_MIN_LENGTH)) eqn:Hshort.
  { apply returns_bind. eapply returns_mono; [by eapply progress_finish|].
    intros w Hw. apply (finish_call_ok _ _ _ _ _ _ (fun t' => table_post t t' _)); [done..|].
    split; [apply cp_table0|]. destruct READONLY; [done|].
    eapply below_mono; [apply cp_table0|]. lia. }
  apply orb_false_iff in Hshort as [_ Hshort]. apply N.ltb_ge in Hshort.
  rewrite usub_ok by lia. mstep.
  assert (Hcall : call_ok USE_DICT READONLY NEAR input ext_dict iso ip total).
  { split; try done; [unfold LZ4_MIN_LENGTH, MFLIMIT in *; lia|].
    pose proof usize_isize. destruct USE_DICT; lia. }
  destruct Hstart as ([t1 c] & -> & Ht1 & Hc1 & Hc2 & Hc3); [unfold LZ4_MIN_LENGTH in *; lia|]. mstep.
  unfold MFLIMIT in Hc2. rewrite rd64_ok by lia. mstep.
  apply returns_bind. eapply returns_mono;
    [apply (compress_loop_ok USE_DICT HAS_OFFSET READONLY NEAR input ext_dict iso ip total t Hcall _ _ [])|].
  - split; cbn; try done; unfold END_OFFSET, LAST_LITERALS; lia.
  - cbn. lia.
  - intros [t2 w] [[Ht2 Ht2'] Hw].
    apply (finish_call_ok _ _ _ _ _ _ (fun t' => table_post t t' _)); [done..|]. split; [done|].
    destruct READONLY; [apply Ht2'|]. eapply below_mono; [done|lia].
Qed.
End calls.
