(* ===== verification/DictTableProofs.v ===== *)
(** * The dual-table loop, seeding and the entry points

    The loop of [compress_with_dict_table] keeps the invariant of the core
    loop, with the main table's base in place of the stream offset.  The entry
    points establish the callers' obligations. *)

From S2P Require Import Prelude BlockSpec Core Primitives Decompress DecompressProofs DecompressSpec Sequences HashTable Compress CompressProofs.

Section dict_loop.
Context `{T : Target} {Tb : Type} `{HashTableLaws Tb}.
Context (input ext_dict : bytes) (base total : N) (dict_table : Tb).

Record dict_call_ok : Prop := {
  dk_len : LZ4_MIN_LENGTH <= len input;
  dk_base : 1 <= base /\ base + len input <= u16_max;
  dk_dict : len ext_dict + len input < u16_max;
  dk_table : table_ok dict_table /\ below dict_table (2 ^ 16);
  dk_room : 20 + 110 * (len input - 0) / 100 <= total
}.
Context (Hok : dict_call_ok).

Abbreviation progress := (progress ext_dict input 0 total).
Abbreviation found_inv := (found_inv false input ext_dict base 0 total).

Record dict_loop_inv (st : cstate Tb) (ss : list sequence) : Prop := {
  dl_progress : progress (c_literal_start st) (c_rest st) ss;
  dl_cur : c_literal_start st <= c_cur st /\ c_cur st + END_OFFSET <= len input;
  dl_table : table_ok (c_table st) /\ below (c_table st) (base + c_cur st);
  dl_forward : c_cur st + MFLIMIT <= len input ->
    c_forward_hash st = hash (Tb:=Tb) (from_ne_bytes (sub input (c_cur st) 8))
}.

Lemma get_hash_at_ok {E} p : p + 8 <= len input ->
  get_hash_at (E:=E) Tb input p = Ok (hash (Tb:=Tb) (from_ne_bytes (sub input p 8))).
Proof. intros. unfold get_hash_at. by rewrite rd64_ok. Qed.

Definition probe_post (cur : N) (o : option candidate_match) : Prop :=
  match o with
  | Some m => cand_at ext_dict input cur m /\ same_bytes input cur (m_source m) (m_candidate m) 4
  | None => True
  end.

Lemma probe_main_ok cur next_cur v :
  cur < next_cur -> cur + MFLIMIT <= len input -> v < base + cur ->
  returns (probe_main input base cur next_cur v) (probe_post cur).
Proof using Hok.
  intros Hn Hc Hv. destruct Hok. unfold probe_main, u16_max, MFLIMIT in *. change (2 ^ 16) with 65536 in *.
  destruct (N.leb_spec base v); cbn [andb]; [|by apply returns_ok].
  rewrite wrapping_sub_cases by mlia. rewrite (proj2 (N.leb_le base v)) by done.
  destruct (N.ltb_spec (v - base) next_cur); [|by apply returns_ok].
  unfold assert. bcase. mstep. rewrite !rd32_ok by lia. mstep.
  rewrite N.min_l by lia. apply returns_ok.
  destruct (N.eqb_spec (from_ne_bytes (sub input (v - base) 4)) (from_ne_bytes (sub input cur 4))); [|done].
  split; [apply cand_at_input; unfold MAX_DISTANCE; change (2 ^ 16) with 65536; lia|].
  apply same_bytes_word; cbn; [lia..|done].
Qed.

Lemma probe_dict_ok cur next_cur v :
  cur < next_cur -> cur + MFLIMIT <= len input -> v < 2 ^ 16 ->
  returns (probe_dict input ext_dict (len ext_dict) cur next_cur v) (probe_post cur).
Proof using Hok.
  intros Hn Hc Hv. destruct Hok. unfold probe_dict, u16_max, MFLIMIT in *. change (2 ^ 16) with 65536 in *.
  rewrite uadd_ok by mlia. mstep. bcase; [|by apply returns_ok].
  unfold assert, MAX_DISTANCE. change (2 ^ 16 - 1) with 65535. bcase. mstep.
  rewrite !rd32_ok by lia. mstep. rewrite N.min_l by lia. apply returns_ok.
  destruct (N.eqb_spec (from_ne_bytes (sub ext_dict v 4)) (from_ne_bytes (sub input cur 4))); [|done].
  split; [apply cand_at_dict; unfold MAX_DISTANCE; change (2 ^ 16 - 1) with 65535; lia|].
  apply same_bytes_word; cbn; [lia..|done].
Qed.

Definition dict_search_post (st : cstate Tb) (ss : list sequence) (e : search_exit Tb) : Prop :=
  match e with
  | SNext st' => dict_loop_inv st' ss /\ c_cur st < c_cur st'
  | SEnd st' => dict_loop_inv st' ss
  | SFound st' m => found_inv (c_table st') st' m ss /\ c_cur st <= c_cur st'
  end.

Lemma dict_search_step_ok k st ss :
  dict_loop_inv st ss -> 8 <= k ->
  returns (dict_search_step input ext_dict (len ext_dict) base dict_table k st)
    (dict_search_post st ss).
Proof using Hok.
  intros Hi Hk. pose proof (step_size k Hk) as Hstep. destruct Hi as [Hp [Hls Hcur] [Ht Htb] Hf].
  unfold dict_search_step. pose proof (dk_len Hok) as Hlen. unfold LZ4_MIN_LENGTH, MFLIMIT in *.
  rewrite usub_ok by lia. mstep. set (next := c_cur st + _).
  destruct (N.ltb_spec (len input - 12 + 1) next) as [|Hn].
  { apply returns_ok. by split. }
  rewrite Hf by lia. rewrite get_hash_at_ok by lia. mstep.
  destruct (get_law (E:=CompressError) (c_table st) (from_ne_bytes (sub input (c_cur st) 8))
    (base + c_cur st) Ht Htb) as (v & -> & Hv). mstep.
  destruct (put_law (E:=CompressError) (c_table st) (from_ne_bytes (sub input (c_cur st) 8))
    (c_cur st + base) (base + c_cur st + 1) Ht) as (t & -> & Ht' & Htb');
    [eapply below_mono; [done|lia]|lia|]. mstep.
  assert (Hfound : forall m, probe_post (c_cur st) (Some m) ->
    dict_search_post st ss (SFound
      {| c_table := t; c_cur := c_cur st; c_forward_bytes := 0;
         c_forward_hash := hash (Tb:=Tb) (from_ne_bytes (sub input next 8));
         c_literal_start := c_literal_start st; c_rest := c_rest st |} m)).
  { intros m [Hm1 Hm2]. split; [|cbn; lia]. split; cbn; try done. unfold MFLIMIT. lia. }
  apply returns_bind. eapply returns_mono; [apply probe_main_ok; unfold MFLIMIT; lia|].
  intros [m|] Hm; [by apply returns_ok, Hfound|].
  destruct (dk_table Hok) as [Hdt Hdb].
  destruct (get_law (E:=CompressError) dict_table (from_ne_bytes (sub input (c_cur st) 8))
    (2 ^ 16) Hdt Hdb) as (v2 & -> & Hv2). mstep.
  apply returns_bind. eapply returns_mono; [apply probe_dict_ok; unfold MFLIMIT; done || lia|].
  intros [m|] Hm2; apply returns_ok; [by apply Hfound|].
  split; [|cbn; lia]. split; cbn; unfold END_OFFSET, LAST_LITERALS in *; try done; try lia.
  split; [done|]. eapply below_mono; [done|lia].
Qed.

Lemma dict_search_loop_ok fuel k st ss :
  dict_loop_inv st ss -> 8 <= k -> (length input - N.to_nat (c_cur st) < fuel)%nat ->
  returns (dict_search_loop input ext_dict (len ext_dict) base dict_table fuel k st) (fun e =>
    match e with SNext _ => False | e => dict_search_post st ss e end).
Proof using Hok.
  revert k st. induction fuel as [|fuel IH]; intros k st Hi Hk Hf; [lia|]. cbn [dict_search_loop].
  apply returns_bind. eapply returns_mono; [by apply dict_search_step_ok|].
  pose proof (dl_cur _ _ Hi) as [_ Hcur]. unfold END_OFFSET, LAST_LITERALS in *.
  intros [st'|st'|st' m] Hs; cbn in Hs.
  - destruct Hs as [Hi' Hlt]. eapply returns_mono; [apply IH; [done|lia|lia]|].
    intros [|st2|st2 m]; cbn; [done..|]. intros [? ?]. split; [done|lia].
  - by apply returns_ok.
  - by apply returns_ok.
Qed.

Lemma dict_emit_ok st m ss :
  found_inv (c_table st) st m ss ->
  returns (dict_emit input base st m) (fun st' =>
    (exists ss', dict_loop_inv st' ss') /\ c_cur st < c_cur st').
Proof using Hok.
  intros [Hp [Hls Hcur] [Ht Htb] Hc Hs]. unfold dict_emit. pose proof (dk_base Hok) as Hbase.
  destruct (extend_match_eq (E:=CompressError) _ _ _ _ _ Hc Hs Hls Hcur)
    as (c & cand & c2 & dup & -> & Hcnt & Hcc & Hc2 & Hend & Heq & Hx & Hoff).
  unfold MFLIMIT, END_OFFSET, LAST_LITERALS, MINMATCH in Hcur, Hend, Heq.
  rewrite !(usub_ok (len input)) by (unfold MFLIMIT; lia). mstep. rewrite (usub_ok c) by lia. mstep.
  rewrite Hcnt. mstep. rewrite (usub_ok c2) by lia. mstep. rewrite rd64_upto_ok by lia. mstep.
  destruct (put_law (E:=CompressError) (c_table st) (from_ne_bytes (sub input (c2 - 2) 8))
    (c2 - 2 + base) (base + c2) Ht) as (t & -> & Ht' & Htb'); [eapply below_mono; [done|lia]|lia|].
  mstep. apply returns_bind. destruct Hc as (b & _ & _ & Hmo).
  eapply returns_mono;
    [apply (progress_emit _ _ _ _ (dk_room Hok) _ _ _ _ c2 _ _ Hp); try done;
     unfold MFLIMIT, END_OFFSET, LAST_LITERALS, MINMATCH; lia|].
  cbn zeta. intros w Hw. cbv beta in Hw.
  assert (Hfh : returns (E:=CompressError)
    (if c2 <=? len input - MFLIMIT then get_hash_at Tb input c2 else Ok (c_forward_hash st))
    (fun fh => c2 + MFLIMIT <= len input -> fh = hash (Tb:=Tb) (from_ne_bytes (sub input c2 8)))).
  { unfold MFLIMIT. bcase; [rewrite get_hash_at_ok by lia|]; apply returns_ok; [done|lia]. }
  destruct Hfh as (fh & -> & Hfh). mstep. apply returns_ok. split; [|cbn; lia]. eexists.
  split; cbn; [exact Hw|unfold END_OFFSET, LAST_LITERALS; lia|done|exact Hfh].
Qed.

Lemma dict_compress_loop_ok fuel st ss :
  dict_loop_inv st ss -> (length input - N.to_nat (c_cur st) < fuel)%nat ->
  returns (dict_compress_loop input ext_dict (len ext_dict) base dict_table fuel st)
    (fun '(t, w) => table_ok t /\ below t (base + len input) /\
                    block_written ext_dict input 0 total w).
Proof using Hok.
  revert st ss. induction fuel as [|fuel IH]; intros st ss Hi Hf; [lia|]. cbn [dict_compress_loop].
  apply returns_bind.
  eapply returns_mono; [apply (dict_search_loop_ok _ _ _ ss); [done|done|lia]|].
  intros [st'|st'|st' m] Hs; [done| |].
  - destruct Hs as [Hp [_ Hcur] [Ht Htb] _].
    apply returns_bind. eapply returns_mono; [eapply progress_finish; [apply Hok|done]|].
    intros w Hw. apply returns_ok. split_and!; [done| |done]. eapply below_mono; [done|lia].
  - destruct Hs as [Hs Hle]. pose proof (fi_cur _ _ _ _ _ _ _ _ _ _ Hs) as [_ Hcur].
    unfold MFLIMIT in *.
    apply returns_bind. eapply returns_mono; [by eapply dict_emit_ok|].
    intros st2 [[ss2 Hi2] Hlt]. eapply IH; [done|lia].
Qed.
End dict_loop.

(** ** A whole dual-table call *)

Section dict_call.
Context `{T : Target} {Tb : Type} `{HashTableLaws Tb}.

Lemma compress_with_dict_table_ok input s (table dict_table : Tb) ext_dict base :
  len input * 110 < 2 ^ 64 -> sink_ok s -> len (sink_output s) <= isize_max ->
  1 <= base -> base + len input <= u16_max -> len ext_dict + len input < u16_max ->
  table_ok table -> below table base -> table_ok dict_table -> below dict_table (2 ^ 16) ->
  let r := compress_with_dict_table input s table dict_table ext_dict (len ext_dict) base in
  if len (sink_output s) - sink_pos s <? N.min (20 + 110 * (len input - 0) / 100) usize_max
  then r = Err COutputTooSmall
  else returns r (fun '(s', t', n) => exists block, len block = n /\
         block_of ext_dict input 0 block /\ appended s block s' /\
         table_ok t' /\ below t' (base + len input)).
Proof.
  intros Hu Hs Hbuf Hb1 Hb2 Hd Ht Htb Hdt Hdb. pose proof Hs as Hs'. unfold sink_ok in Hs'. cbn in Hs'.
  unfold compress_with_dict_table, assert. cbn zeta.
  rewrite N.eqb_refl. mstep. unfold u16_max, WINDOW_SIZE in *. change (2 ^ 16) with 65536 in *.
  rewrite (proj2 (N.leb_le (base + len input) _)), (proj2 (N.leb_le (len ext_dict) _)) by lia. mstep.
  rewrite stream_bounds_ok by mlia. mstep.
  cbn [output_mut_with_pos SliceSink_Sink]. rewrite slice_from_ok by lia. mstep.
  rewrite get_maximum_output_size_ok by lia. mstep. rewrite length_drop.
  replace (N.of_nat (length (sink_output s) - N.to_nat (sink_pos s)))
    with (len (sink_output s) - sink_pos s) by lia. rewrite N.sub_0_r.
  set (total := len (sink_output s) - sink_pos s). destruct (total <? _) eqn:Hroom; [done|].
  apply N.ltb_ge in Hroom.
  assert (Hroom' : 20 + 110 * (len input - 0) / 100 <= total) by (rewrite N.sub_0_r; mlia).
  set (w0 := {| w_done := []; w_rest := _ |}).
  assert (Hstart : progress ext_dict input 0 total 0 w0 []).
  { apply progress_start; [done|done|subst w0 total; cbn [w_rest]; len_lia|lia]. }
  pose proof (finish_call_ok (E:=CompressError) (Tb:=Tb) s ext_dict input 0) as Hfin.
  fold total in Hfin.
  destruct (N.ltb_spec (len input) LZ4_MIN_LENGTH) as [|Hlong].
  { apply returns_bind. eapply returns_mono; [by eapply progress_finish|].
    intros w Hw. apply (Hfin w table (fun t' => table_ok t' /\ below t' _)); [done|lia|done|].
    split; [done|]. eapply below_mono; [done|lia]. }
  unfold LZ4_MIN_LENGTH, MFLIMIT in *. rewrite !get_hash_at_ok by lia. mstep.
  destruct (put_law (E:=CompressError) table (from_ne_bytes (sub input 0 8)) base (base + 1) Ht)
    as (t & -> & Ht' & Htb'); [eapply below_mono; [done|lia]|lia|]. mstep.
  assert (Hcall : dict_call_ok input ext_dict base total dict_table).
  { split; try done; unfold LZ4_MIN_LENGTH, MFLIMIT, u16_max; change (2 ^ 16) with 65536; lia. }
  apply returns_bind. eapply returns_mono;
    [apply (dict_compress_loop_ok input ext_dict base total dict_table Hcall _ _ [])|].
  - split; cbn; try done; unfold END_OFFSET, LAST_LITERALS; lia.
  - cbn. lia.
  - intros [t2 w] (Ht2 & Ht2' & Hw). apply (Hfin w t2 (fun t' => table_ok t' /\ below t' _)); [done|lia|done|done].
Qed.
End dict_call.

(** ** Seeding *)

Section seeding.
Context `{T : Target} {Tb : Type} `{HashTableLaws Tb} {E : Type}.

Lemma seed_loop_ok fuel (t : Tb) data i off b :
  table_ok t -> below t b -> len data + off <= b ->
  (length data - N.to_nat i < fuel)%nat ->
  returns (E:=E) (seed_loop fuel t data i off) (fun t' => table_ok t' /\ below t' b).
Proof.
  revert t i. induction fuel as [|fuel IH]; intros t i Ht Hb Hl Hf; [lia|]. cbn [seed_loop].
  destruct (N.leb_spec (i + 8) (len data)); [|by apply returns_ok].
  rewrite get_hash_at_ok by lia. mstep.
  destruct (put_law (E:=E) t (from_ne_bytes (sub data i 8)) (i + off) b Ht Hb) as (t' & -> & Ht' & Hb');
    [lia|]. mstep. apply IH; [done..|lia].
Qed.

(** The last [WINDOW_SIZE] bytes. *)
Definition window_of (dict : bytes) : bytes :=
  if WINDOW_SIZE <? len dict then drop (N.to_nat (len dict - WINDOW_SIZE)) dict else dict.

Lemma window_of_suffix dict : exists P, dict = P ++ window_of dict.
Proof.
  unfold window_of. case_match; [|by exists []].
  exists (take (N.to_nat (len dict - WINDOW_SIZE)) dict). by rewrite take_drop.
Qed.

Lemma length_window_of dict : len (window_of dict) = N.min (len dict) WINDOW_SIZE.
Proof. unfold window_of, WINDOW_SIZE. bcase; len_lia. Qed.

Lemma init_dict_ok (t : Tb) dict_data :
  table_ok t -> below t 1 ->
  returns (E:=E) (init_dict t dict_data) (fun '(t', d) =>
    d = window_of dict_data /\ table_ok t' /\ below t' (N.max 1 (len d))).
Proof.
  intros Ht Hb. unfold init_dict. fold (window_of dict_data).
  apply returns_bind. eapply returns_mono;
    [apply (seed_loop_ok _ _ _ _ _ (N.max 1 (len (window_of dict_data))) Ht)|].
  - eapply below_mono; [done|lia].
  - lia.
  - lia.
  - intros t' [? ?]. by apply returns_ok.
Qed.
End seeding.
