(* ===== verification/EncoderSpec.v ===== *)
(** * The block compressor against the block format

    What each entry point of the compressor guarantees: with room for the
    maximum size it writes a block that decodes to the input, and the reusable
    compressors' states keep the invariants their next call needs. *)

From S2P Require Import Prelude BlockSpec Core Primitives Decompress DecompressProofs DecompressSpec Sequences HashTable Compress CompressProofs DictTableProofs.

(** ** Dictionaries as history *)

(** Bytes before the history a block needs do not change its decoding. *)
Lemma decode_from_app_prefix fuel (P h l hf : bytes) :
  decode_from fuel h l = Some hf -> decode_from fuel (P ++ h) l = Some (P ++ hf).
Proof.
  revert h l. induction fuel as [|fuel IH]; intros h l; [done|].
  destruct l as [|tok l]; [done|]. cbn [decode_from].
  destruct (read_len _ l) as [[lit l1]|]; cbn; [|done]. case_match; [done|].
  destruct (drop _ l1) as [|b0 [|b1 l2]]; [intros [= <-]; by rewrite app_assoc|done|].
  destruct (read_len _ l2) as [[ml l3]|]; cbn -[from_le]; [|done].
  rewrite <-app_assoc. set (h1 := h ++ _). set (off := from_le _).
  destruct (N.eqb_spec off 0); [done|]. destruct (N.ltb_spec (len h1) off); [done|]. cbn [orb].
  intros Hd. destruct (N.ltb_spec (len (P ++ h1)) off); [len_lia|].
  rewrite expand_app_prefix by lia. by apply IH.
Qed.

Lemma block_decode_app_prefix (P D block d : bytes) :
  block_decode D block = Some d -> block_decode (P ++ D) block = Some d.
Proof.
  intros Hd%block_decode_some. unfold block_decode.
  rewrite (decode_from_app_prefix _ P _ _ _ Hd). cbn -[decode_from]. f_equal.
  by rewrite app_assoc, drop_app_length.
Qed.

(** ** Contracts *)

(** Arithmetic with the encoder's constants written out. *)
Ltac elia :=
  unfold WINDOW_SIZE, u16_max, MAX_DISTANCE in *;
  repeat match goal with
  | H : context [2 ^ 16] |- _ => change (2 ^ 16) with 65536 in H
  | H : context [2 ^ 17] |- _ => change (2 ^ 17) with 131072 in H
  | H : context [2 ^ 18] |- _ => change (2 ^ 18) with 262144 in H
  end;
  change (2 ^ 16) with 65536; change (2 ^ 17) with 131072; change (2 ^ 18) with 262144;
  pose proof usize_isize; lia.

Section contracts.
Context `{T : Target}.
Implicit Types (input output dict : bytes).

(** Inputs the machine can hold, whose maximum output size is computed
    without overflow. *)
Definition input_ok input : Prop := len input + 2 ^ 18 <= isize_max /\ len input * 110 < 2 ^ 64.

(** The room a call asks for. *)
Definition max_size (n : N) : N := N.min (20 + 110 * n / 100) usize_max.

(** The contract of a call that writes into a sink. *)
Definition sink_call (D input : bytes) (s : SliceSink) (r : res CompressError (SliceSink * N)) : Prop :=
  if len (sink_output s) - sink_pos s <? max_size (len input)
  then r = Err COutputTooSmall
  else returns r (fun '(s', n) => exists block, len block = n /\
         block_of D input 0 block /\ appended s block s').

Lemma call_pre_intro (USE_DICT HAS_OFFSET READONLY NEAR : bool) {Tb} `{HashTableLaws Tb}
  input s (t : Tb) D iso :
  input_ok input -> sink_ok s -> len (sink_output s) <= isize_max ->
  len D <= WINDOW_SIZE -> len D <= iso ->
  (if USE_DICT then iso + len input + 2 ^ 17 <= isize_max else iso + len input <= usize_max) ->
  (USE_DICT = false -> D = []) -> (HAS_OFFSET = false -> iso = 0) ->
  (READONLY = true -> USE_DICT = true /\ iso = len D /\ len D + len input < u16_max) ->
  (NEAR = true -> len D + len input <= MAX_DISTANCE + 1) ->
  table_ok t -> (if READONLY then below t (2 ^ 16) else below t (N.max 1 iso)) ->
  call_pre USE_DICT HAS_OFFSET READONLY NEAR input 0 s t D iso.
Proof.
  intros [Hi1 Hi2] Hs Hb Hw Hd Hst Hud Hho Hro Hn Ht Htb.
  split; try done; [lia| |].
  - destruct USE_DICT; [elia|]. rewrite Hud by done. cbn. lia.
  - split; [done|]. by rewrite N.add_0_r.
Qed.

Lemma compress_into_sink_body_ok (USE_DICT : bool) input s dict :
  input_ok input -> sink_ok s -> len (sink_output s) <= isize_max -> len dict <= isize_max ->
  (USE_DICT = false -> dict = []) ->
  sink_call (window_of dict) input s (compress_into_sink_body USE_DICT input s dict).
Proof.
  intros Hi Hs Hb Hd Hud. pose proof Hi as [Hi1 Hi2]. unfold compress_into_sink_body, sink_call.
  rewrite uadd_ok by (pose proof usize_isize; lia). mstep.
  pose proof (length_window_of dict) as Hw.
  assert (Hud' : USE_DICT = false -> window_of dict = []) by (intros Hf; by rewrite (Hud Hf)).
  assert (Hho : USE_DICT = false -> len (window_of dict) = 0) by (intros Hf; by rewrite (Hud' Hf)).
  destruct (N.ltb_spec (len dict + len input) u16_max) as [Hn|Hn].
  - destruct (new_table16_ok DEFAULT_DICT_ENTRIES eq_refl) as [Ht Htb].
    destruct (init_dict_ok (E:=CompressError) _ dict Ht Htb) as ([t d] & -> & -> & Ht1 & Htb1). mstep.
    assert (Hp : call_pre USE_DICT USE_DICT false true input 0 s t (window_of dict) (len (window_of dict))).
    { apply call_pre_intro; try done; try (destruct USE_DICT; elia). }
    pose proof (compress_internal_ok _ _ _ _ _ _ _ _ _ _ Hp) as Hr. cbn zeta in Hr.
    rewrite N.sub_0_r in Hr. fold (max_size (len input)) in Hr.
    destruct (_ <? max_size _); [by rewrite Hr|].
    destruct Hr as ([[s' t'] n] & -> & block & Hl & Hbl & Ha & _). mstep. apply returns_ok. eauto.
  - destruct (new_table32_ok DEFAULT_NODICT_ENTRIES eq_refl) as [Ht Htb].
    destruct (init_dict_ok (E:=CompressError) _ dict Ht Htb) as ([t d] & -> & -> & Ht1 & Htb1). mstep.
    assert (Hp : call_pre USE_DICT USE_DICT false false input 0 s t (window_of dict) (len (window_of dict)))
      by (apply call_pre_intro; try done; destruct USE_DICT; elia).
    pose proof (compress_internal_ok _ _ _ _ _ _ _ _ _ _ Hp) as Hr. cbn zeta in Hr.
    rewrite N.sub_0_r in Hr. fold (max_size (len input)) in Hr.
    destruct (_ <? max_size _); [by rewrite Hr|].
    destruct Hr as ([[s' t'] n] & -> & block & Hl & Hbl & Ha & _). mstep. apply returns_ok. eauto.
Qed.

(** The dictionary an entry point uses: short ones are ignored, long ones cut
    to the window. *)
Definition dict_used (USE_DICT : bool) dict : bytes :=
  if USE_DICT && (len dict <? MINMATCH) then [] else window_of dict.

Lemma dict_used_suffix USE_DICT dict : exists P, dict = P ++ dict_used USE_DICT dict.
Proof. unfold dict_used. case_match; [|apply window_of_suffix]. exists dict. by rewrite app_nil_r. Qed.

Lemma compress_into_sink_with_dict_ok (USE_DICT : bool) input s dict :
  input_ok input -> sink_ok s -> len (sink_output s) <= isize_max -> len dict <= isize_max ->
  (USE_DICT = false -> dict = []) ->
  sink_call (dict_used USE_DICT dict) input s (compress_into_sink_with_dict USE_DICT input s dict).
Proof.
  intros. unfold compress_into_sink_with_dict, dict_used. case_match.
  - apply (compress_into_sink_body_ok false input s []); cbn; try done. lia.
  - by apply compress_into_sink_body_ok.
Qed.

(** A call that writes into a buffer from its start. *)
Definition buffer_call (D input output : bytes) (r : res CompressError (bytes * N)) : Prop :=
  if len output <? max_size (len input) then r = Err COutputTooSmall
  else returns r (fun '(output', n) =>
         length output' = length output /\ n <= len output /\
         block_of D input 0 (take (N.to_nat n) output')).

Lemma slice_sink_new {E} output :
  SliceSinkImpl.new (E:=E) output 0 = Ok {| sink_output := output; sink_pos := 0 |}.
Proof. unfold SliceSinkImpl.new. rewrite slice_ok by lia. done. Qed.

(** A sink written from position 0 holds the block at its start. *)
Lemma appended_start output block s' :
  appended {| sink_output := output; sink_pos := 0 |} block s' ->
  length (sink_output s') = length output /\ len block <= len output /\
  take (length block) (sink_output s') = block.
Proof.
  intros (Hw & Hp & Hl & Hs). unfold written, sink_ok in *. cbn in *.
  rewrite N.add_0_l in Hp. rewrite Hp in Hw, Hs. split_and!; [done|lia|].
  by rewrite Nat2N.id in Hw.
Qed.

Lemma sink_buffer_call D input output r :
  sink_call D input {| sink_output := output; sink_pos := 0 |} r ->
  buffer_call D input output ('(s, n) ← r; Ok (sink_output s, n)).
Proof.
  unfold sink_call, buffer_call. cbn [sink_output sink_pos]. rewrite N.sub_0_r.
  case_match; [by intros ->|]. intros ([s' n] & -> & block & <- & Hb & Ha). mstep. apply returns_ok.
  apply appended_start in Ha as (Hl & Hle & Ht). rewrite Nat2N.id, Ht. done.
Qed.

Lemma compress_into_ok input output :
  input_ok input -> len output <= isize_max ->
  buffer_call [] input output (compress_into input output).
Proof.
  intros Hi Ho. unfold compress_into. rewrite slice_sink_new. mstep. apply sink_buffer_call.
  apply (compress_into_sink_with_dict_ok false); try done; unfold sink_ok; cbn; lia.
Qed.

Lemma compress_into_with_dict_ok input output dict :
  input_ok input -> len output <= isize_max -> len dict <= isize_max ->
  buffer_call (dict_used true dict) input output (compress_into_with_dict input output dict).
Proof.
  intros Hi Ho Hd. unfold compress_into_with_dict. rewrite slice_sink_new. mstep. apply sink_buffer_call.
  apply (compress_into_sink_with_dict_ok true); try done; unfold sink_ok; cbn; lia.
Qed.
End contracts.

(** ** Reusable compressors *)

Section reusable.
Context `{T : Target} {n : N}.
Implicit Types (input output dict : bytes).

(** A call on a state: the new state satisfies the invariant on both
    outcomes. *)
Definition state_call {S} (inv : S -> Prop) (D input output : bytes)
  (r : res (S * CompressError) (S * bytes * N)) : Prop :=
  if len output <? max_size (len input)
  then exists s, r = Err (s, COutputTooSmall) /\ inv s
  else returns r (fun '(s, output', k) => inv s /\
         length output' = length output /\ k <= len output /\
         block_of D input 0 (take (N.to_nat k) output')).

(** The core loop on an empty sink. *)
Lemma internal_from_start (USE_DICT HAS_OFFSET READONLY NEAR : bool) {Tb} `{HashTableLaws Tb}
  input output (t : Tb) D iso :
  let s := {| sink_output := output; sink_pos := 0 |} in
  call_pre USE_DICT HAS_OFFSET READONLY NEAR input 0 s t D iso ->
  let r := compress_internal USE_DICT HAS_OFFSET READONLY NEAR input 0 s t D iso in
  if len output <? max_size (len input) then r = Err COutputTooSmall
  else returns r (fun '(s', t', k) => exists block, len block = k /\ block_of D input 0 block /\
         appended s block s' /\ table_post READONLY t t' (iso + len input)).
Proof.
  intros s Hpre. pose proof (compress_internal_ok _ _ _ _ _ _ _ _ _ _ Hpre) as Hr. cbn zeta in Hr.
  cbn [sink_output sink_pos s] in Hr. rewrite !N.sub_0_r in Hr. exact Hr.
Qed.

(** A call whose result only replaces part of the state. *)
Lemma state_call_of {A} D input output (r : res CompressError (SliceSink * A * N))
  (S : Type) (inv : S -> Prop) (s0 : S) (put : A -> S) (P : A -> Prop) :
  inv s0 -> (forall a, P a -> inv (put a)) ->
  (if len output <? max_size (len input) then r = Err COutputTooSmall
   else returns r (fun '(s', a, k) => exists block, len block = k /\ block_of D input 0 block /\
          appended {| sink_output := output; sink_pos := 0 |} block s' /\ P a)) ->
  state_call inv D input output
    ('(s', a, k) ← map_err (fun e => (s0, e)) r; Ok (put a, sink_output s', k)).
Proof.
  intros H0 Hput. unfold state_call. case_match.
  - intros ->. eexists. done.
  - intros ([[s' a] k] & -> & block & <- & Hbl & Ha & HP). mstep. apply returns_ok.
    apply appended_start in Ha as (Hl & Hle & Htk). rewrite Nat2N.id, Htk. auto.
Qed.

(** The plain table between calls: its entries lie before the stream
    offset. *)
Definition plain_inv (st : HashTableU32 n * N) : Prop :=
  table_ok st.1 /\ below st.1 (N.max 1 st.2).

Lemma u32_usize : u32_max <= usize_max.
Proof.
  unfold u32_max, usize_max, usize_bits. destruct target_width; [lia|].
  change (2 ^ 32) with 4294967296. change (2 ^ 64) with 18446744073709551616. lia.
Qed.

Lemma prepare_plain_table_ok (t : HashTableU32 n) off k t' off' iso :
  plain_inv (t, off) -> prepare_plain_table t off k = (t', off', iso) ->
  table_ok t' /\ below t' (N.max 1 iso) /\ iso + k <= off' /\
  (0 < iso -> k <= EPOCH_THRESHOLD /\ iso + k <= usize_max).
Proof.
  intros [Ht Hb]. destruct (clear_law t Ht) as [Hc1 Hc2]. cbn [fst snd] in Hb.
  unfold prepare_plain_table. destruct (N.ltb_spec EPOCH_THRESHOLD k) as [|Hk].
  { intros [= <- <- <-]. split_and!; [done|done|lia|lia]. }
  destruct (checked_add off k) as [v|] eqn:H1; cbn [mbind option_bind].
  1: destruct (checked_add v _) as [w|] eqn:H2; cbn [mbind option_bind].
  1: destruct (N.leb_spec w u32_max); cbn [mbind option_bind].
  2-4: intros [= <- <- <-]; split_and!; [done|done|lia|lia].
  apply checked_add_inv in H1 as [-> ?]. apply checked_add_inv in H2 as [-> ?].
  intros [= <- <- <-]. split_and!; [done|done|lia|]. intros _. split; [done|lia].
Qed.

Lemma compress_plain_table_ok (t : HashTableU32 n) off input output :
  plain_inv (t, off) -> input_ok input -> len output <= isize_max ->
  state_call plain_inv [] input output (compress_plain_table t off input output).
Proof.
  intros Hinv Hi Ho. pose proof Hi as [Hi1 Hi2]. unfold compress_plain_table.
  destruct (prepare_plain_table t off (len input)) as [[t1 off1] iso] eqn:Hp.
  destruct (prepare_plain_table_ok _ _ _ _ _ _ Hinv Hp) as (Ht & Hb & Hoff & Hiso).
  rewrite slice_sink_new. mstep. set (s0 := {| sink_output := output; sink_pos := 0 |}).
  assert (Hs0 : sink_ok s0) by (unfold sink_ok; cbn; lia).
  set (call := if 0 <? iso then _ else _).
  assert (Hcall : exists HO NE, call = compress_internal false HO false NE input 0 s0 t1 [] iso /\
    call_pre false HO false NE input 0 s0 t1 [] iso).
  { unfold EPOCH_THRESHOLD in Hiso. subst call. destruct (N.ltb_spec 0 iso) as [Hpos|Hz].
    - exists true, true. split; [done|]. destruct (Hiso Hpos).
      apply call_pre_intro; try done; cbn [length]; try elia.
    - replace iso with 0 in * by lia. destruct (N.leb_spec (len input) (MAX_DISTANCE + 1));
        eexists false, _; (split; [done|]); apply call_pre_intro; try done; cbn [length]; try elia. }
  destruct Hcall as (HO & NE & -> & Hpre).
  apply (state_call_of _ _ _ _ _ _ (t1, off1) (fun t' => (t', off1))
    (fun t' => table_ok t' /\ below t' (N.max 1 (iso + len input)))).
  { split; [done|]. eapply below_mono; [done|cbn; lia]. }
  { intros t' [? ?]. split; [done|]. eapply below_mono; [done|cbn; lia]. }
  exact (internal_from_start _ _ _ _ _ _ _ _ _ Hpre).
Qed.

(** The dictionary tables between calls. *)
Record dict_inv (dict : bytes) (st : tables (n:=n)) : Prop := {
  di_dict : len dict <= WINDOW_SIZE;
  di_table : table_ok st.1.1 /\ below st.1.1 st.2;
  di_pristine : table_ok st.1.2 /\ below st.1.2 (N.max 1 (len dict));
  di_base : 1 <= st.2;
  di_entries : assert_valid_entries n = true
}.

Lemma compress_dict_tables_ok t p base dict input output :
  dict_inv dict (t, p, base) -> input_ok input -> len output <= isize_max ->
  state_call (dict_inv dict) dict input output (compress_dict_tables t p base dict input output).
Proof.
  intros Hinv Hi Ho. pose proof Hinv as [Hd [Ht Hb] [Hp Hpb] Hb1 Hn]. cbn [fst snd] in *.
  pose proof Hi as [Hi1 Hi2].
  unfold compress_dict_tables. rewrite slice_sink_new. mstep.
  set (s0 := {| sink_output := output; sink_pos := 0 |}).
  assert (Hs0 : sink_ok s0) by (unfold sink_ok; cbn; lia).
  rewrite uadd_ok by elia. mstep.
  destruct ((len input <=? DICT_READONLY_LIMIT) && (len dict + len input <? u16_max)) eqn:Hro;
    [|destruct (N.ltb_spec (len dict + len input) u16_max) as [Htot|Htot]].
  - (* the pristine table, read-only *)
    apply andb_true_iff in Hro as [_ Htot%N.ltb_lt].
    apply (state_call_of _ _ _ _ _ _ (t, p, base) (fun p' => (t, p', base)) (fun p' => p' = p)); [done| |].
    { by intros p' ->. }
    assert (Hpre : call_pre true true true true input 0 s0 p dict (len dict)).
    { apply call_pre_intro; try done; try elia.
      eapply below_mono; [done|]. elia. }
    pose proof (internal_from_start _ _ _ _ _ _ _ _ _ Hpre) as Hr. cbn zeta in Hr.
    case_match; [done|]. eapply returns_mono; [exact Hr|].
    intros [[s' p'] k] (block & Hl & Hbl & Ha & [_ Hp']). eauto 10.
  - (* the main table from its base *)
    destruct (if (DICT_EPOCH_THRESHOLD <? len input) || (u16_max <? base + len input)
              then (HashTableU32U16Impl.clear t, 1) else (t, base)) as [t1 base1] eqn:Hclear.
    assert (H1 : table_ok t1 /\ below t1 base1 /\ 1 <= base1 /\ base1 + len input <= u16_max).
    { destruct (clear_law t Ht) as [Hc1 Hc2].
      destruct (N.ltb_spec DICT_EPOCH_THRESHOLD (len input)), (N.ltb_spec u16_max (base + len input));
        cbn [orb] in Hclear; injection Hclear as <- <-; split_and!; try done; elia. }
    clear Hclear. destruct H1 as (Ht1 & Htb1 & Hbase1 & Hsum).
    apply (state_call_of _ _ _ _ _ _ (t1, p, base1 + len input) (fun t' => (t', p, base1 + len input))
      (fun t' => table_ok t' /\ below t' (base1 + len input))).
    { split; cbn [fst snd]; try done; [split; [done|eapply below_mono; [done|lia]]|lia]. }
    { intros t2 Ht2. split; cbn [fst snd]; try done. lia. }
    pose proof (compress_with_dict_table_ok input s0 t1 p dict base1) as Hr. cbn zeta in Hr.
    cbn [sink_output sink_pos s0] in Hr. rewrite !N.sub_0_r in Hr. fold (max_size (len input)) in Hr.
    apply Hr; try done. eapply below_mono; [done|elia].
  - (* positions overflow 16 bits: a fresh 32-bit table *)
    destruct (new_table32_ok n Hn) as [Hn1 Hn2].
    destruct (init_dict_ok (E:=HashTableU32U16 n * HashTableU32U16 n * N * CompressError) _ dict Hn1 Hn2)
      as ([t2 d] & Heq & -> & Ht2 & Hb2). rewrite Heq. mstep.
    assert (Hwin : window_of dict = dict).
    { unfold window_of. destruct (N.ltb_spec WINDOW_SIZE (len dict)); [lia|done]. }
    rewrite Hwin in *.
    apply (state_call_of _ _ _ _ _ _ (t, p, base) (fun _ => (t, p, base)) (fun _ => True)); [done..|].
    assert (Hpre : call_pre true true false false input 0 s0 t2 dict (len dict))
      by (apply call_pre_intro; try done; elia).
    pose proof (internal_from_start _ _ _ _ _ _ _ _ _ Hpre) as Hr. cbn zeta in Hr.
    case_match; [done|]. eapply returns_mono; [exact Hr|].
    intros [[s' p'] k] (block & Hl & Hbl & Ha & _). eauto 10.
Qed.
End reusable.

(** ** Calls that allocate their output *)

Section allocating.
Context `{T : Target}.
Implicit Types (input output dict : bytes).

(** Room for the largest block. *)
Definition alloc_ok input : Prop := input_ok input /\ 20 + 110 * len input / 100 + 1024 <= isize_max.

Lemma alloc_max_size {E} input : alloc_ok input ->
  get_maximum_output_size (E:=E) (len input) = Ok (20 + 110 * len input / 100) /\
  max_size (len input) = 20 + 110 * len input / 100.
Proof.
  intros [[_ Hu] Hm]. pose proof usize_isize. rewrite get_maximum_output_size_ok by done.
  unfold max_size. rewrite N.min_l by lia. done.
Qed.

(** A block and the bounds decoding it needs. *)
Lemma block_of_buffer D input block : alloc_ok input -> block_of D input 0 block -> buffer_ok block.
Proof. intros [_ Hm] (_ & Hl & _). rewrite N.sub_0_r in Hl. unfold buffer_ok. lia. Qed.

(** An allocating call never fails. *)
Lemma alloc_state_call {S E} (inv : S -> Prop) D input (call : bytes -> res (S * CompressError) (S * bytes * N)) :
  alloc_ok input ->
  (forall output, len output <= isize_max -> state_call inv D input output (call output)) ->
  returns (E:=E)
    (max ← get_maximum_output_size (len input);
     _ ← assert (max <=? isize_max);
     '(s, out, k) ← unwrap (call (replicate (N.to_nat max) x00));
     Ok (s, take (N.to_nat k) out))
    (fun '(s, block) => inv s /\ block_of D input 0 block).
Proof.
  intros Ha Hcall. pose proof Ha as [_ Hm]. destruct (alloc_max_size (E:=E) input Ha) as [-> Hmax].
  mstep. unfold assert. bcase. mstep.
  set (out := replicate _ _). specialize (Hcall out ltac:(subst out; len_lia)).
  unfold state_call in Hcall. rewrite Hmax in Hcall.
  destruct (N.ltb_spec (len out) (20 + 110 * len input / 100)); [subst out; len_lia|].
  destruct Hcall as ([[s o] k] & -> & Hs & _ & _ & Hb). cbn [unwrap]. mstep. by apply returns_ok.
Qed.

Lemma compress_ok input : alloc_ok input -> returns (compress input) (block_of [] input 0).
Proof.
  intros Ha. pose proof Ha as [Hi Hm]. unfold compress.
  destruct (alloc_max_size (E:=CompressError) input Ha) as [-> Hmax]. mstep. unfold assert. bcase. mstep.
  set (out := replicate _ _).
  assert (Ho : len out <= isize_max) by (subst out; len_lia).
  pose proof (compress_into_ok input out Hi Ho) as Hc. unfold buffer_call in Hc. rewrite Hmax in Hc.
  destruct (N.ltb_spec (len out) (20 + 110 * len input / 100)); [subst out; len_lia|].
  destruct Hc as ([o k] & -> & _ & _ & Hb). cbn [unwrap]. mstep. by apply returns_ok.
Qed.

(** ** The structs *)

Definition compressor_inv {n} (c : CompressorRefN n) : Prop := plain_inv (cr_table c, cr_stream_offset c).

Lemma compressor_new_inv n : assert_valid_entries n = true ->
  compressor_inv (CompressorRefNImpl.new (n:=n)).
Proof. intros Hn. apply (new_table32_ok n Hn). Qed.

Lemma compressor_compress_into_ok {n} (c : CompressorRefN n) input output :
  compressor_inv c -> input_ok input -> len output <= isize_max ->
  state_call compressor_inv [] input output (CompressorRefNImpl.compress_into c input output).
Proof.
  intros Hc Hi Ho. pose proof (compress_plain_table_ok _ _ input output Hc Hi Ho) as Hs.
  unfold CompressorRefNImpl.compress_into. revert Hs. unfold state_call. case_match.
  - intros ([t o] & -> & Hinv). eexists. split; [done|exact Hinv].
  - intros ([[[t o] out] k] & -> & Hinv & Hrest). mstep. apply returns_ok. split; [exact Hinv|done].
Qed.

Lemma compressor_compress_ok {n} (c : CompressorRefN n) input :
  compressor_inv c -> alloc_ok input ->
  returns (CompressorRefNImpl.compress c input)
    (fun '(c', block) => compressor_inv c' /\ block_of [] input 0 block).
Proof.
  intros Hc Ha. apply alloc_state_call; [done|]. intros. apply compressor_compress_into_ok; [done|apply Ha|done].
Qed.

(** The borrowing and the owning dictionary compressor share their calls. *)
Definition dict_compressor_inv {n} dict (c : DictCompressorN n) : Prop :=
  dn_dict c = dict /\ dict_inv dict (dn_table c, dn_pristine c, dn_main_base c).

Lemma trimmed_dict dict :
  (if len dict <? MINMATCH then []
   else if WINDOW_SIZE <? len dict then drop (N.to_nat (len dict - WINDOW_SIZE)) dict else dict)
  = dict_used true dict.
Proof. done. Qed.

Lemma window_of_used dict : window_of (dict_used true dict) = dict_used true dict /\
  len (dict_used true dict) <= WINDOW_SIZE.
Proof.
  assert (Hl : len (dict_used true dict) <= WINDOW_SIZE).
  { unfold dict_used. cbn [andb]. case_match; [cbn; unfold WINDOW_SIZE; lia|].
    rewrite length_window_of. lia. }
  split; [|done]. unfold window_of at 1. destruct (N.ltb_spec WINDOW_SIZE (len (dict_used true dict)));
    [lia|done].
Qed.

Lemma dict_compressor_new_ok n dict : assert_valid_entries n = true ->
  returns (DictCompressorNImpl.new (n:=n) dict) (dict_compressor_inv (dict_used true dict)).
Proof.
  intros Hn. unfold DictCompressorNImpl.new. rewrite trimmed_dict.
  destruct (new_table16_ok n Hn) as [Ht Hb]. destruct (window_of_used dict) as [Hw Hl].
  destruct (init_dict_ok (E:=CompressError) _ (dict_used true dict) Ht Hb) as ([p d] & -> & -> & Hp & Hpb).
  mstep. apply returns_ok. rewrite Hw in Hpb. split; [done|]. split; cbn [fst snd]; try done.
Qed.

Lemma dict_compressor_compress_into_ok {n} dict (c : DictCompressorN n) input output :
  dict_compressor_inv dict c -> input_ok input -> len output <= isize_max ->
  state_call (dict_compressor_inv dict) dict input output
    (DictCompressorNImpl.compress_into c input output).
Proof.
  intros [<- Hc] Hi Ho. pose proof (compress_dict_tables_ok _ _ _ _ input output Hc Hi Ho) as Hs.
  unfold DictCompressorNImpl.compress_into. revert Hs. unfold state_call. case_match.
  - intros ([[t p] b] & -> & Hinv). eexists. split; [done|]. split; [done|exact Hinv].
  - intros ([[[[t p] b] out] k] & -> & Hinv & Hrest). mstep. apply returns_ok.
    split; [|exact Hrest]. split; [done|exact Hinv].
Qed.

Lemma dict_compressor_compress_ok {n} dict (c : DictCompressorN n) input :
  dict_compressor_inv dict c -> alloc_ok input ->
  returns (DictCompressorNImpl.compress c input)
    (fun '(c', block) => dict_compressor_inv dict c' /\ block_of dict input 0 block).
Proof.
  intros Hc Ha. apply alloc_state_call; [done|]. intros. apply dict_compressor_compress_into_ok; [done|apply Ha|done].
Qed.
End allocating.
