(* ===== verification/EncoderTheorems.v ===== *)
(** * Properties of crates/encode

    The round trips through the decoder, the contracts of the calls, the
    format's end rules and the primitives they rest on. *)

From S2P Require Import Prelude BlockSpec Core Primitives Decompress DecompressProofs DecompressSpec DecoderTheorems Sequences HashTable Compress CompressProofs DictTableProofs EncoderSpec.

(** ** Sample inputs *)

(** The target of the instances; the theorems quantify over targets. *)
#[local] Existing Instance x86_64.

Definition text : bytes := bytes_of [97; 98; 99; 97; 98; 99; 97; 98; 99; 97; 98; 99; 97; 98; 99; 97; 98;
  99; 97; 98; 99; 97; 98; 99; 120; 121; 122; 119; 120; 121; 122].

Lemma text_alloc_ok : alloc_ok text.
Proof. split; [split|]; concrete. Defined.

(** Decompressing a block the compressor wrote. *)
Lemma decompress_block_of `{T : Target} input block : alloc_ok input -> block_of [] input 0 block ->
  Decompress.decompress block (len input) = Ok input.
Proof.
  intros Ha Hb. pose proof (block_of_buffer _ _ _ Ha Hb) as Hbb. destruct Hb as (Hd & _).
  destruct Ha as [[Hi _] _]. change (2 ^ 18) with 262144 in Hi.
  pose proof (append_post_ok false block [] (len input) [] Hbb ltac:(cbn [length]; lia)) as H.
  unfold Decompress.decompress, decompress_append.
  rewrite (proj2 (append_post_iff _ _ _ _ _ input H)); [done|]. split; [|lia].
  cbn [app] in Hd. change (N.to_nat 0) with 0%nat in Hd. by rewrite take_0, drop_0, app_nil_r in Hd || exact Hd.
Qed.

Lemma block_of_decode D input block : block_of D input 0 block -> block_decode D block = Some input.
Proof.
  intros (Hd & _). change (N.to_nat 0) with 0%nat in Hd. by rewrite take_0, app_nil_r, drop_0 in Hd.
Qed.

(** C2: [compress] followed by [decompress] is the identity on every input, on
    every target: the compressor neither panics nor fails, and the decoder
    recovers the input from its output. *)
Theorem compress_decompress `{T : Target} input :
  alloc_ok input ->
  exists block, compress input = Ok block /\ len block <= 20 + 110 * len input / 100 /\
    Decompress.decompress block (len input) = Ok input.
Proof.
  intros Ha. destruct (compress_ok input Ha) as (block & Hc & Hb). exists block.
  split; [done|]. split; [|by apply decompress_block_of].
  destruct Hb as (_ & Hl & _). by rewrite N.sub_0_r in Hl.
Qed.

Lemma compress_decompress_witness :
  exists block, compress text = Ok block /\ len block <= 54 /\
    Decompress.decompress block 31 = Ok text.
Proof. apply (compress_decompress (T:=x86_64) text text_alloc_ok). Defined.

(** C20: a call into a caller's buffer either reports [COutputTooSmall], exactly
    when the buffer is smaller than the maximum size, or writes a block that
    [decompress_into] decodes to the input in any buffer that holds it. *)
Theorem compress_into_correct `{T : Target} input output buffer :
  input_ok input -> len output + 1024 <= isize_max -> buffer_ok buffer -> len input <= len buffer ->
  if len output <? max_size (len input)
  then compress_into input output = Err COutputTooSmall
  else exists output' n buffer',
    compress_into input output = Ok (output', n) /\ length output' = length output /\
    decompress_into (take (N.to_nat n) output') buffer = Ok (buffer', len input) /\
    take (length input) buffer' = input.
Proof.
  intros Hi Ho Hbuf Hle. pose proof (compress_into_ok input output Hi ltac:(lia)) as Hc.
  unfold buffer_call in Hc. case_match; [done|]. destruct Hc as ([o n] & -> & Hl & Hn & Hb).
  assert (Hbk : buffer_ok (take (N.to_nat n) o)) by (unfold buffer_ok; len_lia).
  pose proof (decompress_into_post _ buffer Hbk Hbuf) as Hd.
  destruct (proj2 (entry_post_iff _ _ _ _ input Hd)) as (b & Hdec & Ht).
  { split; [by apply block_of_decode|done]. }
  by exists o, n, b.
Qed.

Lemma compress_into_correct_witness :
  exists output' n buffer',
    compress_into text (replicate 60 x00) = Ok (output', n) /\ length output' = 60%nat /\
    decompress_into (take (N.to_nat n) output') (replicate 40 x00) = Ok (buffer', 31) /\
    take 31 buffer' = text.
Proof.
  apply (compress_into_correct (T:=x86_64) text (replicate 60 x00) (replicate 40 x00));
    [split; concrete|concrete..].
Defined.

(** C18: compression and decompression with one dictionary are inverse, for a
    dictionary of any length: short ones are ignored by the compressor, long
    ones cut to the window, and the decoder may be given the whole. *)
Theorem dict_round_trip `{T : Target} input output dict buffer :
  input_ok input -> len output + 1024 <= isize_max -> len dict <= isize_max ->
  max_size (len input) <= len output -> buffer_ok buffer -> len input <= len buffer ->
  exists output' n buffer',
    compress_into_with_dict input output dict = Ok (output', n) /\
    decompress_into_with_dict (take (N.to_nat n) output') buffer dict = Ok (buffer', len input) /\
    take (length input) buffer' = input.
Proof.
  intros Hi Ho Hdict Hmax Hbuf Hle.
  pose proof (compress_into_with_dict_ok input output dict Hi ltac:(lia) Hdict) as Hc.
  unfold buffer_call in Hc. destruct (N.ltb_spec (len output) (max_size (len input))); [lia|].
  destruct Hc as ([o n] & -> & Hl & Hn & Hb).
  assert (Hbk : buffer_ok (take (N.to_nat n) o)) by (unfold buffer_ok; len_lia).
  pose proof (decompress_into_with_dict_post _ buffer dict Hbk Hbuf) as Hd.
  destruct (proj2 (entry_post_iff _ _ _ _ input Hd)) as (b & Hdec & Ht); [|by exists o, n, b].
  split; [|done]. destruct (dict_used_suffix true dict) as [P HP]. rewrite HP.
  by apply block_decode_app_prefix, block_of_decode.
Qed.

Lemma dict_round_trip_witness :
  exists output' n buffer',
    compress_into_with_dict text (replicate 54 x00) (take 20 text) = Ok (output', n) /\
    decompress_into_with_dict (take (N.to_nat n) output') (replicate 31 x00) (take 20 text)
      = Ok (buffer', 31) /\
    take 31 buffer' = text.
Proof.
  apply (dict_round_trip (T:=x86_64) text (replicate 54 x00) (take 20 text) (replicate 31 x00));
    [split; concrete|concrete..].
Defined.

(** C9: the contract of the core loop, for every table type, every mode and
    every position in a stream: under the obligations the source asserts, the
    call fails exactly when the output lacks the maximum size; otherwise it
    appends a block to the sink that decodes, after the dictionary and the
    input before [input_pos], to the rest of the input.  The table's entries
    stay inside the stream, and a read-only table is unchanged. *)
Theorem compress_internal_correct `{T : Target} {Tb} `{HashTableLaws Tb}
  (USE_DICT HAS_OFFSET READONLY NEAR : bool) input input_pos s (table : Tb) ext_dict iso :
  call_pre USE_DICT HAS_OFFSET READONLY NEAR input input_pos s table ext_dict iso ->
  let r := compress_internal USE_DICT HAS_OFFSET READONLY NEAR input input_pos s table ext_dict iso in
  if len (sink_output s) - sink_pos s <? max_size (len input - input_pos)
  then r = Err COutputTooSmall
  else exists s' table' block,
    r = Ok (s', table', len block) /\
    written s' = written s ++ block /\ sink_ok s' /\
    block_decode (ext_dict ++ take (N.to_nat input_pos) input) block
      = Some (drop (N.to_nat input_pos) input) /\
    table_ok table' /\
    (if READONLY then table' = table else below table' (N.max 1 (iso + len input))).
Proof.
  intros Hp. pose proof (compress_internal_ok _ _ _ _ _ _ _ _ _ _ Hp) as Hr. cbn zeta in *.
  fold (max_size (len input - input_pos)) in Hr. case_match; [done|].
  destruct Hr as ([[s' t'] n] & -> & block & <- & (Hd & _) & (Hw & _ & _ & Hs) & Ht).
  exists s', t', block. split_and!; try done; apply Ht.
Qed.

(** A linked block: the second half of the text, with the first half as
    history and stream offset 7. *)
Definition linked_sink : SliceSink := {| sink_output := replicate 60 x01; sink_pos := 3 |}.

Lemma compress_internal_correct_witness :
  exists s' table' block,
    compress_internal false true false false text 12 linked_sink
      (HashTableU32Impl.new (n:=2048)) [] 7 = Ok (s', table', len block) /\
    written s' = [x01; x01; x01] ++ block /\ sink_ok s' /\
    block_decode ([] ++ take 12 text) block = Some (drop 12 text) /\
    table_ok table' /\ below table' (N.max 1 (7 + len text)).
Proof.
  apply (compress_internal_correct (T:=x86_64) false true false false text 12 linked_sink
    (HashTableU32Impl.new (n:=2048)) [] 7).
  split; try concrete; try discriminate; try (intros _; reflexivity).
  split; [split; concrete|]. apply Forall_replicate. concrete.
Defined.

(** States a reusable compressor can be in: any sequence of calls, with any
    inputs and outputs, failing ones included. *)
Inductive compressor_reachable `{T : Target} {n : N} : CompressorRefN n -> Prop :=
| cr_new : compressor_reachable CompressorRefNImpl.new
| cr_ok c input output c' output' k :
    compressor_reachable c -> input_ok input -> len output <= isize_max ->
    CompressorRefNImpl.compress_into c input output = Ok (c', output', k) -> compressor_reachable c'
| cr_err c input output c' e :
    compressor_reachable c -> input_ok input -> len output <= isize_max ->
    CompressorRefNImpl.compress_into c input output = Err (c', e) -> compressor_reachable c'.

Lemma compressor_reachable_inv `{T : Target} n (c : CompressorRefN n) :
  assert_valid_entries n = true -> compressor_reachable c -> compressor_inv c.
Proof.
  intros Hn. induction 1 as [|c input output c' output' k _ IH Hi Ho Hc|c input output c' e _ IH Hi Ho Hc].
  - by apply compressor_new_inv.
  - pose proof (compressor_compress_into_ok c input output IH Hi Ho) as Hs. unfold state_call in Hs.
    case_match; [by destruct Hs as (? & Hs & _); rewrite Hs in Hc|].
    destruct Hs as ([[? ?] ?] & Hs & Hinv & _). rewrite Hs in Hc. by injection Hc as <- <- <-.
  - pose proof (compressor_compress_into_ok c input output IH Hi Ho) as Hs. unfold state_call in Hs.
    case_match.
    + destruct Hs as (? & Hs & Hinv). rewrite Hs in Hc. by injection Hc as <- <-.
    + destruct Hs as ([[? ?] ?] & Hs & _). by rewrite Hs in Hc.
Qed.

(** C10: a reusable compressor with a table of any valid size is correct after
    any history of calls: stale entries of earlier inputs in the reused table
    never reach the output, which decodes to the current input alone. *)
Theorem compressor_reuse `{T : Target} n (c : CompressorRefN n) input :
  assert_valid_entries n = true -> compressor_reachable c -> alloc_ok input ->
  exists c' block, CompressorRefNImpl.compress c input = Ok (c', block) /\
    compressor_inv c' /\ Decompress.decompress block (len input) = Ok input.
Proof.
  intros Hn Hc%compressor_reachable_inv Ha; [|done].
  destruct (compressor_compress_ok c input Hc Ha) as ([c' block] & He & Hinv & Hb).
  exists c', block. split_and!; [done..|]. by apply decompress_block_of.
Qed.

Lemma compressor_reuse_witness :
  exists c c' block,
    CompressorRefNImpl.compress_into (CompressorRefNImpl.new (n:=256)) text (replicate 60 x00)
      = Ok c /\
    CompressorRefNImpl.compress (c.1.1) (drop 1 text) = Ok (c', block) /\
    compressor_inv c' /\ Decompress.decompress block 30 = Ok (drop 1 text).
Proof.
  assert (Hi : input_ok text) by (split; concrete).
  pose proof (compressor_compress_into_ok (T:=x86_64) (CompressorRefNImpl.new (n:=256)) text
    (replicate 60 x00) (compressor_new_inv (T:=x86_64) 256 ltac:(concrete)) Hi ltac:(concrete)) as Hs.
  destruct Hs as ([[c out] k] & Hc & _).
  destruct (compressor_reuse (T:=x86_64) 256 c (drop 1 text)) as (c' & block & H1 & H2 & H3).
  - concrete.
  - eapply cr_ok; [apply cr_new|exact Hi| |exact Hc]. concrete.
  - split; [split|]; concrete.
  - exists (c, out, k), c', block. auto.
Defined.

(** The states of a dictionary compressor after any sequence of calls. *)
Inductive dict_compressor_reachable `{T : Target} {n : N} (dict : bytes) : DictCompressorN n -> Prop :=
| dcr_new c : DictCompressorNImpl.new dict = Ok c -> dict_compressor_reachable dict c
| dcr_ok c input output c' output' k :
    dict_compressor_reachable dict c -> input_ok input -> len output <= isize_max ->
    DictCompressorNImpl.compress_into c input output = Ok (c', output', k) ->
    dict_compressor_reachable dict c'
| dcr_err c input output c' e :
    dict_compressor_reachable dict c -> input_ok input -> len output <= isize_max ->
    DictCompressorNImpl.compress_into c input output = Err (c', e) ->
    dict_compressor_reachable dict c'.

Lemma dict_compressor_reachable_inv `{T : Target} n dict (c : DictCompressorN n) :
  assert_valid_entries n = true -> dict_compressor_reachable dict c ->
  dict_compressor_inv (dict_used true dict) c.
Proof.
  intros Hn. induction 1 as [c Hc|c input output c' output' k _ IH Hi Ho Hc
    |c input output c' e _ IH Hi Ho Hc].
  - destruct (dict_compressor_new_ok n dict Hn) as (c' & Hc' & Hinv). rewrite Hc' in Hc.
    by injection Hc as <-.
  - pose proof (dict_compressor_compress_into_ok _ c input output IH Hi Ho) as Hs. unfold state_call in Hs.
    case_match; [by destruct Hs as (? & Hs & _); rewrite Hs in Hc|].
    destruct Hs as ([[? ?] ?] & Hs & Hinv & _). rewrite Hs in Hc. by injection Hc as <- <- <-.
  - pose proof (dict_compressor_compress_into_ok _ c input output IH Hi Ho) as Hs. unfold state_call in Hs.
    case_match.
    + destruct Hs as (? & Hs & Hinv). rewrite Hs in Hc. by injection Hc as <- <-.
    + destruct Hs as ([[? ?] ?] & Hs & _). by rewrite Hs in Hc.
Qed.

(** C11: reuse is as safe for the dictionary compressor, whose small inputs share the
    pristine table, whose middle ones reuse the main table above a moving base,
    and whose large ones take a fresh 32-bit table. *)
Theorem dict_compressor_reuse `{T : Target} n dict (c : DictCompressorN n) input :
  assert_valid_entries n = true -> dict_compressor_reachable dict c -> alloc_ok input ->
  exists c' block, DictCompressorNImpl.compress c input = Ok (c', block) /\
    dict_compressor_inv (dict_used true dict) c' /\
    DecompressorImpl.decompress (DecompressorImpl.with_dict dict) block (len input) = Ok input.
Proof.
  intros Hn Hc%dict_compressor_reachable_inv Ha; [|done].
  destruct (dict_compressor_compress_ok _ c input Hc Ha) as ([c' block] & He & Hinv & Hb).
  exists c', block. split_and!; [done..|].
  pose proof (block_of_buffer _ _ _ Ha Hb) as Hbb. pose proof Ha as [[Hi _] _].
  change (2 ^ 18) with 262144 in Hi.
  assert (Hd : block_decode dict block = Some input).
  { destruct (dict_used_suffix true dict) as [P HP]. rewrite HP at 1.
    by apply block_decode_app_prefix, block_of_decode. }
  pose proof (append_post_ok true block [] (len input) dict Hbb ltac:(cbn [length]; lia)) as H.
  unfold DecompressorImpl.decompress, DecompressorRefImpl.decompress, DecompressorRefImpl.decompress_append.
  cbn [DecompressorImpl.with_dict DecompressorRefImpl.with_dict d_dict dr_dict].
  rewrite (proj2 (append_post_iff _ _ _ _ _ input H)); [done|]. split; [done|lia].
Qed.

Lemma dict_compressor_reuse_witness :
  exists c c' block,
    DictCompressorNImpl.new (n:=256) (take 20 text) = Ok c /\
    DictCompressorNImpl.compress c text = Ok (c', block) /\
    dict_compressor_inv (dict_used true (take 20 text)) c' /\
    DecompressorImpl.decompress (DecompressorImpl.with_dict (take 20 text)) block 31 = Ok text.
Proof.
  destruct (dict_compressor_new_ok (T:=x86_64) 256 (take 20 text) ltac:(concrete)) as (c & Hc & _).
  destruct (dict_compressor_reuse (T:=x86_64) 256 (take 20 text) c text) as (c' & block & H1 & H2 & H3).
  - concrete.
  - by apply dcr_new.
  - apply text_alloc_ok.
  - exists c, c', block. auto.
Defined.

(** C23: a written block obeys the end rules of the format: it is a list of
    sequences and a final literal run, every offset is within 65535 and the
    history, and if it has a match the last five bytes are literals and the
    last match starts at least twelve bytes before the end. *)
Theorem compress_end_rules `{T : Target} input output output' n :
  input_ok input -> len output <= isize_max -> compress_into input output = Ok (output', n) ->
  exists ss last, take (N.to_nat n) output' = encode_block ss last /\ seqs_valid [] ss /\
    apply_seqs [] ss ++ last = input /\ end_rules ss last.
Proof.
  intros Hi Ho Hc. pose proof (compress_into_ok input output Hi Ho) as H. unfold buffer_call in H.
  case_match; [congruence|]. destruct H as ([o k] & He & _ & _ & _ & _ & Hb). rewrite He in Hc.
  injection Hc as <- <-. change (N.to_nat 0) with 0%nat in Hb. by rewrite take_0 in Hb.
Qed.

Lemma compress_end_rules_witness :
  exists output' n ss last, compress_into text (replicate 54 x00) = Ok (output', n) /\
    take (N.to_nat n) output' = encode_block ss last /\ seqs_valid [] ss /\
    apply_seqs [] ss ++ last = text /\ end_rules ss last.
Proof.
  destruct (compress_into text (replicate 54 x00)) as [[o n]|e| |] eqn:E;
    [|by vm_compute in E..].
  destruct (compress_end_rules (T:=x86_64) text (replicate 54 x00) o n) as (ss & last & H);
    [split; concrete|concrete|exact E|].
  exists o, n, ss, last. split; [reflexivity|exact H].
Defined.

(** C32: the word-at-a-time match counter returns the length of the common
    prefix of the two slices, on either endianness, and advances the position
    by it. *)
Theorem count_same_bytes_correct `{T : Target} input cur source candidate end_offset :
  cur + end_offset <= len input -> candidate <= len source ->
  count_same_bytes (E:=CompressError) input cur source candidate end_offset =
    let n := common_prefix (sub input cur (len input - end_offset - cur))
                           (drop (N.to_nat candidate) source) in
    Ok (cur + n, n).
Proof. apply count_same_bytes_ok. Qed.

Lemma count_same_bytes_correct_witness :
  count_same_bytes (T:={| target_width := W64; target_big_endian := true; target_avx := false |})
    (E:=CompressError) text 3 text 0 6 = Ok (24, 21).
Proof.
  etrans; [apply (count_same_bytes_correct
    (T:={| target_width := W64; target_big_endian := true; target_avx := false |})
    text 3 text 0 6); concrete|]. concrete.
Defined.

Lemma read_integer_encode `{T : Target} n r :
  len (encode_ext n ++ r) + 1024 <= isize_max -> n <= usize_max ->
  read_integer (encode_ext n ++ r) 0 = Ok (n, len (encode_ext n)).
Proof.
  intros Hl Hn. unfold read_integer, read_integer_bounded.
  destruct (read_integer_loop_complete (S (length (encode_ext n ++ r))) (encode_ext n ++ r) 0 0 usize_max n r)
    as (ip' & -> & Hr & Hip); [apply read_ext_encode|lia..|].
  do 2 f_equal. apply (f_equal length) in Hr. rewrite length_drop, length_app in Hr.
  autorewrite with lz4_len in *. lia.
Qed.

Lemma sink_push_ok `{T : Target} {E} (s : SliceSink) b : sink_pos s < len (sink_output s) ->
  returns (E:=E) (push s b) (fun s' => written s' = written s ++ [b] /\
    sink_pos s' = sink_pos s + 1 /\ length (sink_output s') = length (sink_output s)).
Proof.
  intros H. cbn [push SliceSink_Sink]. unfold SliceSinkImpl.push.
  rewrite write_at_ok by (cbn [length]; lia). mstep. apply returns_ok. cbn [sink_output sink_pos].
  split_and!; [|done|apply length_splice; cbn [length]; lia].
  unfold written. cbn [sink_output sink_pos].
  replace (sink_pos s + 1) with (sink_pos s + len [b]) by done. apply take_splice. cbn [length]. lia.
Qed.

Lemma write_integer_loop_ok `{T : Target} {E} fuel (s : SliceSink) n :
  sink_pos s + len (encode_ext n) <= len (sink_output s) -> (N.to_nat (n / 255) < fuel)%nat ->
  returns (E:=E) (write_integer_loop fuel s n) (fun s' => written s' = written s ++ encode_ext n).
Proof.
  revert s n. induction fuel as [|fuel IH]; intros s n Hl Hf; [lia|]. cbn [write_integer_loop].
  rewrite length_encode_ext in Hl. unfold push_byte. destruct (N.leb_spec 255 n).
  - apply returns_bind. eapply returns_mono; [apply sink_push_ok; lia|]. intros s1 (Hw & Hp & Hl1).
    eapply returns_mono; [apply IH; [rewrite length_encode_ext|]; lia|]. intros s2 ->.
    rewrite Hw, <-app_assoc. f_equal. cbn [app]. unfold encode_ext.
    replace (N.to_nat (n / 255)) with (S (N.to_nat ((n - 255) / 255))) by lia.
    cbn [replicate app]. do 3 f_equal. f_equal. lia.
  - eapply returns_mono; [apply sink_push_ok; lia|]. intros s1 (Hw & _ & _). rewrite Hw.
    unfold encode_ext. by rewrite N.div_small, N.mod_small by lia.
Qed.

(** An integer written by the compressor is read back by the decoder,
    whatever bytes follow it. *)
Theorem write_read_integer `{T : Target} (s : SliceSink) n rest :
  sink_pos s + (n / 255 + 1) <= len (sink_output s) -> n <= usize_max ->
  n / 255 + 1 + len rest + 1024 <= isize_max ->
  exists s' enc, write_integer (E:=CompressError) s n = Ok s' /\ written s' = written s ++ enc /\
    read_integer (enc ++ rest) 0 = Ok (n, len enc).
Proof.
  intros Hl Hn Hr. pose proof (length_encode_ext n) as He.
  destruct (write_integer_loop_ok (E:=CompressError) (S (N.to_nat (n / 255))) s n) as (s' & Hs & Hw); [lia..|].
  exists s', (encode_ext n). split_and!; [done..|]. apply read_integer_encode; [|done]. len_lia.
Qed.

Lemma write_read_integer_witness :
  exists s' enc, write_integer (E:=CompressError) {| sink_output := replicate 5 x00; sink_pos := 1 |} 600
      = Ok s' /\ written s' = [x00] ++ enc /\ read_integer (enc ++ [x07]) 0 = Ok (600, len enc).
Proof.
  apply (write_read_integer (T:=x86_64) {| sink_output := replicate 5 x00; sink_pos := 1 |} 600 [x07]); concrete.
Defined.

(** Both paths of [emit_sequence], the 19-byte store that over-copies the
    literals and the exact one, write the same bytes: the format's encoding of
    the sequence, and leave the rest of the window untouched in length. *)
Theorem emit_sequence_correct `{T : Target} w input literal_start lit_len offset match_len :
  literal_start + lit_len <= len input ->
  let s := {| seq_lit := sub input literal_start lit_len; seq_off := offset;
              seq_len := MINMATCH + match_len |} in
  len (encode_seq s) <= len (w_rest w) ->
  exists w', emit_sequence (E:=CompressError) w input literal_start lit_len offset match_len = Ok w' /\
    w_done w' = w_done w ++ encode_seq s /\
    (length (encode_seq s) + length (w_rest w') = length (w_rest w))%nat.
Proof.
  intros Hl s Hr. destruct (emit_sequence_ok (E:=CompressError) w input literal_start lit_len offset match_len Hl Hr)
    as (w' & He & Hw & Hlen). by exists w'.
Qed.

Lemma emit_sequence_correct_witness :
  exists w', emit_sequence (E:=CompressError) {| w_done := []; w_rest := replicate 25 x00 |} text 2 7 3 11
      = Ok w' /\
    w_done w' = [] ++ encode_seq {| seq_lit := sub text 2 7; seq_off := 3; seq_len := MINMATCH + 11 |} /\
    (length (encode_seq {| seq_lit := sub text 2 7; seq_off := 3; seq_len := MINMATCH + 11 |})
     + length (w_rest w') = 25)%nat.
Proof.
  apply (emit_sequence_correct (T:=x86_64) {| w_done := []; w_rest := replicate 25 x00 |} text 2 7 3 11);
    concrete.
Defined.
