(* ===== verification/FrameHeader.v ===== *)
(** * Frame errors and headers ([src/frame/mod.rs], [src/frame/header.rs])

    The error type and its conversions to and from [io::Error]; the frame
    descriptor and the block headers, written and parsed byte by byte.  The
    checksum ([twox_hash::XxHash32] with seed 0) is a parameter. *)

From S2P Require Import Prelude Core.

(** ** Errors *)

(** The kinds of [std::io::ErrorKind] that the frame code names, and the
    others. *)
Inductive ErrorKind :=
| UnexpectedEof | WriteZero | Interrupted | InvalidData | InvalidInput | Other | OtherKind (k : N).

(** [io::Error] is a kind, with or without a plain message ([Simple]), or a kind
    with a boxed error of the frame module. *)
Inductive Error :=
| CompressionError (e : CompressError)
| DecompressionError (e : DecompressError)
| IoErr (e : IoError)
| UnsupportedBlocksize (b : N)
| UnsupportedVersion (v : N)
| WrongMagicNumber
| ReservedBitsSet
| InvalidBlockInfo
| BlockTooBig
| HeaderChecksumError
| BlockChecksumError
| ContentChecksumError
| SkippableFrame (n : N)
| DictionaryNotSupported
| DictionaryRequired
| DictionaryRequiresIndependentBlocks
| DictIdMismatch (expected actual : N)
| DecompressedSizeLimit (limit actual : N)
| ContentLengthError (expected actual : N)
with IoError :=
| Simple (k : ErrorKind)
| Custom (k : ErrorKind) (e : Error).

(** [From<Error> for io::Error] *)
Definition io_of_error (e : Error) : IoError :=
  match e with
  | IoErr e => e
  | CompressionError _ | DecompressionError _ | SkippableFrame _ | DictionaryNotSupported
  | DictionaryRequired | DecompressedSizeLimit _ _ | DictIdMismatch _ _ => Custom Other e
  | DictionaryRequiresIndependentBlocks => Custom InvalidInput e
  | WrongMagicNumber | UnsupportedBlocksize _ | UnsupportedVersion _ | ReservedBitsSet
  | InvalidBlockInfo | BlockTooBig | HeaderChecksumError | ContentChecksumError
  | BlockChecksumError | ContentLengthError _ _ => Custom InvalidData e
  end.

(** [From<io::Error> for Error] *)
Definition error_of_io (e : IoError) : Error :=
  match e with Custom _ e => e | Simple k => IoErr (Simple k) end.

(** ** Constants *)

Definition FLG_RESERVED_MASK : N := 2.
Definition FLG_VERSION_MASK : N := 192.
Definition FLG_SUPPORTED_VERSION_BITS : N := 64.
Definition FLG_INDEPENDENT_BLOCKS : N := 32.
Definition FLG_BLOCK_CHECKSUMS : N := 16.
Definition FLG_CONTENT_SIZE : N := 8.
Definition FLG_CONTENT_CHECKSUM : N := 4.
Definition FLG_DICTIONARY_ID : N := 1.
Definition BD_BLOCK_SIZE_MASK : N := 112.
(** [!BD_BLOCK_SIZE_MASK] on [u8] *)
Definition BD_RESERVED_MASK : N := N.lxor 255 BD_BLOCK_SIZE_MASK.
Definition BD_BLOCK_SIZE_MASK_RSHIFT : N := 4.
Definition BLOCK_UNCOMPRESSED_SIZE_BIT : N := 2147483648.
Definition LZ4F_MAGIC_NUMBER : N := 407708164.
Definition skippable_magic (m : N) : bool := (407710288 <=? m) && (m <=? 407710303).
Definition MAGIC_NUMBER_SIZE : N := 4.
Definition MIN_FRAME_INFO_SIZE : N := 7.
Definition MAX_FRAME_INFO_SIZE : N := 19.
Definition BLOCK_INFO_SIZE : N := 4.

(** ** Data *)

Inductive BlockSize := Auto | Max64KB | Max256KB | Max1MB | Max4MB.
Inductive BlockMode := Independent | Linked.
#[export] Instance BlockSize_eq_dec : EqDecision BlockSize.
Proof. solve_decision. Defined.
#[export] Instance BlockMode_eq_dec : EqDecision BlockMode.
Proof. solve_decision. Defined.

(** The discriminants, [as u8]. *)
Definition block_size_u8 (b : BlockSize) : N :=
  match b with Auto => 0 | Max64KB => 4 | Max256KB => 5 | Max1MB => 6 | Max4MB => 7 end.

Module BlockSizeImpl.
(** [Auto] is [unreachable!()]. *)
Definition get_size {E} (b : BlockSize) : res E N :=
  match b with
  | Auto => Panic
  | Max64KB => Ok (64 * 1024)
  | Max256KB => Ok (256 * 1024)
  | Max1MB => Ok (1024 * 1024)
  | Max4MB => Ok (4 * 1024 * 1024)
  end.

(** The loop over the two candidates. *)
Fixpoint from_candidates {E} (candidates : list BlockSize) (blocksize : BlockSize) (buf_len : N)
  : res E BlockSize :=
  match candidates with
  | [] => Ok Max64KB
  | candidate :: rest =>
      size ← get_size candidate;
      if size <? buf_len then Ok blocksize else from_candidates rest candidate buf_len
  end.

Definition from_buf_length {E} (buf_len : N) : res E BlockSize :=
  from_candidates [Max256KB; Max64KB] Max4MB buf_len.
End BlockSizeImpl.

Record FrameInfo := {
  content_size : option N;
  dict_id : option N;
  block_size : BlockSize;
  block_mode : BlockMode;
  block_checksums : bool;
  content_checksum : bool
}.

Definition is_linked (info : FrameInfo) : bool :=
  match block_mode info with Linked => true | Independent => false end.

(** The constructor and the setters. *)
Module FrameInfoImpl.
Definition default : FrameInfo :=
  {| content_size := None; dict_id := None; block_size := Auto; block_mode := Independent;
     block_checksums := false; content_checksum := false |}.
Definition new : FrameInfo := default.

Section setters.
Context (self : FrameInfo).

Definition content_size (content_size : option N) : FrameInfo :=
  {| FrameHeader.content_size := content_size; dict_id := dict_id self;
     block_size := block_size self; block_mode := block_mode self;
     block_checksums := block_checksums self; content_checksum := content_checksum self |}.
Definition block_size (block_size : BlockSize) : FrameInfo :=
  {| FrameHeader.content_size := FrameHeader.content_size self; dict_id := dict_id self;
     FrameHeader.block_size := block_size; block_mode := block_mode self;
     block_checksums := block_checksums self; content_checksum := content_checksum self |}.
Definition block_mode (block_mode : BlockMode) : FrameInfo :=
  {| FrameHeader.content_size := FrameHeader.content_size self; dict_id := dict_id self;
     FrameHeader.block_size := FrameHeader.block_size self;
     FrameHeader.block_mode := block_mode;
     block_checksums := block_checksums self; content_checksum := content_checksum self |}.
Definition block_checksums (block_checksums : bool) : FrameInfo :=
  {| FrameHeader.content_size := FrameHeader.content_size self; dict_id := dict_id self;
     FrameHeader.block_size := FrameHeader.block_size self;
     FrameHeader.block_mode := FrameHeader.block_mode self;
     FrameHeader.block_checksums := block_checksums;
     content_checksum := content_checksum self |}.
Definition content_checksum (content_checksum : bool) : FrameInfo :=
  {| FrameHeader.content_size := FrameHeader.content_size self; dict_id := dict_id self;
     FrameHeader.block_size := FrameHeader.block_size self;
     FrameHeader.block_mode := FrameHeader.block_mode self;
     FrameHeader.block_checksums := FrameHeader.block_checksums self;
     FrameHeader.content_checksum := content_checksum |}.
End setters.
End FrameInfoImpl.

(** ** Reading bytes *)

(** [Read::read_exact] on a slice, and the [?] that follows it. *)
Definition read_exact (n : N) (input : bytes) : res Error (bytes * bytes) :=
  if n <=? len input then Ok (take (N.to_nat n) input, drop (N.to_nat n) input)
  else Err (error_of_io (Simple UnexpectedEof)).

Definition flag (byte mask : N) : bool := negb (N.land byte mask =? 0).

Section header.
(** [XxHash32::with_seed(0)], the hash of the bytes written. *)
Context (xxh32 : bytes -> N).
Implicit Types (info : FrameInfo) (input output buffer : bytes).

Definition header_hash (l : bytes) : byte := to_u8 (N.shiftr (xxh32 l) 8).

Definition read_size input : res Error N :=
  let required := MIN_FRAME_INFO_SIZE in
  m ← slice input 0 4;
  let magic_num := from_le m in
  if len input <? required then Ok required else
  if skippable_magic magic_num then Ok 8 else
  if negb (magic_num =? LZ4F_MAGIC_NUMBER) then Err WrongMagicNumber else
  b ← index input 4;
  let required := if flag (u8 b) FLG_CONTENT_SIZE then required + 8 else required in
  let required := if flag (u8 b) FLG_DICTIONARY_ID then required + 4 else required in
  Ok required.

Definition write_size info : N :=
  let required := MIN_FRAME_INFO_SIZE in
  let required := match content_size info with Some _ => required + 8 | None => required end in
  match dict_id info with Some _ => required + 4 | None => required end.

(** [buffer[4] |= mask] *)
Definition or_flag buffer (mask : N) : res Error bytes :=
  b ← index buffer 4; write_at buffer 4 [to_u8 (N.lor (u8 b) mask)].

Definition or_flag_if (c : bool) buffer (mask : N) : res Error bytes :=
  if c then or_flag buffer mask else Ok buffer.

(** The output and the count. *)
Definition write info output : res Error (bytes * N) :=
  let write_size := write_size info in
  if len output <? write_size then Err (IoErr (Simple UnexpectedEof)) else
  let buffer := replicate (N.to_nat MAX_FRAME_INFO_SIZE) x00 in
  _ ← assert (write_size <=? len buffer);
  buffer ← write_at buffer 0 (to_le 4 LZ4F_MAGIC_NUMBER);
  buffer ← write_at buffer 4 [to_u8 FLG_SUPPORTED_VERSION_BITS];
  buffer ← or_flag_if (block_checksums info) buffer FLG_BLOCK_CHECKSUMS;
  buffer ← or_flag_if (content_checksum info) buffer FLG_CONTENT_CHECKSUM;
  buffer ← or_flag_if (match block_mode info with Independent => true | Linked => false end)
             buffer FLG_INDEPENDENT_BLOCKS;
  let bs := block_size_u8 (block_size info) in
  if negb ((4 <=? bs) && (bs <=? 7)) then Err (UnsupportedBlocksize bs) else
  buffer ← write_at buffer 5 [to_u8 (N.shiftl bs BD_BLOCK_SIZE_MASK_RSHIFT)];
  let offset := 6 in
  '(buffer, offset) ←
    match content_size info with
    | Some size =>
        buffer ← or_flag buffer FLG_CONTENT_SIZE;
        buffer ← write_at buffer offset (to_le 8 size);
        Ok (buffer, offset + 8)
    | None => Ok (buffer, offset)
    end;
  '(buffer, offset) ←
    match dict_id info with
    | Some id =>
        buffer ← or_flag buffer FLG_DICTIONARY_ID;
        buffer ← write_at buffer offset (to_le 4 id);
        Ok (buffer, offset + 4)
    | None => Ok (buffer, offset)
    end;
  hashed ← slice buffer 4 offset;
  buffer ← write_at buffer offset [header_hash hashed];
  let offset := offset + 1 in
  _ ← assert (offset =? write_size);
  s ← slice buffer 0 write_size;
  output ← write_at output 0 s;
  Ok (output, write_size).

(** The match on the block-size bits; its last arm is [unreachable!()]. *)
Definition block_size_of (i : N) : res Error BlockSize :=
  match i with
  | 0 | 1 | 2 | 3 => Err (UnsupportedBlocksize i)
  | 4 => Ok Max64KB
  | 5 => Ok Max256KB
  | 6 => Ok Max1MB
  | 7 => Ok Max4MB
  | _ => Panic
  end.

Definition read input : res Error FrameInfo :=
  let original_input := input in
  '(b, input) ← read_exact 4 input;
  let magic_num := from_le b in
  if skippable_magic magic_num then
    '(b, input) ← read_exact 4 input;
    Err (SkippableFrame (from_le b))
  else if negb (magic_num =? LZ4F_MAGIC_NUMBER) then Err WrongMagicNumber else
  '(b, input) ← read_exact 2 input;
  flg ← index b 0;
  bd ← index b 1;
  let flg_byte := u8 flg in
  let bd_byte := u8 bd in
  if negb (N.land flg_byte FLG_VERSION_MASK =? FLG_SUPPORTED_VERSION_BITS)
  then Err (UnsupportedVersion (N.land flg_byte FLG_VERSION_MASK)) else
  if flag flg_byte FLG_RESERVED_MASK || flag bd_byte BD_RESERVED_MASK then Err ReservedBitsSet else
  let mode := if flag flg_byte FLG_INDEPENDENT_BLOCKS then Independent else Linked in
  let content_sum := flag flg_byte FLG_CONTENT_CHECKSUM in
  let block_sums := flag flg_byte FLG_BLOCK_CHECKSUMS in
  size ← block_size_of (N.shiftr (N.land bd_byte BD_BLOCK_SIZE_MASK) BD_BLOCK_SIZE_MASK_RSHIFT);
  '(csize, input) ←
    (if flag flg_byte FLG_CONTENT_SIZE
     then '(b, input) ← read_exact 8 input; Ok (Some (from_le b), input) else Ok (None, input));
  '(id, input) ←
    (if flag flg_byte FLG_DICTIONARY_ID
     then '(b, input) ← read_exact 4 input; Ok (Some (from_le b), input) else Ok (None, input));
  '(b, input) ← read_exact 1 input;
  expected_checksum ← index b 0;
  e ← usub (len original_input) (len input);
  e ← usub e 1;
  hashed ← slice original_input 4 e;
  if negb (byte_eqb (header_hash hashed) expected_checksum) then Err HeaderChecksumError else
  Ok {| content_size := csize; dict_id := id; block_size := size; block_mode := mode;
        block_checksums := block_sums; content_checksum := content_sum |}.
End header.

(** ** Block headers *)

Inductive BlockInfo := Compressed (n : N) | Uncompressed (n : N) | EndMark.

Module BlockInfoImpl.
Definition read (input : bytes) : res Error BlockInfo :=
  '(b, _) ← read_exact 4 input;
  let size := from_le b in
  if size =? 0 then Ok EndMark
  else if flag size BLOCK_UNCOMPRESSED_SIZE_BIT
       then Ok (Uncompressed (N.land size (N.lxor u32_max BLOCK_UNCOMPRESSED_SIZE_BIT)))
       else Ok (Compressed size).

(** [write_all] into a slice; too short a slice is [WriteZero]. *)
Definition write (info : BlockInfo) (output : bytes) : res Error (bytes * N) :=
  value ←
    match info with
    | Compressed 0 => Err InvalidBlockInfo
    | Compressed n | Uncompressed n =>
        if flag n BLOCK_UNCOMPRESSED_SIZE_BIT then Err InvalidBlockInfo else
        Ok (match info with Uncompressed n => N.lor n BLOCK_UNCOMPRESSED_SIZE_BIT | _ => n end)
    | EndMark => Ok 0
    end;
  if len output <? 4 then Err (error_of_io (Simple WriteZero)) else
  output ← write_at output 0 (to_le 4 value);
  Ok (output, 4).
End BlockInfoImpl.

(** ** The header's layout *)

Section layout.
Context (xxh32 : bytes -> N).
Implicit Types (info : FrameInfo) (input output rest : bytes).

Definition bit (c : bool) (mask : N) : N := if c then mask else 0.
Definition is_independent (m : BlockMode) : bool :=
  match m with Independent => true | Linked => false end.

(** The flag byte and the block descriptor byte. *)
Definition flg_of info : N :=
  FLG_SUPPORTED_VERSION_BITS + bit (block_checksums info) FLG_BLOCK_CHECKSUMS
  + bit (content_checksum info) FLG_CONTENT_CHECKSUM
  + bit (is_independent (block_mode info)) FLG_INDEPENDENT_BLOCKS
  + bit (bool_decide (is_Some (content_size info))) FLG_CONTENT_SIZE
  + bit (bool_decide (is_Some (dict_id info))) FLG_DICTIONARY_ID.
Definition bd_of info : N := 16 * block_size_u8 (block_size info).

Definition opt_le (k : nat) (o : option N) : bytes :=
  match o with Some v => to_le k v | None => [] end.

(** The bytes under the checksum, and the whole header. *)
Definition descriptor info : bytes :=
  to_u8 (flg_of info) :: to_u8 (bd_of info)
    :: opt_le 8 (content_size info) ++ opt_le 4 (dict_id info).
Definition header_bytes info : bytes :=
  to_le 4 LZ4F_MAGIC_NUMBER ++ descriptor info ++ [header_hash xxh32 (descriptor info)].

(** What the fields of a header can hold: a resolved block size, a [u64] and
    a [u32]. *)
Definition info_ok info : Prop :=
  block_size info <> Auto /\
  (forall n, content_size info = Some n -> n < 2 ^ 64) /\
  (forall n, dict_id info = Some n -> n < 2 ^ 32).

Lemma length_opt_le k o : length (opt_le k o) = if bool_decide (is_Some o) then k else 0%nat.
Proof. destruct o; cbn; [apply length_to_le|done]. Qed.
Hint Rewrite length_opt_le : lz4_len.

Lemma length_header_bytes info : len (header_bytes info) = write_size info.
Proof.
  unfold header_bytes, descriptor, write_size. autorewrite with lz4_len. cbn [length].
  destruct (content_size info), (dict_id info); cbn; done.
Qed.

(** [write] copies the layout to the front of the output. *)
Lemma write_spec info output :
  write xxh32 info output =
    if len output <? write_size info then Err (IoErr (Simple UnexpectedEof)) else
    match block_size info with
    | Auto => Err (UnsupportedBlocksize 0)
    | _ => output ← write_at output 0 (header_bytes info); Ok (output, write_size info)
    end.
Proof.
  destruct info as [[cs|] [id|] [| | | |] [|] [|] [|]]; reflexivity.
Qed.

Lemma write_ok info output : info_ok info -> write_size info <= len output ->
  write xxh32 info output = Ok (splice output 0 (header_bytes info), write_size info).
Proof.
  intros [Hb _] Hl. pose proof (length_header_bytes info) as Hh. rewrite write_spec. bcase.
  destruct (block_size info); [done|..]; by access.
Qed.

Lemma take_written info output : write_size info <= len output ->
  take (N.to_nat (write_size info)) (splice output 0 (header_bytes info)) = header_bytes info.
Proof.
  intros Hl. rewrite <-length_header_bytes. rewrite <-length_header_bytes in Hl.
  exact (take_splice output 0 (header_bytes info) Hl).
Qed.

Lemma drop_written info output :
  drop (N.to_nat (write_size info)) (splice output 0 (header_bytes info))
  = drop (N.to_nat (write_size info)) output.
Proof.
  rewrite <-length_header_bytes, Nat2N.id. exact (drop_app_length (header_bytes info) _).
Qed.

Lemma read_exact_app l rest n : len l = n -> read_exact n (l ++ rest) = Ok (l, rest).
Proof.
  intros <-. unfold read_exact. bcase.
  by rewrite Nat2N.id, take_app_length, drop_app_length.
Qed.

Lemma read_exact_inv n input l rest :
  read_exact n input = Ok (l, rest) -> input = l ++ rest /\ len l = n.
Proof.
  unfold read_exact. bcase; [|done]. intros [= <- <-].
  rewrite take_drop. split; [done|]. len_lia.
Qed.

(** The optional little-endian field. *)
Lemma read_opt_app (k : nat) o rest (c : bool) :
  c = bool_decide (is_Some o) -> (forall n, o = Some n -> n < 256 ^ N.of_nat k) ->
  (if c then '(b, input) ← read_exact (N.of_nat k) (opt_le k o ++ rest);
             Ok (Some (from_le b), input)
   else Ok (None, opt_le k o ++ rest)) = Ok (o, rest).
Proof.
  intros -> Ho. destruct o as [n|]; cbn [opt_le]; [|done].
  rewrite bool_decide_true by done. rewrite read_exact_app by len_lia. mstep.
  by rewrite from_le_to_le, N.mod_small by auto.
Qed.

Lemma read_opt_inv (k : nat) input rest o (c : bool) :
  (if c then '(b, input) ← read_exact (N.of_nat k) input; Ok (Some (from_le b), input)
   else Ok (None, input)) = Ok (o, rest) ->
  input = opt_le k o ++ rest /\ c = bool_decide (is_Some o) /\
  (forall n, o = Some n -> n < 256 ^ N.of_nat k).
Proof.
  destruct c; [|intros [= <- <-]; split_and!; done].
  intros ([l r] & [-> Hl]%read_exact_inv & [= <- <-])%bind_Ok.
  assert (length l = k) as <- by lia. cbn [opt_le]. rewrite to_le_from_le.
  split_and!; [done..|]. intros n [= <-]. apply from_le_bound.
Qed.

(** The bits of the two descriptor bytes, written and read. *)
Record descriptor_bits info (flg bd : N) : Prop := {
  bits_version : N.land flg FLG_VERSION_MASK = FLG_SUPPORTED_VERSION_BITS;
  bits_reserved : flag flg FLG_RESERVED_MASK || flag bd BD_RESERVED_MASK = false;
  bits_independent : flag flg FLG_INDEPENDENT_BLOCKS = is_independent (block_mode info);
  bits_content_checksum : flag flg FLG_CONTENT_CHECKSUM = content_checksum info;
  bits_block_checksums : flag flg FLG_BLOCK_CHECKSUMS = block_checksums info;
  bits_content_size : flag flg FLG_CONTENT_SIZE = bool_decide (is_Some (content_size info));
  bits_dict_id : flag flg FLG_DICTIONARY_ID = bool_decide (is_Some (dict_id info));
  bits_block_size : N.shiftr (N.land bd BD_BLOCK_SIZE_MASK) BD_BLOCK_SIZE_MASK_RSHIFT
                    = block_size_u8 (block_size info)
}.

Lemma descriptor_bits_of info :
  descriptor_bits info (u8 (to_u8 (flg_of info))) (u8 (to_u8 (bd_of info))).
Proof. by destruct info as [[] [] [] [] [] []]; split. Qed.

Lemma descriptor_bits_inv info (flg bd : byte) :
  descriptor_bits info (u8 flg) (u8 bd) -> flg = to_u8 (flg_of info) /\ bd = to_u8 (bd_of info).
Proof.
  intros [H1 [H2 H3]%orb_false_elim H4 H5 H6 H7 H8 H9]. unfold flg_of, bd_of. split.
  - rewrite <-H4, <-H5, <-H6, <-H7, <-H8. clear - H1 H2. by destruct flg.
  - rewrite <-H9. clear - H3. by destruct bd.
Qed.

(** The checksum covers the bytes between the magic number and itself. *)
Lemma hashed_range {A} m l (h : byte) rest (f : bytes -> res Error A) :
  len m = 4 ->
  (e ← usub (len (m ++ l ++ h :: rest)) (len rest); e ← usub e 1;
   hashed ← slice (m ++ l ++ h :: rest) 4 e; f hashed) = f l.
Proof.
  intros Hm. do 3 access. f_equal. unfold sub. rewrite drop_app_length' by lia.
  apply take_app_length'. len_lia.
Qed.

(** [read] undoes the layout. *)
Lemma read_header_bytes info rest :
  info_ok info -> read xxh32 (header_bytes info ++ rest) = Ok info.
Proof.
  intros (Hbs & Hcs & Hid). unfold read. cbv zeta.
  set (input := header_bytes info ++ rest).
  assert (Hi : input = to_le 4 LZ4F_MAGIC_NUMBER ++ [to_u8 (flg_of info); to_u8 (bd_of info)]
    ++ opt_le 8 (content_size info) ++ opt_le 4 (dict_id info)
    ++ [header_hash xxh32 (descriptor info)] ++ rest).
  { unfold input, header_bytes, descriptor. rewrite <-!app_assoc. cbn [app]. by rewrite <-!app_assoc. }
  rewrite Hi at 1. rewrite read_exact_app by done. mstep.
  change (from_le (to_le 4 LZ4F_MAGIC_NUMBER)) with LZ4F_MAGIC_NUMBER.
  change (skippable_magic LZ4F_MAGIC_NUMBER) with false. rewrite N.eqb_refl. cbn [negb].
  rewrite read_exact_app by done. mstep.
  set (flg := to_u8 (flg_of info)). set (bd := to_u8 (bd_of info)).
  change (index [flg; bd] 0) with (Ok (E:=Error) flg).
  change (index [flg; bd] 1) with (Ok (E:=Error) bd). mstep.
  destruct (descriptor_bits_of info) as [V R I C B S D Z]. fold flg bd in V, R, I, C, B, S, D, Z.
  rewrite V, R, N.eqb_refl, I, C, B, Z. cbn [negb].
  assert (block_size_of (block_size_u8 (block_size info)) = Ok (block_size info)) as ->
    by (by destruct (block_size info)).
  mstep.
  rewrite (read_opt_app 8 (content_size info)) by done. mstep.
  rewrite (read_opt_app 4 (dict_id info)) by done. mstep.
  rewrite read_exact_app by done. mstep.
  change (index [?h] 0) with (Ok (E:=Error) h). mstep.
  assert (input = to_le 4 LZ4F_MAGIC_NUMBER ++ descriptor info
            ++ header_hash xxh32 (descriptor info) :: rest) as ->
    by (unfold input, header_bytes; by rewrite <-!app_assoc).
  rewrite hashed_range by done. destruct (byte_eqb_spec
    (header_hash xxh32 (descriptor info)) (header_hash xxh32 (descriptor info))); [|done].
  cbn [negb]. f_equal. by destruct info as [? ? ? [] ? ?].
Qed.

Lemma block_size_of_inv i b : block_size_of i = Ok b -> i = block_size_u8 b /\ b <> Auto.
Proof. unfold block_size_of. repeat case_match; by intros [= <-]. Qed.

Lemma magic_inv b :
  len b = 4 -> (from_le b =? LZ4F_MAGIC_NUMBER) = true -> b = to_le 4 LZ4F_MAGIC_NUMBER.
Proof.
  intros Hb Hm%N.eqb_eq. rewrite <-Hm. replace 4%nat with (length b) by lia.
  by rewrite to_le_from_le.
Qed.

(** [read] accepts nothing but the layout. *)
Lemma read_inv input info :
  read xxh32 input = Ok info -> info_ok info /\ exists rest, input = header_bytes info ++ rest.
Proof.
  unfold read. cbv zeta. intros ([m i1] & [-> Hm]%read_exact_inv & H)%bind_Ok.
  destruct (skippable_magic _).
  { apply bind_Ok in H as ([? ?] & _ & [=]). }
  destruct (_ =? LZ4F_MAGIC_NUMBER) eqn:Hmagic; cbn [negb] in H; [|done].
  apply magic_inv in Hmagic as ->; [|done].
  apply bind_Ok in H as ([d i2] & [-> Hd]%read_exact_inv & H).
  destruct d as [|flg [|bd [|]]]; try (cbn in Hd; lia).
  apply bind_Ok in H as (? & [= <-] & H). apply bind_Ok in H as (? & [= <-] & H).
  destruct (_ =? FLG_SUPPORTED_VERSION_BITS) eqn:V; cbn [negb] in H; [|done].
  apply N.eqb_eq in V.
  destruct (_ || _) eqn:R; [done|].
  apply bind_Ok in H as (size & [Z Hsize]%block_size_of_inv & H).
  apply bind_Ok in H as ([cs i3] & (-> & S & Hcs)%(read_opt_inv 8) & H).
  apply bind_Ok in H as ([id i4] & (-> & D & Hid)%(read_opt_inv 4) & H).
  apply bind_Ok in H as ([h rest] & [-> Hh]%read_exact_inv & H).
  destruct h as [|h []]; try (cbn in Hh; lia).
  apply bind_Ok in H as (? & [= <-] & H).
  assert (Hl : to_le 4 LZ4F_MAGIC_NUMBER ++ [flg; bd] ++ opt_le 8 cs ++ opt_le 4 id ++ [h] ++ rest
    = to_le 4 LZ4F_MAGIC_NUMBER ++ (flg :: bd :: opt_le 8 cs ++ opt_le 4 id) ++ h :: rest)
    by (cbn [app]; by rewrite <-!app_assoc).
  rewrite Hl in H |- *. rewrite hashed_range in H by done.
  destruct (byte_eqb_spec (header_hash xxh32 (flg :: bd :: opt_le 8 cs ++ opt_le 4 id)) h) as [<-|];
    cbn [negb] in H; [|done].
  injection H as Hinfo. assert (descriptor_bits info (u8 flg) (u8 bd)) as [-> ->]%descriptor_bits_inv.
  { rewrite <-Hinfo. split; cbn -[flag N.land N.shiftr]; try done. by case (flag (u8 flg) FLG_INDEPENDENT_BLOCKS). }
  split.
  - rewrite <-Hinfo. done.
  - exists rest. unfold header_bytes, descriptor.
    replace (content_size info) with cs by (by rewrite <-Hinfo).
    replace (dict_id info) with id by (by rewrite <-Hinfo).
    rewrite <-(app_assoc (to_le 4 _)), <-(app_assoc _ [_] rest). done.
Qed.

(** The descriptor has a size that [read_size] finds in the first bytes. *)
Lemma read_size_header_bytes info rest :
  read_size (header_bytes info ++ rest) = Ok (write_size info).
Proof.
  unfold read_size. assert (7 <= write_size info) by (unfold write_size, MIN_FRAME_INFO_SIZE;
    destruct (content_size info), (dict_id info); lia).
  pose proof (length_header_bytes info) as Hl.
  access. change (sub (header_bytes info ++ rest) 0 (4 - 0)) with (to_le 4 LZ4F_MAGIC_NUMBER).
  unfold MIN_FRAME_INFO_SIZE in *. bcase.
  change (from_le (to_le 4 LZ4F_MAGIC_NUMBER)) with LZ4F_MAGIC_NUMBER.
  change (skippable_magic LZ4F_MAGIC_NUMBER) with false. rewrite N.eqb_refl. cbn [negb].
  change (index (header_bytes info ++ rest) 4) with (Ok (E:=Error) (to_u8 (flg_of info))). mstep.
  destruct (descriptor_bits_of info) as [_ _ _ _ _ -> -> _]. unfold write_size.
  by destruct (content_size info), (dict_id info).
Qed.

(** A computation that returns a value or an error. *)
Definition no_panic {A} (m : res Error A) : Prop := m <> Panic /\ m <> NoFuel.

Lemma no_panic_bind {A B} (m : res Error A) (f : A -> res Error B) :
  no_panic m -> (forall a, m = Ok a -> no_panic (f a)) -> no_panic (m ≫= f).
Proof. unfold no_panic. destruct m; naive_solver. Qed.

Lemma no_panic_read_exact n input : no_panic (read_exact n input).
Proof. unfold read_exact. by bcase. Qed.

Lemma no_panic_block_size_of (bd : byte) :
  no_panic (block_size_of (N.shiftr (N.land (u8 bd) BD_BLOCK_SIZE_MASK)
    BD_BLOCK_SIZE_MASK_RSHIFT)).
Proof. by destruct bd. Qed.

(** An optional field leaves a suffix of the input. *)
Lemma read_opt_suffix (n : N) input (c : bool) :
  let m := (if c then '(b, input) ← read_exact n input; Ok (Some (from_le b), input)
            else Ok (None, input)) in
  no_panic m /\ forall o rest, m = Ok (o, rest) -> len rest <= len input.
Proof.
  destruct c; [|split; [done|intros ?? [= _ <-]; lia]]. split.
  - apply no_panic_bind; [apply no_panic_read_exact|]. by intros [] _.
  - intros o rest ([b r] & [-> ?]%read_exact_inv & [= _ <-])%bind_Ok. len_lia.
Qed.

(** [read] returns on every input. *)
Lemma no_panic_read input : no_panic (read xxh32 input).
Proof.
  unfold read. cbv zeta. apply no_panic_bind; [apply no_panic_read_exact|].
  intros [m i1] [-> Hm]%read_exact_inv. destruct (skippable_magic _).
  { apply no_panic_bind; [apply no_panic_read_exact|]. by intros [] _. }
  destruct (negb _); [done|]. apply no_panic_bind; [apply no_panic_read_exact|].
  intros [d i2] [-> Hd]%read_exact_inv. destruct d as [|flg [|bd [|]]]; try (cbn in Hd; lia).
  apply no_panic_bind; [done|]. intros ? [= <-].
  apply no_panic_bind; [done|]. intros ? [= <-].
  destruct (negb _); [done|]. destruct (_ || _); [done|].
  apply no_panic_bind; [apply no_panic_block_size_of|]. intros size _.
  pose proof (read_opt_suffix 8 i2 (flag (u8 flg) FLG_CONTENT_SIZE)) as [Hn Hl].
  apply no_panic_bind; [done|]. intros [cs i3] ?%Hl. clear Hn Hl.
  pose proof (read_opt_suffix 4 i3 (flag (u8 flg) FLG_DICTIONARY_ID)) as [Hn Hl].
  apply no_panic_bind; [done|]. intros [id i4] ?%Hl. clear Hn Hl.
  apply no_panic_bind; [apply no_panic_read_exact|].
  intros [h rest] [-> Hh]%read_exact_inv. destruct h as [|h []]; try (cbn in Hh; lia).
  apply no_panic_bind; [done|]. intros ? [= <-]. do 3 access. by destruct (negb _).
Qed.

Definition eof {A} : res Error A := Err (IoErr (Simple UnexpectedEof)).

Lemma read_exact_prefix n input rest :
  read_exact n input = eof \/
  exists l r, read_exact n input = Ok (l, r) /\ read_exact n (input ++ rest) = Ok (l, r ++ rest).
Proof.
  unfold read_exact. bcase; [right|by left]. bcase.
  do 2 eexists. split; [done|]. by rewrite take_app_le, drop_app_le by lia.
Qed.

Lemma read_opt_prefix n input rest (c : bool) :
  let m input := (if c then '(b, input) ← read_exact n input; Ok (Some (from_le b), input)
                  else Ok (None, input)) in
  m input = eof \/ exists o r, m input = Ok (o, r) /\ m (input ++ rest) = Ok (o, r ++ rest).
Proof.
  destruct c; cbn; [|eauto].
  destruct (read_exact_prefix n input rest) as [->|(l & r & -> & ->)]; cbn; eauto.
Qed.

Lemma checksum_range (input rest tail : bytes) :
  len tail + 5 <= len input ->
  sub (input ++ rest) 4 (len (input ++ rest) - len (tail ++ rest) - 1 - 4)
  = sub input 4 (len input - len tail - 1 - 4).
Proof.
  intros. unfold sub. rewrite drop_app_le by lia. rewrite take_app_le by len_lia.
  f_equal. len_lia.
Qed.

(** Every outcome but the end of the input stands when more input follows. *)
Lemma read_prefix input rest :
  read xxh32 input = eof \/ read xxh32 (input ++ rest) = read xxh32 input.
Proof.
  unfold read. cbv zeta.
  destruct (read_exact 4 input) as [[m i1]| | |] eqn:H1;
    destruct (read_exact_prefix 4 input rest) as [E1|(? & ? & E1 & E2)];
    rewrite H1 in E1; try discriminate E1; [|injection E1 as ->; by left].
  injection E1 as <- <-. rewrite E2. mstep. apply read_exact_inv in H1 as [-> Hm].
  destruct (skippable_magic _).
  { destruct (read_exact_prefix 4 i1 rest) as [->|(l & r & -> & ->)]; auto. }
  destruct (negb _); [auto|].
  destruct (read_exact_prefix 2 i1 rest) as [->|(l & i2 & E3 & ->)]; [auto|].
  rewrite E3. apply read_exact_inv in E3 as [-> Hd]. mstep.
  destruct l as [|flg [|bd [|]]]; try (cbn in Hd; lia).
  change (index [flg; bd] 0) with (Ok (E:=Error) flg).
  change (index [flg; bd] 1) with (Ok (E:=Error) bd). mstep.
  destruct (negb _); [auto|]. destruct (_ || _); [auto|].
  destruct (block_size_of _); mstep; [|auto..].
  pose proof (read_opt_suffix 8 i2 (flag (u8 flg) FLG_CONTENT_SIZE)) as [_ L3].
  destruct (read_opt_prefix 8 i2 rest (flag (u8 flg) FLG_CONTENT_SIZE))
    as [->|(cs & i3 & E3 & ->)]; [auto|]. rewrite E3. mstep. apply L3 in E3.
  pose proof (read_opt_suffix 4 i3 (flag (u8 flg) FLG_DICTIONARY_ID)) as [_ L4].
  destruct (read_opt_prefix 4 i3 rest (flag (u8 flg) FLG_DICTIONARY_ID))
    as [->|(id & i4 & E4 & ->)]; [auto|]. rewrite E4. mstep. apply L4 in E4.
  destruct (read_exact_prefix 1 i4 rest) as [->|(h & i5 & E5 & ->)]; [auto|].
  rewrite E5. apply read_exact_inv in E5 as [-> Hh]. mstep.
  destruct h as [|h []]; try (cbn in Hh; lia).
  change (index [h] 0) with (Ok (E:=Error) h). mstep. right.
  do 6 access. rewrite checksum_range by len_lia. done.
Qed.

(** A header cut short is the end of the input. *)
Lemma read_truncated info n :
  info_ok info -> n < write_size info ->
  read xxh32 (take (N.to_nat n) (header_bytes info)) = eof.
Proof.
  intros Hok Hn. set (p := take _ _).
  destruct (read_prefix p (drop (N.to_nat n) (header_bytes info))) as [|Hp]; [done|].
  unfold p at 1 in Hp. rewrite take_drop in Hp.
  rewrite <-(app_nil_r (header_bytes info)), read_header_bytes in Hp by done.
  symmetry in Hp. apply read_inv in Hp as [_ [r Hr]]. exfalso.
  pose proof (length_header_bytes info). apply (f_equal length) in Hr.
  unfold p in Hr. len_lia.
Qed.
End layout.

(** ** The layout of a block header *)

Section block_layout.
(** What a block header can hold: 31-bit lengths, and no empty compressed
    block. *)
Definition block_info_ok (i : BlockInfo) : Prop :=
  match i with
  | Compressed n => 0 < n < 2 ^ 31
  | Uncompressed n => n < 2 ^ 31
  | EndMark => True
  end.

(** The lengths are [u32] values. *)
Definition block_info_u32 (i : BlockInfo) : Prop :=
  match i with Compressed n | Uncompressed n => n < 2 ^ 32 | EndMark => True end.

Definition block_word (i : BlockInfo) : N :=
  match i with Compressed n => n | Uncompressed n => n + 2 ^ 31 | EndMark => 0 end.

Lemma flag_size_bit n : n < 2 ^ 32 -> flag n BLOCK_UNCOMPRESSED_SIZE_BIT = (2 ^ 31 <=? n).
Proof.
  intros Hn. unfold flag. change BLOCK_UNCOMPRESSED_SIZE_BIT with (2 ^ 31).
  assert (Hb : N.testbit n 31 = (2 ^ 31 <=? n)).
  { bcase; [apply N.testbit_true|apply N.testbit_false]; lia. }
  rewrite <-Hb. destruct (N.testbit n 31) eqn:Ht; cbn [negb].
  - destruct (N.eqb_spec (N.land n (2 ^ 31)) 0) as [H0|]; [exfalso|done].
    apply (f_equal (fun m => N.testbit m 31)) in H0.
    by rewrite N.land_spec, Ht, N.pow2_bits_true in H0.
  - destruct (N.eqb_spec (N.land n (2 ^ 31)) 0) as [|H0]; [done|exfalso]. apply H0.
    apply N.bits_inj. intros i. rewrite N.land_spec, N.pow2_bits_eqb, N.bits_0.
    destruct (N.eqb_spec 31 i) as [<-|]; [by rewrite Ht|apply andb_false_r].
Qed.

Lemma lor_size_bit n : n < 2 ^ 31 -> N.lor n BLOCK_UNCOMPRESSED_SIZE_BIT = n + 2 ^ 31.
Proof.
  intros Hn. assert (Hl : N.land n (2 ^ 31) = 0).
  { pose proof (flag_size_bit n ltac:(lia)) as Hf. unfold flag in Hf.
    revert Hf. change BLOCK_UNCOMPRESSED_SIZE_BIT with (2 ^ 31). bcase.
    by destruct (N.eqb_spec (N.land n (2 ^ 31)) 0). }
  change BLOCK_UNCOMPRESSED_SIZE_BIT with (2 ^ 31).
  by rewrite N.add_nocarry_lxor, N.lxor_lor by done.
Qed.

Lemma clear_size_bit n :
  N.land n (N.lxor u32_max BLOCK_UNCOMPRESSED_SIZE_BIT) = n mod 2 ^ 31.
Proof. change (N.lxor _ _) with (N.ones 31). apply N.land_ones. Qed.

#[export] Instance block_info_ok_dec i : Decision (block_info_ok i).
Proof. destruct i; cbn; apply _. Defined.

(** The three outcomes of [write]. *)
Lemma block_write_spec i output : block_info_u32 i ->
  BlockInfoImpl.write i output =
    if decide (block_info_ok i) then
      if len output <? 4 then Err (IoErr (Simple WriteZero))
      else Ok (splice output 0 (to_le 4 (block_word i)), 4)
    else Err InvalidBlockInfo.
Proof.
  intros Hi. unfold BlockInfoImpl.write.
  assert (Hw : forall v, (if len output <? 4 then Err (error_of_io (Simple WriteZero))
    else output ← write_at output 0 (to_le 4 v); Ok (output, 4)) =
    if len output <? 4 then Err (IoErr (Simple WriteZero)) else Ok (splice output 0 (to_le 4 v), 4)).
  { intros v. destruct (N.ltb_spec (len output) 4); [done|]. by access. }
  destruct i as [n|n|]; cbn [block_info_u32] in Hi.
  - destruct (decide (block_info_ok (Compressed n))) as [H|H]; cbn in H.
    + destruct n as [|p]; [lia|]. rewrite flag_size_bit by done.
      destruct (N.leb_spec (2 ^ 31) (N.pos p)); [lia|]. apply Hw.
    + destruct n as [|p]; [done|]. rewrite flag_size_bit by done.
      destruct (N.leb_spec (2 ^ 31) (N.pos p)); [done|lia].
  - rewrite flag_size_bit by done.
    destruct (decide (block_info_ok (Uncompressed n))) as [H|H]; cbn in H;
      (destruct (N.leb_spec (2 ^ 31) n); try lia); [|done].
    mstep. rewrite lor_size_bit by done. apply Hw.
  - apply Hw.
Qed.

Lemma block_read_spec input :
  BlockInfoImpl.read input =
    if len input <? 4 then eof else
    let size := from_le (take 4 input) in
    Ok (if size =? 0 then EndMark
        else if 2 ^ 31 <=? size then Uncompressed (size - 2 ^ 31) else Compressed size).
Proof.
  unfold BlockInfoImpl.read, read_exact. change (N.to_nat 4) with 4%nat.
  destruct (N.ltb_spec (len input) 4); bcase; [done|]. mstep.
  pose proof (from_le_bound (take 4 input)) as Hs. rewrite length_take_le in Hs by lia.
  change (256 ^ N.of_nat 4) with (2 ^ 32) in Hs. cbv zeta.
  destruct (N.eqb_spec (from_le (take 4 input)) 0); [done|].
  rewrite flag_size_bit, clear_size_bit by done.
  destruct (N.leb_spec (2 ^ 31) (from_le (take 4 input))); [|done]. do 2 f_equal. lia.
Qed.
End block_layout.

(** The first of 64 KB, 256 KB and 4 MB that holds the buffer, and the last for
    a larger one. *)
Lemma from_buf_length_spec {E} n :
  BlockSizeImpl.from_buf_length (E:=E) n =
    Ok (if n <=? 65536 then Max64KB else if n <=? 262144 then Max256KB else Max4MB).
Proof.
  unfold BlockSizeImpl.from_buf_length. cbn [BlockSizeImpl.from_candidates BlockSizeImpl.get_size].
  mstep. change (256 * 1024) with 262144. change (64 * 1024) with 65536.
  destruct (N.ltb_spec 262144 n), (N.ltb_spec 65536 n),
    (N.leb_spec n 65536), (N.leb_spec n 262144); done || lia.
Qed.
