(* ===== verification/Display.v ===== *)
(** * The texts of the errors

    [fmt::Display] of the three error types.  A number is shown in decimal by
    [pretty], an identifier as [{:#010x}] does.  The text of an [io::Error]
    without an inner error is the standard library's, and a parameter. *)

From Stdlib Require Import Ascii String.
From stdpp Require Import strings pretty.
From S2P Require Import Prelude Core FrameHeader.

#[local] Open Scope string_scope.
#[local] Open Scope N_scope.

(** ** Definitions *)

Module DecompressErrorDisplay.
Definition fmt (e : DecompressError) : string :=
  match e with
  | OutputTooSmall expected actual =>
      "provided output is too small for the decompressed data, actual " +:+ pretty actual +:+
      ", expected " +:+ pretty expected
  | LiteralOutOfBounds => "literal is out of bounds of the input"
  | ExpectedAnotherByte => "expected another byte, found none"
  | OffsetZero => "0 is not a valid match offset"
  | OffsetOutOfBounds => "the offset to copy is not contained in the decompressed buffer"
  | DecodedSizeMismatch expected actual =>
      "decoded size mismatch, expected " +:+ pretty expected +:+ ", got " +:+ pretty actual
  end.
End DecompressErrorDisplay.

Module CompressErrorDisplay.
Definition fmt (e : CompressError) : string :=
  match e with
  | COutputTooSmall =>
      "output is too small for the compressed data, use get_maximum_output_size to reserve enough space"
  | InputTooLarge => "input or compression stream is too large for this target"
  end.
End CompressErrorDisplay.

(** A lower-case hexadecimal digit, and the last [k] digits of [n]. *)
Definition hex_digit (n : N) : ascii :=
  ascii_of_N (if n <? 10 then 48 + n else 87 + n).

Fixpoint hex_digits (k : nat) (n : N) (s : string) : string :=
  match k with O => s | S k => hex_digits k (n / 16) (String (hex_digit (n mod 16)) s) end.

(** [{:#010x}] on [u32] *)
Definition hex32 (n : N) : string := "0x" +:+ hex_digits 8 n "".

Module ErrorDisplay.
Section fmt.
Context (simple : ErrorKind -> string).

Fixpoint fmt (e : Error) : string :=
  match e with
  | CompressionError e => "compression error: " +:+ CompressErrorDisplay.fmt e
  | DecompressionError e => "decompression error: " +:+ DecompressErrorDisplay.fmt e
  | IoErr e => "I/O error: " +:+ io_fmt e
  | UnsupportedBlocksize b => "unsupported block size: " +:+ pretty b
  | UnsupportedVersion v => "unsupported frame version: " +:+ pretty v
  | WrongMagicNumber => "wrong magic number"
  | ReservedBitsSet => "reserved bits set in frame descriptor"
  | InvalidBlockInfo => "invalid block header"
  | BlockTooBig => "block larger than frame header allows"
  | HeaderChecksumError => "frame header checksum mismatch"
  | BlockChecksumError => "block checksum mismatch"
  | ContentChecksumError => "content checksum mismatch"
  | SkippableFrame n => "skippable frame (" +:+ pretty n +:+ " bytes)"
  | DictionaryRequiresIndependentBlocks => "dictionary frames can use independent or linked blocks"
  | DictionaryNotSupported => "frame declares a dictionary but no dictionary was provided"
  | DictionaryRequired => "decoder has a dictionary but frame does not declare one"
  | DictIdMismatch expected actual =>
      "dictionary ID mismatch: frame declares " +:+ hex32 expected +:+ ", decoder has " +:+ hex32 actual
  | DecompressedSizeLimit limit actual =>
      "decompressed size limit exceeded: limit " +:+ pretty limit +:+ ", got " +:+ pretty actual
  | ContentLengthError expected actual =>
      "content length mismatch: expected " +:+ pretty expected +:+ ", got " +:+ pretty actual
  end
with io_fmt (x : IoError) : string :=
  match x with Simple k => simple k | Custom _ e => fmt e end.
End fmt.
End ErrorDisplay.

(** ** Texts of numbers *)

Lemma append_inv_head (s t u : string) : s +:+ t = s +:+ u -> t = u.
Proof. induction s as [|c s IH]; cbn; [done|]. intros [= H]. auto. Qed.

(** The character does not occur in the string. *)
Fixpoint free_of (c : ascii) (s : string) : Prop :=
  match s with EmptyString => True | String d s => d <> c /\ free_of c s end.

(** A text that ends at the first [c]. *)
Lemma free_of_split c s1 s2 t1 t2 : free_of c s1 -> free_of c s2 ->
  s1 +:+ String c t1 = s2 +:+ String c t2 -> s1 = s2 /\ t1 = t2.
Proof.
  revert s2. induction s1 as [|d s1 IH]; intros [|e s2]; cbn.
  - by intros _ _ [= ->].
  - by intros _ [He _] [= ->].
  - by intros [Hd _] _ [= ->].
  - intros [_ H1] [_ H2] [= -> He]. by destruct (IH s2 H1 H2 He) as [-> ->].
Qed.

Lemma digit_not c n : c = ","%char \/ c = " "%char -> pretty_N_char n <> c.
Proof. intros [->| ->]; unfold pretty_N_char; repeat case_match; done. Qed.

Lemma pretty_go_free c n s : c = ","%char \/ c = " "%char -> free_of c s -> free_of c (pretty_N_go n s).
Proof.
  intros Hc. revert s. induction (N.lt_wf_0 n) as [n _ IH]; intros s Hs.
  destruct (decide (n = 0)) as [->|Hn]; [by rewrite pretty_N_go_0|].
  rewrite pretty_N_go_step by lia. apply IH; [apply N.div_lt; lia|]. split; [by apply digit_not|done].
Qed.

Lemma pretty_free c (n : N) : c = ","%char \/ c = " "%char -> free_of c (pretty n).
Proof.
  intros Hc. unfold pretty, pretty_N. case_decide; [by destruct Hc as [->| ->]|]. by apply pretty_go_free.
Qed.

(** Two numbers with a separator that no number contains. *)
Lemma pretty_pair_inj c (a1 b1 a2 b2 : N) sep : c = ","%char \/ c = " "%char ->
  pretty a1 +:+ String c sep +:+ pretty b1 = pretty a2 +:+ String c sep +:+ pretty b2 -> a1 = a2 /\ b1 = b2.
Proof.
  intros Hc Hs. apply free_of_split in Hs as [Ha Hb]; [|by apply pretty_free..].
  apply append_inv_head in Hb. apply (inj pretty) in Ha. by apply (inj pretty) in Hb.
Qed.

Lemma hex_digit_inj a b : a < 16 -> b < 16 -> hex_digit a = hex_digit b -> a = b.
Proof.
  unfold hex_digit. intros Ha Hb. destruct (N.ltb_spec a 10), (N.ltb_spec b 10);
    intros Hd%(f_equal N_of_ascii); rewrite !N_ascii_embedding in Hd by lia; lia.
Qed.

Lemma hex_digits_inj k a b s t : hex_digits k a s = hex_digits k b t -> String.length s = String.length t ->
  a mod 16 ^ N.of_nat k = b mod 16 ^ N.of_nat k /\ s = t.
Proof.
  revert a b s t. induction k as [|k IH]; intros a b s t; cbn [hex_digits]; [by rewrite !N.mod_1_r|].
  intros Hd Hl. apply IH in Hd as [Hq [= Hr ->]]; [|by cbn; rewrite Hl]. split; [|done].
  apply hex_digit_inj in Hr; [|by apply N.mod_lt..].
  rewrite Nat2N.inj_succ, N.pow_succ_r', !(N.Div0.mod_mul_r _ 16). congruence.
Qed.

Lemma append_inv_length (s1 s2 t1 t2 : string) : String.length s1 = String.length s2 ->
  s1 +:+ t1 = s2 +:+ t2 -> s1 = s2 /\ t1 = t2.
Proof.
  revert s2. induction s1 as [|c s1 IH]; intros [|d s2]; cbn; try done. intros [= Hl] [= -> Ht].
  by destruct (IH s2 Hl Ht) as [-> ->].
Qed.

Lemma hex32_inj a b : a < 2 ^ 32 -> b < 2 ^ 32 -> hex32 a = hex32 b -> a = b.
Proof.
  intros Ha Hb Hh%append_inv_head. apply hex_digits_inj in Hh as [Hm _]; [|done].
  change (16 ^ N.of_nat 8) with (2 ^ 32) in Hm. by rewrite !N.mod_small in Hm.
Qed.

Lemma hex32_pair_inj a1 b1 a2 b2 sep : a1 < 2 ^ 32 -> b1 < 2 ^ 32 -> a2 < 2 ^ 32 -> b2 < 2 ^ 32 ->
  hex32 a1 +:+ sep +:+ hex32 b1 = hex32 a2 +:+ sep +:+ hex32 b2 -> a1 = a2 /\ b1 = b2.
Proof.
  intros ? ? ? ? (Ha & Hb%append_inv_head)%append_inv_length; [|done].
  split; by apply hex32_inj.
Qed.

(** ** The text of an error determines the error *)

Lemma decompress_error_text_inj e1 e2 : DecompressErrorDisplay.fmt e1 = DecompressErrorDisplay.fmt e2 -> e1 = e2.
Proof.
  destruct e1, e2; cbn [DecompressErrorDisplay.fmt]; try done; intros H%append_inv_head.
  - by apply (pretty_pair_inj ","%char _ _ _ _ " expected ") in H as [-> ->]; [|left].
  - by apply (pretty_pair_inj ","%char _ _ _ _ " got ") in H as [-> ->]; [|left].
Qed.

Lemma compress_error_text_inj e1 e2 : CompressErrorDisplay.fmt e1 = CompressErrorDisplay.fmt e2 -> e1 = e2.
Proof. by destruct e1, e2. Qed.

(** The identifiers of an error have 32 bits. *)
Definition ids_ok (e : Error) : Prop :=
  match e with DictIdMismatch a b => a < 2 ^ 32 /\ b < 2 ^ 32 | _ => True end.

Definition wraps_io (e : Error) : Prop := exists x, e = IoErr x.

(** C31: the text of an error of the frame module determines the error, unless it
    is that of an [io::Error]: texts of different errors differ, and so do those
    of one kind with different numbers. *)
Theorem error_text_determines_error simple e1 e2 : ids_ok e1 -> ids_ok e2 -> ~ wraps_io e1 -> ~ wraps_io e2 ->
  ErrorDisplay.fmt simple e1 = ErrorDisplay.fmt simple e2 -> e1 = e2.
Proof.
  intros Hi1 Hi2 Hw1 Hw2.
  destruct e1, e2; cbn [ErrorDisplay.fmt]; try (by destruct Hw1; eexists); try (by destruct Hw2; eexists);
    try done; try (intros H%append_inv_head; first
      [ by apply compress_error_text_inj in H as -> | by apply decompress_error_text_inj in H as ->
      | by apply (inj pretty) in H as -> ]).
  - intros H%append_inv_head. apply free_of_split in H as [H _]; [|apply pretty_free; by right..].
    by apply (inj pretty) in H as ->.
  - intros H%append_inv_head. destruct Hi1, Hi2. by apply hex32_pair_inj in H as [-> ->].
  - intros H%append_inv_head. by apply (pretty_pair_inj ","%char _ _ _ _ " got ") in H as [-> ->]; [|left].
  - intros H%append_inv_head. by apply (pretty_pair_inj ","%char _ _ _ _ " got ") in H as [-> ->]; [|left].
Qed.

Lemma error_text_determines_error_witness :
  ids_ok (DictIdMismatch 1 2) /\ ~ wraps_io (DictIdMismatch 1 2) /\
  ErrorDisplay.fmt (fun _ => "") (DictIdMismatch 1 2) =
    "dictionary ID mismatch: frame declares 0x00000001, decoder has 0x00000002" /\
  DictIdMismatch 1 2 = DictIdMismatch 1 2.
Proof.
  assert (Hi : ids_ok (DictIdMismatch 1 2)) by (split; lia).
  assert (Hw : ~ wraps_io (DictIdMismatch 1 2)) by (by intros [x ?]).
  split_and!; [exact Hi|exact Hw|vm_compute; reflexivity|].
  by apply (error_text_determines_error (fun _ => "") _ _ Hi Hi Hw Hw).
Defined.
