(* ===== verification/FrameTheorems.v ===== *)
(** * Theorems on frame errors and headers

    The wire format of the frame descriptor and of the block headers. *)

From S2P Require Import Prelude Core FrameHeader.

(** ** Data of the witnesses *)

(** A stand-in for the checksum, and a descriptor with every optional field. *)
Definition toy_hash (l : bytes) : N := 2654435761 * from_le l.
Definition sample_info : FrameInfo :=
  {| content_size := Some 100000; dict_id := Some 7; block_size := Max256KB;
     block_mode := Linked; block_checksums := true; content_checksum := false |}.
Definition sample_output : bytes := replicate 21 xff.
Definition sample_header : bytes := header_bytes toy_hash sample_info ++ [x2a].

Section headers.
Context (xxh32 : bytes -> N).
Implicit Types (info : FrameInfo) (input output rest : bytes).

(** C29: what [FrameInfo::write] puts at the front of the output, whatever
    follows it, [FrameInfo::read] reads back as the same descriptor, and
    [read_size] finds its length; the output keeps its length and its tail. *)
Theorem frame_info_round_trip info output :
  info_ok info -> write_size info <= len output ->
  exists output', write xxh32 info output = Ok (output', write_size info) /\
    length output' = length output /\
    drop (N.to_nat (write_size info)) output' = drop (N.to_nat (write_size info)) output /\
    forall rest, let input := take (N.to_nat (write_size info)) output' ++ rest in
      read xxh32 input = Ok info /\ read_size input = Ok (write_size info).
Proof.
  intros Hok Hlen. exists (splice output 0 (header_bytes xxh32 info)).
  pose proof (length_header_bytes xxh32 info) as Hl. split_and!.
  - by apply write_ok.
  - rewrite length_splice by len_lia. done.
  - apply drop_written.
  - intros rest. rewrite take_written by done.
    split; [by apply read_header_bytes|apply read_size_header_bytes].
Qed.

(** C30: [FrameInfo::read] accepts only the canonical form: the bytes of an
    accepted header are the ones [FrameInfo::write] gives for the descriptor
    that was read. *)
Theorem frame_info_canonical info input output :
  read xxh32 input = Ok info -> write_size info <= len output ->
  info_ok info /\ write_size info <= len input /\
  write xxh32 info output
    = Ok (splice output 0 (take (N.to_nat (write_size info)) input), write_size info).
Proof.
  intros [Hok [rest ->]]%read_inv Hlen. pose proof (length_header_bytes xxh32 info) as Hl.
  split_and!; [done|len_lia|]. rewrite take_app_length' by lia. by apply write_ok.
Qed.

(** [FrameInfo::read] returns a descriptor or an error on every byte
    string, and every outcome other than the end of the input is final: it
    stays the same when more input follows. *)
Theorem frame_info_read_incremental input rest :
  (read xxh32 input <> Panic /\ read xxh32 input <> NoFuel) /\
  (read xxh32 input = Err (IoErr (Simple UnexpectedEof)) \/
   read xxh32 (input ++ rest) = read xxh32 input).
Proof. split; [apply no_panic_read|apply read_prefix]. Qed.

(** A written header that is cut short, at any byte, reads as the end of
    the input and as nothing else. *)
Theorem frame_info_truncated info output n :
  info_ok info -> write_size info <= len output -> n < write_size info ->
  exists output', write xxh32 info output = Ok (output', write_size info) /\
    read xxh32 (take (N.to_nat n) output') = Err (IoErr (Simple UnexpectedEof)).
Proof.
  intros Hok Hlen Hn. exists (splice output 0 (header_bytes xxh32 info)).
  pose proof (length_header_bytes xxh32 info) as Hl. split.
  - by apply write_ok.
  - replace (N.to_nat n) with (N.to_nat n `min` N.to_nat (write_size info))%nat by lia.
    rewrite <-take_take, take_written by done. by apply read_truncated.
Qed.

(** [FrameInfo::write] fails in two ways only, an output shorter than
    [write_size] and a block size left at [Auto], in this order. *)
Theorem frame_info_write_error info output e :
  write xxh32 info output = Err e <->
    (len output < write_size info /\ e = IoErr (Simple UnexpectedEof)) \/
    (write_size info <= len output /\ block_size info = Auto /\ e = UnsupportedBlocksize 0).
Proof.
  pose proof (length_header_bytes xxh32 info) as Hl. rewrite write_spec.
  destruct (N.ltb_spec (len output) (write_size info)).
  { split; [intros [= <-]; auto|]. intros [[_ ->]|[? _]]; [done|lia]. }
  destruct (block_size info); [|rewrite write_at_ok by lia; mstep..];
    (split; [try (intros [= <-]; auto); done|intros [[? _]|(_ & ? & ->)]; [lia|done]]).
Qed.
End headers.

(** A block header is written exactly when its length fits in 31 bits and
    a compressed block is not empty; the four bytes read back as the same
    header, whatever follows, and every four bytes that read as a header are
    the ones it is written to. *)
Theorem block_info_round_trip (i : BlockInfo) (output rest : bytes) :
  block_info_u32 i -> 4 <= len output ->
  if decide (block_info_ok i) then
    exists output', BlockInfoImpl.write i output = Ok (output', 4) /\
      drop 4 output' = drop 4 output /\
      BlockInfoImpl.read (take 4 output' ++ rest) = Ok i /\
      forall input, BlockInfoImpl.read input = Ok i -> take 4 input = take 4 output'
  else BlockInfoImpl.write i output = Err InvalidBlockInfo.
Proof.
  intros Hi Hlen. rewrite block_write_spec by done. destruct (decide _) as [Hok|]; [|done]. bcase.
  exists (splice output 0 (to_le 4 (block_word i))). split_and!; [done|done|..].
  - change (take 4 (splice output 0 (to_le 4 (block_word i)))) with (to_le 4 (block_word i)).
    rewrite block_read_spec. bcase. cbv zeta. rewrite take_app_length' by done.
    rewrite from_le_to_le, N.mod_small by (destruct i; cbn in *; lia).
    destruct i as [n|n|]; cbn in *; repeat (bcase; try lia); do 3 f_equal; lia.
  - change (take 4 (splice output 0 (to_le 4 (block_word i)))) with (to_le 4 (block_word i)).
    intros input. rewrite block_read_spec. bcase; [done|]. cbv zeta. intros [= Hr].
    assert (length (take 4 input) = 4%nat) as Ht by (rewrite length_take; lia).
    rewrite <-(to_le_from_le (take 4 input)), Ht. f_equal. rewrite <-Hr.
    repeat (bcase; try lia); cbn; lia.
Qed.

(** An error of the frame module survives the trip through [io::Error]
    and back, unless it already wraps a boxed one, which is then unwrapped. *)
Theorem error_io_round_trip (e : Error) :
  error_of_io (io_of_error e) = match e with IoErr (Custom _ e) => e | _ => e end.
Proof. destruct e as [| |[] | | | | | | | | | | | | | | | |]; done. Qed.

Lemma frame_info_round_trip_witness :
  exists output', write toy_hash sample_info sample_output = Ok (output', 19) /\
    read toy_hash (take 19 output' ++ [x2a]) = Ok sample_info.
Proof.
  destruct (frame_info_round_trip toy_hash sample_info sample_output) as (o & Hw & _ & _ & Hr).
  - split_and!; [done|by intros ? [= <-]..].
  - vm_compute. discriminate.
  - exists o. split; [exact Hw|exact (proj1 (Hr [x2a]))].
Defined.

Lemma frame_info_canonical_witness :
  read toy_hash sample_header = Ok sample_info /\
  write toy_hash sample_info sample_output
    = Ok (splice sample_output 0 (take 19 sample_header), 19).
Proof.
  assert (H : read toy_hash sample_header = Ok sample_info) by (vm_compute; reflexivity).
  split; [exact H|].
  apply (frame_info_canonical toy_hash sample_info sample_header sample_output H).
  vm_compute. discriminate.
Defined.

Lemma frame_info_truncated_witness :
  exists output', write toy_hash sample_info sample_output = Ok (output', 19) /\
    read toy_hash (take 18 output') = Err (IoErr (Simple UnexpectedEof)).
Proof.
  apply (frame_info_truncated toy_hash sample_info sample_output 18).
  - split_and!; [done|by intros ? [= <-]..].
  - vm_compute. discriminate.
  - vm_compute. reflexivity.
Defined.

Lemma block_info_round_trip_witness :
  exists output', BlockInfoImpl.write (Uncompressed 65536) sample_output = Ok (output', 4) /\
    BlockInfoImpl.read (take 4 output' ++ [x2a]) = Ok (Uncompressed 65536).
Proof.
  destruct (block_info_round_trip (Uncompressed 65536) sample_output [x2a]) as (o & Hw & _ & Hr & _).
  - vm_compute. reflexivity.
  - vm_compute. discriminate.
  - exists o. split; [exact Hw|exact Hr].
Defined.
