(* ===== verification/DictTrainer.v ===== *)
(** * The dictionary trainer ([crates/encode/src/dict.rs])

    The sample window of [DictTrainer] and the COVER selection: hashing of
    every 8-byte position, frequencies per hash, prefix sums, the greedy choice
    of segments and the assembly of the dictionary.  Array accesses, checked
    subtractions and counters are those of the source, each with its panic. *)

From stdpp Require Import sets.
From S2P Require Import Prelude Core.

(** ** Counted loops *)

(** [for i in a..b { body }] *)
Fixpoint for_loop {E S} (n : nat) (i : N) (body : N -> S -> res E S) (s : S) : res E S :=
  match n with
  | O => Ok s
  | Datatypes.S n => s ← body i s; for_loop n (i + 1) body s
  end.

Definition for_range {E S} (a b : N) (body : N -> S -> res E S) (s : S) : res E S :=
  for_loop (N.to_nat (b - a)) a body s.

(** [l[i] = v] *)
Definition store {E A} (l : list A) (i : N) (v : A) : res E (list A) := write_at l i [v].

(** ** The trainer *)

Record DictTrainer := {
  max_dict_size : N;
  samples : list bytes;
  total_bytes : N
}.

Definition D : N := 8.
Definition FREQ_BITS : N := 16.
Definition FREQ_SIZE : N := N.shiftl 1 FREQ_BITS.
Definition FREQ_MASK : N := FREQ_SIZE - 1.

Section cover.
Context `{T : Target} {E : Type}.
Implicit Types (concat dict : bytes) (hashes freqs prefix : list N) (used : list bool).

Definition hash_dmer (data : bytes) : res E N :=
  b ← slice data 0 8;
  Ok (((from_le b * 11400714819323198485) mod 2 ^ 64) mod 2 ^ usize_bits).

(** The concatenation and the offsets of the samples in it. *)
Fixpoint concat_samples (samples : list bytes) concat (offsets : list N) : bytes * list N :=
  match samples with
  | [] => (concat, offsets ++ [len concat])
  | sample :: samples => concat_samples samples (concat ++ sample) (offsets ++ [len concat])
  end.

Definition hash_positions concat (num_dmers : N) : res E (list N) :=
  for_range 0 num_dmers (fun i hashes =>
    data ← slice concat i (i + D);
    h ← hash_dmer data;
    store hashes i (N.land h FREQ_MASK mod 2 ^ 32)) (replicate (N.to_nat num_dmers) 0).

(** [freqs[hashes[i] as usize] += 1] *)
Definition count_dmer hashes (i : N) freqs : res E (list N) :=
  h ← index hashes i;
  f ← index freqs h;
  f ← checked_sum u32_max f 1;
  store freqs h f.

Definition count_sample hashes (offsets : list N) (s : N) freqs : res E (list N) :=
  start ← index offsets s;
  last ← index offsets (s + 1);
  n ← usub last start;
  if n <? D then Ok freqs else
  e ← usub last D;
  for_range start (e + 1) (count_dmer hashes) freqs.

Definition count_dmers hashes offsets (count : N) : res E (list N) :=
  for_range 0 count (count_sample hashes offsets) (replicate (N.to_nat FREQ_SIZE) 0).

Definition prefix_sums hashes freqs (num_dmers : N) : res E (list N) :=
  prefix ← store (replicate (N.to_nat (num_dmers + 1)) 0) 0 0;
  for_range 0 num_dmers (fun i prefix =>
    p ← index prefix i;
    h ← index hashes i;
    f ← index freqs h;
    v ← checked_sum u64_max p f;
    store prefix (i + 1) v) prefix.

(** The position and the score of the best unused segment. *)
Definition best_segment prefix used (positions seg_dmers : N) : res E (N * N) :=
  for_range 0 positions (fun pos '(best_pos, best_score) =>
    u ← index used pos;
    if (u : bool) then Ok (best_pos, best_score) else
    b ← index prefix (pos + seg_dmers);
    a ← index prefix pos;
    score ← usub b a;
    Ok (if best_score <? score then (pos, score) else (best_pos, best_score))) (0, 0).

(** [freqs[hashes[i] as usize] = 0] over the segment. *)
Definition clear_segment hashes (best_pos seg_dmers : N) freqs : res E (list N) :=
  for_range best_pos (best_pos + seg_dmers) (fun i freqs =>
    h ← index hashes i;
    _ ← index freqs h;
    store freqs h 0) freqs.

(** [used[a..b].fill(true)] *)
Definition fill_used used (a b : N) : res E (list bool) :=
  s ← slice used a b; write_at used a (replicate (length s) true).

Section select.
Context (concat_len dict_size k seg_dmers num_dmers : N) (hashes : list N).

(** [while collected < dict_size]. *)
Fixpoint select_segments (fuel : nat) freqs used (segments : list (N * N)) (collected : N)
  : res E (list (N * N)) :=
  match fuel with
  | O => NoFuel
  | S fuel =>
      if negb (collected <? dict_size) then Ok segments else
      prefix ← prefix_sums hashes freqs num_dmers;
      last ← usub concat_len k;
      '(best_pos, best_score) ← best_segment prefix used (last + 1) seg_dmers;
      if best_score =? 0 then Ok segments else
      freqs ← clear_segment hashes best_pos seg_dmers freqs;
      used ← fill_used used best_pos (best_pos + k);
      select_segments fuel freqs used (segments ++ [(best_pos, best_score)]) (collected + k)
  end.
End select.

(** The loop over [segments.iter().rev()] and the truncation. *)
Fixpoint append_segments concat (dict_size k : N) (rev_segments : list (N * N)) dict
  : res E bytes :=
  match rev_segments with
  | [] => Ok dict
  | (pos, _) :: rest =>
      let e := N.min (pos + k) (len concat) in
      s ← slice concat pos e;
      let dict := dict ++ s in
      if dict_size <=? len dict then Ok dict else append_segments concat dict_size k rest dict
  end.

Definition build_dict concat (dict_size k : N) (segments : list (N * N)) : res E bytes :=
  dict ← append_segments concat dict_size k (rev segments) [];
  Ok (take (N.to_nat dict_size) dict).

Definition cover_select (samples : list bytes) (dict_size : N) : res E bytes :=
  let '(concat, offsets) := concat_samples samples [] [] in
  if len concat <? D then slice concat 0 (N.min dict_size (len concat)) else
  let num_dmers := len concat - D + 1 in
  hashes ← hash_positions concat num_dmers;
  freqs ← count_dmers hashes offsets (len samples);
  let k := dict_size / 4 in
  if len concat <? k then Ok concat else
  s ← usub k D;
  let seg_dmers := s + 1 in
  let used := replicate (length concat) false in
  segments ← select_segments (len concat) dict_size k seg_dmers num_dmers hashes
               (S (N.to_nat dict_size)) freqs used [] 0;
  build_dict concat dict_size k segments.
End cover.

Module DictTrainerImpl.
Definition new (max_dict_size : N) : DictTrainer :=
  {| max_dict_size := N.min max_dict_size MAX_DISTANCE; samples := []; total_bytes := 0 |}.

(** The [while] loop that drops the oldest samples. *)
Fixpoint evict {E} (budget n : N) (samples : list bytes) (total_bytes : N)
  : res E (list bytes * N) :=
  match samples with
  | sample :: rest =>
      if budget <? total_bytes + n then
        total_bytes ← usub total_bytes (len sample);
        evict budget n rest total_bytes
      else Ok (samples, total_bytes)
  | [] => Ok ([], total_bytes)
  end.

(** The sums stay far below [usize::MAX]: [budget] is at most [8 * 65535] and a
    sample that is added has at most [65535] bytes. *)
Definition add_sample {E} (self : DictTrainer) (data : bytes) : res E DictTrainer :=
  if (len data <? MINMATCH) || (max_dict_size self <? len data) then Ok self else
  let budget := max_dict_size self * 8 in
  '(samples, total_bytes) ← evict budget (len data) (samples self) (total_bytes self);
  Ok {| max_dict_size := max_dict_size self; samples := samples ++ [data];
        total_bytes := total_bytes + len data |}.

Definition sample_count (self : DictTrainer) : N := len (samples self).
Definition total_bytes (self : DictTrainer) : N := DictTrainer.total_bytes self.

Definition train `{T : Target} {E} (self : DictTrainer) : res E bytes :=
  if len (samples self) <? 2 then Ok [] else cover_select (samples self) (max_dict_size self).
End DictTrainerImpl.

(** ** Lemmas on counted loops and array accesses *)

Section loops.
Context {E : Type}.

Lemma for_loop_ok {S} (P : N -> S -> Prop) n a body (s : S) :
  P a s ->
  (forall i s, a <= i < a + N.of_nat n -> P i s -> returns (E:=E) (body i s) (P (i + 1))) ->
  returns (E:=E) (for_loop n a body s) (P (a + N.of_nat n)).
Proof.
  revert a s. induction n as [|n IH]; intros a s Ha Hb; cbn [for_loop].
  - apply returns_ok. by rewrite N.add_0_r.
  - apply returns_bind. destruct (Hb a s) as (s' & -> & Hs'); [lia|done|].
    exists s'. split; [done|]. replace (a + N.of_nat (Datatypes.S n))
      with (a + 1 + N.of_nat n) by lia.
    apply IH; [done|]. intros i t Hi. apply Hb. lia.
Qed.

Lemma for_range_ok {S} (P : N -> S -> Prop) a b body (s : S) :
  a <= b -> P a s -> (forall i s, a <= i < b -> P i s -> returns (E:=E) (body i s) (P (i + 1))) ->
  returns (E:=E) (for_range a b body s) (P b).
Proof.
  intros Hab Ha Hb. unfold for_range.
  replace b with (a + N.of_nat (N.to_nat (b - a))) at 2 by lia.
  apply for_loop_ok; [done|]. intros i t Hi. apply Hb. lia.
Qed.

Lemma store_ok {A} (l : list A) i v :
  i < len l -> store (E:=E) l i v = Ok (<[N.to_nat i := v]> l).
Proof.
  intros Hi. unfold store. rewrite write_at_ok by (cbn; lia). f_equal. unfold splice.
  rewrite insert_take_drop by lia. do 2 f_equal. cbn. f_equal. lia.
Qed.

Lemma index_total `{Inhabited A} (l : list A) i :
  i < len l -> index (E:=E) l i = Ok (l !!! N.to_nat i).
Proof.
  intros Hi. destruct (index_ok (E:=E) l i Hi) as (x & Hx & ->).
  by rewrite (list_lookup_total_correct _ _ _ Hx).
Qed.
End loops.

(** ** Reference scores *)

Section scores.
Context (hashes freqs : list N).

(** The frequency counted for the 8 bytes at a position. *)
Definition weight (i : N) : N := freqs !!! N.to_nat (hashes !!! N.to_nat i).

(** The score of [n] positions from [i]. *)
Fixpoint score (n : nat) (i : N) : N :=
  match n with O => 0 | S n => weight i + score n (i + 1) end.

Lemma score_add n m i : score (n + m) i = score n i + score m (i + N.of_nat n).
Proof.
  revert i. induction n as [|n IH]; intros i; cbn [score Nat.add].
  - by rewrite N.add_0_l, N.add_0_r.
  - rewrite IH. replace (i + 1 + N.of_nat n) with (i + N.of_nat (S n)) by lia. lia.
Qed.

Lemma score_bound n i m :
  (forall j, i <= j < i + N.of_nat n -> weight j <= m) -> score n i <= N.of_nat n * m.
Proof.
  revert i. induction n as [|n IH]; intros i Hw; cbn [score]; [lia|].
  assert (weight i <= m) by (apply Hw; lia).
  assert (score n (i + 1) <= N.of_nat n * m) by (apply IH; intros j Hj; apply Hw; lia). lia.
Qed.
End scores.

Lemma total_le (l : list N) m i :
  Forall (fun x => x <= m) l -> (i < length l)%nat -> l !!! i <= m.
Proof.
  intros Hl [x Hx]%lookup_lt_is_Some. rewrite (list_lookup_total_correct _ _ _ Hx).
  by eapply Forall_lookup in Hl.
Qed.

(** ** Reference counts *)

(** The hash of eight bytes: the 16 low bits of a product of 64 bits. *)
Definition dmer_hash (w : bytes) : N := (from_le w * 11400714819323198485) mod 2 ^ 64 mod 2 ^ 16.

(** The runs of eight bytes of a text, and their hashes. *)
Definition dmers (text : bytes) : list bytes :=
  (fun i => sub text (N.of_nat i) 8) <$> seq 0 (length text - 7).
Definition dmer_hashes (text : bytes) : list N := dmer_hash <$> dmers text.

(** The occurrences of a hash. *)
Definition occurrences (hs : list N) (h : N) : N := len (filter (eq h) hs).

(** How often the runs inside the samples have a hash. *)
Definition frequency (ss : list bytes) (h : N) : N := occurrences (concat (dmer_hashes <$> ss)) h.

(** A table of the occurrences in a list. *)
Definition counted (hs freqs : list N) : Prop :=
  forall h, h < FREQ_SIZE -> freqs !!! N.to_nat h = occurrences hs h.

Lemma occurrences_app hs hs' h : occurrences (hs ++ hs') h = occurrences hs h + occurrences hs' h.
Proof. unfold occurrences. rewrite list.filter_app. len_lia. Qed.

Lemma occurrences_one x h : occurrences [x] h = if bool_decide (h = x) then 1 else 0.
Proof. unfold occurrences. rewrite list.filter_cons. by case_bool_decide; case_decide. Qed.

Lemma length_dmer_hashes text : length (dmer_hashes text) = (length text - 7)%nat.
Proof. unfold dmer_hashes, dmers. by rewrite !length_fmap, length_seq. Qed.

Lemma dmer_hashes_lookup text i : (i < length text - 7)%nat ->
  dmer_hashes text !! i = Some (dmer_hash (sub text (N.of_nat i) 8)).
Proof. intros Hi. unfold dmer_hashes, dmers. by rewrite !list_lookup_fmap, lookup_seq_lt by done. Qed.

(** The hashes of a sample are those at its place in the text. *)
Lemma dmer_hashes_sub a s b :
  sub (dmer_hashes (a ++ s ++ b)) (len a) (len s - 7) = dmer_hashes s.
Proof.
  unfold sub. apply list_eq. intros i. destruct (decide (i < length s - 7)%nat) as [Hi|Hi].
  - rewrite lookup_take_lt by lia. rewrite lookup_drop, !dmer_hashes_lookup by len_lia. do 2 f_equal.
    unfold sub. rewrite drop_app_ge by lia. rewrite drop_app_le by len_lia.
    rewrite take_app_le by len_lia. do 2 f_equal. len_lia.
  - rewrite lookup_take_ge by lia. symmetry. apply lookup_ge_None. rewrite length_dmer_hashes. lia.
Qed.

(** ** The tables of the selection *)

Section tables.
Context `{T : Target} {E : Type} (num_dmers : N) (hashes : list N).

(** One hash per position, each an index of [freqs]. *)
Definition hashes_ok : Prop := len hashes = num_dmers /\ Forall (fun h => h < FREQ_SIZE) hashes.

(** A frequency table whose counters are at most [m]. *)
Definition freqs_ok (m : N) (freqs : list N) : Prop :=
  len freqs = FREQ_SIZE /\ Forall (fun f => f <= m) freqs.

Lemma hash_lt i : hashes_ok -> i < num_dmers -> hashes !!! N.to_nat i < FREQ_SIZE.
Proof.
  intros [Hl Hh] Hi. destruct (lookup_some hashes i) as [h Hx]; [lia|].
  rewrite (list_lookup_total_correct _ _ _ Hx). by eapply Forall_lookup in Hh.
Qed.

Lemma freqs_ok_mono m m' freqs : freqs_ok m freqs -> m <= m' -> freqs_ok m' freqs.
Proof.
  intros [Hl Hf] Hm. split; [done|]. eapply Forall_impl; [|exact Hf]. cbn. lia.
Qed.

Lemma count_dmer_ok m i hs freqs :
  hashes_ok -> i < num_dmers -> m < u32_max -> freqs_ok m freqs -> counted hs freqs ->
  returns (E:=E) (count_dmer hashes i freqs) (fun freqs' =>
    freqs_ok (m + 1) freqs' /\ counted (hs ++ [hashes !!! N.to_nat i]) freqs').
Proof.
  intros Hh Hi Hm [Hl Hf] Hc. pose proof (hash_lt i Hh Hi). pose proof Hh as [Hn _].
  unfold count_dmer. rewrite index_total by lia. mstep. rewrite index_total by lia. mstep.
  pose proof (total_le freqs m (N.to_nat (hashes !!! N.to_nat i)) Hf ltac:(lia)).
  rewrite checked_sum_ok by lia. mstep. rewrite store_ok by lia. apply returns_ok.
  destruct (freqs_ok_mono m (m + 1) freqs) as [_ Hf']; [done|lia|].
  split; [split; [by rewrite length_insert|apply Forall_insert; [done|lia]]|].
  intros h Hh'. rewrite occurrences_app, occurrences_one. case_bool_decide as He.
  - subst h. rewrite list_lookup_total_insert_eq by lia. by rewrite Hc.
  - rewrite list_lookup_total_insert_ne by lia. rewrite Hc by done. lia.
Qed.

Lemma sub_snoc i n : hashes_ok -> i + n < num_dmers ->
  sub hashes i (n + 1) = sub hashes i n ++ [hashes !!! N.to_nat (i + n)].
Proof.
  intros [Hl _] Hn. unfold sub. replace (N.to_nat (n + 1)) with (S (N.to_nat n)) by lia.
  apply take_S_r. rewrite lookup_drop. replace (N.to_nat i + N.to_nat n)%nat with (N.to_nat (i + n)) by lia.
  apply list_lookup_lookup_total_lt. lia.
Qed.

(** The offsets of [count] samples that fill the positions. *)
Definition offsets_ok (offsets : list N) (count total : N) : Prop :=
  len offsets = count + 1 /\
  (forall s, s < count -> offsets !!! N.to_nat s <= offsets !!! N.to_nat (s + 1)) /\
  offsets !!! N.to_nat 0 = 0 /\ offsets !!! N.to_nat count = total.

Lemma count_sample_ok offsets count total s hs freqs :
  hashes_ok -> offsets_ok offsets count total -> total + 1 <= num_dmers + D ->
  total < u32_max -> s < count -> offsets !!! N.to_nat (s + 1) <= total ->
  freqs_ok (offsets !!! N.to_nat s) freqs -> counted hs freqs ->
  let a := offsets !!! N.to_nat s in
  let b := offsets !!! N.to_nat (s + 1) in
  returns (E:=E) (count_sample hashes offsets s freqs) (fun freqs' =>
    freqs_ok b freqs' /\ counted (hs ++ sub hashes a (b - a - 7)) freqs').
Proof.
  intros Hh (Ho & Hmono & _) Ht Hu Hs Hle Hf Hc a b. unfold count_sample. specialize (Hmono s Hs).
  rewrite index_total by lia. mstep. rewrite index_total by lia. mstep. fold a b. fold a b in Hmono, Hle. fold a in Hf.
  rewrite (usub_ok b a) by done. mstep.
  unfold D in *. destruct (N.ltb_spec (b - a) 8).
  { apply returns_ok. split; [by eapply freqs_ok_mono|]. replace (b - a - 7) with 0 by lia.
    unfold sub. cbn [take N.to_nat]. by rewrite app_nil_r. }
  access. eapply returns_mono; [apply (for_range_ok (fun i f =>
    freqs_ok i f /\ counted (hs ++ sub hashes a (i - a)) f)); [lia| |]|].
  - split; [done|]. rewrite N.sub_diag. unfold sub. cbn [take N.to_nat]. by rewrite app_nil_r.
  - intros i f Hi [Hfi Hci]. replace (i + 1 - a) with (i - a + 1) by lia. rewrite sub_snoc by (done || lia).
    replace (a + (i - a)) with i by lia. rewrite app_assoc. apply count_dmer_ok; done || lia.
  - cbn beta. intros f [Hf' Hc']. split; [eapply freqs_ok_mono; [done|lia]|].
    by replace (b - a - 7) with (b - 8 + 1 - a) by lia.
Qed.

Lemma offsets_le offsets count total s :
  offsets_ok offsets count total -> s <= count -> offsets !!! N.to_nat s <= total.
Proof.
  intros (_ & Hm & _ & Ht) Hs. rewrite <-Ht. clear Ht.
  assert (forall n, s + N.of_nat n <= count ->
    offsets !!! N.to_nat s <= offsets !!! N.to_nat (s + N.of_nat n)) as H.
  { induction n as [|n IH]; intros Hn; [by rewrite N.add_0_r|].
    etrans; [apply IH; lia|]. replace (s + N.of_nat (S n)) with (s + N.of_nat n + 1) by lia.
    apply Hm. lia. }
  specialize (H (N.to_nat (count - s))). replace (s + N.of_nat (N.to_nat (count - s)))
    with count in H by lia. apply H. lia.
Qed.

(** The hashes at the places of [n] samples. *)
Definition placed (offsets : list N) (n : nat) : list N :=
  concat ((fun s => sub hashes (offsets !!! s) (offsets !!! S s - offsets !!! s - 7)) <$> seq 0 n).

Lemma count_dmers_ok offsets count total :
  hashes_ok -> offsets_ok offsets count total -> total + 1 <= num_dmers + D ->
  total < u32_max ->
  returns (E:=E) (count_dmers hashes offsets count) (fun freqs =>
    freqs_ok total freqs /\ counted (placed offsets (N.to_nat count)) freqs).
Proof.
  intros Hh Ho Ht Hu. pose proof Ho as (_ & _ & H0 & Hc). unfold count_dmers. eapply returns_mono;
    [apply (for_range_ok (fun s f => freqs_ok (offsets !!! N.to_nat s) f /\ counted (placed offsets (N.to_nat s)) f)); [lia|..]
    |cbn beta; by rewrite Hc].
  - split; [split; [rewrite length_replicate; lia|]|].
    + rewrite H0. apply Forall_replicate. lia.
    + intros h Hh'. apply lookup_total_replicate_2. unfold FREQ_SIZE in *. lia.
  - intros s f Hs [Hf Hcs]. unfold placed. replace (N.to_nat (s + 1)) with (S (N.to_nat s)) by lia.
    rewrite seq_S, fmap_app, concat_app. cbn [Nat.add fmap list_fmap concat]. rewrite app_nil_r.
    replace (S (N.to_nat s)) with (N.to_nat (s + 1)) by lia.
    eapply count_sample_ok; [done..|lia| |done|done]. eapply offsets_le; [done|lia].
Qed.
End tables.

(** ** The selection *)

Section selection.
Context `{T : Target} {E : Type} (num_dmers : N) (hashes : list N).
Hypothesis Hhashes : hashes_ok num_dmers hashes.
Hypothesis Hdmers : num_dmers < u32_max.

Lemma weight_le freqs i :
  freqs_ok u32_max freqs -> i < num_dmers -> weight hashes freqs i <= u32_max.
Proof.
  intros [Hl Hf] Hi. pose proof (hash_lt _ _ i Hhashes Hi). apply total_le; [done|lia].
Qed.

(** [prefix[i]] is the score of the first [i] positions. *)
Definition prefix_ok freqs (n : N) (prefix : list N) : Prop :=
  len prefix = num_dmers + 1 /\
  forall i, i <= n -> prefix !!! N.to_nat i = score hashes freqs (N.to_nat i) 0.

Lemma prefix_sums_ok freqs : freqs_ok u32_max freqs ->
  returns (E:=E) (prefix_sums hashes freqs num_dmers) (prefix_ok freqs num_dmers).
Proof.
  intros Hf. pose proof Hf as [Hl _]. pose proof Hhashes as [Hh _]. unfold prefix_sums.
  rewrite store_ok by (rewrite length_replicate; lia). mstep.
  apply (for_range_ok (prefix_ok freqs)); [lia|..].
  { split; [rewrite length_insert, length_replicate; lia|]. intros i Hi.
    replace i with 0 by lia. apply list_lookup_total_insert_eq. rewrite length_replicate. lia. }
  intros i prefix Hi [Hp Hs]. rewrite (index_total prefix i) by lia. mstep. rewrite Hs by lia.
  rewrite (index_total hashes i) by lia. mstep. pose proof (hash_lt _ _ i Hhashes ltac:(lia)).
  rewrite index_total by lia. mstep. fold (weight hashes freqs i).
  pose proof (weight_le freqs i Hf ltac:(lia)).
  assert (score hashes freqs (N.to_nat i) 0 <= N.of_nat (N.to_nat i) * u32_max)
    by (apply score_bound; intros j Hj; apply weight_le; [done|lia]).
  rewrite checked_sum_ok by (unfold u64_max, u32_max in *; nia). mstep.
  rewrite store_ok by lia. apply returns_ok. split; [by rewrite length_insert|].
  intros j Hj. destruct (N.eq_dec j (i + 1)) as [->|].
  - rewrite list_lookup_total_insert_eq by lia.
    replace (N.to_nat (i + 1)) with (N.to_nat i + 1)%nat by lia. rewrite score_add.
    cbn [score]. rewrite N2Nat.id, N.add_0_l. lia.
  - rewrite list_lookup_total_insert_ne by lia. apply Hs. lia.
Qed.

(** The first position of the best score among the unused ones below [n]. *)
Definition best_of freqs (used : list bool) (seg n : N) '(pos, s) : Prop :=
  (s = 0 /\ pos = 0 \/
   pos < n /\ used !!! N.to_nat pos = false /\ 0 < s /\
   s = score hashes freqs (N.to_nat seg) pos /\
   (forall j, j < pos -> used !!! N.to_nat j = false ->
      score hashes freqs (N.to_nat seg) j < s)) /\
  forall j, j < n -> used !!! N.to_nat j = false -> score hashes freqs (N.to_nat seg) j <= s.

Lemma best_segment_ok freqs used prefix positions seg :
  prefix_ok freqs num_dmers prefix -> positions <= len used ->
  (positions = 0 \/ positions + seg <= num_dmers + 1) ->
  returns (E:=E) (best_segment prefix used positions seg)
    (best_of freqs used seg positions).
Proof.
  intros [Hp Hs] Hu Hseg. unfold best_segment.
  apply (for_range_ok (best_of freqs used seg)); [lia|split; [by left|lia]|].
  intros i [pos s] Hi [Hbest Hall]. rewrite (index_total used i) by lia. mstep.
  assert (Hstep : forall j, j < i + 1 -> j = i \/ j < i) by lia.
  destruct (used !!! N.to_nat i) eqn:Hui.
  { apply returns_ok. split; [destruct Hbest as [|(? & ?)]; [by left|right; split; [lia|done]]|].
    intros j [->|]%Hstep Hj; [congruence|auto]. }
  rewrite (index_total prefix (i + seg)), (index_total prefix i) by lia. mstep.
  rewrite !Hs by lia. replace (N.to_nat (i + seg)) with (N.to_nat i + N.to_nat seg)%nat by lia.
  rewrite score_add, N2Nat.id, N.add_0_l. rewrite usub_ok by lia. mstep.
  set (v := score hashes freqs (N.to_nat seg) i).
  replace (score hashes freqs (N.to_nat i) 0 + v - score hashes freqs (N.to_nat i) 0)
    with v by lia.
  destruct (N.ltb_spec s v); apply returns_ok; (split; [|intros j [->|]%Hstep Hj]).
  - right. split_and!; [lia|done|lia|done|]. intros j Hj Hjf. specialize (Hall j Hj Hjf). lia.
  - lia.
  - specialize (Hall j ltac:(done) Hj). lia.
  - destruct Hbest as [|(? & ?)]; [by left|right; split; [lia|done]].
  - lia.
  - auto.
Qed.

(** The counters of the hashes of a segment are reset, the others are kept. *)
Definition cleared (pos seg : N) (freqs freqs' : list N) : Prop :=
  forall h, h < FREQ_SIZE ->
    freqs' !!! N.to_nat h
    = if bool_decide (h ∈ sub hashes pos seg) then 0 else freqs !!! N.to_nat h.

Lemma sub_hashes_snoc pos i : pos <= i -> i < num_dmers ->
  sub hashes pos (i + 1 - pos) = sub hashes pos (i - pos) ++ [hashes !!! N.to_nat i].
Proof.
  intros Hp Hi. destruct Hhashes as [Hl _]. unfold sub.
  replace (N.to_nat (i + 1 - pos)) with (S (N.to_nat (i - pos))) by lia.
  apply take_S_r. rewrite lookup_drop.
  replace (N.to_nat pos + N.to_nat (i - pos))%nat with (N.to_nat i) by lia.
  apply list_lookup_lookup_total_lt. lia.
Qed.

Lemma clear_segment_ok freqs pos seg :
  freqs_ok u32_max freqs -> pos + seg <= num_dmers ->
  returns (E:=E) (clear_segment hashes pos seg freqs)
    (fun freqs' => freqs_ok u32_max freqs' /\ cleared pos seg freqs freqs').
Proof.
  intros Hf Hp. pose proof Hhashes as [Hh _]. unfold clear_segment.
  eapply returns_mono;
    [apply (for_range_ok (fun i f => freqs_ok u32_max f /\ cleared pos (i - pos) freqs f)); [lia|..]
    |cbn; intros f; by replace (pos + seg - pos) with seg by lia].
  { split; [done|]. intros h Hlt. rewrite N.sub_diag.
    change (sub hashes pos 0) with (@nil N). by rewrite bool_decide_false by set_solver. }
  intros i f Hi [[Hl Hle] Hc]. rewrite (index_total hashes i) by lia. mstep.
  pose proof (hash_lt _ _ i Hhashes ltac:(lia)) as Hi'. rewrite (index_total f) by lia. mstep.
  rewrite store_ok by lia. apply returns_ok. split.
  { split; [by rewrite length_insert|]. apply Forall_insert; [done|]. lia. }
  intros h Hlt. rewrite sub_hashes_snoc by lia.
  destruct (N.eq_dec h (hashes !!! N.to_nat i)) as [->|Hne].
  - rewrite list_lookup_total_insert_eq by lia. by rewrite bool_decide_true by set_solver.
  - rewrite list_lookup_total_insert_ne by lia. rewrite (Hc h Hlt).
    erewrite bool_decide_ext; [done|]. set_solver.
Qed.
End selection.

(** The COVER choice: while the dictionary is not full, the first unused
    position of the best positive score; its hashes then count no more. *)
Inductive greedy (hashes : list N) (concat_len dict_size k seg : N)
  : list N -> list bool -> N -> list (N * N) -> Prop :=
| greedy_full freqs used collected :
    dict_size <= collected -> greedy hashes concat_len dict_size k seg freqs used collected []
| greedy_exhausted freqs used collected :
    collected < dict_size ->
    (forall j, j < concat_len - k + 1 -> used !!! N.to_nat j = false ->
       score hashes freqs (N.to_nat seg) j = 0) ->
    greedy hashes concat_len dict_size k seg freqs used collected []
| greedy_pick freqs freqs' used collected pos s more :
    collected < dict_size -> 0 < s ->
    best_of hashes freqs used seg (concat_len - k + 1) (pos, s) ->
    cleared hashes pos seg freqs freqs' ->
    greedy hashes concat_len dict_size k seg freqs'
      (splice used pos (replicate (N.to_nat k) true)) (collected + k) more ->
    greedy hashes concat_len dict_size k seg freqs used collected ((pos, s) :: more).

Section select_ok.
Context `{T : Target} {E : Type} (num_dmers : N) (hashes : list N).
Hypothesis Hhashes : hashes_ok num_dmers hashes.
Hypothesis Hdmers : num_dmers < u32_max.

(** The [while] loop ends, and its segments are the greedy ones. *)
Lemma select_segments_ok fuel concat_len dict_size k seg freqs used segments collected :
  freqs_ok u32_max freqs -> len used = concat_len -> k <= concat_len -> 0 < k ->
  concat_len + seg = num_dmers + k -> (N.to_nat (dict_size - collected) < fuel)%nat ->
  returns (E:=E)
    (select_segments concat_len dict_size k seg num_dmers hashes fuel freqs used segments collected)
    (fun segs => exists more, segs = segments ++ more /\
       greedy hashes concat_len dict_size k seg freqs used collected more).
Proof.
  intros Hf Hu Hk H0 Hseg. revert freqs used segments collected Hf Hu.
  induction fuel as [|fuel IH]; intros freqs used segments collected Hf Hu Hfuel; [lia|].
  cbn [select_segments]. destruct (N.ltb_spec collected dict_size); cbn [negb].
  2: { apply returns_ok. exists []. rewrite app_nil_r. split; [done|by constructor]. }
  destruct (prefix_sums_ok (E:=E) _ _ Hhashes Hdmers freqs Hf) as (prefix & -> & Hp). mstep.
  access.
  destruct (best_segment_ok (E:=E) _ hashes Hdmers freqs used prefix (concat_len - k + 1) seg Hp)
    as ([pos s] & -> & Hb); [lia|right; lia|]. mstep.
  destruct (N.eqb_spec s 0) as [->|].
  { apply returns_ok. exists []. rewrite app_nil_r. split; [done|]. constructor 2; [done|].
    intros j Hj Hju. destruct Hb as [_ Hall]. specialize (Hall j Hj Hju). lia. }
  pose proof Hb as [[[-> _]|(Hpos & _)] _]; [done|].
  destruct (clear_segment_ok (E:=E) _ _ Hhashes Hdmers freqs pos seg Hf) as (freqs' & -> & Hf' & Hc);
    [lia|]. mstep.
  unfold fill_used. access. rewrite write_at_ok by len_lia. mstep.
  assert (Hlk : length (sub used pos (pos + k - pos)) = N.to_nat k) by (rewrite length_sub; lia).
  rewrite Hlk. eapply returns_mono; [apply IH; [done| |lia]|].
  - rewrite length_splice by (rewrite length_replicate; lia). done.
  - intros segs (more & -> & Hg). exists ((pos, s) :: more).
    split; [by rewrite <-app_assoc|]. econstructor; [done|lia|done..].
Qed.
End select_ok.

(** ** The whole selection *)

Section select.
Context `{T : Target} {E : Type}.
Implicit Types (ss : list bytes) (text dict : bytes).

(** The sample text. *)
Definition joined ss : bytes := concat ss.

(** The offsets of the samples in the text. *)
Fixpoint starts (a : N) ss : list N :=
  match ss with [] => [a] | s :: ss => a :: starts (a + len s) ss end.

Lemma concat_samples_eq ss text offsets :
  concat_samples ss text offsets = (text ++ joined ss, offsets ++ starts (len text) ss).
Proof.
  revert text offsets. induction ss as [|s ss IH]; intros text offsets; cbn [concat_samples starts].
  - unfold joined. cbn. by rewrite app_nil_r.
  - rewrite IH. unfold joined. cbn [concat]. rewrite <-!app_assoc. cbn [app].
    do 3 f_equal. f_equal. len_lia.
Qed.

Lemma starts_lookup a ss n : (n <= length ss)%nat ->
  starts a ss !! n = Some (a + len (joined (take n ss))).
Proof.
  revert a n. induction ss as [|s ss IH]; intros a [|n] Hn; cbn in Hn; cbn [starts];
    try lia; cbn [lookup list_lookup take]; unfold joined; cbn [concat].
  - f_equal. cbn. lia.
  - f_equal. cbn. lia.
  - etrans; [apply IH; lia|]. f_equal. unfold joined. len_lia.
Qed.

Lemma length_starts a ss : length (starts a ss) = S (length ss).
Proof. revert a. induction ss as [|s ss IH]; intros a; cbn; [done|]. by rewrite IH. Qed.

Lemma starts_ok ss : offsets_ok (starts 0 ss) (len ss) (len (joined ss)).
Proof.
  assert (Hs : forall n, (n <= length ss)%nat -> starts 0 ss !!! n = len (joined (take n ss))).
  { intros n Hn. rewrite (list_lookup_total_correct _ _ _ (starts_lookup 0 ss n Hn)). lia. }
  split_and!.
  - rewrite length_starts. lia.
  - intros s Hlt. rewrite !Hs by lia. replace (N.to_nat (s + 1)) with (S (N.to_nat s)) by lia.
    destruct (lookup_some ss s) as [x Hx]; [lia|]. rewrite (take_S_r _ _ x Hx).
    unfold joined. rewrite concat_app, length_app. lia.
  - rewrite Hs by lia. done.
  - rewrite Hs by lia. rewrite Nat2N.id, take_ge by lia. done.
Qed.

(** The mask keeps the low bits of a [usize]. *)
Lemma masked_hash (v : N) : N.land (v mod 2 ^ 64 mod 2 ^ usize_bits) FREQ_MASK mod 2 ^ 32 = v mod 2 ^ 64 mod 2 ^ 16.
Proof.
  change FREQ_MASK with (N.ones 16). rewrite N.land_ones, (N.mod_small _ (2 ^ 32)).
  2:{ eapply N.lt_trans; [by apply N.mod_lt|done]. }
  unfold usize_bits. destruct target_width; [|by rewrite (N.mod_small _ (2 ^ 64)) by (by apply N.mod_lt)].
  change (2 ^ 32) with (2 ^ 16 * 2 ^ 16). rewrite N.Div0.mod_mul_r.
  rewrite (N.mul_comm (2 ^ 16)), N.Div0.mod_add. by rewrite N.Div0.mod_mod.
Qed.

Lemma hash_positions_ok text : D <= len text ->
  returns (E:=E) (hash_positions text (len text - D + 1)) (fun hashes =>
    hashes = dmer_hashes text /\ hashes_ok (len text - D + 1) hashes).
Proof.
  unfold D. intros Hn. set (n := len text - 8 + 1). unfold hash_positions. eapply returns_mono.
  - apply (for_range_ok (fun i hashes => len hashes = n /\
      forall j, j < i -> hashes !!! N.to_nat j = dmer_hash (sub text j 8))); [lia|..].
    { split; [rewrite length_replicate; lia|lia]. }
    intros i hashes Hi [Hl Hh]. unfold D, hash_dmer. access. access. rewrite store_ok by lia. apply returns_ok.
    split; [by rewrite length_insert|]. intros j Hj. destruct (N.eq_dec j i) as [->|Hne].
    + rewrite list_lookup_total_insert_eq by lia. rewrite masked_hash. unfold dmer_hash.
      replace (i + 8 - i) with 8 by lia. rewrite N.sub_0_r, sub_0, take_ge by (rewrite length_sub; lia). done.
    + rewrite list_lookup_total_insert_ne by lia. apply Hh. lia.
  - cbn beta. intros hashes [Hl Hh]. assert (hashes = dmer_hashes text) as ->.
    { apply list_eq. intros i. destruct (decide (i < N.to_nat n)%nat) as [Hi|Hi].
      - rewrite dmer_hashes_lookup by lia. specialize (Hh (N.of_nat i) ltac:(lia)). rewrite Nat2N.id in Hh.
        rewrite <-Hh. apply list_lookup_lookup_total_lt. lia.
      - rewrite !(proj2 (lookup_ge_None _ _)); [done|rewrite length_dmer_hashes; lia|lia]. }
    split; [done|]. split; [done|]. unfold dmer_hashes. apply Forall_fmap, list.Forall_forall. intros w _.
    unfold compose, dmer_hash. change FREQ_SIZE with (2 ^ 16). by apply N.mod_lt.
Qed.

(** The samples are in their places. *)
Lemma placed_samples ss :
  placed (dmer_hashes (joined ss)) (starts 0 ss) (length ss) = concat (dmer_hashes <$> ss).
Proof.
  unfold placed. f_equal. apply list_eq. intros i. rewrite !list_lookup_fmap.
  destruct (ss !! i) as [s|] eqn:Hs.
  - pose proof (lookup_lt_Some _ _ _ Hs) as Hi. rewrite lookup_seq_lt by done. cbn. f_equal.
    pose proof (starts_lookup 0 ss i ltac:(lia)) as H1%list_lookup_total_correct.
    pose proof (starts_lookup 0 ss (S i) ltac:(lia)) as H2%list_lookup_total_correct. rewrite H1, H2, !N.add_0_l.
    rewrite (take_S_r _ _ _ Hs). rewrite <-(take_drop_middle _ _ _ Hs) at 1.
    unfold joined. rewrite !concat_app. cbn [concat]. rewrite app_nil_r, length_app.
    match goal with |- sub _ _ ?n = _ => replace n with (len s - 7) by lia end. apply dmer_hashes_sub.
  - rewrite (proj2 (lookup_ge_None _ _)); [done|]. rewrite length_seq. by apply lookup_ge_None.
Qed.

(** The text of the segments, last chosen first. *)
Definition segment_text text (k : N) (segments : list (N * N)) : bytes :=
  concat ((fun '(pos, _) => sub text pos k) <$> rev segments).

Lemma append_segments_ok text dict_size k segs dict :
  Forall (fun '(pos, _) => pos + k <= len text) segs ->
  returns (E:=E) (append_segments text dict_size k segs dict) (fun dict' =>
    take (N.to_nat dict_size) dict'
    = take (N.to_nat dict_size)
        (dict ++ concat ((fun '(pos, _) => sub text pos k) <$> segs))).
Proof.
  revert dict. induction segs as [|[pos s] segs IH]; intros dict Hs; cbn [append_segments].
  - apply returns_ok. cbn. by rewrite app_nil_r.
  - apply Forall_cons_iff in Hs as [Hp Hs]. rewrite N.min_l by lia. access.
    replace (pos + k - pos) with k by lia. cbn [fmap list_fmap concat].
    destruct (N.leb_spec dict_size (len (dict ++ sub text pos k))).
    + apply returns_ok. rewrite app_assoc. by rewrite (take_app_le (dict ++ _)) by lia.
    + eapply returns_mono; [apply IH; done|]. intros dict' ->. by rewrite <-app_assoc.
Qed.

Lemma greedy_inside hashes n dict_size k seg freqs used collected segs :
  k <= n -> greedy hashes n dict_size k seg freqs used collected segs ->
  Forall (fun '(pos, _) => pos + k <= n) segs.
Proof.
  intros Hk. induction 1 as [| |? ? ? ? pos s more ? ? Hb ? ? IH]; constructor; [|done].
  destruct Hb as [[[-> _]|[? _]] _]; lia.
Qed.

(** What [cover_select] must return on samples that it can cut into segments: the
    whole text if it is shorter than a segment, or the greedy segments for the
    hashes of the text and their frequencies in the samples. *)
Definition cover_post ss (dict_size : N) dict : Prop :=
  let text := joined ss in
  let k := dict_size / 4 in
  len dict <= dict_size /\
  if len text <? k then dict = text
  else exists freqs segments,
    (forall h, h < FREQ_SIZE -> freqs !!! N.to_nat h = frequency ss h) /\
    greedy (dmer_hashes text) (len text) dict_size k (k - D + 1) freqs
      (replicate (length text) false) 0 segments /\
    dict = take (N.to_nat dict_size) (segment_text text k segments).

Lemma cover_select_ok ss dict_size :
  32 <= dict_size -> D <= len (joined ss) -> len (joined ss) + 8 < u32_max ->
  returns (cover_select (E:=E) ss dict_size) (cover_post ss dict_size).
Proof.
  intros Hd Hn Hu. unfold cover_select, cover_post. rewrite concat_samples_eq. cbn [app length].
  set (text := joined ss) in *. change (N.of_nat 0) with 0. cbv zeta. rewrite (proj2 (N.ltb_ge _ _)) by done.
  destruct (hash_positions_ok text Hn) as (hashes & -> & -> & Hh). mstep. unfold D in *.
  destruct (count_dmers_ok (E:=E) _ _ (starts 0 ss) (len ss) (len text) Hh)
    as (freqs & -> & Hf & Hc); [apply starts_ok|unfold D; lia|lia|]. mstep.
  unfold text in Hc. rewrite Nat2N.id, placed_samples in Hc. fold text in Hc.
  destruct (N.ltb_spec (len text) (dict_size / 4)).
  { apply returns_ok. split; [lia|done]. }
  access.
  destruct (select_segments_ok (E:=E) _ _ Hh ltac:(lia) (S (N.to_nat dict_size))
    (len text) dict_size (dict_size / 4) (dict_size / 4 - 8 + 1) freqs
    (replicate (length text) false) [] 0) as (segs & -> & more & -> & Hg).
  { eapply freqs_ok_mono; [done|lia]. }
  { by rewrite length_replicate. }
  all: try lia.
  mstep. cbn [app]. unfold build_dict.
  destruct (append_segments_ok text dict_size (dict_size / 4) (rev more) []) as (dict & -> & Ht).
  { apply Forall_rev. by eapply greedy_inside. }
  mstep. apply returns_ok. split; [len_lia|]. exists freqs, more. split_and!; [exact Hc|done|exact Ht].
Qed.
End select.

(** ** The sample window *)

(** The samples have a length the trainer accepts, and their total is kept and
    stays within eight dictionaries. *)
Record trainer_ok (t : DictTrainer) : Prop := {
  trainer_max : max_dict_size t <= MAX_DISTANCE;
  trainer_samples : Forall (fun s => MINMATCH <= len s <= max_dict_size t) (samples t);
  trainer_total : total_bytes t = len (joined (samples t));
  trainer_budget : total_bytes t <= 8 * max_dict_size t
}.

Section window.
Context `{T : Target} {E : Type}.
Implicit Types (ss : list bytes).

Lemma new_ok m : trainer_ok (DictTrainerImpl.new m).
Proof. split; cbn; [unfold MAX_DISTANCE; lia|constructor|done|lia]. Qed.

(** The eviction drops the oldest samples, and no more than it must. *)
Lemma evict_ok budget n ss : n <= budget ->
  returns (E:=E) (DictTrainerImpl.evict budget n ss (len (joined ss))) (fun '(kept, total) =>
    exists dropped, ss = dropped ++ kept /\ total = len (joined kept) /\ total + n <= budget /\
      forall i, (i < length dropped)%nat -> budget < len (joined (drop i ss)) + n).
Proof.
  intros Hn. induction ss as [|s ss IH]; cbn [DictTrainerImpl.evict].
  - apply returns_ok. exists []. split_and!; [done|done|cbn; lia|intros i Hi; cbn in Hi; lia].
  - assert (len (joined (s :: ss)) = len s + len (joined ss)) as Hl
      by (unfold joined; cbn [concat]; len_lia).
    destruct (N.ltb_spec budget (len (joined (s :: ss)) + n)).
    + rewrite usub_ok by lia. mstep.
      replace (len (joined (s :: ss)) - len s) with (len (joined ss)) by lia.
      eapply returns_mono; [exact IH|]. intros [kept total] (dropped & -> & -> & Hb & Hmin).
      exists (s :: dropped). split_and!; [done..|].
      intros [|i] Hi; cbn in Hi; [exact H|]. apply Hmin. lia.
    + apply returns_ok. exists [].
      split_and!; [done|done|lia|intros i Hi; cbn in Hi; lia].
Qed.

Lemma joined_le ss m : Forall (fun s => m <= len s) ss -> len ss * m <= len (joined ss).
Proof.
  induction 1 as [|s ss Hs Hss IH]; unfold joined in *; cbn [concat]; [cbn; lia|]. len_lia.
Qed.

Lemma trainer_text t : trainer_ok t -> 2 <= len (samples t) ->
  D <= len (joined (samples t)) /\ len (joined (samples t)) + 8 < u32_max.
Proof.
  intros [Hm Hs Ht Hb] H2. unfold MAX_DISTANCE, u32_max, D in *. split; [|lia].
  assert (len (samples t) * 4 <= len (joined (samples t))); [|lia].
  apply joined_le. eapply Forall_impl; [|exact Hs]. unfold MINMATCH. cbn. lia.
Qed.
End window.
