(* ===== verification/DictTheorems.v ===== *)
(** * Theorems on the dictionary trainer

    The window of samples and the trained dictionary. *)

From Stdlib Require Import String.
From S2P Require Import Prelude Core DictTrainer.
#[local] Existing Instance x86_64.

Section trainer.
Context `{T : Target} {E : Type}.
Implicit Types (t : DictTrainer) (data : bytes).

(** What [add_sample] does with a trainer of the invariant. *)
Lemma add_sample_ok t data : trainer_ok t ->
  returns (E:=E) (DictTrainerImpl.add_sample t data) (fun t' =>
    trainer_ok t' /\ max_dict_size t' = max_dict_size t /\
    if (MINMATCH <=? len data) && (len data <=? max_dict_size t) then
      exists dropped kept, samples t = dropped ++ kept /\ samples t' = kept ++ [data] /\
        forall i, (i < length dropped)%nat ->
          8 * max_dict_size t < len (joined (drop i (samples t))) + len data
    else t' = t).
Proof.
  intros Ht. unfold DictTrainerImpl.add_sample.
  destruct (N.ltb_spec (len data) MINMATCH), (N.leb_spec MINMATCH (len data)); try lia;
    cbn [orb andb]; [by apply returns_ok|].
  destruct (N.ltb_spec (max_dict_size t) (len data)), (N.leb_spec (len data) (max_dict_size t));
    try lia; [by apply returns_ok|].
  pose proof Ht as [Hm Hs Htot Hb]. rewrite Htot.
  destruct (evict_ok (E:=E) (max_dict_size t * 8) (len data) (samples t))
    as ([kept total] & -> & dropped & Hsplit & -> & Hfit & Hmin); [lia|]. mstep.
  apply returns_ok. cbn -[joined]. split_and!.
  - assert (joined (kept ++ [data]) = joined kept ++ data) as Hj
      by (unfold joined; rewrite concat_app; cbn; by rewrite app_nil_r).
    split; cbn -[joined]; [done| |rewrite Hj; len_lia|lia].
    rewrite Hsplit in Hs. apply Forall_app in Hs as [_ Hs]. apply Forall_app. auto.
  - done.
  - exists dropped, kept. split_and!; [done..|]. intros i Hi. specialize (Hmin i Hi). lia.
Qed.

(** What [train] returns. *)
Lemma train_ok t : trainer_ok t -> 32 <= max_dict_size t ->
  returns (E:=E) (DictTrainerImpl.train t) (fun dict =>
    if DictTrainerImpl.sample_count t <? 2 then dict = []
    else cover_post (samples t) (max_dict_size t) dict).
Proof.
  intros Ht Hmax. unfold DictTrainerImpl.train, DictTrainerImpl.sample_count.
  destruct (N.ltb_spec (len (samples t)) 2); [by apply returns_ok|].
  destruct (trainer_text t Ht) as [? ?]; [done|]. by apply cover_select_ok.
Qed.

(** C37: the trainer keeps the longest run of its newest samples that fits, with
    the added one, in eight dictionaries: [add_sample] never fails, keeps the
    invariant that [new] establishes, skips samples of an unusable length and
    otherwise drops oldest samples only while it must. *)
Theorem trainer_window t data (m : N) :
  trainer_ok (DictTrainerImpl.new m) /\
  (trainer_ok t ->
   returns (E:=E) (DictTrainerImpl.add_sample t data) (fun t' =>
     trainer_ok t' /\ max_dict_size t' = max_dict_size t /\
     if (MINMATCH <=? len data) && (len data <=? max_dict_size t) then
       exists dropped kept, samples t = dropped ++ kept /\ samples t' = kept ++ [data] /\
         forall i, (i < length dropped)%nat ->
           8 * max_dict_size t < len (joined (drop i (samples t))) + len data
     else t' = t)).
Proof. split; [apply new_ok|apply add_sample_ok]. Qed.

(** C38: with room for at least 32 bytes and the invariant that [new] and
    [add_sample] keep, training always returns: an empty
    dictionary for fewer than two samples, and otherwise one that respects the
    size limit.  It is the whole text of the samples if that is shorter than a
    quarter of the limit, and otherwise the segments of the greedy COVER choice,
    the first choice last, where a position counts as often as the hash of its
    eight bytes occurs inside the samples. *)
Theorem train_correct t :
  trainer_ok t -> 32 <= max_dict_size t ->
  returns (E:=E) (DictTrainerImpl.train t) (fun dict =>
    if DictTrainerImpl.sample_count t <? 2 then dict = []
    else cover_post (samples t) (max_dict_size t) dict).
Proof. apply train_ok. Qed.

(** C39: with a limit under 32 bytes and two samples, training panics: a
    segment is a quarter of the dictionary, and shorter than the 8 bytes that
    are subtracted from it. *)
Theorem train_small_limit_panics t :
  trainer_ok t -> max_dict_size t < 32 -> 2 <= DictTrainerImpl.sample_count t ->
  DictTrainerImpl.train (E:=E) t = Panic.
Proof.
  intros Ht Hmax H2. unfold DictTrainerImpl.sample_count in H2.
  destruct (trainer_text t Ht H2) as [Hn Hu]. unfold DictTrainerImpl.train. bcase.
  unfold cover_select. rewrite concat_samples_eq. cbn [app length].
  change (N.of_nat 0) with 0. cbv zeta. set (text := joined (samples t)) in *. rewrite (proj2 (N.ltb_ge _ _)) by done.
  destruct (hash_positions_ok (E:=E) text Hn) as (hashes & -> & _ & Hh). mstep. unfold D in *.
  destruct (count_dmers_ok (E:=E) _ hashes (starts 0 (samples t)) (len (samples t)) (len text) Hh)
    as (freqs & -> & Hf & _); [apply starts_ok|unfold D; lia|lia|]. mstep. bcase.
  unfold usub. by bcase.
Qed.
End trainer.

(** ** Witnesses *)

(** Two requests, offered to trainers with limits of 64 and of 31 bytes. *)
Definition sample_texts : list bytes :=
  list_byte_of_string <$> ["GET /index.html HTTP/1.1"; "GET /about.html HTTP/1.1"]%string.
Definition trained (m : N) : DictTrainer :=
  {| max_dict_size := m; samples := sample_texts; total_bytes := 48 |}.

Lemma trainer_window_witness :
  returns (E:=unit) (DictTrainerImpl.add_sample (trained 31) (replicate 31 x41)) (fun t' =>
    trainer_ok t' /\ max_dict_size t' = 31).
Proof.
  eapply returns_mono.
  - apply (proj2 (trainer_window (E:=unit) (trained 31) (replicate 31 x41) 31)).
    split; [vm_compute; discriminate| |vm_compute; reflexivity|vm_compute; discriminate].
    repeat constructor; vm_compute; discriminate.
  - intros t' (Hok & Hm & _). split; [exact Hok|exact Hm].
Defined.

Lemma train_correct_witness :
  returns (DictTrainerImpl.train (E:=unit) (trained 64))
    (cover_post (samples (trained 64)) 64).
Proof.
  apply (train_correct (E:=unit) (trained 64)).
  - split; [vm_compute; discriminate| |vm_compute; reflexivity|vm_compute; discriminate].
    repeat constructor; vm_compute; discriminate.
  - vm_compute. discriminate.
Defined.

Lemma train_small_limit_panics_witness :
  DictTrainerImpl.train (E:=unit) (trained 31) = Panic.
Proof.
  apply (train_small_limit_panics (E:=unit) (trained 31)).
  - split; [vm_compute; discriminate| |vm_compute; reflexivity|vm_compute; discriminate].
    repeat constructor; vm_compute; discriminate.
  - vm_compute. reflexivity.
  - vm_compute. discriminate.
Defined.
