(* ===== verification/FrameIO.v ===== *)
(** * Readers and writers

    What the frame codec uses of [std::io]: a writer with [write_all] and
    [flush], a reader with [read] and [read_exact].  The codec's definitions
    are for any of them; [WriteLaws] and [ReadLaws] state what a reliable one
    does, and are the hypotheses of the theorems about streams.  Vectors and
    slices are instances, and so is a reader that delivers a few bytes at a
    time. *)

From S2P Require Import Prelude Core FrameHeader.

(** [io::Error::other] with a message. *)
Definition other : IoError := Simple Other.

(** ** Writers *)

Class Write (W : Type) := {
  write_all : W -> bytes -> res (W * IoError) W;
  flush : W -> res (W * IoError) W
}.

(** A writer that accepts all bytes, and those it has accepted. *)
Class WriteLaws (W : Type) `{Write W} := {
  sunk : W -> bytes;
  write_all_law : forall w b, exists w', write_all w b = Ok w' /\ sunk w' = sunk w ++ b;
  flush_law : forall w, exists w', flush w = Ok w' /\ sunk w' = sunk w
}.

(** [Vec<u8>] *)
Definition VecWriter : Type := bytes.

#[export] Instance VecWriter_Write : Write VecWriter := {
  write_all w b := Ok (w ++ b : bytes);
  flush w := Ok w
}.

#[export, refine] Instance VecWriter_laws : WriteLaws VecWriter := {
  sunk w := w
}.
Proof. all: intros; eexists; done. Defined.

(** A writer with room for [n] more bytes, like a slice: [write_all] writes what
    fits and reports the rest. *)
Record SliceWriter := { sw_written : bytes; sw_room : N }.

#[export] Instance SliceWriter_Write : Write SliceWriter := {
  write_all w b :=
    if len b <=? sw_room w
    then Ok {| sw_written := sw_written w ++ b; sw_room := sw_room w - len b |}
    else Err ({| sw_written := sw_written w ++ take (N.to_nat (sw_room w)) b; sw_room := 0 |},
              Simple WriteZero);
  flush w := Ok w
}.

(** ** Readers *)

Class Read (R : Type) := {
  read : R -> N -> res (R * IoError) (R * bytes);
  read_exact : R -> N -> res (R * IoError) (R * bytes)
}.

(** A reader of a byte string, in pieces of its own choice: [read] returns
    nothing only at the end or for an empty buffer. *)
Class ReadLaws (R : Type) `{Read R} := {
  stream : R -> bytes;
  read_law : forall r n, exists r' b, read r n = Ok (r', b) /\ stream r = b ++ stream r' /\
    len b <= n /\ (b = [] -> n = 0 \/ stream r = []);
  read_exact_law : forall r n,
    if n <=? len (stream r)
    then exists r', read_exact r n = Ok (r', take (N.to_nat n) (stream r)) /\
           stream r' = drop (N.to_nat n) (stream r)
    else exists r', read_exact r n = Err (r', Simple UnexpectedEof)
}.

(** [&[u8]], at most [chunk] bytes a call, as a pipe or a socket delivers
    them. *)
Record SliceReader := { sr_bytes : bytes; sr_chunk : N }.

Definition take_chunk (r : SliceReader) (n : N) : SliceReader * bytes :=
  ({| sr_bytes := drop (N.to_nat n) (sr_bytes r); sr_chunk := sr_chunk r |},
   take (N.to_nat n) (sr_bytes r)).

#[export] Instance SliceReader_Read : Read SliceReader := {
  read r n := Ok (take_chunk r (N.min n (N.max 1 (sr_chunk r))));
  read_exact r n :=
    if n <=? len (sr_bytes r) then Ok (take_chunk r n)
    else Err (fst (take_chunk r (len (sr_bytes r))), Simple UnexpectedEof)
}.

#[export, refine] Instance SliceReader_laws : ReadLaws SliceReader := {
  stream := sr_bytes
}.
Proof.
  - intros r n. do 2 eexists. split; [done|]. cbn. rewrite take_drop. split; [done|].
    split; [len_lia|]. intros Ht%(f_equal length). rewrite length_take in Ht. cbn in Ht.
    destruct (sr_bytes r); [by right|left]. cbn in Ht. lia.
  - intros r n. cbn. destruct (N.leb_spec n (len (sr_bytes r))); eexists; done.
Defined.

(** Any reader: it may fail at any call, end and go on, or never end.  It
    delivers no more than it was asked for, and [read_exact] all of it. *)
Class ReadSound (R : Type) `{Read R} := {
  read_sound : forall r n,
    match read r n with Ok (_, b) => len b <= n | Err _ => True | Panic | NoFuel => False end;
  read_exact_sound : forall r n,
    match read_exact r n with Ok (_, b) => len b = n | Err _ => 0 < n | Panic | NoFuel => False end
}.

#[export, refine] Instance ReadLaws_sound {R} `{Read R} `{!ReadLaws R} : ReadSound R := {}.
Proof.
  - intros r n. by destruct (read_law r n) as (r' & b & -> & _ & Hb & _).
  - intros r n. pose proof (read_exact_law r n) as Hr. destruct (N.leb_spec n (len (stream r))).
    + destruct Hr as (r' & -> & _). len_lia.
    + destruct Hr as (r' & ->). lia.
Defined.

(** A reader of the given chunks: a [read] returns no more than the rest of
    the first. *)
Record ChunkReader := { cr_chunks : list bytes }.

Fixpoint next_chunk (n : N) (l : list bytes) : list bytes * bytes :=
  match l with
  | [] => ([], [])
  | c :: l =>
      if len c =? 0 then next_chunk n l
      else if n <? len c then (drop (N.to_nat n) c :: l, take (N.to_nat n) c) else (l, c)
  end.

Fixpoint take_chunks (n : N) (l : list bytes) : list bytes * bytes :=
  if n =? 0 then (l, []) else
  match l with
  | [] => ([], [])
  | c :: l =>
      if n <? len c then (drop (N.to_nat n) c :: l, take (N.to_nat n) c)
      else let (l, b) := take_chunks (n - len c) l in (l, c ++ b)
  end.

#[export] Instance ChunkReader_Read : Read ChunkReader := {
  read r n := let (l, b) := next_chunk n (cr_chunks r) in Ok ({| cr_chunks := l |}, b);
  read_exact r n :=
    if n <=? len (concat (cr_chunks r))
    then let (l, b) := take_chunks n (cr_chunks r) in Ok ({| cr_chunks := l |}, b)
    else Err ({| cr_chunks := [] |}, Simple UnexpectedEof)
}.

Lemma next_chunk_spec n l : let (l', b) := next_chunk n l in
  concat l = b ++ concat l' /\ len b <= n /\ (b = [] -> n = 0 \/ concat l = []).
Proof.
  induction l as [|c l IH]; cbn [next_chunk]; [split_and!; cbn; auto; lia|].
  destruct (N.eqb_spec (len c) 0) as [Hz|Hz].
  { destruct c; [|cbn in Hz; lia]. by destruct (next_chunk n l). }
  cbn [concat]. bcase; cbn [concat].
  - rewrite app_assoc, take_drop. split_and!; [done|len_lia|]. intros Hb%(f_equal length).
    rewrite length_take in Hb. cbn in Hb. left. lia.
  - split_and!; [done|lia|]. intros ->. by destruct Hz.
Qed.

Lemma take_chunks_spec n l : n <= len (concat l) -> let (l', b) := take_chunks n l in
  b = take (N.to_nat n) (concat l) /\ concat l' = drop (N.to_nat n) (concat l).
Proof.
  revert n. induction l as [|c l IH]; intros n Hn; cbn [take_chunks concat] in *.
  { destruct (n =? 0); by rewrite firstn_nil, skipn_nil. }
  destruct (N.eqb_spec n 0) as [->|Hz]; [done|]. rewrite length_app in Hn. bcase; cbn [concat].
  - rewrite take_app_le, drop_app_le by lia. done.
  - specialize (IH (n - len c) ltac:(lia)). destruct (take_chunks _ l) as [l' b]. destruct IH as [-> ->].
    rewrite take_app_ge, drop_app_ge by lia. split; repeat f_equal; lia.
Qed.

#[export, refine] Instance ChunkReader_laws : ReadLaws ChunkReader := {
  stream r := concat (cr_chunks r)
}.
Proof.
  - intros [l] n. cbn. pose proof (next_chunk_spec n l) as H. destruct (next_chunk n l) as [l' b].
    by exists {| cr_chunks := l' |}, b.
  - intros [l] n. cbn. destruct (N.leb_spec n (len (concat l))) as [Hn|]; [|by eexists].
    pose proof (take_chunks_spec n l Hn) as H. destruct (take_chunks n l) as [l' b]. destruct H as [-> <-].
    by exists {| cr_chunks := l' |}.
Defined.
