(* ===== verification/FrameSpec.v ===== *)
(** * The LZ4 frame format

    What a frame means, independently of buffers: a header, data blocks that
    each carry bytes of the content, an end mark and a checksum.  A block of a
    linked frame may refer to the whole content before it; the codec keeps a
    window of it, which is enough because an offset has 16 bits. *)

From S2P Require Import Prelude BlockSpec Core FrameHeader.

(** The largest content of a block, [get_size] where it is defined. *)
Definition max_block (info : FrameInfo) : N :=
  match block_size info with
  | Auto => 0
  | Max64KB => 65536
  | Max256KB => 262144
  | Max1MB => 1048576
  | Max4MB => 4194304
  end.

(** The bytes a block may refer to: the dictionary, and in a linked frame the
    content so far. *)
Definition block_history (info : FrameInfo) (dict content : bytes) : bytes :=
  match block_mode info with Independent => dict | Linked => dict ++ content end.

Section format.
Context (xxh32 : bytes -> N).
Implicit Types (info : FrameInfo) (dict content block data body : bytes).

(** An optional checksum of [l]. *)
Definition checksum (c : bool) (l : bytes) : bytes := if c then to_le 4 (xxh32 l) else [].

(** [block_carries info dict content b data]: in a frame whose content so far is
    [content], the bytes [b] are a block with content [data]. *)
Inductive block_carries info dict content : bytes -> bytes -> Prop :=
| carries_compressed block data :
    0 < len block -> len block <= max_block info ->
    block_decode (block_history info dict content) block = Some data ->
    len data <= max_block info ->
    block_carries info dict content
      (to_le 4 (len block) ++ block ++ checksum (block_checksums info) block) data
| carries_raw data :
    len data <= max_block info ->
    block_carries info dict content
      (to_le 4 (len data + 2 ^ 31) ++ data ++ checksum (block_checksums info) data) data.

(** The blocks from the content so far to the end of the frame. *)
Inductive frame_body info dict : bytes -> bytes -> bytes -> Prop :=
| body_end content :
    (forall n, content_size info = Some n -> n = len content) ->
    frame_body info dict content
      (to_le 4 0 ++ checksum (content_checksum info) content) content
| body_block content b data body content' :
    block_carries info dict content b data ->
    frame_body info dict (content ++ data) body content' ->
    frame_body info dict content (b ++ body) content'.

(** A whole frame and its content. *)
Definition is_frame info dict (frame content : bytes) : Prop :=
  info_ok info /\
  exists body, frame = header_bytes xxh32 info ++ body /\ frame_body info dict [] body content.

(** Frames one after the other, all with one dictionary and its identifier. *)
Inductive frames dict (id : option N) : bytes -> bytes -> Prop :=
| frames_nil : frames dict id [] []
| frames_cons info frame content rest content' :
    dict_id info = id -> is_frame info dict frame content ->
    frames dict id rest content' -> frames dict id (frame ++ rest) (content ++ content').

(** The blocks of an open frame. *)
Inductive emitted info dict : bytes -> bytes -> Prop :=
| emitted_nil : emitted info dict [] []
| emitted_snoc bs content b data :
    emitted info dict bs content -> block_carries info dict content b data ->
    emitted info dict (bs ++ b) (content ++ data).

Lemma emitted_body info dict bs content body content' :
  emitted info dict bs content -> frame_body info dict content body content' ->
  frame_body info dict [] (bs ++ body) content'.
Proof.
  intros He. revert body. induction He as [|bs content b data He IH Hb]; intros body Hbody; [done|].
  rewrite <-app_assoc. apply IH. by eapply body_block.
Qed.

Lemma frames_app dict id f1 c1 f2 c2 :
  frames dict id f1 c1 -> frames dict id f2 c2 -> frames dict id (f1 ++ f2) (c1 ++ c2).
Proof.
  induction 1 as [|info f c r c' Hid Hf Hr IH]; [done|]. intros H2.
  rewrite <-!app_assoc. econstructor; eauto.
Qed.

Lemma frames_one dict info frame content :
  is_frame info dict frame content -> frames dict (dict_id info) frame content.
Proof.
  intros Hf. rewrite <-(app_nil_r frame), <-(app_nil_r content).
  econstructor; [done..|constructor].
Qed.
End format.

(** ** The window is enough *)

(** A history of 65535 bytes decodes as any longer one. *)
Lemma decode_from_window fuel (P h l : bytes) : 65535 <= len h ->
  decode_from fuel (P ++ h) l = app P <$> decode_from fuel h l.
Proof.
  revert h l. induction fuel as [|fuel IH]; intros h l Hh; cbn [decode_from]; [done|].
  destruct l as [|token l]; [done|].
  destruct (read_len _ l) as [[lit l1]|]; cbn [mbind option_bind]; [|done].
  case_match; [done|]. set (h1 := h ++ take (N.to_nat lit) l1).
  assert (65535 <= len h1) by (subst h1; len_lia).
  rewrite <-app_assoc. fold h1.
  destruct (drop (N.to_nat lit) l1) as [|b0 [|b1 l2]]; [done..|].
  destruct (read_len _ l2) as [[ml l3]|]; cbn [mbind option_bind]; [|done].
  pose proof (from_le_bound [b0; b1]) as Hb. cbn [length] in Hb.
  change (256 ^ N.of_nat 2) with 65536 in Hb.
  set (off := from_le [b0; b1]) in *. destruct (N.eqb_spec off 0) as [|Ho]; cbn [orb]; [done|].
  destruct (N.ltb_spec (len (P ++ h1)) off); [len_lia|].
  destruct (N.ltb_spec (len h1) off); [len_lia|].
  rewrite expand_app_prefix by lia. apply IH.
  rewrite length_expand by lia. lia.
Qed.

Lemma block_decode_window (P h block : bytes) : 65535 <= len h ->
  block_decode (P ++ h) block = block_decode h block.
Proof.
  intros Hh. unfold block_decode. rewrite decode_from_window by done.
  destruct (decode_from _ h block); cbn; [|done]. f_equal.
  rewrite drop_app_ge by len_lia. f_equal. len_lia.
Qed.
