(* ===== verification/FrameEncoder.v ===== *)
(** * The frame encoder ([src/frame/compress.rs])

    [FrameEncoder] buffers writes in [src], compresses a block when it is full
    or flushed, and writes header, blocks and end mark to its writer.  In a
    linked frame [src] also keeps earlier blocks, and [ext_dict] is the window
    that is left behind when the buffer wraps.  A method takes the encoder and
    returns the new one, also with an error. *)

From S2P Require Import Prelude BlockSpec Core HashTable Compress FrameHeader FrameIO.

(** ** Vectors *)

(** [Vec::reserve]: the capacity after it, with the amortised growth of
    [RawVec]. *)
Definition vec_reserve (length capacity additional : N) : N :=
  if capacity - length <? additional
  then N.max 8 (N.max (2 * capacity) (length + additional)) else capacity.

(** [Vec::resize(n, 0)] *)
Definition resize (v : bytes) (n : N) : bytes :=
  take (N.to_nat n) v ++ replicate (N.to_nat n - length v) x00.

(** [usize::saturating_sub] is [N]'s subtraction. *)
Definition saturating_sub (a b : N) : N := a - b.

Definition vec_copy_overwriting {E} (target : bytes) (capacity target_start : N) (src : bytes)
  : res E bytes :=
  _ ← assert (target_start + len src <=? capacity);
  room ← usub (len target) target_start;
  let overwrite_len := N.min room (len src) in
  target ← write_at target target_start (take (N.to_nat overwrite_len) src);
  Ok (target ++ drop (N.to_nat overwrite_len) src).

Definition vec_sink_for_compression {E} `{T : Target} (vec : bytes) (offset pos required_capacity : N)
  : res E SliceSink :=
  let vec := resize vec (offset + required_capacity) in
  tail ← slice_from vec offset;
  SliceSinkImpl.new tail pos.

(** ** State *)

(** The hasher is the bytes it was given. *)
Record FrameEncoder (W : Type) := {
  fe_src : bytes;
  fe_src_capacity : N;
  fe_src_start : N;
  fe_src_end : N;
  fe_ext_dict_offset : N;
  fe_ext_dict_len : N;
  fe_src_stream_offset : N;
  fe_compression_table : HashTableU32 DEFAULT_NODICT_ENTRIES;
  fe_w : W;
  fe_content_hasher : bytes;
  fe_content_len : N;
  fe_dst : bytes;
  fe_is_frame_open : bool;
  fe_failed : bool;
  fe_data_to_frame_written : bool;
  fe_frame_info : FrameInfo;
  fe_dict : bytes
}.
Arguments Build_FrameEncoder {W}.
Arguments fe_src {W}. Arguments fe_src_capacity {W}. Arguments fe_src_start {W}.
Arguments fe_src_end {W}. Arguments fe_ext_dict_offset {W}. Arguments fe_ext_dict_len {W}.
Arguments fe_src_stream_offset {W}. Arguments fe_compression_table {W}. Arguments fe_w {W}.
Arguments fe_content_hasher {W}. Arguments fe_content_len {W}. Arguments fe_dst {W}.
Arguments fe_is_frame_open {W}. Arguments fe_failed {W}. Arguments fe_data_to_frame_written {W}.
Arguments fe_frame_info {W}. Arguments fe_dict {W}.

(** Assignments to one field or to a group of fields. *)
Section setters.
Context {W : Type}.
Implicit Types (e : FrameEncoder W).

Definition set_w (x : W) e : FrameEncoder W :=
  {| fe_src := fe_src e; fe_src_capacity := fe_src_capacity e; fe_src_start := fe_src_start e;
     fe_src_end := fe_src_end e; fe_ext_dict_offset := fe_ext_dict_offset e;
     fe_ext_dict_len := fe_ext_dict_len e; fe_src_stream_offset := fe_src_stream_offset e;
     fe_compression_table := fe_compression_table e; fe_w := x;
     fe_content_hasher := fe_content_hasher e; fe_content_len := fe_content_len e;
     fe_dst := fe_dst e; fe_is_frame_open := fe_is_frame_open e; fe_failed := fe_failed e;
     fe_data_to_frame_written := fe_data_to_frame_written e; fe_frame_info := fe_frame_info e;
     fe_dict := fe_dict e |}.

Definition set_failed (x : bool) e : FrameEncoder W :=
  {| fe_src := fe_src e; fe_src_capacity := fe_src_capacity e; fe_src_start := fe_src_start e;
     fe_src_end := fe_src_end e; fe_ext_dict_offset := fe_ext_dict_offset e;
     fe_ext_dict_len := fe_ext_dict_len e; fe_src_stream_offset := fe_src_stream_offset e;
     fe_compression_table := fe_compression_table e; fe_w := fe_w e;
     fe_content_hasher := fe_content_hasher e; fe_content_len := fe_content_len e;
     fe_dst := fe_dst e; fe_is_frame_open := fe_is_frame_open e; fe_failed := x;
     fe_data_to_frame_written := fe_data_to_frame_written e; fe_frame_info := fe_frame_info e;
     fe_dict := fe_dict e |}.

Definition set_is_frame_open (x : bool) e : FrameEncoder W :=
  {| fe_src := fe_src e; fe_src_capacity := fe_src_capacity e; fe_src_start := fe_src_start e;
     fe_src_end := fe_src_end e; fe_ext_dict_offset := fe_ext_dict_offset e;
     fe_ext_dict_len := fe_ext_dict_len e; fe_src_stream_offset := fe_src_stream_offset e;
     fe_compression_table := fe_compression_table e; fe_w := fe_w e;
     fe_content_hasher := fe_content_hasher e; fe_content_len := fe_content_len e;
     fe_dst := fe_dst e; fe_is_frame_open := x; fe_failed := fe_failed e;
     fe_data_to_frame_written := fe_data_to_frame_written e; fe_frame_info := fe_frame_info e;
     fe_dict := fe_dict e |}.

Definition set_data_to_frame_written (x : bool) e : FrameEncoder W :=
  {| fe_src := fe_src e; fe_src_capacity := fe_src_capacity e; fe_src_start := fe_src_start e;
     fe_src_end := fe_src_end e; fe_ext_dict_offset := fe_ext_dict_offset e;
     fe_ext_dict_len := fe_ext_dict_len e; fe_src_stream_offset := fe_src_stream_offset e;
     fe_compression_table := fe_compression_table e; fe_w := fe_w e;
     fe_content_hasher := fe_content_hasher e; fe_content_len := fe_content_len e;
     fe_dst := fe_dst e; fe_is_frame_open := fe_is_frame_open e; fe_failed := fe_failed e;
     fe_data_to_frame_written := x; fe_frame_info := fe_frame_info e; fe_dict := fe_dict e |}.

Definition set_frame_info (x : FrameInfo) e : FrameEncoder W :=
  {| fe_src := fe_src e; fe_src_capacity := fe_src_capacity e; fe_src_start := fe_src_start e;
     fe_src_end := fe_src_end e; fe_ext_dict_offset := fe_ext_dict_offset e;
     fe_ext_dict_len := fe_ext_dict_len e; fe_src_stream_offset := fe_src_stream_offset e;
     fe_compression_table := fe_compression_table e; fe_w := fe_w e;
     fe_content_hasher := fe_content_hasher e; fe_content_len := fe_content_len e;
     fe_dst := fe_dst e; fe_is_frame_open := fe_is_frame_open e; fe_failed := fe_failed e;
     fe_data_to_frame_written := fe_data_to_frame_written e; fe_frame_info := x;
     fe_dict := fe_dict e |}.

Definition set_dict (x : bytes) e : FrameEncoder W :=
  {| fe_src := fe_src e; fe_src_capacity := fe_src_capacity e; fe_src_start := fe_src_start e;
     fe_src_end := fe_src_end e; fe_ext_dict_offset := fe_ext_dict_offset e;
     fe_ext_dict_len := fe_ext_dict_len e; fe_src_stream_offset := fe_src_stream_offset e;
     fe_compression_table := fe_compression_table e; fe_w := fe_w e;
     fe_content_hasher := fe_content_hasher e; fe_content_len := fe_content_len e;
     fe_dst := fe_dst e; fe_is_frame_open := fe_is_frame_open e; fe_failed := fe_failed e;
     fe_data_to_frame_written := fe_data_to_frame_written e; fe_frame_info := fe_frame_info e;
     fe_dict := x |}.

Definition set_src (x : bytes) (capacity : N) e : FrameEncoder W :=
  {| fe_src := x; fe_src_capacity := capacity; fe_src_start := fe_src_start e;
     fe_src_end := fe_src_end e; fe_ext_dict_offset := fe_ext_dict_offset e;
     fe_ext_dict_len := fe_ext_dict_len e; fe_src_stream_offset := fe_src_stream_offset e;
     fe_compression_table := fe_compression_table e; fe_w := fe_w e;
     fe_content_hasher := fe_content_hasher e; fe_content_len := fe_content_len e;
     fe_dst := fe_dst e; fe_is_frame_open := fe_is_frame_open e; fe_failed := fe_failed e;
     fe_data_to_frame_written := fe_data_to_frame_written e; fe_frame_info := fe_frame_info e;
     fe_dict := fe_dict e |}.

Definition set_src_pos (start last : N) e : FrameEncoder W :=
  {| fe_src := fe_src e; fe_src_capacity := fe_src_capacity e; fe_src_start := start;
     fe_src_end := last; fe_ext_dict_offset := fe_ext_dict_offset e;
     fe_ext_dict_len := fe_ext_dict_len e; fe_src_stream_offset := fe_src_stream_offset e;
     fe_compression_table := fe_compression_table e; fe_w := fe_w e;
     fe_content_hasher := fe_content_hasher e; fe_content_len := fe_content_len e;
     fe_dst := fe_dst e; fe_is_frame_open := fe_is_frame_open e; fe_failed := fe_failed e;
     fe_data_to_frame_written := fe_data_to_frame_written e; fe_frame_info := fe_frame_info e;
     fe_dict := fe_dict e |}.

Definition set_ext_dict (offset size : N) e : FrameEncoder W :=
  {| fe_src := fe_src e; fe_src_capacity := fe_src_capacity e; fe_src_start := fe_src_start e;
     fe_src_end := fe_src_end e; fe_ext_dict_offset := offset; fe_ext_dict_len := size;
     fe_src_stream_offset := fe_src_stream_offset e;
     fe_compression_table := fe_compression_table e; fe_w := fe_w e;
     fe_content_hasher := fe_content_hasher e; fe_content_len := fe_content_len e;
     fe_dst := fe_dst e; fe_is_frame_open := fe_is_frame_open e; fe_failed := fe_failed e;
     fe_data_to_frame_written := fe_data_to_frame_written e; fe_frame_info := fe_frame_info e;
     fe_dict := fe_dict e |}.

Definition set_src_stream_offset (x : N) e : FrameEncoder W :=
  {| fe_src := fe_src e; fe_src_capacity := fe_src_capacity e; fe_src_start := fe_src_start e;
     fe_src_end := fe_src_end e; fe_ext_dict_offset := fe_ext_dict_offset e;
     fe_ext_dict_len := fe_ext_dict_len e; fe_src_stream_offset := x;
     fe_compression_table := fe_compression_table e; fe_w := fe_w e;
     fe_content_hasher := fe_content_hasher e; fe_content_len := fe_content_len e;
     fe_dst := fe_dst e; fe_is_frame_open := fe_is_frame_open e; fe_failed := fe_failed e;
     fe_data_to_frame_written := fe_data_to_frame_written e; fe_frame_info := fe_frame_info e;
     fe_dict := fe_dict e |}.

Definition set_compression_table (x : HashTableU32 DEFAULT_NODICT_ENTRIES) e : FrameEncoder W :=
  {| fe_src := fe_src e; fe_src_capacity := fe_src_capacity e; fe_src_start := fe_src_start e;
     fe_src_end := fe_src_end e; fe_ext_dict_offset := fe_ext_dict_offset e;
     fe_ext_dict_len := fe_ext_dict_len e; fe_src_stream_offset := fe_src_stream_offset e;
     fe_compression_table := x; fe_w := fe_w e; fe_content_hasher := fe_content_hasher e;
     fe_content_len := fe_content_len e; fe_dst := fe_dst e;
     fe_is_frame_open := fe_is_frame_open e; fe_failed := fe_failed e;
     fe_data_to_frame_written := fe_data_to_frame_written e; fe_frame_info := fe_frame_info e;
     fe_dict := fe_dict e |}.

Definition set_content (hasher : bytes) (size : N) e : FrameEncoder W :=
  {| fe_src := fe_src e; fe_src_capacity := fe_src_capacity e; fe_src_start := fe_src_start e;
     fe_src_end := fe_src_end e; fe_ext_dict_offset := fe_ext_dict_offset e;
     fe_ext_dict_len := fe_ext_dict_len e; fe_src_stream_offset := fe_src_stream_offset e;
     fe_compression_table := fe_compression_table e; fe_w := fe_w e; fe_content_hasher := hasher;
     fe_content_len := size; fe_dst := fe_dst e; fe_is_frame_open := fe_is_frame_open e;
     fe_failed := fe_failed e; fe_data_to_frame_written := fe_data_to_frame_written e;
     fe_frame_info := fe_frame_info e; fe_dict := fe_dict e |}.

Definition set_dst (x : bytes) e : FrameEncoder W :=
  {| fe_src := fe_src e; fe_src_capacity := fe_src_capacity e; fe_src_start := fe_src_start e;
     fe_src_end := fe_src_end e; fe_ext_dict_offset := fe_ext_dict_offset e;
     fe_ext_dict_len := fe_ext_dict_len e; fe_src_stream_offset := fe_src_stream_offset e;
     fe_compression_table := fe_compression_table e; fe_w := fe_w e;
     fe_content_hasher := fe_content_hasher e; fe_content_len := fe_content_len e; fe_dst := x;
     fe_is_frame_open := fe_is_frame_open e; fe_failed := fe_failed e;
     fe_data_to_frame_written := fe_data_to_frame_written e; fe_frame_info := fe_frame_info e;
     fe_dict := fe_dict e |}.
End setters.

Module FrameEncoderImpl.
Section ops.
Context `{T : Target} (xxh32 : bytes -> N) {W : Type} `{Write W}.
Implicit Types (e : FrameEncoder W) (buf : bytes).

(** Outcomes of the methods that return [io::Result] and [Result<_, Error>]. *)
Abbreviation io_res A := (res (FrameEncoder W * IoError) A).
Abbreviation frame_res A := (res (FrameEncoder W * Error) A).

(** [?] on a result of the headers and the compressor, in a method that returns
    [io::Result]. *)
Definition try_io {A} e (m : res Error A) : io_res A := map_err (fun x => (e, io_of_error x)) m.

(** [?] on an [io::Result] in a method that returns [Result<_, Error>]. *)
Definition as_frame {A} (m : io_res A) : frame_res A := map_err (fun '(e, x) => (e, error_of_io x)) m.

(** A call on the writer. *)
Definition on_w e (f : W -> res (W * IoError) W) : io_res (FrameEncoder W) :=
  match f (fe_w e) with
  | Ok w => Ok (set_w w e)
  | Err (w, x) => Err (set_w w e, x)
  | Panic => Panic
  | NoFuel => NoFuel
  end.

Definition write_bytes e (b : bytes) : io_res (FrameEncoder W) := on_w e (fun w => write_all w b).

(** [io::Error::other("encoder cannot be reused after an error")] *)
Definition reuse_error : IoError := other.

Definition with_frame_info (frame_info : FrameInfo) (wtr : W) : FrameEncoder W :=
  {| fe_src := []; fe_src_capacity := 0; fe_src_start := 0; fe_src_end := 0;
     fe_ext_dict_offset := 0; fe_ext_dict_len := 0; fe_src_stream_offset := 0;
     fe_compression_table := HashTableU32Impl.new; fe_w := wtr; fe_content_hasher := [];
     fe_content_len := 0; fe_dst := []; fe_is_frame_open := false; fe_failed := false;
     fe_data_to_frame_written := false; fe_frame_info := frame_info; fe_dict := [] |}.

Definition new (wtr : W) : FrameEncoder W := with_frame_info FrameInfoImpl.default wtr.

Definition with_dict_id (id : N) (info : FrameInfo) : FrameInfo :=
  {| content_size := content_size info; dict_id := Some id; block_size := block_size info;
     block_mode := block_mode info; block_checksums := block_checksums info;
     content_checksum := content_checksum info |}.

Definition with_dictionary (wtr : W) (dict : bytes) (dict_id : N) (frame_info : option FrameInfo)
  : res Error (FrameEncoder W) :=
  let frame_info := with_dict_id dict_id (default FrameInfoImpl.default frame_info) in
  Ok (set_dict dict (with_frame_info frame_info wtr)).

(** [init]: the capacity of [src]; that of [dst] has no effect. *)
Definition init e : io_res (FrameEncoder W) :=
  max_block_size ← BlockSizeImpl.get_size (block_size (fe_frame_info e));
  let src_size := if is_linked (fe_frame_info e)
                  then max_block_size * 2 + WINDOW_SIZE else max_block_size in
  let cap := fe_src_capacity e in
  let cap := vec_reserve (len (fe_src e)) cap (saturating_sub src_size cap) in
  _ ← get_maximum_output_size max_block_size;
  Ok (set_src (fe_src e) cap e).

Definition end_frame e : frame_res (FrameEncoder W) :=
  _ ← assert (fe_is_frame_open e);
  _ ← match content_size (fe_frame_info e) with
      | Some expected =>
          if expected =? fe_content_len e then Ok tt
          else Err (e, ContentLengthError expected (fe_content_len e))
      | None => Ok tt
      end;
  '(buffer, _) ← map_err (fun x => (e, x))
                   (BlockInfoImpl.write EndMark (replicate (N.to_nat BLOCK_INFO_SIZE) x00));
  e ← as_frame (write_bytes e buffer);
  e ← (if content_checksum (fe_frame_info e)
       then as_frame (write_bytes e (to_le 4 (xxh32 (fe_content_hasher e)))) else Ok e);
  Ok (set_is_frame_open false e).

(** [src_stream_offset += delta]: an error on 32-bit targets. *)
Definition add_stream_offset e (delta : N) : io_res (FrameEncoder W) :=
  match target_width with
  | W32 => v ← try_io e (ok_or (CompressionError InputTooLarge)
                           (checked_add (fe_src_stream_offset e) delta));
           Ok (set_src_stream_offset v e)
  | W64 => v ← uadd (fe_src_stream_offset e) delta; Ok (set_src_stream_offset v e)
  end.

(** The reset before a second frame. *)
Definition reset_stream e : FrameEncoder W :=
  let e := set_src_stream_offset 0 (set_content [] 0 e) in
  let e := set_src_pos 0 0 (set_src [] (fe_src_capacity e) e) in
  set_compression_table (HashTableU32Impl.clear (fe_compression_table e))
    (set_ext_dict (fe_ext_dict_offset e) 0 e).

Definition begin_frame e (buf_len : N) : io_res (FrameEncoder W) :=
  e ← match block_size (fe_frame_info e) with
      | Auto => b ← BlockSizeImpl.from_buf_length buf_len;
                Ok (set_frame_info (FrameInfoImpl.block_size (fe_frame_info e) b) e)
      | _ => Ok e
      end;
  e ← init e;
  '(buffer, size) ← try_io e (FrameHeader.write xxh32 (fe_frame_info e)
                                (replicate (N.to_nat MAX_FRAME_INFO_SIZE) x00));
  header ← slice buffer 0 size;
  e ← write_bytes e header;
  let e := if fe_content_len e =? 0 then e else reset_stream e in
  Ok (set_is_frame_open true e).

(** Whether the stream positions are about to leave the table's range. *)
Definition should_reposition e (max_block_size : N) : io_res bool :=
  match target_width with
  | W32 => Ok (saturating_sub (u32_max / 2) (max_block_size + WINDOW_SIZE) <=? fe_src_stream_offset e)
  | W64 => v ← uadd (fe_src_stream_offset e) max_block_size; v ← uadd v WINDOW_SIZE;
           Ok (u32_max / 2 <=? v)
  end.

Definition reposition e : io_res (FrameEncoder W) :=
  delta ← usub (fe_src_stream_offset e) (fe_ext_dict_len e);
  Ok (set_src_stream_offset (fe_ext_dict_len e)
        (set_compression_table
           (HashTableU32Impl.reposition (fe_compression_table e) (delta mod 2 ^ 32)) e)).

(** The compression call of [write_block]: the encoder with the block in [dst],
    and its length. *)
Definition compress_block e (input src : bytes) : io_res (FrameEncoder W * N) :=
  dst_required_size ← get_maximum_output_size (len src);
  let first_frame_block := fe_content_len e =? 0 in
  sink ← vec_sink_for_compression (fe_dst e) 0 0 dst_required_size;
  let failed x := (set_dst (sink_output sink) e, io_of_error (CompressionError x)) in
  if negb (len (fe_dict e) =? 0) && (negb (is_linked (fe_frame_info e)) || first_frame_block) then
    _ ← assert (fe_ext_dict_len e =? 0);
    '(s, n) ← map_err failed (compress_into_sink_with_dict true src sink (fe_dict e));
    Ok (set_dst (sink_output s) e, n)
  else if negb (fe_ext_dict_len e =? 0) then
    _ ← assert (is_linked (fe_frame_info e));
    ext_dict ← slice (fe_src e) (fe_ext_dict_offset e) (fe_ext_dict_offset e + fe_ext_dict_len e);
    '(s, t, n) ← map_err failed
      (compress_into_sink_with_table true true false input (fe_src_start e) sink
         (fe_compression_table e) ext_dict (fe_src_stream_offset e));
    Ok (set_compression_table t (set_dst (sink_output s) e), n)
  else
    '(s, t, n) ← map_err failed
      (compress_into_sink_with_table false true false input (fe_src_start e) sink
         (fe_compression_table e) [] (fe_src_stream_offset e));
    Ok (set_compression_table t (set_dst (sink_output s) e), n).

(** The block header, the block and its checksum. *)
Definition emit_block e (block_info : BlockInfo) (block_data : bytes) : io_res (FrameEncoder W) :=
  '(buffer, _) ← try_io e (BlockInfoImpl.write block_info (replicate (N.to_nat BLOCK_INFO_SIZE) x00));
  e ← write_bytes e buffer;
  e ← write_bytes e block_data;
  if block_checksums (fe_frame_info e) then write_bytes e (to_le 4 (xxh32 block_data)) else Ok e.

(** The window after a block: a linked frame keeps its input, and leaves it
    behind as the dictionary when the buffer is full. *)
Definition slide e (max_block_size src_len : N) : io_res (FrameEncoder W) :=
  if is_linked (fe_frame_info e) then
    _ ← assert (fe_src_capacity e =? max_block_size * 2 + WINDOW_SIZE);
    e ← (if max_block_size + WINDOW_SIZE <=? fe_src_start e then
           offset ← usub (fe_src_end e) WINDOW_SIZE;
           e ← add_stream_offset (set_ext_dict offset WINDOW_SIZE e) (fe_src_end e);
           Ok (set_src_pos 0 0 e)
         else if WINDOW_SIZE <? fe_src_start e + fe_ext_dict_len e then
           let delta := N.min (fe_ext_dict_len e) (fe_src_start e + fe_ext_dict_len e - WINDOW_SIZE) in
           let e := set_ext_dict (fe_ext_dict_offset e + delta) (fe_ext_dict_len e - delta) e in
           _ ← assert (WINDOW_SIZE <=? fe_src_start e + fe_ext_dict_len e);
           Ok e
         else Ok e);
    _ ← assert ((fe_ext_dict_len e =? 0) || (fe_src_start e + max_block_size <=? fe_ext_dict_offset e));
    Ok e
  else
    _ ← assert (fe_ext_dict_len e =? 0);
    _ ← assert (fe_src_capacity e =? max_block_size);
    add_stream_offset (set_src_pos 0 0 e) src_len.

Definition write_block e : io_res (FrameEncoder W) :=
  _ ← assert (fe_is_frame_open e);
  max_block_size ← BlockSizeImpl.get_size (block_size (fe_frame_info e));
  filled ← usub (fe_src_end e) (fe_src_start e);
  _ ← assert (filled <=? max_block_size);
  b ← should_reposition e max_block_size;
  e ← (if (b : bool) then reposition e else Ok e);
  input ← slice (fe_src e) 0 (fe_src_end e);
  src ← slice_from input (fe_src_start e);
  let first_frame_block := fe_content_len e =? 0 in
  '(e, comp_len) ← compress_block e input src;
  '(block_info, block_data) ←
    (if comp_len <? len src
     then data ← slice (fe_dst e) 0 comp_len; Ok (Compressed (comp_len mod 2 ^ 32), data)
     else Ok (Uncompressed (len src mod 2 ^ 32), src));
  e ← (if is_linked (fe_frame_info e) && negb (len (fe_dict e) =? 0) && first_frame_block then
         t ← seed_table_with_input (fe_compression_table e) src (fe_src_stream_offset e);
         Ok (set_compression_table t e)
       else Ok e);
  e ← emit_block e block_info block_data;
  let hasher := if content_checksum (fe_frame_info e)
                then fe_content_hasher e ++ src else fe_content_hasher e in
  content_len ← checked_sum u64_max (fe_content_len e) (len src);
  let e := set_src_pos (fe_src_start e + len src) (fe_src_end e) (set_content hasher content_len e) in
  _ ← assert (fe_src_start e =? fe_src_end e);
  e ← slide e max_block_size (len src);
  _ ← assert (fe_src_start e <=? fe_src_end e);
  _ ← assert (fe_src_start e + max_block_size <=? fe_src_capacity e);
  Ok e.

(** The [while] loop of [write]. *)
Fixpoint write_loop (fuel : nat) e buf : io_res (FrameEncoder W) :=
  match fuel with
  | O => NoFuel
  | S fuel =>
      match buf with
      | [] => Ok e
      | _ =>
          src_filled ← usub (fe_src_end e) (fe_src_start e);
          size ← BlockSizeImpl.get_size (block_size (fe_frame_info e));
          max_fill_len ← usub size src_filled;
          if max_fill_len =? 0 then
            e ← write_block e;
            _ ← assert (fe_src_end e =? fe_src_start e);
            write_loop fuel e buf
          else
            let fill_len := N.min max_fill_len (len buf) in
            src ← vec_copy_overwriting (fe_src e) (fe_src_capacity e) (fe_src_end e)
                    (take (N.to_nat fill_len) buf);
            let e := set_src src (fe_src_capacity e) e in
            write_loop fuel (set_src_pos (fe_src_start e) (fe_src_end e + fill_len) e)
              (drop (N.to_nat fill_len) buf)
      end
  end.

(** [Write::write]: a pass either fills some of [src] or is followed by one that
    does. *)
Definition write e buf : io_res (FrameEncoder W * N) :=
  if fe_failed e then Err (e, reuse_error) else
  let e := set_failed true e in
  e ← (if negb (fe_is_frame_open e) && negb (len buf =? 0) then begin_frame e (len buf) else Ok e);
  e ← write_loop (S (2 * length buf)) e buf;
  Ok (set_failed false e, len buf).

(** [Write::flush] *)
Definition flush e : io_res (FrameEncoder W) :=
  if fe_failed e then Err (e, reuse_error) else
  let e := set_failed true e in
  e ← (if fe_src_start e =? fe_src_end e then Ok e else write_block e);
  e ← on_w e FrameIO.flush;
  Ok (set_failed false e).

Definition try_finish e : frame_res (FrameEncoder W) :=
  e ← as_frame (flush e);
  if negb (fe_is_frame_open e) && fe_data_to_frame_written e then Ok e else
  let e := set_failed true e in
  e ← (if fe_is_frame_open e then Ok e else as_frame (begin_frame e 0));
  e ← end_frame e;
  Ok (set_failed false (set_data_to_frame_written true e)).

(** [finish]: the encoder is consumed. *)
Definition finish e : res Error W :=
  e ← map_err snd (try_finish e);
  Ok (fe_w e).

(** [get_mut]: the client may leave another writer behind. *)
Definition get_ref e : W := fe_w e.
Definition get_mut e (wtr : W) : FrameEncoder W := set_w wtr e.
Definition frame_info e : FrameInfo := fe_frame_info e.
Definition into_inner e : W := fe_w e.
End ops.
End FrameEncoderImpl.

(** ** [AutoFinishEncoder]

    The encoder until it is taken by [drop]. *)
Definition AutoFinishEncoder (W : Type) : Type := option (FrameEncoder W).

Module AutoFinishEncoderImpl.
Section ops.
Context `{T : Target} (xxh32 : bytes -> N) {W : Type} `{Write W}.
Implicit Types (a : AutoFinishEncoder W) (buf : bytes).

Definition auto_finish (e : FrameEncoder W) : AutoFinishEncoder W := Some e.

(** [as_mut().ok_or_else(..).and_then(..)] *)
Definition and_then {A} a (f : FrameEncoder W -> res (FrameEncoder W * IoError) (FrameEncoder W * A))
  : res (AutoFinishEncoder W * IoError) (AutoFinishEncoder W * A) :=
  match a with
  | None => Err (None, other)
  | Some e => '(e, x) ← map_err (fun '(e, x) => (Some e, x)) (f e); Ok (Some e, x)
  end.

Definition write a buf : res (AutoFinishEncoder W * IoError) (AutoFinishEncoder W * N) :=
  and_then a (fun e => FrameEncoderImpl.write xxh32 e buf).

Definition flush a : res (AutoFinishEncoder W * IoError) (AutoFinishEncoder W * unit) :=
  and_then a (fun e => e ← FrameEncoderImpl.flush xxh32 e; Ok (e, tt)).

(** [drop]: the result of [try_finish] is ignored.  The writer, which is dropped
    as well, is returned. *)
Definition drop a : res Empty_set (option W) :=
  match a with
  | None => Ok None
  | Some e =>
      match FrameEncoderImpl.try_finish xxh32 e with
      | Ok e | Err (e, _) => Ok (Some (fe_w e))
      | Panic => Panic
      | NoFuel => NoFuel
      end
  end.
End ops.
End AutoFinishEncoderImpl.
