(* ===== verification/FrameEncoderProofs.v ===== *)
(** * The frame encoder against the frame format

    The invariant of an open frame relates the encoder to the bytes it has
    written, the content those bytes carry and the bytes still pending; every
    method keeps it, for a writer that accepts all bytes. *)

From S2P Require Import Prelude BlockSpec Core Primitives DecompressProofs DecompressSpec HashTable Compress CompressProofs DictTableProofs EncoderSpec FrameHeader FrameIO FrameSpec FrameEncoder.

(** ** Lists and sizes *)

Lemma length_resize v n : length (resize v n) = N.to_nat n.
Proof. unfold resize. len_lia. Qed.
#[export] Hint Rewrite length_resize : lz4_len.

Lemma get_size_ok {E} info : block_size info <> Auto ->
  BlockSizeImpl.get_size (E:=E) (block_size info) = Ok (max_block info).
Proof. unfold max_block. by destruct (block_size info). Qed.

Lemma max_block_bounds info : block_size info <> Auto -> 65536 <= max_block info <= 4194304.
Proof. unfold max_block. destruct (block_size info); done || lia. Qed.

(** Overwriting in place and extending at the end. *)
Lemma vec_copy_overwriting_ok {E} target capacity start src :
  start <= len target -> start + len src <= capacity ->
  vec_copy_overwriting (E:=E) target capacity start src =
    Ok (take (N.to_nat start) target ++ src ++ drop (N.to_nat (start + len src)) target).
Proof.
  intros Hs Hc. unfold vec_copy_overwriting, assert. bcase. mstep. access.
  rewrite write_at_ok by len_lia. mstep. f_equal. unfold splice. rewrite length_take.
  destruct (N.le_gt_cases (len src) (len target - start)).
  - rewrite (take_ge src), (drop_ge src), app_nil_r by lia. do 3 f_equal. lia.
  - rewrite <-!app_assoc. f_equal. rewrite (drop_ge target) by lia. cbn [app].
    rewrite (drop_ge target) by lia. rewrite app_nil_r. apply take_drop.
Qed.

(** Reduces accesses to a record that has just been updated. *)
Ltac fields :=
  cbn [fe_src fe_src_capacity fe_src_start fe_src_end fe_ext_dict_offset fe_ext_dict_len
       fe_src_stream_offset fe_compression_table fe_w fe_content_hasher fe_content_len fe_dst
       fe_is_frame_open fe_failed fe_data_to_frame_written fe_frame_info fe_dict
       set_w set_failed set_is_frame_open set_data_to_frame_written set_frame_info set_dict
       set_src set_src_pos set_ext_dict set_src_stream_offset set_compression_table set_content
       set_dst] in *.

(** Arithmetic with the constants of the encoder. *)
Ltac flia :=
  unfold WINDOW_SIZE, u64_max in *;
  pose proof isize_large; pose proof usize_isize;
  change (64 * 1024) with 65536 in *; change (2 ^ 31) with 2147483648 in *;
  change (2 ^ 24) with 16777216 in *; change (2 ^ 64) with 18446744073709551616 in *;
  change (2 ^ 32) with 4294967296 in *; change (u32_max / 2) with 2147483647 in *;
  lia.

(** ** The size of what is written *)

(** [sized k f l content]: the bytes [l] of [f] frames with [content] hold at most
    8 bytes for a block, and all blocks but [k] are full. *)
Definition sized (k f : N) (l content : bytes) : Prop :=
  exists n, len l <= len content + 8 * n + 27 * f /\ n * 65536 <= len content + k * 65536.

Lemma sized_nil : sized 0 0 [] [].
Proof. exists 0. cbn. lia. Qed.

Lemma sized_app k1 f1 l1 c1 k2 f2 l2 c2 : sized k1 f1 l1 c1 -> sized k2 f2 l2 c2 ->
  sized (k1 + k2) (f1 + f2) (l1 ++ l2) (c1 ++ c2).
Proof. intros (n & ? & ?) (m & ? & ?). exists (n + m). len_lia. Qed.

Lemma sized_mono k f k' f' l content : k <= k' -> f <= f' -> sized k f l content -> sized k' f' l content.
Proof. intros ? ? (n & ? & ?). exists n. lia. Qed.

Lemma sized_full b src : len b <= len src + 8 -> 65536 <= len src -> sized 0 0 b src.
Proof. intros. exists 1. lia. Qed.

Lemma sized_part b src : len b <= len src + 8 -> sized 1 0 b src.
Proof. intros. exists 1. lia. Qed.

Lemma sized_frame k f h bs t content : len h <= 19 -> len t <= 8 -> sized k f bs content ->
  sized k (f + 1) (h ++ bs ++ t) content.
Proof. intros ? ? (n & ? & ?). exists n. len_lia. Qed.

Lemma sized_bound k f l content : sized k f l content ->
  len l <= len content + 8 * (len content / 65536 + k) + 27 * f.
Proof. intros (n & ? & ?). assert (n <= len content / 65536 + k) by lia. lia. Qed.

Section ops.
Context `{T : Target} (xxh32 : bytes -> N) {W : Type} {HW : Write W} {HL : WriteLaws W}.
Implicit Types (e : FrameEncoder W) (info : FrameInfo) (dict content bs buf pre : bytes).
Import FrameEncoderImpl.

(** ** The writer *)

Lemma write_bytes_ok e b :
  exists w, write_bytes e b = Ok (set_w w e) /\ sunk w = sunk (fe_w e) ++ b.
Proof.
  destruct (write_all_law (fe_w e) b) as (w & Hw & Hs). exists w.
  unfold write_bytes, on_w. by rewrite Hw.
Qed.

Lemma flush_w_ok e : exists w, on_w e FrameIO.flush = Ok (set_w w e) /\ sunk w = sunk (fe_w e).
Proof.
  destruct (flush_law (fe_w e)) as (w & Hw & Hs). exists w. unfold on_w. by rewrite Hw.
Qed.

(** A block header, the block and its checksum on the writer. *)
Lemma emit_block_ok e i data : block_info_u32 i -> block_info_ok i ->
  exists w, emit_block xxh32 e i data = Ok (set_w w e) /\
    sunk w = sunk (fe_w e) ++ to_le 4 (block_word i) ++ data
             ++ checksum xxh32 (block_checksums (fe_frame_info e)) data.
Proof.
  intros Hu Hi. unfold emit_block, try_io. rewrite block_write_spec by done.
  destruct (decide _) as [_|]; [|done]. rewrite length_replicate. change (_ <? 4) with false.
  mstep. change (splice _ 0 _) with (to_le 4 (block_word i) ++ []). rewrite app_nil_r.
  destruct (write_bytes_ok e (to_le 4 (block_word i))) as (w1 & -> & H1). mstep.
  destruct (write_bytes_ok (set_w w1 e) data) as (w2 & -> & H2). mstep.
  change (set_w w2 (set_w w1 e)) with (set_w w2 e). fields. unfold checksum.
  destruct (block_checksums _).
  - destruct (write_bytes_ok (set_w w2 e) (to_le 4 (xxh32 data))) as (w3 & -> & H3).
    exists w3. split; [done|]. fields. by rewrite H3, H2, H1, <-!app_assoc.
  - exists w2. split; [done|]. by rewrite H2, H1, app_nil_r, <-!app_assoc.
Qed.

(** ** The open frame *)

Definition src_capacity info : N :=
  if is_linked info then max_block info * 2 + WINDOW_SIZE else max_block info.

(** The bytes that a block is compressed against: the window left behind and
    the input before it. *)
Definition window e : bytes :=
  sub (fe_src e) (fe_ext_dict_offset e) (fe_ext_dict_len e)
  ++ take (N.to_nat (fe_src_start e)) (fe_src e).

(** The bytes that are buffered and not yet in a block. *)
Definition pending e : bytes := sub (fe_src e) (fe_src_start e) (fe_src_end e - fe_src_start e).

(** The buffer positions: in a linked frame either the buffer has not wrapped
    out of the window, or exactly the window is left and the free space ends
    before it. *)
Record buffer_inv info e : Prop := {
  bi_start : fe_src_start e <= fe_src_end e;
  bi_end : fe_src_end e <= len (fe_src e);
  bi_block : fe_src_end e <= fe_src_start e + max_block info;
  bi_capacity : fe_src_capacity e = src_capacity info;
  bi_length : len (fe_src e) <= src_capacity info;
  bi_room : fe_src_start e + max_block info <= src_capacity info;
  bi_dict : fe_ext_dict_len e = 0 \/
    (is_linked info = true /\ fe_src_start e + fe_ext_dict_len e = WINDOW_SIZE /\
     max_block info + WINDOW_SIZE <= fe_ext_dict_offset e + fe_ext_dict_len e <= len (fe_src e))
}.

(** The positions in the stream: the table knows earlier ones only, and they fit
    in 32 bits. *)
Record stream_inv info e : Prop := {
  si_ext : fe_ext_dict_len e <= fe_src_stream_offset e;
  si_bound : fe_src_stream_offset e + max_block info <= 2 ^ 31 + 2 ^ 24;
  si_table : table_ok (fe_compression_table e);
  si_below : below (fe_compression_table e) (N.max 1 (fe_src_stream_offset e + fe_src_start e))
}.

(** An open frame: [pre] is what was written before it, [bs] are its blocks and
    [content] the bytes in them. *)
Record open_inv pre dict info bs content e : Prop := {
  oi_open : fe_is_frame_open e = true;
  oi_info : fe_frame_info e = info;
  oi_info_ok : info_ok info;
  oi_dict : fe_dict e = dict;
  oi_dict_len : len dict <= isize_max;
  oi_w : sunk (fe_w e) = pre ++ header_bytes xxh32 info ++ bs;
  oi_emitted : emitted xxh32 info dict bs content;
  oi_len : fe_content_len e = len content;
  oi_hasher : content_checksum info = true -> fe_content_hasher e = content;
  oi_window : is_linked info = true -> exists P, content = P ++ window e;
  oi_buffer : buffer_inv info e;
  oi_stream : stream_inv info e;
  oi_fresh : content = [] -> fe_src_stream_offset e = 0 /\ below (fe_compression_table e) 1
}.

Lemma src_capacity_bound info : block_size info <> Auto ->
  max_block info <= src_capacity info <= 8454144.
Proof. intros Hb%max_block_bounds. unfold src_capacity. unfold WINDOW_SIZE; destruct (is_linked info); lia. Qed.

Lemma length_pending info e : buffer_inv info e ->
  len (pending e) = fe_src_end e - fe_src_start e /\ len (pending e) <= max_block info.
Proof. intros []. unfold pending. rewrite length_sub by lia. lia. Qed.

(** In an independent frame every block starts at the front of the buffer. *)
Lemma independent_start info e : buffer_inv info e -> is_linked info = false ->
  fe_src_start e = 0 /\ fe_ext_dict_len e = 0.
Proof.
  intros [] Hl. unfold src_capacity in bi_room0. rewrite Hl in *.
  split; [lia|]. destruct bi_dict0 as [|(? & _)]; done.
Qed.

(** An empty content has an empty window. *)
Lemma empty_content_start info e : buffer_inv info e ->
  (is_linked info = true -> exists P, [] = P ++ window e) ->
  fe_src_start e = 0 /\ fe_ext_dict_len e = 0.
Proof.
  intros Hb Hw. destruct (is_linked info) eqn:Hl; [|by eapply independent_start].
  destruct (Hw eq_refl) as (P & HP). destruct Hb. unfold window in HP.
  apply (f_equal (fun l => len l)) in HP. autorewrite with lz4_len in HP. lia.
Qed.

(** ** Compressing a block *)

(** The sink over [dst] has room for any block of [n] bytes. *)
Lemma dst_sink_ok {E} v n : n <= 4194304 ->
  exists out, vec_sink_for_compression (E:=E) v 0 0 (max_size n)
              = Ok {| sink_output := out; sink_pos := 0 |} /\ len out = max_size n.
Proof.
  intros Hn. unfold vec_sink_for_compression. rewrite N.add_0_l. access.
  rewrite slice_sink_new. eexists. split; [done|]. len_lia.
Qed.

Lemma max_size_room n : n <= 4194304 -> n * 110 < 2 ^ 64 /\ max_size n <= isize_max.
Proof. unfold max_size. intros. split; flia. Qed.

(** What [compress_block] leaves: the block at the front of [dst], and a table
    whose entries lie before the end of the input. *)
Definition block_in_dst dict info content (src : bytes) e (r : FrameEncoder W * N) : Prop :=
  exists t dst block, r = (set_compression_table t (set_dst dst e), len block) /\
    take (length block) dst = block /\ len block <= len dst /\
    block_decode (block_history info dict content) block = Some src /\
    table_ok t /\ below t (N.max 1 (fe_src_stream_offset e + fe_src_end e)).

(** A block made with the table. *)
Lemma compress_with_table_ok (USE_DICT : bool) dict info content e out D :
  info_ok info -> buffer_inv info e -> stream_inv info e ->
  fe_src_stream_offset e + max_block info + WINDOW_SIZE < 2 ^ 31 \/ fe_src_stream_offset e <= WINDOW_SIZE ->
  (if USE_DICT then D = sub (fe_src e) (fe_ext_dict_offset e) (fe_ext_dict_len e) /\
                    fe_ext_dict_len e <> 0
   else D = [] /\ fe_ext_dict_len e = 0) ->
  (exists P, block_history info dict content = P ++ window e) ->
  len out = max_size (len (pending e)) ->
  returns (compress_into_sink_with_table USE_DICT true false (take (N.to_nat (fe_src_end e)) (fe_src e))
             (fe_src_start e) {| sink_output := out; sink_pos := 0 |} (fe_compression_table e) D
             (fe_src_stream_offset e))
    (fun '(s, t, n) => block_in_dst dict info content (pending e) e
                         (set_compression_table t (set_dst (sink_output s) e), n)).
Proof.
  intros Hi Hb Hs Hso HD (P & HP) Hout. pose proof (length_pending _ _ Hb) as [Hlp Hpm].
  pose proof (max_block_bounds info (proj1 Hi)). pose proof (src_capacity_bound info (proj1 Hi)).
  set (input := take _ (fe_src e)). destruct Hb, Hs.
  assert (Hli : len input = fe_src_end e) by (subst input; len_lia).
  assert (HlD : len D = fe_ext_dict_len e).
  { destruct USE_DICT; destruct HD as [-> Hd]; [|by rewrite Hd].
    destruct bi_dict0 as [|(_ & ? & ?)]; [lia|]. rewrite length_sub by lia. lia. }
  destruct (max_size_room (len (pending e))) as [Hu Hm]; [lia|].
  pose proof (compress_internal_ok USE_DICT true false false input (fe_src_start e)
    {| sink_output := out; sink_pos := 0 |} (fe_compression_table e) D (fe_src_stream_offset e)) as Hr.
  cbn [sink_output sink_pos] in Hr. rewrite N.sub_0_r, Hli in Hr.
  replace (fe_src_end e - fe_src_start e) with (len (pending e)) in Hr by lia.
  fold (max_size (len (pending e))) in Hr. rewrite Hout, N.ltb_irrefl in Hr.
  eapply returns_mono; [apply Hr|].
  { split; try done; cbn [sink_output sink_pos]; try lia.
    - rewrite Hli, HlD. destruct USE_DICT; [|flia]. destruct HD as [_ Hd].
      destruct bi_dict0 as [|(_ & Hw & _)]; [done|]. flia.
    - intros ->. tauto.
    - unfold sink_ok. cbn. lia. }
  intros [[s t] n] (block & <- & Hbl & Ha & Htt & Htb). apply appended_start in Ha as (Hol & Hle & Htk).
  exists t, (sink_output s), block. split_and!; try done; [lia|].
  rewrite HP. apply block_decode_app_prefix. destruct Hbl as (Hd & _).
  replace (drop _ input) with (pending e) in Hd.
  2:{ subst input. unfold pending, sub. rewrite skipn_firstn_comm. f_equal. lia. }
  rewrite <-Hd. f_equal. unfold window. f_equal.
  - destruct USE_DICT; destruct HD as [-> Hd']; [done|]. by rewrite Hd'.
  - subst input. rewrite take_take. f_equal. lia.
Qed.

(** A block made with the dictionary. *)
Lemma compress_with_dict_ok dict info content e out :
  len dict <= isize_max -> len (pending e) <= 4194304 ->
  table_ok (fe_compression_table e) ->
  below (fe_compression_table e) (N.max 1 (fe_src_stream_offset e + fe_src_end e)) ->
  (exists P, block_history info dict content = P ++ dict) ->
  len out = max_size (len (pending e)) ->
  returns (compress_into_sink_with_dict true (pending e) {| sink_output := out; sink_pos := 0 |} dict)
    (fun '(s, n) => block_in_dst dict info content (pending e) e (set_dst (sink_output s) e, n)).
Proof.
  intros Hd Hp Ht Hb (P & HP) Hout. destruct (max_size_room (len (pending e)) Hp) as [Hu Hm].
  pose proof (compress_into_sink_with_dict_ok true (pending e) {| sink_output := out; sink_pos := 0 |} dict)
    as Hr.
  unfold sink_call in Hr. cbn [sink_output sink_pos] in Hr. rewrite N.sub_0_r, Hout, N.ltb_irrefl in Hr.
  eapply returns_mono; [apply Hr; try done|].
  - split; [|done]. change (2 ^ 18) with 262144. flia.
  - unfold sink_ok. cbn. lia.
  - intros [s n] (block & <- & Hbl & Ha). apply appended_start in Ha as (Hol & Hle & Htk).
    exists (fe_compression_table e), (sink_output s), block. split_and!; try done; [lia|].
    destruct (dict_used_suffix true dict) as (Q & HQ). destruct Hbl as (Hdec & _). cbn [take drop] in Hdec.
    change (N.to_nat 0) with 0%nat in Hdec. rewrite take_0, drop_0, app_nil_r in Hdec.
    rewrite HP, HQ, app_assoc. by apply block_decode_app_prefix.
Qed.

(** The three compression calls. *)
Lemma compress_block_ok pre dict info bs content e :
  open_inv pre dict info bs content e ->
  fe_src_stream_offset e + max_block info + WINDOW_SIZE < 2 ^ 31 \/ fe_src_stream_offset e <= WINDOW_SIZE ->
  returns (compress_block e (take (N.to_nat (fe_src_end e)) (fe_src e)) (pending e))
    (block_in_dst dict info content (pending e) e).
Proof.
  intros [] Hso. pose proof (length_pending _ _ oi_buffer0) as [Hlp Hpm].
  pose proof (max_block_bounds info (proj1 oi_info_ok0)).
  unfold compress_block. rewrite get_maximum_output_size_ok by flia. mstep.
  fold (max_size (len (pending e))).
  destruct (dst_sink_ok (E:=FrameEncoder W * IoError) (fe_dst e) (len (pending e))) as (out & -> & Hout);
    [lia|]. mstep.
  rewrite oi_info0, oi_dict0, oi_len0. pose proof oi_stream0 as [].
  pose proof (bi_start _ _ oi_buffer0).
  assert (Hbe : below (fe_compression_table e) (N.max 1 (fe_src_stream_offset e + fe_src_end e)))
    by (eapply below_mono; [done|lia]).
  destruct (negb (len dict =? 0) && _) eqn:Hcase.
  { apply andb_prop in Hcase as [_ Hcase].
    assert (Hhist : fe_ext_dict_len e = 0 /\ exists P, block_history info dict content = P ++ dict).
    { unfold is_linked in Hcase. unfold block_history. destruct (block_mode info) eqn:Hm; cbn in Hcase.
      - split; [|by exists []]. by apply (independent_start _ _ oi_buffer0); unfold is_linked; rewrite Hm.
      - apply N.eqb_eq in Hcase. destruct content; [|cbn in Hcase; lia]. rewrite app_nil_r.
        split; [|by exists []]. by apply (empty_content_start _ _ oi_buffer0). }
    destruct Hhist as [-> Hhist]. cbn [N.eqb assert]. mstep.
    pose proof (compress_with_dict_ok dict info content e out oi_dict_len0 ltac:(lia) si_table0 Hbe Hhist Hout)
      as ([s n] & -> & Hr). mstep. by apply returns_ok. }
  assert (Hhist : exists P, block_history info dict content = P ++ window e).
  { unfold block_history. destruct (block_mode info) eqn:Hm.
    - destruct (independent_start _ _ oi_buffer0) as [H1 H2]; [by unfold is_linked; rewrite Hm|].
      exists dict. unfold window. rewrite H1, H2. by rewrite app_nil_r.
    - destruct oi_window0 as (P & ->); [by unfold is_linked; rewrite Hm|]. exists (dict ++ P).
      by rewrite app_assoc. }
  destruct (N.eqb_spec (fe_ext_dict_len e) 0) as [Hx|Hx]; cbn [negb].
  - destruct (compress_with_table_ok false dict info content e out [] oi_info_ok0 oi_buffer0 oi_stream0
      Hso (conj eq_refl Hx) Hhist Hout) as ([[s t] n] & -> & Hr). mstep. by apply returns_ok.
  - pose proof (bi_dict _ _ oi_buffer0) as [|(Hl & _ & Hd)]; [done|]. rewrite Hl. cbn [assert]. mstep.
    rewrite slice_ok by lia. mstep.
    destruct (compress_with_table_ok true dict info content e out
      (sub (fe_src e) (fe_ext_dict_offset e) (fe_ext_dict_len e)) oi_info_ok0 oi_buffer0 oi_stream0
      Hso (conj eq_refl Hx) Hhist Hout) as ([[s t] n] & Hc & Hr).
    replace (fe_ext_dict_offset e + fe_ext_dict_len e - fe_ext_dict_offset e)
      with (fe_ext_dict_len e) by lia.
    rewrite Hc. mstep. by apply returns_ok.
Qed.

(** ** The stream positions *)

(** [e] with another table at another stream offset. *)
Definition repositioned (e e' : FrameEncoder W) : Prop :=
  exists t sso, e' = set_src_stream_offset sso (set_compression_table t e).

Lemma repositioned_refl e : repositioned e e.
Proof. exists (fe_compression_table e), (fe_src_stream_offset e). by destruct e. Qed.

(** Before a block the stream offset leaves room for it in 31 bits, or is that
    of a stream that starts at the window. *)
Lemma reposition_step_ok pre dict info bs content e :
  open_inv pre dict info bs content e ->
  returns (b ← should_reposition e (max_block info); if (b : bool) then reposition e else Ok e)
    (fun e' => repositioned e e' /\ open_inv pre dict info bs content e' /\
       (fe_src_stream_offset e' + max_block info + WINDOW_SIZE < 2 ^ 31 \/
        fe_src_stream_offset e' <= WINDOW_SIZE)).
Proof.
  intros Ho. pose proof Ho as []. pose proof (max_block_bounds info (proj1 oi_info_ok0)).
  destruct oi_stream0.
  assert (Hb : exists b, should_reposition e (max_block info) = Ok b /\
    (b = false -> fe_src_stream_offset e + max_block info + WINDOW_SIZE < 2 ^ 31)).
  { unfold should_reposition, saturating_sub. destruct target_width.
    - eexists. split; [done|]. intros ?%N.leb_gt. flia.
    - rewrite uadd_ok by flia. mstep. rewrite uadd_ok by flia. mstep. eexists. split; [done|].
      intros ?%N.leb_gt. flia. }
  destruct Hb as ([] & -> & Hb); mstep.
  2:{ apply returns_ok. split_and!; [apply repositioned_refl|done|]. left. by apply Hb. }
  unfold reposition. access. apply returns_ok. fields.
  set (delta := _ mod 2 ^ 32).
  assert (Hdelta : delta = fe_src_stream_offset e - fe_ext_dict_len e)
    by (subst delta; apply N.mod_small; flia).
  destruct (reposition_ok DEFAULT_NODICT_ENTRIES eq_refl (fe_compression_table e) _ delta si_table0 si_below0)
    as [Ht Htb].
  assert (Hw : fe_ext_dict_len e <= WINDOW_SIZE) by (destruct oi_buffer0 as [? ? ? ? ? ? [->|]]; lia).
  split_and!; [by eexists _, _| |by right].
  split; fields; try done; [by destruct oi_buffer0; split| |].
  - split; fields; [lia|flia|done|]. eapply below_mono; [exact Htb|]. lia.
  - intros ->. destruct (oi_fresh0 eq_refl) as [_ Hb1].
    destruct (empty_content_start _ _ oi_buffer0 oi_window0) as [_ Hx]. split; [done|].
    destruct (reposition_ok DEFAULT_NODICT_ENTRIES eq_refl (fe_compression_table e) _ delta si_table0 Hb1)
      as [_ Hb2]. eapply below_mono; [exact Hb2|lia].
Qed.

(** ** The window after a block *)

Lemma add_stream_offset_ok e delta : fe_src_stream_offset e + delta < 2 ^ 32 ->
  add_stream_offset e delta = Ok (set_src_stream_offset (fe_src_stream_offset e + delta) e).
Proof.
  intros Hb. unfold add_stream_offset. destruct target_width.
  - rewrite checked_add_ok by flia. done.
  - rewrite uadd_ok by flia. done.
Qed.

(** [e] with other positions, and the source bytes it had. *)
Definition slid (e e' : FrameEncoder W) : Prop :=
  exists s off n sso, e' = set_src_pos s s (set_ext_dict off n (set_src_stream_offset sso e)).

(** What a block leaves to [slide]: all of the buffer is in blocks. *)
Record slide_pre info e : Prop := {
  sp_info_ok : info_ok info;
  sp_info : fe_frame_info e = info;
  sp_buffer : buffer_inv info e;
  sp_block : fe_src_start e < fe_src_end e;
  sp_offset : fe_src_stream_offset e + max_block info + WINDOW_SIZE < 2 ^ 31 \/
              fe_src_stream_offset e <= WINDOW_SIZE;
  sp_ext : fe_ext_dict_len e <= fe_src_stream_offset e;
  sp_table : table_ok (fe_compression_table e);
  sp_below : below (fe_compression_table e) (N.max 1 (fe_src_stream_offset e + fe_src_end e))
}.

(** The encoder when [slide] starts. *)
Definition consumed e : FrameEncoder W := set_src_pos (fe_src_end e) (fe_src_end e) e.

(** The positions are again those of an open frame. *)
Record slide_post info e e' : Prop := {
  sq_slid : slid e e';
  sq_empty : fe_src_start e' = fe_src_end e';
  sq_buffer : buffer_inv info e';
  sq_stream : stream_inv info e';
  sq_window : is_linked info = true -> exists P, window (consumed e) = P ++ window e'
}.

Lemma slide_pre_bounds info e : slide_pre info e ->
  65536 <= max_block info <= 4194304 /\ max_block info <= src_capacity info <= 8454144.
Proof. intros []. split; [by apply max_block_bounds, sp_info_ok0|by apply src_capacity_bound, sp_info_ok0]. Qed.

Lemma linked_capacity info : is_linked info = true -> src_capacity info = max_block info * 2 + WINDOW_SIZE.
Proof. intros Hl. unfold src_capacity. by rewrite Hl. Qed.

(** An independent frame starts over at the front of the buffer. *)
Lemma slide_independent info e : slide_pre info e -> is_linked info = false ->
  returns (slide (consumed e) (max_block info) (fe_src_end e - fe_src_start e)) (slide_post info e).
Proof.
  intros Hp Hl. pose proof (slide_pre_bounds _ _ Hp) as [? ?]. destruct Hp.
  destruct (independent_start _ _ sp_buffer0 Hl) as [Hs Hx]. destruct sp_buffer0.
  unfold slide, consumed. fields. rewrite sp_info0, Hl, Hx. cbn [N.eqb assert]. mstep.
  unfold src_capacity in *. rewrite Hl in *. unfold assert. bcase. mstep.
  rewrite add_stream_offset_ok by (fields; flia). apply returns_ok. fields. rewrite Hs, N.sub_0_r in *.
  split; fields; [|done| | |by rewrite Hl].
  - by exists 0, (fe_ext_dict_offset e), (fe_ext_dict_len e), (fe_src_stream_offset e + fe_src_end e).
  - split; fields; unfold src_capacity; rewrite ?Hl; try lia.
  - split; fields; [lia|flia|done|]. eapply below_mono; [done|lia].
Qed.

(** A full buffer is left behind as the window. *)
Lemma slide_wrap info e : slide_pre info e -> is_linked info = true ->
  max_block info + WINDOW_SIZE <= fe_src_end e ->
  slide_post info e
    (set_src_pos 0 0 (set_src_stream_offset (fe_src_stream_offset e + fe_src_end e)
       (set_ext_dict (fe_src_end e - WINDOW_SIZE) WINDOW_SIZE (consumed e)))).
Proof.
  intros Hp Hl Hfull. pose proof (slide_pre_bounds _ _ Hp) as [? ?].
  pose proof (linked_capacity _ Hl). destruct Hp, sp_buffer0. split; unfold consumed; fields.
  - by eexists 0, _, _, _.
  - done.
  - split; fields; try lia. right. split; [done|]. lia.
  - split; fields; [lia|flia|done|]. eapply below_mono; [done|lia].
  - intros _. unfold window. fields. change (N.to_nat 0) with 0%nat. rewrite take_0, app_nil_r.
    exists (sub (fe_src e) (fe_ext_dict_offset e) (fe_ext_dict_len e)
            ++ take (N.to_nat (fe_src_end e - WINDOW_SIZE)) (fe_src e)).
    rewrite <-app_assoc. f_equal. rewrite take_sub by lia. f_equal. lia.
Qed.

(** The window loses its first [delta] bytes as the input grows. *)
Lemma slide_shrink info e delta : slide_pre info e -> is_linked info = true ->
  fe_src_end e < max_block info + WINDOW_SIZE ->
  delta = N.min (fe_ext_dict_len e) (fe_src_end e + fe_ext_dict_len e - WINDOW_SIZE) ->
  slide_post info e
    (set_ext_dict (fe_ext_dict_offset e + delta) (fe_ext_dict_len e - delta) (consumed e)) /\
  ((fe_ext_dict_len e - delta =? 0)
   || (fe_src_end e + max_block info <=? fe_ext_dict_offset e + delta)) = true.
Proof.
  intros Hp Hl Hroom Hd. pose proof (slide_pre_bounds _ _ Hp) as [? ?].
  pose proof (linked_capacity _ Hl). destruct Hp, sp_buffer0.
  assert (Hcase : fe_ext_dict_len e - delta = 0 \/
    (fe_src_end e + (fe_ext_dict_len e - delta) = WINDOW_SIZE /\
     max_block info + WINDOW_SIZE <= fe_ext_dict_offset e + fe_ext_dict_len e <= len (fe_src e)))
    by (destruct bi_dict0 as [|(_ & ? & ?)]; lia).
  split; [split; unfold consumed; fields|].
  - by eexists _, _, _, (fe_src_stream_offset e).
  - done.
  - split; fields; try lia. destruct Hcase as [|[? ?]]; [by left|right]. split; [done|]. lia.
  - split; fields; [lia|flia|done|]. eapply below_mono; [done|lia].
  - intros _. unfold window. fields. destruct bi_dict0 as [Hz|(_ & ? & ?)].
    { exists []. rewrite Hz. replace (0 - delta) with 0 by lia. done. }
    destruct (sub_suffix (fe_src e) (fe_ext_dict_offset e) (fe_ext_dict_len e) delta) as (P & HP);
      [lia..|]. exists P. by rewrite HP, <-app_assoc.
  - destruct Hcase as [->|[? ?]]; [done|]. apply orb_true_intro. right. apply N.leb_le. lia.
Qed.

Lemma slide_ok info e : slide_pre info e ->
  returns (slide (consumed e) (max_block info) (fe_src_end e - fe_src_start e)) (slide_post info e).
Proof.
  intros Hp. destruct (is_linked info) eqn:Hl; [|by apply slide_independent].
  pose proof (slide_pre_bounds _ _ Hp) as [? ?]. unfold slide, consumed. fields.
  pose proof Hp as []. pose proof sp_buffer0 as []. rewrite sp_info0, Hl, bi_capacity0, linked_capacity by done.
  unfold assert. rewrite N.eqb_refl. mstep.
  destruct (N.leb_spec (max_block info + WINDOW_SIZE) (fe_src_end e)) as [Hfull|Hroom].
  - access. rewrite add_stream_offset_ok by (fields; flia). mstep. fields.
    destruct (N.leb_spec (0 + max_block info) (fe_src_end e - WINDOW_SIZE)); [|lia].
    rewrite orb_true_r. mstep. apply returns_ok. by apply slide_wrap.
  - pose proof (slide_shrink info e _ Hp Hl Hroom eq_refl) as [Hpost Hx]. revert Hpost Hx.
    set (delta := N.min _ _). intros Hpost Hx.
    destruct (N.ltb_spec WINDOW_SIZE (fe_src_end e + fe_ext_dict_len e)) as [Hover|Hover]; fields.
    + destruct (N.leb_spec WINDOW_SIZE (fe_src_end e + (fe_ext_dict_len e - delta))); [|lia].
      mstep. fields. rewrite Hx. mstep. by apply returns_ok.
    + mstep. fields. assert (Hz : delta = 0) by lia. rewrite Hz, N.add_0_r, N.sub_0_r in *.
      rewrite Hx. mstep. by apply returns_ok.
Qed.

(** ** Writing a block *)

Lemma header_bytes_max info : len (header_bytes xxh32 info) <= 19.
Proof. rewrite length_header_bytes. unfold write_size. by destruct (content_size info), (dict_id info). Qed.

Lemma checksum_length c data : len (checksum xxh32 c data) <= 4.
Proof. unfold checksum. destruct c; cbn; lia. Qed.

(** The smaller of the compressed and the raw form, and its header. *)
Lemma choose_block_ok {E} dict info content (src dst block : bytes) :
  info_ok info -> 0 < len src -> len src <= max_block info ->
  take (length block) dst = block -> len block <= len dst ->
  block_decode (block_history info dict content) block = Some src ->
  exists i data,
    (if len block <? len src
     then data ← slice (E:=E) dst 0 (len block); Ok (Compressed (len block mod 2 ^ 32), data)
     else Ok (Uncompressed (len src mod 2 ^ 32), src)) = Ok (i, data) /\
    block_info_u32 i /\ block_info_ok i /\ len data <= len src /\
    block_carries xxh32 info dict content
      (to_le 4 (block_word i) ++ data ++ checksum xxh32 (block_checksums info) data) src.
Proof.
  intros Hi H0 Hm Ht Hl Hd. pose proof (max_block_bounds info (proj1 Hi)).
  assert (Hb : 0 < len block) by (destruct block; [done|cbn; lia]).
  destruct (N.ltb_spec (len block) (len src)).
  - access. rewrite N.sub_0_r, sub_0, Nat2N.id, Ht, N.mod_small by flia.
    eexists _, _. split; [done|]. cbn [block_info_u32 block_info_ok block_word].
    split_and!; try flia. by apply carries_compressed; try lia.
  - rewrite N.mod_small by flia. eexists _, _. split; [done|].
    cbn [block_info_u32 block_info_ok block_word]. split_and!; try flia. by apply carries_raw.
Qed.

(** The table learns the first block of a linked frame with a dictionary. *)
Lemma seed_step_ok {E} (c : bool) (e : FrameEncoder W) (src : bytes) b :
  table_ok (fe_compression_table e) -> below (fe_compression_table e) b ->
  fe_src_stream_offset e + len src <= b ->
  exists t, (if c then t ← seed_table_with_input (E:=E) (fe_compression_table e) src (fe_src_stream_offset e);
                       Ok (set_compression_table t e)
             else Ok e) = Ok (set_compression_table t e) /\ table_ok t /\ below t b.
Proof.
  intros Ht Hb Hl. destruct c.
  - destruct (seed_loop_ok (E:=E) (S (length src)) (fe_compression_table e) src 0
      (fe_src_stream_offset e) b Ht Hb) as (t & Hs & ? & ?); [lia|lia|].
    exists t. unfold seed_table_with_input. by rewrite Hs.
  - exists (fe_compression_table e). split; [by destruct e|done].
Qed.

(** What a block changes. *)
Record block_written pre dict info bs content (src : bytes) e e' : Prop := {
  bw_empty : fe_src_start e' = fe_src_end e';
  bw_failed : fe_failed e' = fe_failed e;
  bw_data : fe_data_to_frame_written e' = fe_data_to_frame_written e;
  bw_open : exists b, block_carries xxh32 info dict content b src /\ len b <= len src + 8 /\
              open_inv pre dict info (bs ++ b) (content ++ src) e'
}.

(** The end of [write_block]: the sums and the window. *)
Lemma finish_block_ok pre dict info bs content b e (src : bytes) w :
  let n := len src in
  slide_pre info e -> fe_is_frame_open e = true -> fe_dict e = dict -> len dict <= isize_max ->
  fe_content_len e = len content -> len content + n <= u64_max ->
  n = fe_src_end e - fe_src_start e -> src = pending e ->
  (content_checksum info = true -> fe_content_hasher e = content) ->
  (is_linked info = true -> exists P, content = P ++ window e) ->
  emitted xxh32 info dict bs content -> block_carries xxh32 info dict content b src ->
  len b <= len src + 8 -> sunk w = pre ++ header_bytes xxh32 info ++ bs ++ b ->
  let e1 := set_w w e in
  let hasher := if content_checksum info then fe_content_hasher e1 ++ src else fe_content_hasher e1 in
  returns (E:=FrameEncoder W * IoError)
    (content_len ← checked_sum u64_max (fe_content_len e1) n;
     let e := set_src_pos (fe_src_start e1 + n) (fe_src_end e1) (set_content hasher content_len e1) in
     _ ← assert (fe_src_start e =? fe_src_end e);
     e ← slide e (max_block info) n;
     _ ← assert (fe_src_start e <=? fe_src_end e);
     _ ← assert (fe_src_start e + max_block info <=? fe_src_capacity e);
     Ok e)
    (block_written pre dict info bs content src e).
Proof.
  intros n Hp Hopen Hdict Hdl Hlen Hsum Hn Hsrc Hh Hw Hem Hc Hbs Hsunk e1 hasher. subst e1. fields.
  rewrite checked_sum_ok by flia. mstep. fields. pose proof Hp as []. pose proof sp_buffer0 as [].
  replace (fe_src_start e + n) with (fe_src_end e) by lia. unfold assert at 1. rewrite N.eqb_refl. mstep.
  set (e2 := set_content hasher (fe_content_len e + n) (set_w w e)).
  change (set_src_pos (fe_src_end e) (fe_src_end e) e2) with (consumed e2).
  assert (Hp2 : slide_pre info e2) by (split; done).
  rewrite Hn. destruct (slide_ok info e2 Hp2) as (e' & He & []).
  change (fe_src_end e - fe_src_start e) with (fe_src_end e2 - fe_src_start e2).
  rewrite He. mstep. pose proof sq_buffer0 as []. unfold assert. rewrite sq_empty0, N.leb_refl. mstep.
  rewrite <-sq_empty0. destruct (N.leb_spec (fe_src_start e' + max_block info) (fe_src_capacity e')); [|lia].
  mstep. apply returns_ok. destruct sq_slid0 as (s & off & xn & sso & ->). subst e2. fields.
  split; fields; try done. exists b. split; [done|]. split; [done|].
  assert (Hne : content ++ src <> []) by (intros [_ ->]%app_nil; subst n; cbn in *; lia).
  split; fields; try done; [by econstructor|rewrite Hlen; subst n; len_lia| |].
  - subst hasher. intros Hck. rewrite Hck. by rewrite Hh.
  - intros Hl. destruct (sq_window0 Hl) as (P & HP), (Hw Hl) as (Q & HQ). exists (Q ++ P).
    rewrite <-app_assoc, <-HP, HQ, <-app_assoc. f_equal. rewrite Hsrc. unfold window, consumed, pending.
    fields. rewrite <-app_assoc. f_equal. rewrite take_sub by lia. f_equal. lia.
Qed.

Lemma write_block_ok pre dict info bs content e :
  open_inv pre dict info bs content e -> fe_src_start e < fe_src_end e ->
  len content + len (pending e) <= u64_max ->
  returns (write_block xxh32 e) (block_written pre dict info bs content (pending e) e).
Proof.
  intros Ho Hlt Hsum. pose proof Ho as []. pose proof (length_pending _ _ oi_buffer0) as [Hlp Hpm].
  pose proof (bi_start _ _ oi_buffer0). pose proof (bi_end _ _ oi_buffer0).
  unfold write_block. rewrite oi_open0, oi_info0, get_size_ok by apply oi_info_ok0.
  cbn [assert]. mstep. access. rewrite (proj2 (N.leb_le _ (max_block info))) by lia. cbn [assert]. mstep.
  destruct (reposition_step_ok _ _ _ _ _ _ Ho) as (e1 & Hstep & (t & sso & He1) & Ho1 & Hso).
  apply bind_Ok in Hstep as (c & -> & Hstep). mstep. rewrite Hstep. mstep.
  assert (Hsrc : fe_src e1 = fe_src e /\ fe_src_start e1 = fe_src_start e /\ fe_src_end e1 = fe_src_end e /\
    fe_failed e1 = fe_failed e /\ fe_data_to_frame_written e1 = fe_data_to_frame_written e)
    by (subst e1; done).
  assert (Hpend : pending e1 = pending e) by (subst e1; done).
  destruct Hsrc as (Hs1 & Hs2 & Hs3 & Hf1 & Hf2). rewrite Hs1, Hs2, Hs3. clear He1 Ho.
  access. access. rewrite N.sub_0_r, sub_0.
  replace (drop _ (take _ (fe_src e))) with (pending e1)
    by (rewrite Hpend; unfold pending, sub; rewrite skipn_firstn_comm; f_equal; lia).
  rewrite <-Hs1, <-Hs3. pose proof Ho1 as [].
  destruct (compress_block_ok _ _ _ _ _ _ Ho1 Hso) as (r & -> & t2 & dst & block & -> & Hdst). mstep.
  destruct Hdst as (Htk & Hbl & Hdec & Ht2 & Hb2). fields.
  destruct (choose_block_ok (E:=FrameEncoder W * IoError) dict info content (pending e1) dst block) as
    (i & data & -> & Hi1 & Hi2 & Hdl & Hc); try done; [rewrite Hpend; lia..|]. mstep.
  destruct oi_stream1.
  destruct (seed_step_ok (E:=FrameEncoder W * IoError)
    (is_linked (fe_frame_info e1) && negb (len (fe_dict e1) =? 0) && (fe_content_len e1 =? 0))
    (set_compression_table t2 (set_dst dst e1)) (pending e1)
    (N.max 1 (fe_src_stream_offset e1 + fe_src_end e1))) as (t3 & Hseed & Ht3 & Hb3);
    fields; [done|done|rewrite Hpend; lia|].
  rewrite Hseed. mstep. clear Hseed.
  set (e3 := set_compression_table t3 _).
  destruct (emit_block_ok e3 i data Hi1 Hi2) as (w & -> & Hw). mstep.
  change (fe_frame_info (set_w w e3)) with (fe_frame_info e1).
  change (sunk (fe_w e3)) with (sunk (fe_w e1)) in Hw.
  change (fe_frame_info e3) with (fe_frame_info e1) in Hw.
  rewrite oi_info1 in Hw |- *. eapply returns_mono.
  - apply (finish_block_ok pre dict info bs content
      (to_le 4 (block_word i) ++ data ++ checksum xxh32 (block_checksums info) data) e3 (pending e1) w);
      try done; [|by rewrite Hpend|subst e3; fields; rewrite Hpend; lia|
        pose proof (checksum_length (block_checksums info) data); len_lia|by rewrite Hw, oi_w1, <-!app_assoc].
    subst e3. split; fields; try done; [by destruct oi_buffer1; split|lia].
  - rewrite <-Hpend. subst e3. intros e' []. fields. split; done || congruence.
Qed.

(** ** Filling the buffer *)

(** The bytes of an open frame: those in blocks, at most [k] of them not full,
    then those pending. *)
Definition frame_holds k pre dict info (all : bytes) e : Prop :=
  exists bs content, open_inv pre dict info bs content e /\ sized k 0 bs content /\ all = content ++ pending e.

(** The flags that only the outer methods change. *)
Definition same_flags e e' : Prop :=
  fe_failed e' = fe_failed e /\ fe_data_to_frame_written e' = fe_data_to_frame_written e.

(** Copying in front of the window left behind does not touch it. *)
Lemma sub_after {A} (l d : list A) a n off m : a + n <= off -> len d = n -> a <= len l ->
  sub (take (N.to_nat a) l ++ d ++ drop (N.to_nat (a + n)) l) off m = sub l off m.
Proof.
  intros. unfold sub. f_equal. rewrite app_assoc, drop_app_ge by len_lia. rewrite drop_drop. f_equal.
  len_lia.
Qed.

Lemma src_fill_ok pre dict info bs content e (data : bytes) :
  open_inv pre dict info bs content e -> fe_src_end e + len data <= fe_src_start e + max_block info ->
  exists src, vec_copy_overwriting (E:=FrameEncoder W * IoError) (fe_src e) (fe_src_capacity e) (fe_src_end e) data
              = Ok src /\
    let e' := set_src_pos (fe_src_start e) (fe_src_end e + len data) (set_src src (fe_src_capacity e) e) in
    open_inv pre dict info bs content e' /\ pending e' = pending e ++ data.
Proof.
  intros Ho Hroom. pose proof Ho as []. pose proof oi_buffer0 as [].
  rewrite vec_copy_overwriting_ok by lia. eexists. split; [done|]. cbv zeta.
  set (src := take _ _ ++ _).
  assert (Hl : len src = N.max (len (fe_src e)) (fe_src_end e + len data)) by (subst src; len_lia).
  assert (Hw : window (set_src_pos (fe_src_start e) (fe_src_end e + len data)
                         (set_src src (fe_src_capacity e) e)) = window e).
  { unfold window. fields. f_equal.
    - destruct bi_dict0 as [->|(_ & ? & ?)]; [done|]. apply sub_after; lia.
    - subst src. rewrite take_app_le by len_lia. rewrite take_take. f_equal. lia. }
  split.
  - split; fields; try done.
    + intros Hlk. rewrite Hw. by apply oi_window0.
    + split; fields; try lia. destruct bi_dict0 as [|(? & ? & ?)]; [by left|right]. split_and!; done || lia.
    + by destruct oi_stream0; split.
  - unfold pending. fields. subst src. unfold sub. rewrite app_assoc, drop_app_le by len_lia.
    rewrite take_app_length' by len_lia. rewrite drop_app_le by len_lia. f_equal.
    rewrite skipn_firstn_comm. f_equal. lia.
Qed.

Lemma write_loop_ok fuel k pre dict info all e buf :
  frame_holds k pre dict info all e -> len (all ++ buf) <= u64_max ->
  (2 * length buf < fuel)%nat \/
    (fe_src_end e < fe_src_start e + max_block info /\ buf <> [] /\ (2 * length buf <= fuel)%nat) ->
  returns (write_loop xxh32 fuel e buf) (fun e' =>
    frame_holds k pre dict info (all ++ buf) e' /\ same_flags e e').
Proof.
  revert all e buf. induction fuel as [|fuel IH]; intros all e buf (bs & content & Ho & Hsz & ->) Hlen Hf;
    [destruct buf; [destruct Hf as [|(_ & ? & _)]; [lia|done]|cbn in Hf; lia]|].
  cbn [write_loop]. destruct buf as [|x buf0]; [|set (buf := x :: buf0) in *].
  { apply returns_ok. split; [|done]. exists bs, content. by rewrite app_nil_r. }
  pose proof Ho as []. pose proof oi_buffer0 as []. pose proof (length_pending _ _ oi_buffer0) as [? ?].
  assert (Hbuf : 0 < len buf) by (subst buf; cbn; lia).
  rewrite oi_info0, get_size_ok by apply oi_info_ok0. access. access.
  destruct (N.eqb_spec (max_block info - (fe_src_end e - fe_src_start e)) 0) as [Hfull|Hfree].
  - (* a full block *)
    pose proof (max_block_bounds info (proj1 oi_info_ok0)).
    destruct (write_block_ok _ _ _ _ _ _ Ho) as (e' & -> & []); [lia|len_lia|]. mstep.
    rewrite bw_empty0, N.eqb_refl. cbn [assert]. mstep. destruct bw_open0 as (b & Hb & Hbl & Ho').
    assert (Hp : pending e' = []) by (unfold pending; by rewrite bw_empty0, N.sub_diag).
    destruct (IH ((content ++ pending e)) e' buf) as (e2 & -> & Hh & [? ?]).
    + eexists _, _. split; [exact Ho'|]. rewrite Hp, app_nil_r. split; [|done].
      apply (sized_app k 0 bs content 0 0 b (pending e)) in Hsz; [|apply sized_full; lia].
      by rewrite !N.add_0_r in Hsz.
    + done.
    + right. rewrite bw_empty0. split_and!; [lia|done|lia].
    + apply returns_ok. split; [done|]. split; congruence.
  - (* some of the buffer *)
    set (n := N.min _ (len buf)). assert (Hn : 0 < n /\ n <= len buf) by lia.
    assert (Hd : len (take (N.to_nat n) buf) = n) by len_lia.
    destruct (src_fill_ok _ _ _ _ _ _ (take (N.to_nat n) buf) Ho) as (src & -> & Ho' & Hp); [lia|].
    rewrite Hd in Ho', Hp. mstep. fields.
    set (e1 := set_src_pos _ _ _) in *.
    destruct (IH (content ++ pending e1) e1 (drop (N.to_nat n) buf)) as (e2 & He2 & Hh & [? ?]).
    + by exists bs, content.
    + rewrite Hp. revert Hlen. rewrite <-!app_assoc. rewrite take_drop. done.
    + left. len_lia.
    + exists e2. split; [exact He2|]. rewrite Hp, <-!app_assoc, take_drop, !app_assoc in Hh. done.
Qed.

(** ** Opening and closing a frame *)

(** A closed frame: the encoder is fresh, or keeps the buffers of an earlier
    frame until the next one clears them.  After an empty frame nothing has been
    cleared, and nothing needs to be. *)
Record closed_inv out dict e : Prop := {
  ci_open : fe_is_frame_open e = false;
  ci_dict : fe_dict e = dict;
  ci_dict_len : len dict <= isize_max;
  ci_w : sunk (fe_w e) = out;
  ci_empty : fe_src_start e = fe_src_end e;
  ci_table : table_ok (fe_compression_table e);
  ci_fresh : fe_content_len e = 0 ->
    fe_src_start e = 0 /\ fe_ext_dict_len e = 0 /\ fe_src_stream_offset e = 0 /\
    (content_checksum (fe_frame_info e) = true -> fe_content_hasher e = []) /\
    below (fe_compression_table e) 1;
  ci_length : len (fe_src e) <= fe_src_capacity e;
  ci_capacity : fe_src_capacity e = 0 /\ fe_content_len e = 0 \/
    block_size (fe_frame_info e) <> Auto /\ fe_src_capacity e = src_capacity (fe_frame_info e)
}.

(** The settings that a header keeps: the fields fit, the block size may still be
    open. *)
Definition fields_ok info : Prop :=
  (forall n, content_size info = Some n -> n < 2 ^ 64) /\ (forall n, dict_id info = Some n -> n < 2 ^ 32).

(** [info'] is [info] with a block size. *)
Definition resolves info info' : Prop :=
  block_size info' <> Auto /\ info' = FrameInfoImpl.block_size info (block_size info') /\
  (block_size info <> Auto -> info' = info).

Lemma resolves_ok info info' : fields_ok info -> resolves info info' ->
  info_ok info' /\ content_size info' = content_size info /\ dict_id info' = dict_id info.
Proof.
  intros [? ?] (Hb & Hi & _).
  assert (Hc : content_size info' = content_size info) by by rewrite Hi.
  assert (Hd : dict_id info' = dict_id info) by by rewrite Hi.
  unfold info_ok. by rewrite Hc, Hd.
Qed.

(** [init] gives the buffer its capacity. *)
Lemma init_ok info e :
  fe_frame_info e = info -> block_size info <> Auto ->
  len (fe_src e) <= fe_src_capacity e ->
  fe_src_capacity e = 0 \/ fe_src_capacity e = src_capacity info ->
  init e = Ok (set_src (fe_src e) (src_capacity info) e).
Proof.
  intros Hi Hb Hlc Hc. pose proof (max_block_bounds info Hb). pose proof (src_capacity_bound info Hb).
  unfold init. rewrite Hi, get_size_ok by done. mstep.
  fold (src_capacity info). rewrite get_maximum_output_size_ok by flia. mstep. do 2 f_equal.
  unfold vec_reserve, saturating_sub. destruct Hc as [Hc|Hc]; rewrite Hc in *; bcase; lia.
Qed.

(** The positions of a fresh frame. *)
Record fresh_positions info e : Prop := {
  fp_src : len (fe_src e) <= src_capacity info;
  fp_start : fe_src_start e = 0;
  fp_end : fe_src_end e = 0;
  fp_ext : fe_ext_dict_len e = 0;
  fp_stream : fe_src_stream_offset e = 0;
  fp_hasher : content_checksum info = true -> fe_content_hasher e = [];
  fp_content : fe_content_len e = 0;
  fp_table : table_ok (fe_compression_table e);
  fp_below : below (fe_compression_table e) 1;
  fp_capacity : fe_src_capacity e = src_capacity info
}.

Lemma fresh_frame_ok out dict info e :
  fresh_positions info e -> info_ok info -> fe_is_frame_open e = true -> fe_frame_info e = info ->
  fe_dict e = dict -> len dict <= isize_max -> sunk (fe_w e) = out ++ header_bytes xxh32 info ->
  frame_holds 0 out dict info [] e.
Proof.
  intros [] Hi Ho Hinfo Hd Hdl Hw. pose proof (max_block_bounds info (proj1 Hi)).
  pose proof (src_capacity_bound info (proj1 Hi)).
  assert (Hp : pending e = []) by (unfold pending; by rewrite fp_start0, fp_end0).
  exists [], []. rewrite Hp. split; [|split; [exact sized_nil|done]]. split; try done.
  - by rewrite app_nil_r.
  - constructor.
  - intros _. exists []. unfold window. by rewrite fp_start0, fp_ext0.
  - split; rewrite ?fp_start0, ?fp_end0; try lia.
  - split; rewrite ?fp_ext0, ?fp_stream0, ?fp_start0; [done|flia|done|done].
Qed.

Lemma block_size_step_ok e n : exists b,
  (match block_size (fe_frame_info e) with
   | Auto => b ← BlockSizeImpl.from_buf_length (E:=FrameEncoder W * IoError) n;
             Ok (set_frame_info (FrameInfoImpl.block_size (fe_frame_info e) b) e)
   | _ => Ok e
   end) = Ok (set_frame_info (FrameInfoImpl.block_size (fe_frame_info e) b) e) /\
  resolves (fe_frame_info e) (FrameInfoImpl.block_size (fe_frame_info e) b).
Proof.
  destruct (decide (block_size (fe_frame_info e) = Auto)) as [Ha|Ha].
  - rewrite Ha, from_buf_length_spec. mstep. eexists. split; [done|].
    unfold resolves. rewrite Ha. cbn. split_and!; [|done|done]. by repeat case_match.
  - exists (block_size (fe_frame_info e)).
    assert (Hid : FrameInfoImpl.block_size (fe_frame_info e) (block_size (fe_frame_info e)) = fe_frame_info e)
      by (by destruct (fe_frame_info e)).
    rewrite Hid. split; [|done]. destruct (block_size (fe_frame_info e)); try done; by destruct e.
Qed.

(** The header of a frame, and an empty frame after it. *)
Lemma begin_frame_ok out dict e n :
  closed_inv out dict e -> fields_ok (fe_frame_info e) ->
  returns (begin_frame xxh32 e n) (fun e' => exists info,
    resolves (fe_frame_info e) info /\ frame_holds 0 out dict info [] e' /\ same_flags e e').
Proof.
  intros Hc Hf. unfold begin_frame. destruct (block_size_step_ok e n) as (b & -> & Hr). mstep.
  set (info := FrameInfoImpl.block_size _ b) in *.
  destruct (resolves_ok _ _ Hf Hr) as (Hio & _ & _). destruct Hc.
  rewrite (init_ok info); [|done|apply Hr|done|].
  2:{ fields. destruct ci_capacity0 as [[? ?]|[Hb Hc]]; [by left|right].
      destruct Hr as (_ & _ & Hr). by rewrite (Hr Hb). }
  mstep. fields. unfold try_io.
  pose proof (header_bytes_max info) as Hws. rewrite length_header_bytes in Hws.
  change 19 with MAX_FRAME_INFO_SIZE in Hws.
  rewrite write_ok by (done || len_lia). mstep. rewrite slice_ok by len_lia.
  rewrite N.sub_0_r, sub_0, take_written by len_lia. mstep.
  set (e1 := set_src _ _ _). destruct (write_bytes_ok e1 (header_bytes xxh32 info)) as (w & -> & Hw).
  mstep. fields. apply returns_ok. exists info. split; [done|]. subst e1. fields.
  destruct (N.eqb_spec (fe_content_len e) 0) as [Hz|Hz].
  - split; [|done]. destruct (ci_fresh0 Hz) as (? & ? & ? & ? & ?).
    apply fresh_frame_ok; fields; try done; [|by rewrite Hw, ci_w0].
    split; fields; try done; [|congruence]. pose proof (src_capacity_bound info (proj1 Hio)).
    destruct ci_capacity0 as [[? ?]|[Hb Hc]]; [lia|]. destruct Hr as (_ & _ & Hr).
    rewrite (Hr Hb). lia.
  - split; [|done]. destruct (clear_law _ ci_table0) as [? ?]. unfold reset_stream.
    apply fresh_frame_ok; fields; try done; [|by rewrite Hw, ci_w0]. split; fields; done || (cbn; lia).
Qed.

(** A frame that is complete on the writer. *)
Lemma frame_complete dict info bs content tail :
  info_ok info -> emitted xxh32 info dict bs content ->
  (forall n, content_size info = Some n -> n = len content) ->
  tail = to_le 4 0 ++ checksum xxh32 (content_checksum info) content ->
  is_frame xxh32 info dict (header_bytes xxh32 info ++ bs ++ tail) content.
Proof.
  intros Hi He Hn ->. split; [done|]. eexists. split; [done|].
  eapply emitted_body; [done|]. by constructor.
Qed.

(** The declared size of a content, checked at the end mark. *)
Definition size_matches (declared : option N) content : bool :=
  match declared with Some n => n =? len content | None => true end.

(** The end mark and the checksum of the content. *)
Lemma end_mark_ok k pre dict info bs content e :
  open_inv pre dict info bs content e -> sized k 0 bs content -> fe_src_start e = fe_src_end e ->
  (forall n, content_size info = Some n -> n = len content) ->
  returns
    ('(buffer, _) ← map_err (fun x => (e, x))
                      (BlockInfoImpl.write EndMark (replicate (N.to_nat BLOCK_INFO_SIZE) x00));
     e ← as_frame (write_bytes e buffer);
     e ← (if content_checksum (fe_frame_info e)
          then as_frame (write_bytes e (to_le 4 (xxh32 (fe_content_hasher e)))) else Ok e);
     Ok (set_is_frame_open false e))
    (fun e' => exists frame,
      is_frame xxh32 info dict frame content /\ sized k 1 frame content /\
      closed_inv (pre ++ frame) dict e' /\ fe_frame_info e' = info /\ same_flags e e').
Proof.
  intros Ho Hsz He Hn. pose proof Ho as []. rewrite block_write_spec by done.
  destruct (decide _) as [_|]; [|done]. rewrite length_replicate. change (_ <? 4) with false. mstep.
  change (splice _ 0 _) with (to_le 4 0 ++ []). rewrite app_nil_r.
  destruct (write_bytes_ok e (to_le 4 0)) as (w1 & -> & H1). unfold as_frame. mstep. fields.
  set (m := if content_checksum _ then _ else _).
  assert (Hm : exists w, m = Ok (set_w w e) /\
    sunk w = sunk (fe_w e) ++ to_le 4 0 ++ checksum xxh32 (content_checksum info) content).
  { subst m. rewrite oi_info0. unfold checksum. destruct (content_checksum info).
    - rewrite (oi_hasher0 eq_refl).
      destruct (write_bytes_ok (set_w w1 e) (to_le 4 (xxh32 content))) as (w2 & -> & H2). mstep.
      exists w2. split; [done|]. fields. by rewrite H2, H1, <-app_assoc.
    - exists w1. by rewrite app_nil_r. }
  destruct Hm as (w & -> & Hw). mstep. apply returns_ok. fields.
  exists (header_bytes xxh32 info ++ bs ++ to_le 4 0 ++ checksum xxh32 (content_checksum info) content).
  split; [by eapply frame_complete|]. split.
  { pose proof (checksum_length (content_checksum info) content).
    apply (sized_frame k 0); [apply header_bytes_max|len_lia|done]. }
  split; [|done]. destruct oi_buffer0, oi_stream0.
  split; fields; try done.
  - by rewrite Hw, oi_w0, <-!app_assoc.
  - rewrite oi_len0. intros Hz. assert (content = []) as -> by (destruct content; [done|cbn in Hz; lia]).
    destruct (empty_content_start _ _ (oi_buffer _ _ _ _ _ _ Ho) oi_window0), (oi_fresh0 eq_refl).
    rewrite oi_info0. done.
  - lia.
  - right. rewrite oi_info0. split; [apply oi_info_ok0|done].
Qed.

Lemma end_frame_ok k pre dict info all e :
  frame_holds k pre dict info all e -> fe_src_start e = fe_src_end e ->
  if size_matches (content_size info) all then
    returns (end_frame xxh32 e) (fun e' => exists frame,
      is_frame xxh32 info dict frame all /\ sized k 1 frame all /\
      closed_inv (pre ++ frame) dict e' /\ fe_frame_info e' = info /\ same_flags e e')
  else exists n, content_size info = Some n /\
    end_frame xxh32 e = Err (e, ContentLengthError n (len all)).
Proof.
  intros (bs & content & Ho & Hsz & ->) He. pose proof Ho as [].
  assert (Hp : pending e = []) by (unfold pending; by rewrite He, N.sub_diag). rewrite Hp, app_nil_r.
  unfold end_frame. rewrite oi_open0, oi_len0. cbn [assert]. mstep. rewrite oi_info0.
  destruct (size_matches (content_size info) content) eqn:Hs.
  2:{ unfold size_matches in Hs. destruct (content_size info) as [n|]; [|done].
      rewrite Hs. by exists n. }
  assert (Hn : forall n, content_size info = Some n -> n = len content).
  { intros n Hn. rewrite Hn in Hs. by apply N.eqb_eq. }
  replace (match content_size info with Some n => _ | None => _ end)
    with (Ok (E:=FrameEncoder W * Error) ()).
  2:{ unfold size_matches in Hs. destruct (content_size info); [by rewrite Hs|done]. }
  mstep. by apply (end_mark_ok k pre dict info bs).
Qed.
End ops.
