(* ===== verification/FrameSession.v ===== *)
(** * Sessions of the frame encoder

    The abstract state of an encoder is the content of the frames it has
    finished and that of the frame it has open.  Every call of the encoder
    refines the call on the abstract state, for any order of writes, flushes
    and [try_finish]. *)

From S2P Require Import Prelude BlockSpec Core HashTable Compress EncoderSpec FrameHeader FrameIO FrameSpec FrameEncoder FrameEncoderProofs.

(** ** The abstract encoder *)

Inductive call := CWrite (buf : bytes) | CFlush | CTryFinish.

Record session := {
  ss_done : bytes;
  ss_open : option bytes;
  ss_written : bool
}.

Definition new_session : session := {| ss_done := []; ss_open := None; ss_written := false |}.

(** The content of the frame a call writes to. *)
Definition ss_current (s : session) : bytes := default [] (ss_open s).

Section session.
Context (declared : option N).

Definition finish_frame (s : session) : option session :=
  if size_matches declared (ss_current s)
  then Some {| ss_done := ss_done s ++ ss_current s; ss_open := None; ss_written := true |} else None.

(** [None] is the report of a wrong content size. *)
Definition session_call (s : session) (c : call) : option session :=
  match c with
  | CWrite [] | CFlush => Some s
  | CWrite buf => Some {| ss_done := ss_done s; ss_open := Some (ss_current s ++ buf);
                          ss_written := ss_written s |}
  | CTryFinish =>
      match ss_open s with
      | None => if ss_written s then Some s else finish_frame s
      | Some _ => finish_frame s
      end
  end.

Fixpoint session_run (s : session) (cs : list call) : option session :=
  match cs with [] => Some s | c :: cs => s ← session_call s c; session_run s cs end.

(** The blocks that a call may cut short: a flush in an open frame does, also
    the one in [try_finish].  The frames that a call finishes. *)
Definition call_flushes (s : session) (c : call) : N :=
  match c, ss_open s with CWrite _, _ | _, None => 0 | _, Some _ => 1 end.

Definition call_frames (s : session) (c : call) : N :=
  match c with
  | CTryFinish => match ss_open s with None => if ss_written s then 0 else 1 | Some _ => 1 end
  | _ => 0
  end.

(** Their sum over a sequence of calls. *)
Fixpoint sum_calls (f : session -> call -> N) (s : session) (cs : list call) : N :=
  match cs with
  | [] => 0
  | c :: cs => f s c + match session_call s c with Some s' => sum_calls f s' cs | None => 0 end
  end.

Definition flushes : session -> list call -> N := sum_calls call_flushes.
Definition finishes : session -> list call -> N := sum_calls call_frames.
End session.

(** The bytes of a sequence of calls. *)
Definition call_bytes (c : call) : bytes := match c with CWrite buf => buf | _ => [] end.
Definition calls_bytes (cs : list call) : bytes := concat (call_bytes <$> cs).

(** ** Its implementation *)

Section run.
Context `{T : Target} (xxh32 : bytes -> N) {W : Type} {HW : Write W}.
Import FrameEncoderImpl.

Definition call_encoder (e : FrameEncoder W) (c : call)
  : res (FrameEncoder W * Error) (FrameEncoder W) :=
  match c with
  | CWrite buf => as_frame ('(e, _) ← write xxh32 e buf; Ok e)
  | CFlush => as_frame (flush xxh32 e)
  | CTryFinish => try_finish xxh32 e
  end.

Fixpoint run_calls (e : FrameEncoder W) (cs : list call)
  : res (FrameEncoder W * Error) (FrameEncoder W) :=
  match cs with [] => Ok e | c :: cs => e ← call_encoder e c; run_calls e cs end.
End run.

(** ** Refinement *)

Section refinement.
Context `{T : Target} (xxh32 : bytes -> N) {W : Type} {HW : Write W} {HL : WriteLaws W}.
Implicit Types (e : FrameEncoder W) (info : FrameInfo) (dict content bs buf pre out all : bytes) (s : session)
  (k f : N).
Import FrameEncoderImpl.

(** The writer and the flags are independent of the rest of the invariants. *)
Lemma frame_holds_flags k pre dict info all e w b d : sunk w = sunk (fe_w e) ->
  frame_holds xxh32 k pre dict info all e ->
  frame_holds xxh32 k pre dict info all (set_w w (set_failed b (set_data_to_frame_written d e))).
Proof.
  intros Hw (bs & content & [] & Hsz & ->). exists bs, content. split; [|done].
  destruct oi_buffer, oi_stream. split; fields; try done; [congruence|by split..].
Qed.

Lemma closed_inv_flags out dict e w b d : sunk w = sunk (fe_w e) -> closed_inv out dict e ->
  closed_inv out dict (set_w w (set_failed b (set_data_to_frame_written d e))).
Proof. intros Hw []. split; fields; try done. congruence. Qed.

Lemma frame_holds_failed k pre dict info all e b : frame_holds xxh32 k pre dict info all e ->
  frame_holds xxh32 k pre dict info all (set_failed b e).
Proof. intros H. apply (frame_holds_flags _ _ _ _ _ _ (fe_w e) b (fe_data_to_frame_written e) eq_refl) in H. by destruct e. Qed.

Lemma closed_inv_failed out dict e b : closed_inv out dict e -> closed_inv out dict (set_failed b e).
Proof. intros H. apply (closed_inv_flags _ _ _ (fe_w e) b (fe_data_to_frame_written e) eq_refl) in H. by destruct e. Qed.

Lemma frame_holds_mono k k' pre dict info all e : k <= k' ->
  frame_holds xxh32 k pre dict info all e -> frame_holds xxh32 k' pre dict info all e.
Proof. intros Hk (bs & content & Ho & Hsz & ->). exists bs, content. split_and!; [done|by apply (sized_mono k 0)|done]. Qed.

Lemma frame_holds_info k pre dict info all e : frame_holds xxh32 k pre dict info all e ->
  fe_frame_info e = info /\ fe_is_frame_open e = true /\ info_ok info.
Proof. intros (? & ? & [] & _). done. Qed.

(** [write] on a closed and on an open frame. *)
Lemma write_open_ok k pre dict info all e buf :
  frame_holds xxh32 k pre dict info all e -> fe_failed e = false -> len (all ++ buf) <= u64_max ->
  returns (write xxh32 e buf) (fun '(e', n) => n = len buf /\
    frame_holds xxh32 k pre dict info (all ++ buf) e' /\ same_flags e e').
Proof.
  intros Hh Hf Hl. unfold write. rewrite Hf. fields.
  destruct (frame_holds_info _ _ _ _ _ _ Hh) as (_ & -> & _). cbn [negb andb]. mstep.
  destruct (write_loop_ok xxh32 (S (2 * length buf)) k pre dict info all (set_failed true e) buf) as
    (e' & -> & Hh' & ? & ?); [by apply frame_holds_failed|done|left; lia|].
  mstep. apply returns_ok. split; [done|]. split; [by apply frame_holds_failed|]. split; fields; congruence.
Qed.

Lemma write_closed_ok out dict e buf :
  closed_inv out dict e -> fields_ok (fe_frame_info e) -> fe_failed e = false ->
  buf <> [] -> len buf <= u64_max ->
  returns (write xxh32 e buf) (fun '(e', n) => n = len buf /\ exists info,
    resolves (fe_frame_info e) info /\ frame_holds xxh32 0 out dict info buf e' /\ same_flags e e').
Proof.
  intros Hc Hi Hf Hb Hl. unfold write. rewrite Hf. fields. rewrite (ci_open _ _ _ Hc). cbn [negb andb].
  destruct (N.eqb_spec (len buf) 0) as [H0|_]; [by destruct buf|]. cbn [negb].
  destruct (begin_frame_ok xxh32 out dict (set_failed true e) (len buf)) as
    (e1 & -> & info & Hr & Hh & [H1 H2]); [by apply closed_inv_failed|done|]. mstep.
  destruct (write_loop_ok xxh32 (S (2 * length buf)) 0 out dict info [] e1 buf) as
    (e' & -> & Hh' & H3 & H4); [done..|left; lia|]. mstep. apply returns_ok. split; [done|].
  exists info. split; [done|]. split; [by apply frame_holds_failed|]. split; fields; congruence.
Qed.

(** [flush] leaves nothing pending. *)
Lemma flush_open_ok k pre dict info all e :
  frame_holds xxh32 k pre dict info all e -> fe_failed e = false -> len all <= u64_max ->
  returns (flush xxh32 e) (fun e' => frame_holds xxh32 (k + 1) pre dict info all e' /\
    fe_src_start e' = fe_src_end e' /\ same_flags e e').
Proof.
  intros Hh Hf Hl. unfold flush. rewrite Hf. fields.
  set (e0 := set_failed true e). set (m := if fe_src_start e =? fe_src_end e then _ else _).
  assert (Hm : returns m (fun e' => frame_holds xxh32 (k + 1) pre dict info all e' /\
    fe_src_start e' = fe_src_end e' /\ same_flags e0 e')).
  { subst m. apply (frame_holds_failed _ _ _ _ _ _ true) in Hh. destruct (N.eqb_spec (fe_src_start e) (fe_src_end e)).
    - apply returns_ok. split; [|done]. apply (frame_holds_mono k); [lia|done].
    - destruct Hh as (bs & content & Ho & Hsz & ->). pose proof (bi_start _ _ (oi_buffer _ _ _ _ _ _ _ Ho)).
      eapply returns_mono; [apply (write_block_ok xxh32 _ _ _ _ _ _ Ho); [fields; lia|len_lia]|].
      intros e' [? ? ? (b & _ & Hbl & Ho')]. split; [|done]. exists (bs ++ b), (content ++ pending (set_failed true e)).
      split; [done|]. split; [by apply (sized_app k 0 _ _ 1 0), sized_part|].
      unfold pending at 3. by rewrite bw_empty, N.sub_diag, app_nil_r. }
  destruct Hm as (e1 & -> & Hh1 & He1 & [? ?]). mstep.
  destruct (flush_w_ok e1) as (w & -> & Hw). mstep. apply returns_ok. fields. split; [|done].
  apply (frame_holds_flags _ _ _ _ _ _ w false (fe_data_to_frame_written e1) Hw) in Hh1. by destruct e1.
Qed.

Lemma flush_closed_ok out dict e :
  closed_inv out dict e -> fe_failed e = false ->
  returns (flush xxh32 e) (fun e' => closed_inv out dict e' /\ fe_frame_info e' = fe_frame_info e /\
    same_flags e e').
Proof.
  intros Hc Hf. unfold flush. rewrite Hf. fields. rewrite (ci_empty _ _ _ Hc), N.eqb_refl. mstep.
  destruct (flush_w_ok (set_failed true e)) as (w & -> & Hw). mstep. apply returns_ok.
  split; [|done]. apply (closed_inv_failed _ _ _ true) in Hc.
  apply (closed_inv_flags _ _ _ w false (fe_data_to_frame_written e) Hw) in Hc. by destruct e.
Qed.

(** [try_finish] on an open frame. *)
Lemma finish_open_ok k pre dict info all e :
  frame_holds xxh32 k pre dict info all e -> fe_src_start e = fe_src_end e ->
  let m := e' ← end_frame xxh32 e; Ok (set_failed false (set_data_to_frame_written true e')) in
  if size_matches (content_size info) all then
    returns m (fun e' => exists frame, is_frame xxh32 info dict frame all /\ sized k 1 frame all /\
      closed_inv (pre ++ frame) dict e' /\ fe_frame_info e' = info /\
      fe_failed e' = false /\ fe_data_to_frame_written e' = true)
  else exists n, content_size info = Some n /\ m = Err (e, ContentLengthError n (len all)).
Proof.
  intros Hh He m. pose proof (end_frame_ok xxh32 _ _ _ _ _ _ Hh He) as Hend. subst m.
  destruct (size_matches _ _).
  - destruct Hend as (e1 & -> & frame & Hf & Hsz & Hc & Hi & _). mstep. apply returns_ok. exists frame.
    do 2 (split; [done|]). split; [|done].
    apply (closed_inv_flags _ _ _ (fe_w e1) false true eq_refl) in Hc. by destruct e1.
  - destruct Hend as (n & Hn & ->). by exists n.
Qed.

Lemma try_finish_flushed e e1 : flush xxh32 e = Ok e1 ->
  try_finish xxh32 e =
    if negb (fe_is_frame_open e1) && fe_data_to_frame_written e1 then Ok e1 else
    e ← (if fe_is_frame_open e1 then Ok (set_failed true e1)
         else as_frame (begin_frame xxh32 (set_failed true e1) 0));
    e ← end_frame xxh32 e;
    Ok (set_failed false (set_data_to_frame_written true e)).
Proof. intros He. unfold try_finish. by rewrite He. Qed.

Lemma try_finish_open_ok k pre dict info all e :
  frame_holds xxh32 k pre dict info all e -> fe_failed e = false -> len all <= u64_max ->
  if size_matches (content_size info) all then
    returns (try_finish xxh32 e) (fun e' => exists frame, is_frame xxh32 info dict frame all /\
      sized (k + 1) 1 frame all /\
      closed_inv (pre ++ frame) dict e' /\ fe_frame_info e' = info /\
      fe_failed e' = false /\ fe_data_to_frame_written e' = true)
  else exists e' n, content_size info = Some n /\
    try_finish xxh32 e = Err (e', ContentLengthError n (len all)).
Proof.
  intros Hh Hf Hl. destruct (flush_open_ok _ _ _ _ _ _ Hh Hf Hl) as (e1 & He1 & Hh1 & Hemp & _).
  rewrite (try_finish_flushed _ _ He1). destruct (frame_holds_info _ _ _ _ _ _ Hh1) as (_ & -> & _).
  cbn [negb andb]. mstep.
  apply (frame_holds_failed _ _ _ _ _ _ true) in Hh1.
  pose proof (finish_open_ok _ _ _ _ _ _ Hh1 Hemp) as H. cbn zeta in H.
  destruct (size_matches _ _); [done|]. destruct H as (n & ? & ?). by eexists _, n.
Qed.

(** [try_finish] without an open frame writes an empty one, unless a frame has
    been written. *)
Lemma try_finish_closed_ok out dict e :
  closed_inv out dict e -> fields_ok (fe_frame_info e) -> fe_failed e = false ->
  if fe_data_to_frame_written e then
    returns (try_finish xxh32 e) (fun e' => closed_inv out dict e' /\
      fe_frame_info e' = fe_frame_info e /\ same_flags e e')
  else if size_matches (content_size (fe_frame_info e)) [] then
    returns (try_finish xxh32 e) (fun e' => exists info frame, resolves (fe_frame_info e) info /\
      is_frame xxh32 info dict frame [] /\ sized 0 1 frame [] /\
      closed_inv (out ++ frame) dict e' /\ fe_frame_info e' = info /\
      fe_failed e' = false /\ fe_data_to_frame_written e' = true)
  else exists e' n, content_size (fe_frame_info e) = Some n /\
    try_finish xxh32 e = Err (e', ContentLengthError n 0).
Proof.
  intros Hc Hi Hf. destruct (flush_closed_ok _ _ _ Hc Hf) as (e1 & He1 & Hc1 & Hi1 & Hf1 & Hd1).
  rewrite (try_finish_flushed _ _ He1), (ci_open _ _ _ Hc1), Hd1. cbn [negb andb].
  destruct (fe_data_to_frame_written e) eqn:Hd; [apply returns_ok; unfold same_flags; by rewrite Hf1, Hd1, Hd|].
  apply (closed_inv_failed _ _ _ true) in Hc1.
  destruct (begin_frame_ok xxh32 out dict (set_failed true e1) 0 Hc1) as (e2 & -> & info & Hr & Hh & _);
    [fields; by rewrite Hi1|]. unfold as_frame. mstep. fields. rewrite Hi1 in Hr.
  destruct (resolves_ok _ _ Hi Hr) as (_ & <- & _).
  assert (Hemp : fe_src_start e2 = fe_src_end e2).
  { destruct Hh as (bs & content & [] & _ & Hall). destruct oi_buffer as [? ? _ _ _ _ _].
    apply (f_equal (fun l => len l)) in Hall. unfold pending in Hall.
    rewrite length_app, Nat2N.inj_add, length_sub in Hall by lia. cbn in Hall. lia. }
  pose proof (finish_open_ok _ _ _ _ _ _ Hh Hemp) as H. cbn zeta in H. destruct (size_matches _ _).
  - destruct H as (e' & -> & frame & ? & ? & ? & ? & ? & ?). apply returns_ok. exists info, frame. by split_and!.
  - destruct H as (n & ? & ?). by eexists _, n.
Qed.

(** *** The relation of the two states *)

(** [out] is what the writer had accepted before; the finished frames follow,
    then the part of the open frame that is in blocks.  There were at most [k]
    flushes, those of [try_finish] included, and at most [f] finished frames. *)
Definition session_inv out dict info0 k f s e : Prop :=
  fe_failed e = false /\ fe_data_to_frame_written e = ss_written s /\
  (exists b, fe_frame_info e = FrameInfoImpl.block_size info0 b) /\
  exists F, frames xxh32 dict (dict_id info0) F (ss_done s) /\
    match ss_open s with
    | None => sized k f F (ss_done s) /\ closed_inv (out ++ F) dict e
    | Some all => exists k1 k2, k = k1 + k2 /\ sized k1 f F (ss_done s) /\
        frame_holds xxh32 k2 (out ++ F) dict (fe_frame_info e) all e
    end.

(** How a call on the encoder refines the call on the session. *)
Definition refines out dict info0 k f (m : option session)
  (r : res (FrameEncoder W * Error) (FrameEncoder W)) : Prop :=
  match m with
  | Some s' => returns r (session_inv out dict info0 k f s')
  | None => exists e' n k, content_size info0 = Some n /\ n <> k /\ r = Err (e', ContentLengthError n k)
  end.

Definition session_len s : N := len (ss_done s) + len (ss_current s).

Lemma resolves_block_size info0 b info' :
  resolves (FrameInfoImpl.block_size info0 b) info' -> exists b', info' = FrameInfoImpl.block_size info0 b'.
Proof. intros (_ & Hi & _). exists (block_size info'). rewrite Hi at 1. done. Qed.

(** A new position of the two states. *)
Lemma session_inv_open out dict info0 k1 k2 f F content all wr e b :
  fe_failed e = false -> fe_data_to_frame_written e = wr -> fe_frame_info e = FrameInfoImpl.block_size info0 b ->
  frames xxh32 dict (dict_id info0) F content -> sized k1 f F content ->
  frame_holds xxh32 k2 (out ++ F) dict (fe_frame_info e) all e ->
  session_inv out dict info0 (k1 + k2) f {| ss_done := content; ss_open := Some all; ss_written := wr |} e.
Proof. intros. split_and!; [done..|by exists b|]. exists F. split; [done|]. by exists k1, k2. Qed.

Lemma session_inv_closed out dict info0 k f F content wr e b :
  fe_failed e = false -> fe_data_to_frame_written e = wr -> fe_frame_info e = FrameInfoImpl.block_size info0 b ->
  frames xxh32 dict (dict_id info0) F content -> sized k f F content -> closed_inv (out ++ F) dict e ->
  session_inv out dict info0 k f {| ss_done := content; ss_open := None; ss_written := wr |} e.
Proof. intros. split_and!; [done..|by exists b|]. by exists F. Qed.

Lemma write_refines out dict info0 k f s e buf :
  fields_ok info0 -> session_inv out dict info0 k f s e -> session_len s + len buf <= u64_max ->
  refines out dict info0 k f (session_call (content_size info0) s (CWrite buf)) (call_encoder xxh32 e (CWrite buf)).
Proof.
  intros Hi (Hf & Hd & (b & Hb) & F & HF & Ho) Hl. unfold session_len, ss_current in Hl.
  assert (Hfi : fields_ok (fe_frame_info e)) by (by rewrite Hb). cbn [call_encoder].
  destruct buf as [|x buf0]; cbn [session_call]; [|set (buf := x :: buf0) in *];
    destruct s as [done [all|] wr]; unfold ss_current; cbn [ss_open ss_written ss_done from_option id] in *.
  - destruct Ho as (k1 & k2 & -> & Hsz & Ho).
    destruct (write_open_ok _ _ _ _ _ _ [] Ho Hf) as ([e' n] & -> & _ & Hh & H1 & H2);
      [rewrite app_nil_r; lia|]. apply returns_ok. rewrite app_nil_r in Hh.
    pose proof (frame_holds_info _ _ _ _ _ _ Hh) as (Hie & _ & _). rewrite <-Hie in Hh.
    apply (session_inv_open _ _ _ _ _ _ F _ _ _ _ b); done || congruence.
  - destruct Ho as [Hsz Ho]. unfold write. rewrite Hf. fields. rewrite andb_false_r. mstep. cbn [write_loop]. mstep.
    apply returns_ok. apply (session_inv_closed _ _ _ _ _ F _ _ _ b); try done.
    apply (closed_inv_failed _ _ _ true) in Ho. by apply (closed_inv_failed _ _ _ false) in Ho.
  - destruct Ho as (k1 & k2 & -> & Hsz & Ho).
    destruct (write_open_ok _ _ _ _ _ _ buf Ho Hf) as ([e' n] & -> & _ & Hh & H1 & H2); [len_lia|].
    apply returns_ok. pose proof (frame_holds_info _ _ _ _ _ _ Hh) as (Hie & _ & _). rewrite <-Hie in Hh.
    apply (session_inv_open _ _ _ _ _ _ F _ _ _ _ b); done || congruence.
  - destruct Ho as [Hsz Ho].
    destruct (write_closed_ok _ _ _ buf Ho Hfi Hf) as ([e' n] & -> & _ & info & Hr & Hh & H1 & H2);
      [done|lia|].
    apply returns_ok. pose proof (frame_holds_info _ _ _ _ _ _ Hh) as (Hie & _ & _). rewrite <-Hie in Hh.
    rewrite Hb in Hr. apply resolves_block_size in Hr as (b' & Hr). rewrite <-(N.add_0_r k).
    apply (session_inv_open _ _ _ _ _ _ F _ _ _ _ b'); done || congruence.
Qed.

Lemma flush_refines out dict info0 k f s e :
  session_inv out dict info0 k f s e -> session_len s <= u64_max ->
  returns (flush xxh32 e) (fun e' => session_inv out dict info0 (k + call_flushes s CFlush) f s e' /\ fe_src_start e' = fe_src_end e').
Proof.
  intros (Hf & Hd & (b & Hb) & F & HF & Ho) Hl. unfold session_len, ss_current in Hl.
  destruct s as [done [all|] wr]; unfold call_flushes; cbn [ss_open ss_written ss_done from_option id] in *.
  - destruct Ho as (k1 & k2 & -> & Hsz & Ho).
    destruct (flush_open_ok _ _ _ _ _ _ Ho Hf) as (e' & -> & Hh & He & H1 & H2); [lia|].
    apply returns_ok. pose proof (frame_holds_info _ _ _ _ _ _ Hh) as (Hie & _ & _). rewrite <-Hie in Hh.
    split; [|done]. rewrite <-N.add_assoc. apply (session_inv_open _ _ _ _ _ _ F _ _ _ _ b); done || congruence.
  - destruct Ho as [Hsz Ho]. destruct (flush_closed_ok _ _ _ Ho Hf) as (e' & -> & Hc & Hie & H1 & H2).
    apply returns_ok. split; [|apply Hc]. apply (session_inv_closed _ _ _ _ _ F _ _ _ b); try congruence.
    apply (sized_mono k f); [lia..|done].
Qed.

(** A new frame after the finished ones. *)
Lemma frames_next info0 info b dict F done frame all : info = FrameInfoImpl.block_size info0 b ->
  frames xxh32 dict (dict_id info0) F done -> is_frame xxh32 info dict frame all ->
  frames xxh32 dict (dict_id info0) (F ++ frame) (done ++ all).
Proof. intros -> HF Hfr. apply frames_app; [done|]. by apply (frames_one _ _ _ _ _ Hfr). Qed.

Lemma size_mismatch declared n content : declared = Some n -> size_matches declared content = false ->
  n <> len content.
Proof. intros ->. apply N.eqb_neq. Qed.

Lemma finish_refines out dict info0 k f s e :
  fields_ok info0 -> session_inv out dict info0 k f s e -> session_len s <= u64_max ->
  refines out dict info0 (k + call_flushes s CTryFinish) (f + call_frames s CTryFinish)
    (session_call (content_size info0) s CTryFinish)
    (call_encoder xxh32 e CTryFinish).
Proof.
  intros Hi (Hf & Hd & (b & Hb) & F & HF & Ho) Hl. unfold session_len, ss_current in Hl.
  assert (Hfi : fields_ok (fe_frame_info e)) by (by rewrite Hb).
  assert (Hcs : content_size (fe_frame_info e) = content_size info0) by (by rewrite Hb).
  destruct s as [done [all|] wr]; unfold call_flushes, call_frames; cbn [session_call call_encoder ss_open ss_written ss_done] in *; unfold finish_frame, ss_current;
    cbn [ss_open ss_done ss_written from_option id] in *.
  - destruct Ho as (k1 & k2 & -> & Hsz & Ho).
    pose proof (try_finish_open_ok _ _ _ _ _ _ Ho Hf ltac:(lia)) as H. rewrite Hcs in H.
    destruct (size_matches _ all) eqn:Hs.
    + destruct H as (e' & -> & frame & Hfr & Hsz2 & Hc & Hie & H1 & H2). apply returns_ok.
      apply (session_inv_closed _ _ _ _ _ (F ++ frame) _ _ _ b); try done; try congruence; [by eapply frames_next| |].
      * rewrite <-N.add_assoc. by apply sized_app.
      * by rewrite app_assoc.
    + destruct H as (e' & n & Hn & He). exists e', n, (len all). split_and!; try done. by eapply size_mismatch.
  - destruct Ho as [Hsz Ho]. pose proof (try_finish_closed_ok _ _ _ Ho Hfi Hf) as H. rewrite Hd, Hcs in H. destruct wr.
    + destruct H as (e' & -> & Hc & Hie & H1 & H2). apply returns_ok.
      apply (session_inv_closed _ _ _ _ _ F _ _ _ b); try done; try congruence. apply (sized_mono k f); [lia..|done].
    + destruct (size_matches _ []) eqn:Hs.
      * destruct H as (e' & -> & info & frame & Hr & Hfr & Hsz2 & Hc & Hie & H1 & H2). apply returns_ok.
        rewrite Hb in Hr. apply resolves_block_size in Hr as (b' & Hr).
        apply (session_inv_closed _ _ _ _ _ (F ++ frame) _ _ _ b'); try done; try congruence; [by eapply frames_next| |].
        -- apply (sized_mono (k + 0) (f + 1)); [lia..|]. by apply sized_app.
        -- by rewrite app_assoc.
      * destruct H as (e' & n & Hn & He). exists e', n, 0. split_and!; try done.
        by apply (size_mismatch _ _ [] Hn).
Qed.

Lemma session_call_refines out dict info0 k f s e c :
  fields_ok info0 -> session_inv out dict info0 k f s e -> session_len s + len (call_bytes c) <= u64_max ->
  refines out dict info0 (k + call_flushes s c) (f + call_frames s c) (session_call (content_size info0) s c) (call_encoder xxh32 e c).
Proof.
  intros Hi Hs Hl. destruct c as [buf| |]; cbn [call_bytes length] in Hl |- *.
  - unfold call_flushes, call_frames. rewrite !N.add_0_r. by apply write_refines.
  - destruct (flush_refines _ _ _ _ _ _ _ Hs) as (e' & He & Hs' & _); [lia|].
    cbn [call_encoder session_call refines call_frames]. rewrite He, N.add_0_r. by apply returns_ok.
  - apply finish_refines; [done..|lia].
Qed.

Lemma session_call_len d s c s' : session_call d s c = Some s' ->
  session_len s' = session_len s + len (call_bytes c).
Proof.
  unfold session_len, ss_current. destruct s as [done o wr], c as [[|x buf]| |]; cbn [session_call call_bytes].
  1,3: intros [= <-]; cbn; lia.
  1: intros [= <-]; cbn; len_lia.
  unfold finish_frame, ss_current. destruct o, wr; cbn; repeat case_match; intros [= <-]; cbn; len_lia.
Qed.

(** A run of the encoder refines the run of the session. *)
Lemma run_refines out dict info0 k f cs s e :
  fields_ok info0 -> session_inv out dict info0 k f s e -> session_len s + len (calls_bytes cs) <= u64_max ->
  refines out dict info0 (k + flushes (content_size info0) s cs) (f + finishes (content_size info0) s cs)
    (session_run (content_size info0) s cs) (run_calls xxh32 e cs).
Proof.
  intros Hi. revert k f s e. induction cs as [|c cs IH]; intros k f s e Hs Hl; unfold flushes, finishes in *;
    cbn [session_run run_calls sum_calls].
  { rewrite !N.add_0_r. by apply returns_ok. }
  unfold calls_bytes in Hl. cbn [fmap list_fmap concat] in Hl. fold (calls_bytes cs) in Hl.
  pose proof (session_call_refines out dict info0 k f s e c Hi Hs) as Hc.
  destruct (session_call _ s c) as [s'|] eqn:Hsc; cbn [mbind option_bind refines] in *.
  - destruct Hc as (e' & -> & Hs'); [len_lia|]. mstep. rewrite !N.add_assoc. apply IH; [done|].
    rewrite (session_call_len _ _ _ _ Hsc). len_lia.
  - destruct Hc as (e' & n & m & ? & ? & ->); [len_lia|]. by exists e', n, m.
Qed.

(** The new encoders. *)
Lemma new_session_inv info0 w dict : len dict <= isize_max ->
  session_inv (sunk w) dict info0 0 0 new_session (set_dict dict (with_frame_info info0 w)).
Proof.
  intros Hd. split_and!; [done|done|exists (block_size info0); by destruct info0|].
  exists []. split; [constructor|]. cbn [new_session ss_open]. rewrite app_nil_r. split; [exact sized_nil|].
  destruct (new_table32_ok DEFAULT_NODICT_ENTRIES eq_refl) as [Ht Htb].
  split; fields; try done. by left.
Qed.
End refinement.

(** ** Failures

    These hold for every writer: whatever fails, the encoder returned with the
    error is marked. *)

Section failures.
Context `{T : Target} (xxh32 : bytes -> N) {W : Type} {HW : Write W}.
Implicit Types (e : FrameEncoder W).
Import FrameEncoderImpl.

(** No [Err] outcome. *)
Definition no_err {E A} (m : res E A) : Prop := match m with Err _ => False | _ => True end.

(** The encoder in every outcome is marked as failed. *)
Definition marked {X A} (proj : A -> FrameEncoder W) (m : res (FrameEncoder W * X) A) : Prop :=
  match m with
  | Ok a => fe_failed (proj a) = true
  | Err (e, _) => fe_failed e = true
  | _ => True
  end.

Lemma no_err_bind {E A B} (m : res E A) (f : A -> res E B) :
  no_err m -> (forall a, no_err (f a)) -> no_err (m ≫= f).
Proof. destruct m; cbn; auto. Qed.

Lemma marked_val {X A B} (proj : B -> FrameEncoder W) (m : res (FrameEncoder W * X) A) f :
  no_err m -> (forall a, marked proj (f a)) -> marked proj (m ≫= f).
Proof. destruct m; cbn; naive_solver. Qed.

Lemma marked_bind {X A B} (proj : A -> FrameEncoder W) (proj' : B -> FrameEncoder W)
  (m : res (FrameEncoder W * X) A) f :
  marked proj m -> (forall a, fe_failed (proj a) = true -> marked proj' (f a)) -> marked proj' (m ≫= f).
Proof. destruct m as [|[]| |]; cbn; auto. Qed.

Lemma marked_map_err {X Y A B} (proj : B -> FrameEncoder W) (g : Y -> FrameEncoder W * X) (m : res Y A) f :
  (forall y, fe_failed (fst (g y)) = true) -> (forall a, marked proj (f a)) -> marked proj (map_err g m ≫= f).
Proof. intros Hg Hf. destruct m as [|y| |]; cbn; auto. specialize (Hg y). by destruct (g y). Qed.

Create HintDb no_err.
Hint Extern 1 (no_err (assert _)) => unfold assert; case_match; exact I : no_err.
Hint Extern 1 (no_err (usub _ _)) => unfold usub; case_match; exact I : no_err.
Hint Extern 1 (no_err (uadd _ _)) => unfold uadd; case_match; exact I : no_err.
Hint Extern 1 (no_err (slice _ _ _)) => unfold slice; case_match; exact I : no_err.
Hint Extern 1 (no_err (slice_from _ _)) => unfold slice_from; case_match; exact I : no_err.
Hint Extern 1 (no_err (write_at _ _ _)) => unfold write_at; case_match; exact I : no_err.
Hint Extern 1 (no_err (checked_sum _ _ _)) => unfold checked_sum; case_match; exact I : no_err.
Hint Extern 1 (no_err (BlockSizeImpl.get_size ?b)) => destruct b; exact I : no_err.
Hint Extern 1 (no_err (get_maximum_output_size _)) => unfold get_maximum_output_size; case_match; exact I : no_err.
Hint Extern 1 (no_err (or_panic ?o)) => destruct o; exact I : no_err.
Hint Extern 1 (no_err (Ok _)) => exact I : no_err.
Hint Extern 2 (no_err (_ ≫= _)) => apply no_err_bind; [|intros] : no_err.
Hint Extern 2 (no_err (if ?b then _ else _)) => destruct b : no_err.

Ltac no_err := cbn zeta; eauto 20 with no_err nocore.

Lemma no_err_vec_copy {E} v c a src : no_err (vec_copy_overwriting (E:=E) v c a src).
Proof. unfold vec_copy_overwriting. no_err. Qed.

Lemma no_err_vec_sink {E} v a p n : no_err (vec_sink_for_compression (E:=E) v a p n).
Proof. unfold vec_sink_for_compression, SliceSinkImpl.new. no_err. Qed.

Lemma no_err_from_buf_length {E} n : no_err (BlockSizeImpl.from_buf_length (E:=E) n).
Proof. by rewrite from_buf_length_spec. Qed.

Lemma no_err_seed {E} (t : HashTableU32 DEFAULT_NODICT_ENTRIES) data i off fuel :
  no_err (seed_loop (E:=E) fuel t data i off).
Proof.
  revert t i. induction fuel as [|fuel IH]; intros t i; cbn [seed_loop]; [done|].
  case_match; [|done]. apply no_err_bind.
  - unfold get_hash_at, rd64. no_err.
  - intros h. apply no_err_bind; [|intros; apply IH].
    change (no_err (HashTableU32Impl.put_at (E:=E) t h (i + off))).
    unfold HashTableU32Impl.put_at, set_index. apply no_err_bind; [by case_match|done].
Qed.
Hint Resolve no_err_vec_copy no_err_vec_sink no_err_from_buf_length no_err_seed : no_err.

(** The steps of the methods keep the mark. *)
Lemma marked_on_w e f : fe_failed e = true -> marked id (on_w e f).
Proof. intros He. unfold on_w. by destruct (f (fe_w e)) as [|[]| |]. Qed.

Lemma marked_write_bytes e b : fe_failed e = true -> marked id (write_bytes e b).
Proof. apply marked_on_w. Qed.

Lemma marked_emit_block e i data : fe_failed e = true -> marked id (emit_block xxh32 e i data).
Proof.
  intros He. unfold emit_block, try_io. apply marked_map_err; [done|]. intros [buffer _].
  eapply marked_bind; [by apply marked_write_bytes|]. intros e1 H1.
  eapply marked_bind; [by apply marked_write_bytes|]. intros e2 H2.
  case_match; [by apply marked_write_bytes|done].
Qed.

Lemma marked_add_stream_offset e delta : fe_failed e = true -> marked id (add_stream_offset e delta).
Proof.
  intros He. unfold add_stream_offset, try_io. destruct target_width.
  - by apply marked_map_err.
  - apply marked_val; [no_err|done].
Qed.

Lemma marked_slide e m n : fe_failed e = true -> marked id (slide e m n).
Proof.
  intros He. unfold slide. case_match.
  - apply marked_val; [no_err|]. intros _. eapply marked_bind with (proj := id).
    + case_match; [|case_match; [|done]].
      * apply marked_val; [no_err|]. intros off.
        eapply marked_bind; [by apply marked_add_stream_offset|]. done.
      * cbv zeta. apply marked_val; [no_err|done].
    + intros e1 H1. by apply marked_val; [no_err|].
  - apply marked_val; [no_err|]. intros _. apply marked_val; [no_err|]. intros _.
    by apply marked_add_stream_offset.
Qed.

Lemma marked_compress_block e input src : fe_failed e = true -> marked fst (compress_block e input src).
Proof.
  intros He. unfold compress_block. apply marked_val; [no_err|]. intros n. cbv zeta.
  apply marked_val; [no_err|]. intros sink. case_match; [|case_match].
  - apply marked_val; [no_err|]. intros _. apply marked_map_err; [done|]. by intros [s k].
  - apply marked_val; [no_err|]. intros _. apply marked_val; [no_err|]. intros d.
    apply marked_map_err; [done|]. by intros [[s t] k].
  - apply marked_map_err; [done|]. by intros [[s t] k].
Qed.

Lemma marked_write_block e : fe_failed e = true -> marked id (write_block xxh32 e).
Proof.
  intros He. unfold write_block. do 4 (apply marked_val; [no_err|intros ?]).
  apply marked_val; [unfold should_reposition; case_match; no_err|]. intros b.
  eapply marked_bind with (proj := id).
  { destruct b; [|done]. unfold reposition. by apply marked_val; [no_err|]. }
  intros e1 H1. do 2 (apply marked_val; [no_err|intros ?]). cbv zeta.
  eapply marked_bind; [by apply marked_compress_block|]. intros [e2 k] H2. cbn in H2.
  apply marked_val; [no_err|]. intros [i data].
  eapply marked_bind with (proj := id).
  { case_match; [|done]. apply marked_val; [apply no_err_seed|done]. }
  intros e3 H3. eapply marked_bind; [by apply marked_emit_block|]. intros e4 H4.
  do 2 (apply marked_val; [no_err|intros ?]).
  eapply marked_bind; [by apply marked_slide|]. intros e5 H5.
  by do 2 (apply marked_val; [no_err|intros ?]).
Qed.

Lemma marked_write_loop fuel e buf : fe_failed e = true -> marked id (write_loop xxh32 fuel e buf).
Proof.
  revert e buf. induction fuel as [|fuel IH]; intros e buf He; [done|]. cbn [write_loop].
  destruct buf; [done|]. do 3 (apply marked_val; [no_err|intros ?]). case_match.
  - eapply marked_bind; [by apply marked_write_block|]. intros e1 H1.
    apply marked_val; [no_err|]. intros _. by apply IH.
  - cbv zeta. apply marked_val; [apply no_err_vec_copy|]. intros src. by apply IH.
Qed.

Lemma marked_begin_frame e n : fe_failed e = true -> marked id (begin_frame xxh32 e n).
Proof.
  intros He. unfold begin_frame. eapply marked_bind with (proj := id).
  { case_match; try done. by apply marked_val; [apply no_err_from_buf_length|]. }
  intros e1 H1. eapply marked_bind with (proj := id).
  { unfold init. do 2 (apply marked_val; [no_err|intros ?]). done. }
  intros e2 H2. unfold try_io. apply marked_map_err; [done|]. intros [buffer size].
  apply marked_val; [no_err|]. intros header.
  eapply marked_bind; [by apply marked_write_bytes|]. intros e3 H3. cbn. by case_match.
Qed.

Lemma marked_as_frame {A} (proj : A -> FrameEncoder W) m : marked proj m -> marked proj (as_frame m).
Proof. by destruct m as [|[]| |]. Qed.

Lemma marked_end_frame e : fe_failed e = true -> marked id (end_frame xxh32 e).
Proof.
  intros He. unfold end_frame. apply marked_val; [no_err|]. intros _.
  eapply marked_bind with (proj := fun _ => e); [by repeat case_match|]. intros _ _.
  apply marked_map_err; [done|]. intros [buffer _].
  eapply marked_bind; [by apply marked_as_frame, marked_write_bytes|]. intros e1 H1.
  eapply marked_bind with (proj := id);
    [case_match; [by apply marked_as_frame, marked_write_bytes|done]|]. done.
Qed.

(** Only the successful outcome of an outer method clears the mark. *)
Definition fails_marked {A} (m : res (FrameEncoder W * Error) A) : Prop :=
  match m with Err (e, _) => fe_failed e = true | _ => True end.

Lemma marked_fails {A B} (proj : A -> FrameEncoder W) m (f : A -> res (FrameEncoder W * Error) B) :
  marked proj m -> (forall a, fe_failed (proj a) = true -> fails_marked (f a)) -> fails_marked (m ≫= f).
Proof. destruct m as [|[]| |]; cbn; auto. Qed.

Lemma flush_fails e : fails_marked (as_frame (flush xxh32 e)).
Proof.
  unfold flush. destruct (fe_failed e) eqn:He; [done|]. cbv zeta.
  set (m := if _ =? _ then _ else _). assert (Hm : marked id m).
  { subst m. case_match; [done|]. by apply marked_write_block. }
  destruct m as [e1|[]| |]; try done. mstep. pose proof (marked_on_w e1 FrameIO.flush Hm) as H.
  by destruct (on_w e1 _) as [|[]| |].
Qed.

Lemma write_fails e buf : fails_marked (as_frame ('(e, _) ← write xxh32 e buf; Ok e)).
Proof.
  unfold write. destruct (fe_failed e) eqn:He; [done|]. cbv zeta.
  set (m := if negb _ && _ then _ else _). assert (Hm : marked id m).
  { subst m. case_match; [by apply marked_begin_frame|done]. }
  destruct m as [e1|[]| |]; try done. mstep.
  pose proof (marked_write_loop (S (2 * length buf)) e1 buf Hm) as H.
  by destruct (write_loop _ _ _ _) as [|[]| |].
Qed.

Lemma call_fails e c : fails_marked (call_encoder xxh32 e c).
Proof.
  destruct c as [buf| |]; cbn [call_encoder]; [apply write_fails|apply flush_fails|].
  unfold try_finish. pose proof (flush_fails e) as Hf.
  destruct (as_frame (flush xxh32 e)) as [e1|[]| |]; try done. mstep. case_match; [done|]. cbv zeta.
  eapply marked_fails with (proj := id).
  { case_match; [done|]. by apply marked_as_frame, marked_begin_frame. }
  intros e2 H2. eapply marked_fails; [by apply marked_end_frame|]. done.
Qed.

Lemma call_marked e c : fe_failed e = true -> call_encoder xxh32 e c = Err (e, IoErr other).
Proof.
  intros He. destruct c as [buf| |]; cbn [call_encoder]; unfold try_finish, write, flush; by rewrite He.
Qed.
End failures.
