(* ===== verification/FrameDecoder.v ===== *)
(** * The frame decoder ([src/frame/decompress.rs])

    [FrameDecoder] reads headers and blocks from its reader, decodes a block
    into [dst] and hands out the bytes from [dst_start] to [dst_end].  In a
    linked frame [dst] also keeps earlier blocks, and [ext_dict] is the window
    that is left behind when the buffer wraps.  A method takes the decoder and
    returns the new one, also with an error.  Allocation succeeds;
    [fd_src_reserve] and [fd_dst_reserve] are the largest capacities that were
    reserved for the two buffers. *)

From S2P Require Import Prelude Core Decompress FrameHeader FrameIO.

Definition MAX_CONTENT_SIZE_RESERVE : N := 128 * 1024 * 1024.

(** ** Vectors *)

(** [vec.resize(end, 0)] if it is shorter. *)
Definition grow (vec : bytes) (last : N) : bytes :=
  if len vec <? last then vec ++ replicate (N.to_nat last - length vec) x00 else vec.

(** The sink over [vec[..end]], and the rest of [vec]. *)
Definition vec_sink_for_decompression {E} `{T : Target} (vec : bytes) (pos last : N)
  : res E (SliceSink * bytes) :=
  let vec := grow vec last in
  head ← slice vec 0 last;
  sink ← SliceSinkImpl.new head pos;
  Ok (sink, drop (N.to_nat last) vec).

(** [vec_resize_and_get_mut]: the vector whose slice from [start] to [last] is
    borrowed. *)
Definition vec_resize_and_get_mut {E} (v : bytes) (start last : N) : res E bytes :=
  let v := grow v last in
  _ ← slice v start last;
  Ok v.

(** [reserve_capacity] of a vector: the largest capacity asked for so far, where
    [reserve_exact] is asked for [capacity.saturating_sub(vec.len())] more bytes. *)
Definition reserve_capacity (asked : N) (vec : bytes) (capacity : N) : N :=
  N.max asked (len vec + (capacity - len vec)).

(** [usize::try_from(size).unwrap_or(usize::MAX)] *)
Definition usize_or_max `{T : Target} (size : N) : N := N.min size usize_max.

Definition declared_size `{T : Target} (info : FrameInfo) : N :=
  match content_size info with Some size => usize_or_max size | None => usize_max end.

(** ** State *)

Record FrameDecoderOptions := {
  dictionary : option (bytes * N);
  max_output : option N
}.

(** The hasher is the bytes it was given. *)
Record FrameDecoder (R : Type) := {
  fd_r : R;
  fd_current_frame_info : option FrameInfo;
  fd_content_hasher : bytes;
  fd_content_len : N;
  fd_src : bytes;
  fd_dst : bytes;
  fd_ext_dict_offset : N;
  fd_ext_dict_len : N;
  fd_dst_start : N;
  fd_dst_end : N;
  fd_dict : bytes;
  fd_expected_dict_id : option N;
  fd_max_output : N;
  fd_bytes_output : N;
  fd_content_reserve : option N;
  fd_src_reserve : N;
  fd_dst_reserve : N
}.
Arguments Build_FrameDecoder {R}.
Arguments fd_r {R}. Arguments fd_current_frame_info {R}. Arguments fd_content_hasher {R}.
Arguments fd_content_len {R}. Arguments fd_src {R}. Arguments fd_dst {R}.
Arguments fd_ext_dict_offset {R}. Arguments fd_ext_dict_len {R}. Arguments fd_dst_start {R}.
Arguments fd_dst_end {R}. Arguments fd_dict {R}. Arguments fd_expected_dict_id {R}.
Arguments fd_max_output {R}. Arguments fd_bytes_output {R}. Arguments fd_content_reserve {R}. Arguments fd_src_reserve {R}.
Arguments fd_dst_reserve {R}.

(** Assignments to one field or to a group of fields. *)
Section setters.
Context {R : Type}.
Implicit Types (d : FrameDecoder R).

Definition set_r (x : R) d : FrameDecoder R :=
  {| fd_r := x; fd_current_frame_info := fd_current_frame_info d;
     fd_content_hasher := fd_content_hasher d; fd_content_len := fd_content_len d;
     fd_src := fd_src d; fd_dst := fd_dst d; fd_ext_dict_offset := fd_ext_dict_offset d;
     fd_ext_dict_len := fd_ext_dict_len d; fd_dst_start := fd_dst_start d;
     fd_dst_end := fd_dst_end d; fd_dict := fd_dict d;
     fd_expected_dict_id := fd_expected_dict_id d; fd_max_output := fd_max_output d;
     fd_bytes_output := fd_bytes_output d; fd_content_reserve := fd_content_reserve d;
     fd_src_reserve := fd_src_reserve d; fd_dst_reserve := fd_dst_reserve d |}.

Definition set_current (x : option FrameInfo) d : FrameDecoder R :=
  {| fd_r := fd_r d; fd_current_frame_info := x; fd_content_hasher := fd_content_hasher d;
     fd_content_len := fd_content_len d; fd_src := fd_src d; fd_dst := fd_dst d;
     fd_ext_dict_offset := fd_ext_dict_offset d; fd_ext_dict_len := fd_ext_dict_len d;
     fd_dst_start := fd_dst_start d; fd_dst_end := fd_dst_end d; fd_dict := fd_dict d;
     fd_expected_dict_id := fd_expected_dict_id d; fd_max_output := fd_max_output d;
     fd_bytes_output := fd_bytes_output d; fd_content_reserve := fd_content_reserve d;
     fd_src_reserve := fd_src_reserve d; fd_dst_reserve := fd_dst_reserve d |}.

Definition set_content (hasher : bytes) (size : N) d : FrameDecoder R :=
  {| fd_r := fd_r d; fd_current_frame_info := fd_current_frame_info d;
     fd_content_hasher := hasher; fd_content_len := size; fd_src := fd_src d;
     fd_dst := fd_dst d; fd_ext_dict_offset := fd_ext_dict_offset d;
     fd_ext_dict_len := fd_ext_dict_len d; fd_dst_start := fd_dst_start d;
     fd_dst_end := fd_dst_end d; fd_dict := fd_dict d;
     fd_expected_dict_id := fd_expected_dict_id d; fd_max_output := fd_max_output d;
     fd_bytes_output := fd_bytes_output d; fd_content_reserve := fd_content_reserve d;
     fd_src_reserve := fd_src_reserve d; fd_dst_reserve := fd_dst_reserve d |}.

Definition set_src (x : bytes) d : FrameDecoder R :=
  {| fd_r := fd_r d; fd_current_frame_info := fd_current_frame_info d;
     fd_content_hasher := fd_content_hasher d; fd_content_len := fd_content_len d; fd_src := x;
     fd_dst := fd_dst d; fd_ext_dict_offset := fd_ext_dict_offset d;
     fd_ext_dict_len := fd_ext_dict_len d; fd_dst_start := fd_dst_start d;
     fd_dst_end := fd_dst_end d; fd_dict := fd_dict d;
     fd_expected_dict_id := fd_expected_dict_id d; fd_max_output := fd_max_output d;
     fd_bytes_output := fd_bytes_output d; fd_content_reserve := fd_content_reserve d;
     fd_src_reserve := fd_src_reserve d; fd_dst_reserve := fd_dst_reserve d |}.

Definition set_dst (x : bytes) d : FrameDecoder R :=
  {| fd_r := fd_r d; fd_current_frame_info := fd_current_frame_info d;
     fd_content_hasher := fd_content_hasher d; fd_content_len := fd_content_len d;
     fd_src := fd_src d; fd_dst := x; fd_ext_dict_offset := fd_ext_dict_offset d;
     fd_ext_dict_len := fd_ext_dict_len d; fd_dst_start := fd_dst_start d;
     fd_dst_end := fd_dst_end d; fd_dict := fd_dict d;
     fd_expected_dict_id := fd_expected_dict_id d; fd_max_output := fd_max_output d;
     fd_bytes_output := fd_bytes_output d; fd_content_reserve := fd_content_reserve d;
     fd_src_reserve := fd_src_reserve d; fd_dst_reserve := fd_dst_reserve d |}.

Definition set_ext_dict (offset size : N) d : FrameDecoder R :=
  {| fd_r := fd_r d; fd_current_frame_info := fd_current_frame_info d;
     fd_content_hasher := fd_content_hasher d; fd_content_len := fd_content_len d;
     fd_src := fd_src d; fd_dst := fd_dst d; fd_ext_dict_offset := offset;
     fd_ext_dict_len := size; fd_dst_start := fd_dst_start d; fd_dst_end := fd_dst_end d;
     fd_dict := fd_dict d; fd_expected_dict_id := fd_expected_dict_id d;
     fd_max_output := fd_max_output d; fd_bytes_output := fd_bytes_output d;
     fd_content_reserve := fd_content_reserve d;
     fd_src_reserve := fd_src_reserve d; fd_dst_reserve := fd_dst_reserve d |}.

Definition set_dst_pos (start last : N) d : FrameDecoder R :=
  {| fd_r := fd_r d; fd_current_frame_info := fd_current_frame_info d;
     fd_content_hasher := fd_content_hasher d; fd_content_len := fd_content_len d;
     fd_src := fd_src d; fd_dst := fd_dst d; fd_ext_dict_offset := fd_ext_dict_offset d;
     fd_ext_dict_len := fd_ext_dict_len d; fd_dst_start := start; fd_dst_end := last;
     fd_dict := fd_dict d; fd_expected_dict_id := fd_expected_dict_id d;
     fd_max_output := fd_max_output d; fd_bytes_output := fd_bytes_output d;
     fd_content_reserve := fd_content_reserve d;
     fd_src_reserve := fd_src_reserve d; fd_dst_reserve := fd_dst_reserve d |}.

Definition set_options (dict : bytes) (id : option N) (limit : N) d : FrameDecoder R :=
  {| fd_r := fd_r d; fd_current_frame_info := fd_current_frame_info d;
     fd_content_hasher := fd_content_hasher d; fd_content_len := fd_content_len d;
     fd_src := fd_src d; fd_dst := fd_dst d; fd_ext_dict_offset := fd_ext_dict_offset d;
     fd_ext_dict_len := fd_ext_dict_len d; fd_dst_start := fd_dst_start d;
     fd_dst_end := fd_dst_end d; fd_dict := dict; fd_expected_dict_id := id;
     fd_max_output := limit; fd_bytes_output := fd_bytes_output d;
     fd_content_reserve := fd_content_reserve d;
     fd_src_reserve := fd_src_reserve d; fd_dst_reserve := fd_dst_reserve d |}.

Definition set_bytes_output (x : N) d : FrameDecoder R :=
  {| fd_r := fd_r d; fd_current_frame_info := fd_current_frame_info d;
     fd_content_hasher := fd_content_hasher d; fd_content_len := fd_content_len d;
     fd_src := fd_src d; fd_dst := fd_dst d; fd_ext_dict_offset := fd_ext_dict_offset d;
     fd_ext_dict_len := fd_ext_dict_len d; fd_dst_start := fd_dst_start d;
     fd_dst_end := fd_dst_end d; fd_dict := fd_dict d;
     fd_expected_dict_id := fd_expected_dict_id d; fd_max_output := fd_max_output d;
     fd_bytes_output := x; fd_content_reserve := fd_content_reserve d;
     fd_src_reserve := fd_src_reserve d; fd_dst_reserve := fd_dst_reserve d |}.

Definition set_content_reserve (x : option N) d : FrameDecoder R :=
  {| fd_r := fd_r d; fd_current_frame_info := fd_current_frame_info d;
     fd_content_hasher := fd_content_hasher d; fd_content_len := fd_content_len d;
     fd_src := fd_src d; fd_dst := fd_dst d; fd_ext_dict_offset := fd_ext_dict_offset d;
     fd_ext_dict_len := fd_ext_dict_len d; fd_dst_start := fd_dst_start d;
     fd_dst_end := fd_dst_end d; fd_dict := fd_dict d;
     fd_expected_dict_id := fd_expected_dict_id d; fd_max_output := fd_max_output d;
     fd_bytes_output := fd_bytes_output d; fd_content_reserve := x;
     fd_src_reserve := fd_src_reserve d; fd_dst_reserve := fd_dst_reserve d |}.

Definition set_reserves (src dst : N) d : FrameDecoder R :=
  {| fd_r := fd_r d; fd_current_frame_info := fd_current_frame_info d;
     fd_content_hasher := fd_content_hasher d; fd_content_len := fd_content_len d;
     fd_src := fd_src d; fd_dst := fd_dst d; fd_ext_dict_offset := fd_ext_dict_offset d;
     fd_ext_dict_len := fd_ext_dict_len d; fd_dst_start := fd_dst_start d;
     fd_dst_end := fd_dst_end d; fd_dict := fd_dict d;
     fd_expected_dict_id := fd_expected_dict_id d; fd_max_output := fd_max_output d;
     fd_bytes_output := fd_bytes_output d; fd_content_reserve := fd_content_reserve d;
     fd_src_reserve := src; fd_dst_reserve := dst |}.
End setters.

Module FrameDecoderImpl.
Section ops.
Context `{T : Target} (xxh32 : bytes -> N) {R : Type} `{Read R}.
Implicit Types (d : FrameDecoder R).

(** Outcomes of the methods that return [io::Result]. *)
Abbreviation io_res A := (res (FrameDecoder R * IoError) A).

(** [?] on a result of the headers. *)
Definition try_io {A} d (m : res Error A) : io_res A := map_err (fun x => (d, io_of_error x)) m.

(** [return Err(x.into())] *)
Definition fail {A} d (x : Error) : io_res A := Err (d, io_of_error x).

(** A call on the reader. *)
Definition on_r d (f : R -> res (R * IoError) (R * bytes)) : io_res (FrameDecoder R * bytes) :=
  match f (fd_r d) with
  | Ok (r, b) => Ok (set_r r d, b)
  | Err (r, x) => Err (set_r r d, x)
  | Panic => Panic
  | NoFuel => NoFuel
  end.

Definition read_some d (n : N) : io_res (FrameDecoder R * bytes) := on_r d (fun r => FrameIO.read r n).
Definition read_bytes d (n : N) : io_res (FrameDecoder R * bytes) :=
  on_r d (fun r => FrameIO.read_exact r n).

(** [read_exact(&mut buffer[a..b])] *)
Definition read_into d (buffer : bytes) (a b : N) : io_res (FrameDecoder R * bytes) :=
  s ← slice buffer a b;
  '(d, data) ← read_bytes d (len s);
  buffer ← write_at buffer a data;
  Ok (d, buffer).

Definition new (rdr : R) : FrameDecoder R :=
  {| fd_r := rdr; fd_current_frame_info := None; fd_content_hasher := []; fd_content_len := 0;
     fd_src := []; fd_dst := []; fd_ext_dict_offset := 0; fd_ext_dict_len := 0; fd_dst_start := 0;
     fd_dst_end := 0; fd_dict := []; fd_expected_dict_id := None; fd_max_output := usize_max;
     fd_bytes_output := 0; fd_content_reserve := None; fd_src_reserve := 0; fd_dst_reserve := 0 |}.

Definition with_options (rdr : R) (options : FrameDecoderOptions) : FrameDecoder R :=
  let d := new rdr in
  let d := match dictionary options with
           | Some (dict, dict_id) => set_options dict (Some dict_id) (fd_max_output d) d
           | None => d
           end in
  match max_output options with
  | Some max_output => set_options (fd_dict d) (fd_expected_dict_id d) max_output d
  | None => d
  end.

Definition with_dictionary (rdr : R) (dict : bytes) (dict_id : N) : FrameDecoder R :=
  with_options rdr {| dictionary := Some (dict, dict_id); max_output := None |}.

(** [get_mut]: the client may leave another reader behind. *)
Definition get_ref d : R := fd_r d.
Definition get_mut d (rdr : R) : FrameDecoder R := set_r rdr d.
Definition into_inner d : R := fd_r d.

(** The identifier of the header against that of the decoder. *)
Definition check_dict_id (actual expected : option N) : res Error unit :=
  match actual, expected with
  | None, None => Ok tt
  | Some _, None => Err DictionaryNotSupported
  | None, Some _ => Err DictionaryRequired
  | Some actual, Some expected =>
      if negb (actual =? expected) then Err (DictIdMismatch expected actual) else Ok tt
  end.

(** The state at the start of a frame. *)
Definition start_frame d (info : FrameInfo) (max_block_size : N) : FrameDecoder R :=
  let dst_size := if is_linked info then max_block_size * 2 + WINDOW_SIZE else max_block_size in
  let content_size := declared_size info in
  let d := set_reserves (reserve_capacity (fd_src_reserve d) (fd_src d) (N.min max_block_size content_size))
             (reserve_capacity (fd_dst_reserve d) (fd_dst d) (N.min dst_size content_size)) d in
  let content_reserve :=
    match FrameHeader.content_size info with
    | Some _ => Some (N.min (N.min content_size (fd_max_output d - fd_bytes_output d))
                        MAX_CONTENT_SIZE_RESERVE)
    | None => None
    end in
  set_dst_pos 0 0 (set_ext_dict (fd_ext_dict_offset d) 0
    (set_content [] 0 (set_current (Some info) (set_content_reserve content_reserve d)))).

(** The result [0] is the end of the input. *)
Definition read_frame_info d : io_res (FrameDecoder R * N) :=
  let buffer := replicate (N.to_nat MAX_FRAME_INFO_SIZE) x00 in
  '(d, b) ← read_some d MAGIC_NUMBER_SIZE;
  if len b =? 0 then Ok (d, 0) else
  buffer ← write_at buffer 0 b;
  '(d, buffer) ← (if len b =? MAGIC_NUMBER_SIZE then Ok (d, buffer)
                  else read_into d buffer (len b) MAGIC_NUMBER_SIZE);
  '(d, buffer) ← read_into d buffer MAGIC_NUMBER_SIZE MIN_FRAME_INFO_SIZE;
  head ← slice buffer 0 MIN_FRAME_INFO_SIZE;
  required ← try_io d (read_size head);
  '(d, buffer) ← (if required =? MIN_FRAME_INFO_SIZE then Ok (d, buffer)
                  else read_into d buffer MIN_FRAME_INFO_SIZE required);
  header ← slice buffer 0 required;
  info ← try_io d (FrameHeader.read xxh32 header);
  _ ← try_io d (check_dict_id (dict_id info) (fd_expected_dict_id d));
  max_block_size ← BlockSizeImpl.get_size (block_size info);
  Ok (start_frame d info max_block_size, required).

Definition check_output_len d (n : N) : io_res N :=
  match checked_add (fd_bytes_output d) n with
  | None => fail d (DecompressedSizeLimit (fd_max_output d) usize_max)
  | Some actual =>
      if fd_max_output d <? actual then fail d (DecompressedSizeLimit (fd_max_output d) actual)
      else Ok actual
  end.

Definition read_checksum d : io_res (FrameDecoder R * N) :=
  '(d, b) ← read_bytes d 4; Ok (d, from_le b).

Definition check_block_checksum (data : bytes) (expected_checksum : N) : res Error unit :=
  if negb (xxh32 data mod 2 ^ 32 =? expected_checksum) then Err BlockChecksumError else Ok tt.

(** The window before a block: a full buffer is left behind as the
    dictionary. *)
Definition slide d (info : FrameInfo) (max_block_size : N) : io_res (FrameDecoder R) :=
  if is_linked info then
    let dst_size := max_block_size * 2 + WINDOW_SIZE in
    if dst_size <? fd_dst_start d + max_block_size then
      _ ← assert (max_block_size + WINDOW_SIZE <=? fd_dst_start d);
      offset ← usub (fd_dst_start d) WINDOW_SIZE;
      Ok (set_dst_pos 0 0 (set_ext_dict offset WINDOW_SIZE d))
    else if WINDOW_SIZE <? fd_dst_start d + fd_ext_dict_len d then
      let delta := N.min (fd_ext_dict_len d) (fd_dst_start d + fd_ext_dict_len d - WINDOW_SIZE) in
      let d := set_ext_dict (fd_ext_dict_offset d + delta) (fd_ext_dict_len d - delta) d in
      _ ← assert (WINDOW_SIZE <=? fd_dst_start d + fd_ext_dict_len d);
      Ok d
    else Ok d
  else
    _ ← assert (fd_ext_dict_len d =? 0);
    Ok (set_dst_pos 0 0 d).

(** The bytes of a block and its checksum, read into [dst], which is resized
    before.  After a failed read the bytes of the slice are not specified; they are
    kept here, and the frame is abandoned. *)
Definition read_uncompressed d (info : FrameInfo) (max_block_size n : N) : io_res (FrameDecoder R) :=
  if max_block_size <? n then fail d BlockTooBig else
  bytes_output ← check_output_len d n;
  dst ← vec_resize_and_get_mut (fd_dst d) (fd_dst_start d) (fd_dst_start d + n);
  '(d, data) ← read_bytes (set_dst dst d) n;
  dst ← write_at (fd_dst d) (fd_dst_start d) data;
  let d := set_dst dst d in
  d ← (if block_checksums info then
         '(d, expected_checksum) ← read_checksum d;
         data ← slice (fd_dst d) (fd_dst_start d) (fd_dst_start d + n);
         _ ← try_io d (check_block_checksum data expected_checksum);
         Ok d
       else Ok d);
  content_len ← checked_sum u64_max (fd_content_len d) n;
  Ok (set_content (fd_content_hasher d) content_len
        (set_dst_pos (fd_dst_start d) (fd_dst_end d + n) (set_bytes_output bytes_output d))).

(** A decoding call: the vector that holds the output, and the sink's part of
    it put back. *)
Definition decode_into d (r : res (SliceSink * DecompressError) (SliceSink * N)) (rest : bytes)
  : res (FrameDecoder R * DecompressError) (FrameDecoder R * N) :=
  match r with
  | Ok (s, n) => Ok (set_dst (sink_output s ++ rest) d, n)
  | Err (s, e) => Err (set_dst (sink_output s ++ rest) d, e)
  | Panic => Panic
  | NoFuel => NoFuel
  end.

Definition decompress_block d (n limit : N) : res (FrameDecoder R * DecompressError) (FrameDecoder R * N) :=
  input ← slice (fd_src d) 0 n;
  last ← uadd (fd_dst_start d) limit;
  let linked := match fd_current_frame_info d with Some info => is_linked info | None => false end in
  if linked && negb (fd_ext_dict_len d =? 0) then
    _ ← assert (last <=? fd_ext_dict_offset d);
    tail ← slice_from (fd_dst d) (fd_ext_dict_offset d);
    let head := take (N.to_nat (fd_ext_dict_offset d)) (fd_dst d) in
    ext_dict ← slice tail 0 (fd_ext_dict_len d);
    out ← slice head 0 last;
    sink ← SliceSinkImpl.new out (fd_dst_start d);
    decode_into d (decompress_into_sink_with_dict true input sink ext_dict)
      (drop (N.to_nat last) (fd_dst d))
  else
    '(sink, rest) ← vec_sink_for_decompression (fd_dst d) (fd_dst_start d) last;
    if negb (len (fd_dict d) =? 0)
    then decode_into d (decompress_into_sink_with_dict true input sink (fd_dict d)) rest
    else decode_into d (decompress_into_sink_with_dict false input sink []) rest.

(** The loop over the two limits: after a pass with the smaller one the limit is
    [max_block_size], which ends it. *)
Fixpoint decompress_loop (fuel : nat) d (n limit max_block_size : N)
  : res (FrameDecoder R * DecompressError) (FrameDecoder R * N) :=
  match fuel with
  | O => NoFuel
  | S fuel =>
      match decompress_block d n limit with
      | Err (d, e) =>
          if limit <? max_block_size then decompress_loop fuel d n max_block_size max_block_size
          else Err (d, e)
      | result => result
      end
  end.

Definition read_compressed d (info : FrameInfo) (max_block_size n : N) : io_res (FrameDecoder R) :=
  if max_block_size <? n then fail d BlockTooBig else
  src ← vec_resize_and_get_mut (fd_src d) 0 n;
  '(d, data) ← read_bytes (set_src src d) n;
  src ← write_at (fd_src d) 0 data;
  let d := set_src src d in
  d ← (if block_checksums info then
         '(d, expected_checksum) ← read_checksum d;
         data ← slice (fd_src d) 0 n;
         _ ← try_io d (check_block_checksum data expected_checksum);
         Ok d
       else Ok d);
  let remaining := match content_size info with
                   | Some size => usize_or_max (size - fd_content_len d)
                   | None => usize_max
                   end in
  '(d, decomp_size) ← map_err (fun '(d, e) => (d, io_of_error (DecompressionError e)))
                        (decompress_loop 2 d n (N.min max_block_size remaining) max_block_size);
  bytes_output ← check_output_len d decomp_size;
  content_len ← checked_sum u64_max (fd_content_len d) decomp_size;
  Ok (set_content (fd_content_hasher d) content_len
        (set_dst_pos (fd_dst_start d) (fd_dst_end d + decomp_size) (set_bytes_output bytes_output d))).

(** The checks at the end of a frame. *)
Definition read_end_mark d (info : FrameInfo) : io_res (FrameDecoder R) :=
  _ ← match content_size info with
      | Some expected =>
          if negb (fd_content_len d =? expected)
          then fail d (ContentLengthError expected (fd_content_len d)) else Ok tt
      | None => Ok tt
      end;
  d ← (if content_checksum info then
         '(d, expected_checksum) ← read_checksum d;
         if negb (xxh32 (fd_content_hasher d) mod 2 ^ 32 =? expected_checksum)
         then fail d ContentChecksumError else Ok d
       else Ok d);
  Ok (set_current None d).

(** The size of the block, [0] also at the end mark. *)
Definition read_block d : io_res (FrameDecoder R * N) :=
  _ ← assert (fd_dst_start d =? fd_dst_end d);
  info ← match fd_current_frame_info d with Some info => Ok info | None => Err (d, other) end;
  max_block_size ← BlockSizeImpl.get_size (block_size info);
  d ← slide d info max_block_size;
  '(d, buffer) ← read_bytes d 4;
  block_info ← try_io d (BlockInfoImpl.read buffer);
  match block_info with
  | EndMark => d ← read_end_mark d info; Ok (d, 0)
  | _ =>
      d ← match block_info with
          | Uncompressed n => read_uncompressed d info max_block_size n
          | Compressed n => read_compressed d info max_block_size n
          | EndMark => Ok d
          end;
      d ← (if content_checksum info then
             data ← slice (fd_dst d) (fd_dst_start d) (fd_dst_end d);
             Ok (set_content (fd_content_hasher d ++ data) (fd_content_len d) d)
           else Ok d);
      n ← usub (fd_dst_end d) (fd_dst_start d);
      Ok (d, n)
  end.

(** The loop passes over empty blocks and frame ends; [0] is the end of the
    input. *)
Fixpoint read_more (fuel : nat) d : io_res (FrameDecoder R * N) :=
  match fuel with
  | O => NoFuel
  | S fuel =>
      '(d, more) ← match fd_current_frame_info d with
                   | Some _ => Ok (d, true)
                   | None => '(d, n) ← read_frame_info d; Ok (d, negb (n =? 0))
                   end;
      if negb more then Ok (d, 0) else
      '(d, n) ← map_err (fun '(d, e) => (set_current None d, e)) (read_block d);
      if negb (n =? 0) then Ok (d, n) else read_more fuel d
  end.

(** [Read::read] into a buffer of [n] bytes: the decoded bytes it returns.  The
    second pass finds them. *)
Fixpoint read_loop (passes fuel : nat) d (n : N) : io_res (FrameDecoder R * bytes) :=
  match passes with
  | O => NoFuel
  | S passes =>
      if fd_dst_start d <? fd_dst_end d then
        let read_len := N.min (fd_dst_end d - fd_dst_start d) n in
        let dst_read_end := fd_dst_start d + read_len in
        data ← slice (fd_dst d) (fd_dst_start d) dst_read_end;
        Ok (set_dst_pos dst_read_end (fd_dst_end d) d, data)
      else
        '(d, k) ← read_more fuel d;
        if k =? 0 then Ok (d, []) else read_loop passes fuel d n
  end.

Definition read (fuel : nat) d (n : N) : io_res (FrameDecoder R * bytes) := read_loop 2 fuel d n.

(** [BufRead::fill_buf] *)
Definition fill_buf (fuel : nat) d : io_res (FrameDecoder R * bytes) :=
  d ← (if fd_dst_start d =? fd_dst_end d then '(d, _) ← read_more fuel d; Ok d else Ok d);
  data ← slice (fd_dst d) (fd_dst_start d) (fd_dst_end d);
  Ok (d, data).

Definition consume d (amt : N) : io_res (FrameDecoder R) :=
  available ← usub (fd_dst_end d) (fd_dst_start d);
  _ ← assert (amt <=? available);
  Ok (set_dst_pos (fd_dst_start d + amt) (fd_dst_end d) d).

(** [io::Error::kind] *)
Definition is_interrupted (x : IoError) : bool :=
  match x with Simple Interrupted | Custom Interrupted _ => true | _ => false end.

(** [Read::read_to_end]: the vector with the decoded bytes, and their number; an
    error leaves the vector with what was decoded before. *)
Fixpoint read_to_end (fuel : nat) d (buf : bytes) (written : N)
  : res (FrameDecoder R * bytes * IoError) (FrameDecoder R * bytes * N) :=
  match fuel with
  | O => NoFuel
  | S fuel' =>
      match fill_buf fuel d with
      | Ok (d, []) => Ok (d, buf, written)
      | Ok (d, _) =>
          let d := set_content_reserve None d in
          block ← slice (fd_dst d) (fd_dst_start d) (fd_dst_end d);
          let buf := buf ++ block in
          d ← map_err (fun '(d, x) => (d, buf, x)) (consume d (len block));
          read_to_end fuel' d buf (written + len block)
      | Err (d, x) => if is_interrupted x then read_to_end fuel' d buf written else Err (d, buf, x)
      | Panic => Panic
      | NoFuel => NoFuel
      end
  end.
End ops.
End FrameDecoderImpl.

(** ** Clients

    A client of [Read] and [BufRead] makes these calls; [DTake] looks at the
    filled buffer and consumes some of it, [DReplace] puts another reader in
    place.  A call returns the bytes that the client has got, and its error;
    the client may go on after an error. *)
Section client.
Context `{T : Target} (xxh32 : bytes -> N) {R : Type} `{Read R}.
Implicit Types (d : FrameDecoder R).
Import FrameDecoderImpl.

Inductive dcall := DRead (n : N) | DTake (n : N) | DToEnd (buf : bytes) | DReplace (r : R).

Definition client_call (fuel : nat) d (c : dcall) : res Empty_set (FrameDecoder R * bytes * option IoError) :=
  match c with
  | DRead n =>
      match read xxh32 fuel d n with
      | Ok (d, b) => Ok (d, b, None) | Err (d, x) => Ok (d, [], Some x) | Panic => Panic | NoFuel => NoFuel
      end
  | DTake n =>
      match fill_buf xxh32 fuel d with
      | Ok (d, b) =>
          match consume d (N.min n (len b)) with
          | Ok d => Ok (d, take (N.to_nat n) b, None) | Err (d, x) => Ok (d, [], Some x)
          | Panic => Panic | NoFuel => NoFuel
          end
      | Err (d, x) => Ok (d, [], Some x) | Panic => Panic | NoFuel => NoFuel
      end
  | DToEnd buf =>
      match read_to_end xxh32 fuel d buf 0 with
      | Ok (d, buf', _) => Ok (d, drop (length buf) buf', None)
      | Err (d, buf', x) => Ok (d, drop (length buf) buf', Some x)
      | Panic => Panic | NoFuel => NoFuel
      end
  | DReplace r => Ok (get_mut d r, [], None)
  end.
End client.
Arguments dcall : clear implicits.
