(* ===== verification/FrameDecoderSpec.v ===== *)
(** * The frame format as a parser

    [take_block] reads one block from the front of a byte string and finds the
    blocks of [FrameSpec] and no others.  [rest_of] is the meaning of the bytes
    that follow at a point inside or between frames; each step of the decoder
    consumes what [take_block] consumes. *)

From S2P Require Import Prelude BlockSpec Core FrameHeader FrameSpec.

(** The first [n] bytes and the rest. *)
Definition take_n (n : N) (l : bytes) : option (bytes * bytes) :=
  if n <=? len l then Some (take (N.to_nat n) l, drop (N.to_nat n) l) else None.

Lemma take_n_app l rest n : len l = n -> take_n n (l ++ rest) = Some (l, rest).
Proof.
  intros <-. unfold take_n. bcase. by rewrite Nat2N.id, take_app_length, drop_app_length.
Qed.

Lemma take_n_inv n l a b : take_n n l = Some (a, b) -> l = a ++ b /\ len a = n.
Proof. unfold take_n. bcase; intros [= <- <-]. split; [by rewrite take_drop|len_lia]. Qed.

Lemma from_le_word n : n < 2 ^ 32 -> from_le (to_le 4 n) = n.
Proof. intros. rewrite from_le_to_le. apply N.mod_small. done. Qed.

Lemma max_block_le info : max_block info <= 4194304.
Proof. unfold max_block. destruct (block_size info); lia. Qed.

Lemma word_from_le (h : bytes) : len h = 4 -> to_le 4 (from_le h) = h.
Proof. intros Hh. replace 4%nat with (length h) by lia. apply to_le_from_le. Qed.

Section parser.
Context (xxh32 : bytes -> N).
Implicit Types (info : FrameInfo) (dict content block data body l out : bytes) (id : option N).

(** An optional checksum of [data]. *)
Definition take_checksum (c : bool) data l : option bytes :=
  if c then '(s, l) ← take_n 4 l; if decide (s = to_le 4 (xxh32 data)) then Some l else None
  else Some l.

Lemma take_checksum_app c data l : take_checksum c data (checksum xxh32 c data ++ l) = Some l.
Proof.
  unfold take_checksum, checksum. destruct c; [|done]. rewrite take_n_app by done.
  cbn [mbind option_bind]. by destruct (decide _).
Qed.

Lemma take_checksum_inv c data l l' :
  take_checksum c data l = Some l' -> l = checksum xxh32 c data ++ l'.
Proof.
  unfold take_checksum, checksum. destruct c; [|by intros [= ->]].
  destruct (take_n 4 l) as [[s r]|] eqn:Ht; cbn [mbind option_bind]; [|done].
  apply take_n_inv in Ht as [-> _]. destruct (decide _) as [->|]; [|done]. by intros [= ->].
Qed.

(** A block; [None] as data is the end mark. *)
Definition take_block info dict content l : option (option bytes * bytes) :=
  '(h, l) ← take_n 4 l;
  let w := from_le h in
  if w =? 0 then Some (None, l) else
  if 2 ^ 31 <=? w then
    if max_block info <? w - 2 ^ 31 then None else
    '(data, l) ← take_n (w - 2 ^ 31) l;
    l ← take_checksum (block_checksums info) data l;
    Some (Some data, l)
  else
    if max_block info <? w then None else
    '(block, l) ← take_n w l;
    l ← take_checksum (block_checksums info) block l;
    data ← block_decode (block_history info dict content) block;
    if max_block info <? len data then None else Some (Some data, l).

Lemma take_block_carries info dict content b data l :
  block_carries xxh32 info dict content b data ->
  take_block info dict content (b ++ l) = Some (Some data, l).
Proof.
  pose proof (max_block_le info). intros [block d H0 Hm Hd Hl|d Hl]; unfold take_block;
    rewrite <-!app_assoc, take_n_app by done; cbn [mbind option_bind].
  - rewrite from_le_word by lia. cbv zeta. destruct (N.eqb_spec (len block) 0); [lia|].
    destruct (N.leb_spec (2 ^ 31) (len block)); [lia|].
    destruct (N.ltb_spec (max_block info) (len block)); [lia|]. rewrite take_n_app by done. cbn [mbind option_bind].
    rewrite take_checksum_app. cbn [mbind option_bind]. rewrite Hd. cbn [mbind option_bind]. by bcase.
  - rewrite from_le_word by lia. cbv zeta. destruct (N.eqb_spec (len d + 2 ^ 31) 0); [lia|].
    destruct (N.leb_spec (2 ^ 31) (len d + 2 ^ 31)); [|lia].
    destruct (N.ltb_spec (max_block info) (len d + 2 ^ 31 - 2 ^ 31)); [lia|].
    rewrite take_n_app by lia. cbn [mbind option_bind].
    by rewrite take_checksum_app.
Qed.

Lemma take_block_inv info dict content l data l' :
  take_block info dict content l = Some (Some data, l') ->
  exists b, l = b ++ l' /\ block_carries xxh32 info dict content b data.
Proof.
  unfold take_block. destruct (take_n 4 l) as [[h r]|] eqn:Hh; cbn [mbind option_bind]; [|done].
  apply take_n_inv in Hh as [-> Hh]. pose proof (word_from_le h Hh) as Hw. cbv zeta.
  destruct (N.eqb_spec (from_le h) 0); [done|]. destruct (N.leb_spec (2 ^ 31) (from_le h)).
  - destruct (N.ltb_spec (max_block info) (from_le h - 2 ^ 31)); [done|].
    destruct (take_n _ r) as [[d r2]|] eqn:Hd; cbn [mbind option_bind]; [|done].
    apply take_n_inv in Hd as [-> Hd].
    destruct (take_checksum _ d r2) as [r3|] eqn:Hc; cbn [mbind option_bind]; [|done].
    apply take_checksum_inv in Hc as ->. intros [= <- <-].
    exists (h ++ d ++ checksum xxh32 (block_checksums info) d). rewrite <-!app_assoc. split; [done|].
    rewrite <-Hw. replace (from_le h) with (len d + 2 ^ 31) by lia. apply carries_raw. lia.
  - destruct (N.ltb_spec (max_block info) (from_le h)); [done|].
    destruct (take_n _ r) as [[block r2]|] eqn:Hd; cbn [mbind option_bind]; [|done].
    apply take_n_inv in Hd as [-> Hd].
    destruct (take_checksum _ block r2) as [r3|] eqn:Hc; cbn [mbind option_bind]; [|done].
    apply take_checksum_inv in Hc as ->.
    destruct (block_decode _ block) as [d|] eqn:Hdec; cbn [mbind option_bind]; [|done].
    destruct (N.ltb_spec (max_block info) (len d)); [done|]. intros [= <- <-].
    exists (h ++ block ++ checksum xxh32 (block_checksums info) block). rewrite <-!app_assoc.
    split; [done|]. rewrite <-Hw, <-Hd. apply carries_compressed; [lia..|done|lia].
Qed.

Lemma take_block_end info dict content l l' :
  take_block info dict content l = Some (None, l') <-> l = to_le 4 0 ++ l'.
Proof.
  split.
  - unfold take_block. destruct (take_n 4 l) as [[h r]|] eqn:Hh; cbn [mbind option_bind]; [|done].
    apply take_n_inv in Hh as [-> Hh]. pose proof (word_from_le h Hh) as Hw. cbv zeta.
    destruct (N.eqb_spec (from_le h) 0) as [H0|].
    { intros [= <-]. by rewrite <-Hw, H0. }
    destruct (2 ^ 31 <=? from_le h); (destruct (max_block info <? _); [done|]); intros Hx;
      repeat (apply bind_Some in Hx as (? & _ & Hx); repeat case_match; try done).
  - intros ->. unfold take_block. by rewrite take_n_app.
Qed.

(** ** The rest of a stream *)

(** [rest_of dict id at_ l out]: the bytes [l] complete the frame that is open
    at [at_] with its content so far, and the frames after it, and add [out]. *)
Definition rest_of dict id (at_ : option (FrameInfo * bytes)) l out : Prop :=
  match at_ with
  | None => frames xxh32 dict id l out
  | Some (info, content) => exists body rest out1 out2,
      l = body ++ rest /\ frame_body xxh32 info dict content body (content ++ out1) /\
      frames xxh32 dict id rest out2 /\ out = out1 ++ out2
  end.

Lemma frame_body_grows info dict content body content' :
  frame_body xxh32 info dict content body content' -> exists out, content' = content ++ out.
Proof.
  induction 1 as [content|content b data body content' Hb H (out & ->)].
  - exists []. by rewrite app_nil_r.
  - exists (data ++ out). by rewrite app_assoc.
Qed.

Lemma frame_body_inv info dict content body content' :
  frame_body xxh32 info dict content body content' ->
  (content' = content /\ (forall n, content_size info = Some n -> n = len content) /\
   body = to_le 4 0 ++ checksum xxh32 (content_checksum info) content) \/
  (exists b data body', body = b ++ body' /\ block_carries xxh32 info dict content b data /\
     frame_body xxh32 info dict (content ++ data) body' content').
Proof. destruct 1; [by left|right]. by eexists _, _, _. Qed.

Lemma frames_inv dict id l out : frames xxh32 dict id l out ->
  (l = [] /\ out = []) \/
  (exists info body l' out1 out2, dict_id info = id /\ info_ok info /\
     l = header_bytes xxh32 info ++ body ++ l' /\ frame_body xxh32 info dict [] body out1 /\
     frames xxh32 dict id l' out2 /\ out = out1 ++ out2).
Proof.
  destruct 1 as [|info f c r c' Hid (Hi & body & -> & Hb) Hr]; [by left|right].
  exists info, body, r, c, c'. by rewrite <-app_assoc.
Qed.

Lemma header_nonempty info l : header_bytes xxh32 info ++ l <> [].
Proof.
  intros He%(f_equal length). pose proof (length_header_bytes xxh32 info) as Hl.
  unfold write_size, MIN_FRAME_INFO_SIZE in Hl. rewrite length_app in He. cbn in He.
  destruct (content_size info), (dict_id info); lia.
Qed.

(** A block is consumed, its data is the next output. *)
Lemma rest_block dict id info content l data l' out :
  take_block info dict content l = Some (Some data, l') ->
  rest_of dict id (Some (info, content)) l out <->
  exists out', out = data ++ out' /\ rest_of dict id (Some (info, content ++ data)) l' out'.
Proof.
  intros Ht. split.
  - intros (body & rest & o1 & o2 & -> & Hb & Hf & ->).
    destruct (frame_body_inv _ _ _ _ _ Hb) as [(_ & _ & ->)|(b & d & body' & -> & Hc & Hb')];
      rewrite <-app_assoc in Ht.
    + by rewrite (proj2 (take_block_end info dict content _ _) eq_refl) in Ht.
    + rewrite (take_block_carries _ _ _ _ _ (body' ++ rest) Hc) in Ht. injection Ht as -> <-.
      destruct (frame_body_grows _ _ _ _ _ Hb') as (o & Ho).
      rewrite <-app_assoc in Ho. apply app_inv_head in Ho as ->. exists (o ++ o2).
      split; [by rewrite app_assoc|]. exists body', rest, o, o2. by rewrite <-app_assoc.
  - intros (out' & -> & body & rest & o1 & o2 & -> & Hb & Hf & ->).
    apply take_block_inv in Ht as (b & -> & Hc). exists (b ++ body), rest, (data ++ o1), o2.
    split_and!; [by rewrite app_assoc| |done|by rewrite app_assoc].
    apply (body_block _ _ _ _ _ data); [done|]. by rewrite app_assoc.
Qed.

(** The end mark closes a content of the declared size, under its checksum. *)
Lemma rest_end dict id info content l l' out :
  take_block info dict content l = Some (None, l') ->
  rest_of dict id (Some (info, content)) l out <->
  (forall n, content_size info = Some n -> n = len content) /\
  exists l2, take_checksum (content_checksum info) content l' = Some l2 /\ rest_of dict id None l2 out.
Proof.
  intros Ht%take_block_end. subst l. split.
  - intros (body & rest & o1 & o2 & Hl & Hb & Hf & ->).
    destruct (frame_body_inv _ _ _ _ _ Hb) as [(Hcc & Hn & ->)|(b & d & body' & -> & Hc & Hb')];
      rewrite <-app_assoc in Hl.
    + rewrite <-(app_nil_r content) in Hcc at 2. apply app_inv_head in Hcc as ->.
      apply app_inv_head in Hl as ->. split; [done|]. exists rest.
      split; [by apply take_checksum_app|done].
    + pose proof (take_block_carries _ _ _ _ _ (body' ++ rest) Hc) as Ht.
      rewrite <-Hl in Ht. by rewrite (proj2 (take_block_end info dict content _ _) eq_refl) in Ht.
  - intros (Hn & l2 & ->%take_checksum_inv & Hf).
    exists (to_le 4 0 ++ checksum xxh32 (content_checksum info) content), l2, [], out.
    split_and!; [by rewrite <-app_assoc| |done|done]. rewrite app_nil_r. by constructor.
Qed.

Lemma rest_stuck dict id info content l out :
  take_block info dict content l = None -> ~ rest_of dict id (Some (info, content)) l out.
Proof.
  intros Ht (body & rest & o1 & o2 & -> & Hb & _).
  destruct (frame_body_inv _ _ _ _ _ Hb) as [(_ & _ & ->)|(b & d & body' & -> & Hc & Hb')];
    rewrite <-app_assoc in Ht.
  - by rewrite (proj2 (take_block_end info dict content _ _) eq_refl) in Ht.
  - by rewrite (take_block_carries _ _ _ _ _ (body' ++ rest) Hc) in Ht.
Qed.

(** Between frames: the end, or a header with the decoder's identifier. *)
Lemma header_unique info1 info2 l1 l2 : info_ok info1 -> info_ok info2 ->
  header_bytes xxh32 info1 ++ l1 = header_bytes xxh32 info2 ++ l2 -> info1 = info2 /\ l1 = l2.
Proof.
  intros H1 H2 He. pose proof (read_header_bytes xxh32 info1 l1 H1) as Hr.
  rewrite He, read_header_bytes in Hr by done. injection Hr as ->. by apply app_inv_head in He.
Qed.

Lemma rest_header dict id info l out : info_ok info ->
  rest_of dict id None (header_bytes xxh32 info ++ l) out <->
  dict_id info = id /\ rest_of dict id (Some (info, [])) l out.
Proof.
  intros Hi. split.
  - intros [[He _]|(info2 & body & r & c & c' & Hid & Hi2 & He & Hb & Hr & ->)]%frames_inv.
    { by apply header_nonempty in He. }
    apply header_unique in He as [<- ->]; [|done..]. split; [done|]. by exists body, r, c, c'.
  - intros [Hid (body & rest & o1 & o2 & -> & Hb & Hf & ->)]. cbn [app] in Hb. rewrite app_assoc.
    econstructor; [done| |done]. split; [done|]. by exists body.
Qed.

Lemma rest_nil dict id out : rest_of dict id None [] out <-> out = [].
Proof.
  split; [|intros ->; constructor].
  intros [[_ ->]|(info & body & r & c & c' & _ & _ & He & _)]%frames_inv; [done|].
  symmetry in He. by apply header_nonempty in He.
Qed.

Lemma rest_starts dict id l out : rest_of dict id None l out ->
  l = [] \/ exists info l', info_ok info /\ l = header_bytes xxh32 info ++ l'.
Proof.
  intros [[-> _]|(info & body & r & c & c' & _ & Hi & -> & _)]%frames_inv; [by left|right].
  by exists info, (body ++ r).
Qed.
(** ** Streams that have not ended

    [owes dict id at_ l out]: the whole blocks at the front of [l] carry [out],
    and [E] holds of what follows them and of the point where it does. *)
Section owes.
Context (E : option (FrameInfo * bytes) -> bytes -> Prop).

Inductive owes dict id : option (FrameInfo * bytes) -> bytes -> bytes -> Prop :=
| owes_now at_ l : E at_ l -> owes dict id at_ l []
| owes_block info content l data l' out :
    take_block info dict content l = Some (Some data, l') ->
    owes dict id (Some (info, content ++ data)) l' out ->
    owes dict id (Some (info, content)) l (data ++ out)
| owes_end info content l l1 l2 out :
    take_block info dict content l = Some (None, l1) ->
    (forall n, content_size info = Some n -> n = len content) ->
    take_checksum (content_checksum info) content l1 = Some l2 ->
    owes dict id None l2 out -> owes dict id (Some (info, content)) l out
| owes_header info l out :
    info_ok info -> dict_id info = id ->
    owes dict id (Some (info, [])) l out -> owes dict id None (header_bytes xxh32 info ++ l) out.

Lemma emitted_owes dict id info bs content rest out : emitted xxh32 info dict bs content ->
  owes dict id (Some (info, content)) rest out ->
  owes dict id (Some (info, [])) (bs ++ rest) (content ++ out).
Proof.
  intros He. revert rest out. induction He as [|bs content b data He IH Hb]; intros rest out Ho; [done|].
  rewrite <-!app_assoc. apply IH. eapply owes_block; [by apply take_block_carries|done].
Qed.

Lemma body_owes dict id info content body content' rest out :
  frame_body xxh32 info dict content body content' -> owes dict id None rest out ->
  exists o, content' = content ++ o /\ owes dict id (Some (info, content)) (body ++ rest) (o ++ out).
Proof.
  intros Hb Ho. induction Hb as [content Hn|content b data body content' Hc Hb IH].
  - exists []. rewrite app_nil_r, <-app_assoc. split; [done|].
    eapply owes_end; [by apply take_block_end|done|apply take_checksum_app|done].
  - destruct IH as (o & -> & IH). exists (data ++ o). rewrite <-!app_assoc. split; [done|].
    eapply owes_block; [by apply take_block_carries|done].
Qed.

Lemma frames_owes dict id F content rest out : frames xxh32 dict id F content ->
  owes dict id None rest out -> owes dict id None (F ++ rest) (content ++ out).
Proof.
  intros Hf Ho. induction Hf as [|info frame content F content' Hid (Hi & body & -> & Hb) Hf IH]; [done|].
  destruct (body_owes _ _ _ _ _ _ _ _ Hb IH) as (o & -> & H). rewrite <-!app_assoc. by apply owes_header.
Qed.
End owes.
End parser.
