(* ===== verification/FrameDecoderProofs.v ===== *)
(** * The frame decoder against the frame format

    For any reader of a byte string each method of the decoder does what the
    parser of [FrameDecoderSpec] does on the bytes that are left: it succeeds
    when the parser does and the output limit allows, and fails otherwise. *)

From S2P Require Import Prelude BlockSpec Core Primitives Decompress DecompressProofs DecompressSpec EncoderSpec FrameHeader FrameIO FrameSpec FrameDecoder FrameDecoderSpec.

(** Reduces accesses to a record that has just been updated. *)
Ltac dfields :=
  cbn [fd_r fd_current_frame_info fd_content_hasher fd_content_len fd_src fd_dst fd_ext_dict_offset
       fd_ext_dict_len fd_dst_start fd_dst_end fd_dict fd_expected_dict_id fd_max_output
       fd_bytes_output fd_content_reserve fd_src_reserve fd_dst_reserve
       set_r set_current set_content set_src set_dst set_ext_dict set_dst_pos set_options
       set_bytes_output set_content_reserve set_reserves] in *.

(** Arithmetic with the constants of the decoder. *)
Ltac dlia :=
  unfold WINDOW_SIZE, u64_max in *; pose proof isize_large; pose proof usize_isize;
  change (64 * 1024) with 65536 in *; change (2 ^ 31) with 2147483648 in *;
  change (2 ^ 32) with 4294967296 in *; change (2 ^ 64) with 18446744073709551616 in *; lia.

Lemma length_grow v last : length (grow v last) = Nat.max (length v) (N.to_nat last).
Proof. unfold grow. bcase; len_lia. Qed.
#[export] Hint Rewrite length_grow : lz4_len.

Lemma take_grow v last n : n <= len v -> take (N.to_nat n) (grow v last) = take (N.to_nat n) v.
Proof. intros. unfold grow. bcase; [|done]. by rewrite take_app_le by lia. Qed.

Lemma drop_grow v last n : n <= len v -> last <= len v -> drop (N.to_nat n) (grow v last) = drop (N.to_nat n) v.
Proof. intros. unfold grow. by bcase. Qed.

Lemma resize_ok {E} v start last : start <= last -> vec_resize_and_get_mut (E:=E) v start last = Ok (grow v last).
Proof. intros. unfold vec_resize_and_get_mut. by rewrite slice_ok by len_lia. Qed.

Section ops.
Context `{T : Target} (xxh32 : bytes -> N) {R : Type} {HR : Read R} {HL : ReadLaws R}.
Implicit Types (d : FrameDecoder R) (info : FrameInfo) (dict content data out : bytes) (id : option N).
Import FrameDecoderImpl.

(** The bytes that the decoder has not read. *)
Definition left_over d : bytes := stream (fd_r d).

(** ** The reader *)

Lemma read_bytes_ok d n :
  match take_n n (left_over d) with
  | Some (a, b) => exists r, read_bytes d n = Ok (set_r r d, a) /\ stream r = b
  | None => exists r, read_bytes d n = Err (set_r r d, Simple UnexpectedEof)
  end.
Proof.
  unfold take_n, left_over, read_bytes, on_r. pose proof (read_exact_law (fd_r d) n) as H.
  destruct (n <=? _); destruct H as (r & Hr); [destruct Hr as [Hr Hs]|]; exists r; by rewrite Hr.
Qed.

Lemma set_r_same d : set_r (fd_r d) d = d.
Proof. by destruct d. Qed.

(** A checksum as read and as the parser compares it. *)
Lemma checksum_eq (s data : bytes) : len s = 4 ->
  (xxh32 data mod 2 ^ 32 =? from_le s) = bool_decide (s = to_le 4 (xxh32 data)).
Proof.
  intros Hs. destruct (N.eqb_spec (xxh32 data mod 2 ^ 32) (from_le s)) as [He|He]; symmetry.
  - apply bool_decide_true. rewrite <-(word_from_le s Hs), <-(word_from_le (to_le 4 (xxh32 data))) by done.
    f_equal. rewrite from_le_to_le. exact (eq_sym He).
  - apply bool_decide_false. intros ->. apply He. by rewrite from_le_to_le.
Qed.

(** The checksum of a block, in the form of both kinds of block. *)
Lemma block_checksum_ok (c : bool) d data get :
  (forall r, get (set_r r d) = Ok data) ->
  let m := (if c then '(d, expected) ← read_checksum d; data ← get d;
                      _ ← try_io d (check_block_checksum xxh32 data expected); Ok d
            else Ok d) : res (FrameDecoder R * IoError) (FrameDecoder R) in
  match take_checksum xxh32 c data (left_over d) with
  | Some l => exists r, stream r = l /\ m = Ok (set_r r d)
  | None => exists r x, m = Err (set_r r d, x)
  end.
Proof.
  intros Hg. cbv zeta. destruct c; [|exists (fd_r d); by rewrite set_r_same].
  unfold take_checksum, read_checksum. pose proof (read_bytes_ok d 4) as H.
  destruct (take_n 4 (left_over d)) as [[s l]|] eqn:Hs; cbn [mbind option_bind].
  2:{ destruct H as (r & ->). by eexists r, _. }
  destruct H as (r & -> & Hr). apply take_n_inv in Hs as [_ Hs]. mstep. rewrite Hg. mstep.
  unfold check_block_checksum, try_io. rewrite checksum_eq by done.
  destruct (decide _) as [Hd|Hd].
  - rewrite bool_decide_true by done. by exists r.
  - rewrite bool_decide_false by done. by eexists r, _.
Qed.

(** ** States *)

(** The bytes that a block may refer to. *)
Definition window d : bytes :=
  sub (fd_dst d) (fd_ext_dict_offset d) (fd_ext_dict_len d) ++ take (N.to_nat (fd_dst_start d)) (fd_dst d).

(** The decoded bytes that have not been handed out. *)
Definition pending d : bytes := sub (fd_dst d) (fd_dst_start d) (fd_dst_end d - fd_dst_start d).

(** The buffers never exceed what a frame with the largest blocks needs. *)
Definition max_dst : N := 4194304 * 2 + WINDOW_SIZE.
Definition max_src : N := 4194304.

(** The settings, the output so far within its limit, and the buffers with the
    capacities that were reserved for them. *)
Record config dict id d : Prop := {
  cf_dict : fd_dict d = dict;
  cf_id : fd_expected_dict_id d = id;
  cf_output : fd_bytes_output d <= fd_max_output d;
  cf_limit : fd_max_output d <= usize_max;
  cf_dst : len (fd_dst d) <= max_dst;
  cf_src : len (fd_src d) <= max_src;
  cf_dst_reserve : fd_dst_reserve d <= max_dst;
  cf_src_reserve : fd_src_reserve d <= max_src
}.

(** No frame is open and nothing is pending. *)
Record idle dict id d : Prop := {
  id_config : config dict id d;
  id_closed : fd_current_frame_info d = None;
  id_empty : fd_dst_start d = fd_dst_end d;
  id_end : fd_dst_end d <= len (fd_dst d)
}.

(** The most that [dst] holds for a frame. *)
Definition dst_size info : N :=
  if is_linked info then max_block info * 2 + WINDOW_SIZE else max_block info.

(** Between two blocks of a frame with [content] so far.  The window is the whole
    content, or at least 64 KiB of it. *)
Record between dict id info content d : Prop := {
  bt_config : config dict id d;
  bt_open : fd_current_frame_info d = Some info;
  bt_info : info_ok info;
  bt_len : fd_content_len d = len content;
  bt_hasher : content_checksum info = true -> fd_content_hasher d = content;
  bt_output : len content <= fd_bytes_output d;
  bt_empty : fd_dst_start d = fd_dst_end d;
  bt_end : fd_dst_end d <= len (fd_dst d);
  bt_size : fd_dst_end d <= dst_size info;
  bt_window : is_linked info = true -> exists P, content = P ++ window d /\
    (P = [] /\ fd_ext_dict_len d = 0 \/ WINDOW_SIZE <= len (window d));
  bt_ext : fd_ext_dict_len d = 0 \/
    (is_linked info = true /\ fd_dst_start d <= fd_ext_dict_offset d /\
     max_block info + WINDOW_SIZE <= fd_ext_dict_offset d + fd_ext_dict_len d <= len (fd_dst d))
}.

(** There is room for a block. *)
Record ready dict id info content d : Prop := {
  rd_between : between dict id info content d;
  rd_room : fd_dst_start d + max_block info <= dst_size info;
  rd_front : is_linked info = false -> fd_dst_start d = 0;
  rd_ext : fd_ext_dict_len d = 0 \/ fd_dst_start d + max_block info <= fd_ext_dict_offset d
}.

Lemma max_block_pos info : info_ok info -> 65536 <= max_block info <= 4194304.
Proof. intros [Hb _]. unfold max_block. destruct (block_size info); done || lia. Qed.

Lemma get_size_max {E} info : info_ok info ->
  BlockSizeImpl.get_size (E:=E) (block_size info) = Ok (max_block info).
Proof. intros [Hb _]. unfold max_block. by destruct (block_size info). Qed.

(** A decoder whose reader only has changed. *)
Lemma between_r dict id info content d r : between dict id info content d ->
  between dict id info content (set_r r d).
Proof. intros [[] ? ? ? ? ? ? ? ? ? ?]. split; dfields; try done; by split. Qed.

Lemma ready_r dict id info content d r : ready dict id info content d ->
  ready dict id info content (set_r r d).
Proof. intros []. split; dfields; try done. by apply between_r. Qed.

(** ** The window before a block *)

Lemma window_wrap dict id info content d : between dict id info content d -> is_linked info = true ->
  max_block info + WINDOW_SIZE < fd_dst_start d ->
  ready dict id info content
    (set_dst_pos 0 0 (set_ext_dict (fd_dst_start d - WINDOW_SIZE) WINDOW_SIZE d)).
Proof.
  intros [[] ? ? ? ? ? ? ? ? ? ?] Hl Hs. pose proof (max_block_pos _ bt_info0).
  assert (Hd : dst_size info = max_block info * 2 + WINDOW_SIZE) by (unfold dst_size; by rewrite Hl).
  split; dfields; [|lia|congruence|right; lia].
  split; dfields; try done; try lia; [|right; split; [done|lia]].
  intros _. destruct (bt_window0 Hl) as (P & -> & _). unfold window. dfields.
  change (N.to_nat 0) with 0%nat. rewrite take_0, app_nil_r.
  exists (P ++ sub (fd_dst d) (fd_ext_dict_offset d) (fd_ext_dict_len d)
            ++ take (N.to_nat (fd_dst_start d - WINDOW_SIZE)) (fd_dst d)).
  split; [|right; rewrite length_sub by lia; lia].
  rewrite <-!app_assoc. do 2 f_equal. rewrite take_sub by lia. f_equal. lia.
Qed.

Lemma window_shrink dict id info content d delta : between dict id info content d -> is_linked info = true ->
  fd_dst_start d <= max_block info + WINDOW_SIZE ->
  delta = N.min (fd_ext_dict_len d) (fd_dst_start d + fd_ext_dict_len d - WINDOW_SIZE) ->
  ready dict id info content (set_ext_dict (fd_ext_dict_offset d + delta) (fd_ext_dict_len d - delta) d).
Proof.
  intros [[] ? ? ? ? ? ? ? ? ? ?] Hl Hs Hdelta. pose proof (max_block_pos _ bt_info0).
  assert (Hd : dst_size info = max_block info * 2 + WINDOW_SIZE) by (unfold dst_size; by rewrite Hl).
  split; dfields; [|lia|congruence|].
  2:{ destruct bt_ext0 as [|(_ & ? & ?)]; lia. }
  split; dfields; try done.
  2:{ destruct bt_ext0 as [|(_ & ? & ?)]; [left; lia|].
      destruct (N.eq_dec (fd_ext_dict_len d) delta); [left|right; split; [done|]]; lia. }
  intros _. destruct (bt_window0 Hl) as (P & HP & Hw). unfold window in *. dfields.
  destruct (N.eq_dec (fd_ext_dict_len d) 0) as [Hz|Hz].
  { exists P. rewrite Hz in *. replace (0 - delta) with 0 by lia. by rewrite HP. }
  destruct bt_ext0 as [|(_ & ? & ?)]; [done|].
  destruct (sub_suffix (fd_dst d) (fd_ext_dict_offset d) (fd_ext_dict_len d) delta) as (Q & HQ); [lia..|].
  exists (P ++ Q). rewrite HP, HQ, <-!app_assoc. split; [done|].
  destruct Hw as [[_ ?]|Hw]; [lia|]. right. rewrite length_app in Hw |- *.
  rewrite length_sub_min in Hw |- *. rewrite length_take in *. lia.
Qed.

(** [d] with another window. *)
Definition slid d d' : Prop :=
  exists s off n, d' = set_dst_pos s s (set_ext_dict off n d).

Lemma slid_kept d off n : fd_dst_start d = fd_dst_end d -> slid d (set_ext_dict off n d).
Proof. intros He. exists (fd_dst_start d), off, n. destruct d. cbn in He. by subst. Qed.

Lemma window_slide_ok dict id info content d : between dict id info content d ->
  returns (slide d info (max_block info)) (fun d' => slid d d' /\ ready dict id info content d').
Proof.
  intros Hb. pose proof Hb as []. pose proof (max_block_pos _ bt_info0). unfold slide.
  destruct (is_linked info) eqn:Hl.
  - destruct (N.ltb_spec (max_block info * 2 + WINDOW_SIZE) (fd_dst_start d + max_block info)).
    { unfold assert. rewrite (proj2 (N.leb_le _ _)) by lia. mstep. access. apply returns_ok.
      split; [by eexists 0, _, _|]. apply window_wrap; [done..|lia]. }
    pose proof (window_shrink _ _ _ _ _ _ Hb Hl ltac:(lia) eq_refl) as Hr. revert Hr.
    set (delta := N.min _ _). intros Hr.
    destruct (N.ltb_spec WINDOW_SIZE (fd_dst_start d + fd_ext_dict_len d)).
    + dfields. unfold assert. rewrite (proj2 (N.leb_le _ _)) by lia. mstep. apply returns_ok.
      split; [by apply slid_kept|done].
    + apply returns_ok. assert (Hz : delta = 0) by lia. rewrite Hz, N.add_0_r, N.sub_0_r in Hr.
      assert (Hd : set_ext_dict (fd_ext_dict_offset d) (fd_ext_dict_len d) d = d) by (by destruct d).
      split; [rewrite <-Hd at 2; by apply slid_kept|by rewrite Hd in Hr].
  - destruct bt_ext0 as [Hz|(Hl' & _)]; [|congruence]. rewrite Hz. cbn [N.eqb assert]. mstep.
    apply returns_ok. split; [exists 0, (fd_ext_dict_offset d), (fd_ext_dict_len d); by destruct d|].
    assert (Hd : dst_size info = max_block info) by (unfold dst_size; by rewrite Hl).
    destruct bt_config0. split; dfields; [|lia|done|by left].
    split; dfields; try done; try lia. congruence.
Qed.

(** ** The bytes of a block in [dst] *)

(** [v] is [dst] with [data] at [dst_start], and the window left behind as it
    was. *)
Record dst_put d (v data : bytes) : Prop := {
  dp_start : fd_dst_start d <= len (fd_dst d);
  dp_room : fd_dst_start d + len data <= len v;
  dp_len : len (fd_dst d) <= len v;
  dp_take : take (N.to_nat (fd_dst_start d + len data)) v
            = take (N.to_nat (fd_dst_start d)) (fd_dst d) ++ data;
  dp_ext : fd_ext_dict_len d <> 0 ->
    drop (N.to_nat (fd_ext_dict_offset d)) v = drop (N.to_nat (fd_ext_dict_offset d)) (fd_dst d);
  dp_max : len v <= N.max (len (fd_dst d)) max_dst
}.

(** A block of a frame has been decoded and is pending. *)
Record decoded dict id info content data d : Prop := {
  dc_between : between dict id info (content ++ data) (set_dst_pos (fd_dst_end d) (fd_dst_end d) d);
  dc_start : fd_dst_start d <= fd_dst_end d;
  dc_pending : pending d = data
}.

Lemma usize_u64 : usize_max <= u64_max.
Proof. unfold usize_max, usize_bits. by destruct target_width. Qed.

Lemma put_window d v data : dst_put d v data ->
  let e := fd_dst_start d + len data in
  window (set_dst_pos e e (set_dst v d)) = window d ++ data.
Proof.
  intros [] e. unfold window. dfields. subst e. rewrite dp_take0, app_assoc. f_equal. f_equal.
  unfold sub. destruct (N.eq_dec (fd_ext_dict_len d) 0) as [->|Hz]; [done|]. by rewrite dp_ext0.
Qed.

Lemma put_pending d v data : dst_put d v data -> sub v (fd_dst_start d) (len data) = data.
Proof.
  intros []. unfold sub. rewrite take_drop_commute.
  replace (N.to_nat (fd_dst_start d) + N.to_nat (len data))%nat
    with (N.to_nat (fd_dst_start d + len data)) by lia.
  rewrite dp_take0. apply drop_app_length'. len_lia.
Qed.

(** The state after the block, up to the hasher. *)
Definition block_read d (v : bytes) (n : N) : FrameDecoder R :=
  set_content (fd_content_hasher d) (fd_content_len d + n)
    (set_dst_pos (fd_dst_start d) (fd_dst_end d + n)
       (set_bytes_output (fd_bytes_output d + n) (set_dst v d))).

(** The end of [read_block]. *)
Lemma block_done dict id info content d v data :
  ready dict id info content d -> dst_put d v data -> len data <= max_block info ->
  fd_bytes_output d + len data <= fd_max_output d ->
  returns (E:=FrameDecoder R * IoError)
    (d ← (if content_checksum info then
            let d := block_read d v (len data) in
            data ← slice (fd_dst d) (fd_dst_start d) (fd_dst_end d);
            Ok (set_content (fd_content_hasher d ++ data) (fd_content_len d) d)
          else Ok (block_read d v (len data)));
     n ← usub (fd_dst_end d) (fd_dst_start d);
     Ok (d, n))
    (fun '(d', n) => n = len data /\ decoded dict id info content data d' /\
       left_over d' = left_over d /\ fd_bytes_output d' = fd_bytes_output d + len data /\
       fd_max_output d' = fd_max_output d /\ fd_dst d' = v /\ fd_src d' = fd_src d).
Proof.
  intros [[[] ? ? ? ? ? ? ? ? ? ?] ? ? ?] Hp Hn Ho. pose proof (put_pending _ _ _ Hp) as Hpend.
  pose proof (put_window _ _ _ Hp) as Hw. cbv zeta in Hw. pose proof Hp as [].
  set (m := if content_checksum info then _ else _).
  assert (Hm : exists h, m = Ok (set_content h (fd_content_len d + len data) (block_read d v (len data))) /\
    (content_checksum info = true -> h = content ++ data)).
  { subst m. destruct (content_checksum info); cbv zeta.
    - unfold block_read. dfields. rewrite <-bt_empty0, slice_ok by lia. mstep.
      replace (_ + len data - _) with (len data) by lia. rewrite Hpend. dfields.
      eexists. split; [done|]. intros _. by rewrite bt_hasher0.
    - by exists (fd_content_hasher d). }
  destruct Hm as (h & -> & Hh). mstep. unfold block_read. dfields. rewrite <-bt_empty0. access.
  apply returns_ok. split; [lia|]. split; [|done]. split; dfields; [|lia|].
  2:{ unfold pending. dfields. replace (_ + len data - _) with (len data) by lia. done. }
  split; dfields; try done; try lia; [split; dfields; done || lia|len_lia|len_lia|..].
  - intros Hl. unfold window in Hw |- *. dfields. rewrite Hw.
    destruct (bt_window0 Hl) as (P & -> & Hwin). exists P. rewrite <-app_assoc. split; [done|].
    destruct Hwin as [[-> ?]|?]; [by left|right]. unfold window in *. dfields. len_lia.
  - destruct rd_ext0 as [|?]; [by left|]. destruct bt_ext0 as [|(? & ? & ?)]; [by left|right].
    split; [done|]. lia.
Qed.

(** A block that could not be decoded has left the front and the window alone. *)
Lemma ready_put dict id info content d v : ready dict id info content d -> dst_put d v [] ->
  ready dict id info content (set_dst v d).
Proof.
  intros [[[] ? ? ? ? ? ? ? ? ? ?] ? ? ?] Hp. pose proof (put_window _ _ _ Hp) as Hw. cbv zeta in Hw.
  destruct Hp. cbn [length] in *. rewrite N.add_0_r, app_nil_r in *.
  split; dfields; try done. split; dfields; try done; [split; dfields; done || lia|lia| |].
  - intros Hl. unfold window in Hw |- *. dfields. rewrite Hw. by apply bt_window0.
  - destruct bt_ext0 as [|(? & ? & ?)]; [by left|right]. split; [done|]. lia.
Qed.

(** ** Decoding a block *)

(** What a decoding call may refer to is enough. *)
Lemma history_ext dict id info content d block : ready dict id info content d -> fd_ext_dict_len d <> 0 ->
  block_decode (window d) block = block_decode (block_history info dict content) block.
Proof.
  intros [[] ? ? ?] Hx. destruct bt_ext0 as [|(Hl & _)]; [done|].
  destruct (bt_window0 Hl) as (P & -> & [[_ ?]|Hw]); [done|]. unfold block_history, is_linked in *.
  destruct (block_mode info); [done|]. rewrite app_assoc. symmetry. apply block_decode_window. dlia.
Qed.

Lemma history_dict dict id info content d block : ready dict id info content d -> fd_ext_dict_len d = 0 ->
  block_decode (dict ++ take (N.to_nat (fd_dst_start d)) (fd_dst d)) block
  = block_decode (block_history info dict content) block.
Proof.
  intros [[] ? ? ?] Hx. unfold block_history, is_linked in *. destruct (block_mode info).
  - rewrite rd_front0 by done. by rewrite app_nil_r.
  - destruct (bt_window0 eq_refl) as (P & HP & Hw). unfold window in *. rewrite Hx in *.
    change (sub (fd_dst d) (fd_ext_dict_offset d) 0) with (@nil byte) in *. cbn [app] in *.
    destruct Hw as [[-> _]|Hw]; [by rewrite HP|]. rewrite HP, app_assoc.
    rewrite !block_decode_window by dlia. done.
Qed.

(** [v] is no longer than [dst] was, or ends at [top]. *)
Definition grown d (v : bytes) (top : N) : Prop := len v <= N.max (len (fd_dst d)) top.

(** The outcomes of a call: the data, or a proof that it is longer than the
    limit. *)
Definition decode_post d (H block : bytes) (limit : N)
  (r : res (FrameDecoder R * DecompressError) (FrameDecoder R * N)) : Prop :=
  match r with
  | Ok (d', k) => exists v data, d' = set_dst v d /\ k = len data /\ len data <= limit /\
      block_decode H block = Some data /\ dst_put d v data /\ grown d v (fd_dst_start d + limit)
  | Err (d', _) => exists v, d' = set_dst v d /\ dst_put d v [] /\ grown d v (fd_dst_start d + limit) /\
      forall data, block_decode H block = Some data -> limit < len data
  | Panic | NoFuel => False
  end.

Lemma decode_into_ok d v0 D USE_DICT block H limit :
  let last := fd_dst_start d + limit in
  let s := {| sink_output := take (N.to_nat last) v0; sink_pos := fd_dst_start d |} in
  fd_dst_start d <= len (fd_dst d) -> len (fd_dst d) <= len v0 <= N.max (len (fd_dst d)) last -> last <= len v0 ->
  last <= 8454144 -> len block <= 4194304 ->
  take (N.to_nat (fd_dst_start d)) v0 = take (N.to_nat (fd_dst_start d)) (fd_dst d) ->
  (fd_ext_dict_len d <> 0 -> last <= fd_ext_dict_offset d /\
     drop (N.to_nat (fd_ext_dict_offset d)) v0 = drop (N.to_nat (fd_ext_dict_offset d)) (fd_dst d)) ->
  block_decode (dict_of USE_DICT D ++ take (N.to_nat (fd_dst_start d)) (fd_dst d)) block
    = block_decode H block ->
  decode_post d H block limit
    (decode_into d (decompress_into_sink_with_dict USE_DICT block s D) (drop (N.to_nat last) v0)).
Proof.
  intros last s Hs Hv Hlast Hb1 Hb2 Htake Hext HH. pose proof isize_large.
  assert (Hmax : last <= max_dst) by (unfold max_dst, WINDOW_SIZE; lia).
  assert (Hws : written s = take (N.to_nat (fd_dst_start d)) (fd_dst d)).
  { unfold written. subst s. cbn [sink_output sink_pos]. rewrite take_take, <-Htake. f_equal. lia. }
  assert (Hls : len (sink_output s) = last) by (subst s; cbn [sink_output]; len_lia).
  pose proof (sink_post_ok USE_DICT block s D) as Hpost. unfold buffer_ok in Hpost.
  rewrite Hls in Hpost. specialize (Hpost ltac:(dlia) ltac:(dlia)).
  specialize (Hpost ltac:(unfold sink_ok; subst s; cbn; len_lia)).
  unfold decode_into. destruct (decompress_into_sink_with_dict _ _ _ _) as [[s' k]|[s' x]| |];
    cbn [sink_post] in Hpost; [| |done..]; cbn [decode_post].
  - destruct Hpost as (Hl & Hpos & Hok & data & Hw & <- & Hd).
    rewrite Hws, HH in Hd. unfold sink_ok in Hok. cbn in Hok. change (sink_pos s) with (fd_dst_start d) in Hpos.
    exists (sink_output s' ++ drop (N.to_nat last) v0), data. split_and!; [done|done|lia|done| |unfold grown; fold last; len_lia].
    split; [done|len_lia|len_lia| | |len_lia].
    + rewrite take_app_le by lia. unfold written in Hw. by rewrite <-Hpos, Hw, <-Hws.
    + intros Hx. destruct (Hext Hx) as [? <-]. rewrite drop_app_ge by lia. rewrite drop_drop. f_equal. lia.
  - destruct Hpost as (Hl & Hok & Hw & Hd). rewrite Hws, HH in Hd.
    exists (sink_output s' ++ drop (N.to_nat last) v0). split_and!; [done| |unfold grown; fold last; len_lia|].
    2:{ intros data Hdata%Hd. rewrite Hls in Hdata. change (sink_pos s) with (fd_dst_start d) in Hdata. lia. }
    split; cbn [length]; rewrite ?N.add_0_r, ?app_nil_r; [done|len_lia|len_lia| | |len_lia].
    + rewrite take_app_le by lia. by rewrite <-Hws, <-Hw.
    + intros Hx. destruct (Hext Hx) as [? <-]. rewrite drop_app_ge by lia. rewrite drop_drop. f_equal. lia.
Qed.

Lemma dst_size_bound info : info_ok info -> dst_size info <= 8454144.
Proof. intros Hi%max_block_pos. unfold dst_size, WINDOW_SIZE. destruct (is_linked info); lia. Qed.

Lemma decompress_block_ok dict id info content d block limit :
  ready dict id info content d -> limit <= max_block info -> len block <= max_block info ->
  len block <= len (fd_src d) -> take (length block) (fd_src d) = block ->
  decode_post d (block_history info dict content) block limit (decompress_block d (len block) limit).
Proof.
  intros Hr Hlim Hbm Hbl Hbt. pose proof Hr as [[] ? ? ?]. pose proof (max_block_pos _ bt_info0).
  pose proof (dst_size_bound _ bt_info0). destruct bt_config0. unfold decompress_block.
  rewrite slice_ok by lia. rewrite N.sub_0_r, sub_0, Nat2N.id, Hbt. mstep.
  rewrite uadd_ok by dlia. mstep. rewrite bt_open0. set (last := fd_dst_start d + limit).
  destruct (is_linked info && negb (fd_ext_dict_len d =? 0)) eqn:Hcase.
  - apply andb_prop in Hcase as [Hl Hx]. apply negb_true_iff, N.eqb_neq in Hx.
    destruct rd_ext0 as [|Hroom]; [done|]. destruct bt_ext0 as [|(_ & _ & Hd)]; [done|].
    unfold assert. rewrite (proj2 (N.leb_le _ _)) by lia. mstep.
    rewrite slice_from_ok by lia. mstep. do 2 (rewrite slice_ok by len_lia; mstep).
    rewrite !N.sub_0_r, (sub_0 (take _ _)), take_take.
    replace (N.to_nat last `min` N.to_nat (fd_ext_dict_offset d))%nat with (N.to_nat last) by lia.
    unfold SliceSinkImpl.new. rewrite slice_ok by len_lia. mstep.
    change (sub (drop _ (fd_dst d)) 0 (fd_ext_dict_len d))
      with (sub (fd_dst d) (fd_ext_dict_offset d) (fd_ext_dict_len d)).
    apply decode_into_ok; try done; [lia..| |]; [split; [lia|done]|].
    cbn [dict_of]. exact (history_ext _ _ _ _ _ block Hr Hx).
  - assert (Hx : fd_ext_dict_len d = 0).
    { destruct bt_ext0 as [|(Hl & _)]; [done|]. rewrite Hl in Hcase. cbn [andb] in Hcase.
      by apply negb_false_iff, N.eqb_eq in Hcase. }
    unfold vec_sink_for_decompression. rewrite slice_ok by len_lia. mstep.
    rewrite N.sub_0_r, sub_0. unfold SliceSinkImpl.new. rewrite slice_ok by len_lia. mstep.
    pose proof (history_dict _ _ _ _ _ block Hr Hx) as HH. rewrite cf_dict0.
    destruct (N.eqb_spec (len dict) 0) as [Hz|Hz]; cbn [negb].
    + destruct dict; [|cbn in Hz; lia].
      apply decode_into_ok; try done; [lia|subst last; len_lia|len_lia|lia|lia|apply take_grow; lia].
    + apply decode_into_ok; try done; [lia|subst last; len_lia|len_lia|lia|lia|apply take_grow; lia].
Qed.

(** The data of two calls, the second on what the first has left. *)
Lemma dst_put_trans dict id info content d v w data : ready dict id info content d ->
  dst_put d v [] -> dst_put (set_dst v d) w data -> dst_put d w data.
Proof.
  intros [[] ? ? ?] Hp []. dfields. destruct Hp. cbn [length] in *. rewrite N.add_0_r, app_nil_r in *.
  split; [lia|lia|lia|congruence| |lia]. intros Hx. by rewrite dp_ext0, dp_ext1.
Qed.

Lemma grown_trans d v w top top' : top <= top' -> grown d v top -> grown (set_dst v d) w top' -> grown d w top'.
Proof. unfold grown. dfields. lia. Qed.

(** The second pass makes the smaller limit unobservable, and is not needed for
    a block that respects it. *)
Lemma decompress_loop_ok dict id info content d block limit :
  ready dict id info content d -> limit <= max_block info -> len block <= max_block info ->
  len block <= len (fd_src d) -> take (length block) (fd_src d) = block ->
  let m := decompress_loop 2 d (len block) limit (max_block info) in
  decode_post d (block_history info dict content) block (max_block info) m /\
  forall d' k, m = Ok (d', k) -> k <= limit -> grown d (fd_dst d') (fd_dst_start d + limit).
Proof.
  intros Hr Hlim Hbm Hbl Hbt m. subst m. cbn [decompress_loop].
  pose proof (decompress_block_ok _ _ _ _ _ _ limit Hr Hlim Hbm Hbl Hbt) as H1.
  destruct (decompress_block d (len block) limit) as [[d1 k]|[d1 x]| |]; [| |done..]; cbn [decode_post] in H1.
  - destruct H1 as (v & data & -> & ? & ? & ? & ? & Hg). split; [|by intros ? ? [= <- <-]].
    exists v, data. split_and!; try done; [lia|]. unfold grown in *. lia.
  - destruct H1 as (v & -> & Hp & Hg & Hd). destruct (N.ltb_spec limit (max_block info)) as [Hlt|Hge].
    2:{ split; [|done]. exists v. split_and!; try done; [unfold grown in *; lia|].
        intros data Hdata. specialize (Hd data Hdata). lia. }
    pose proof (ready_put _ _ _ _ _ _ Hr Hp) as Hr2.
    pose proof (decompress_block_ok _ _ _ _ _ block (max_block info) Hr2 ltac:(lia) Hbm Hbl Hbt) as H2.
    destruct (decompress_block (set_dst v d) (len block) (max_block info)) as [[d2 k]|[d2 y]| |];
      [| |done..]; cbn [decode_post] in H2 |- *.
    + destruct H2 as (w & data & -> & -> & Hlen & Hdec & Hp2 & Hg2). split.
      * exists w, data. split_and!; try done; [by eapply dst_put_trans|].
        eapply grown_trans; [|exact Hg|exact Hg2]. lia.
      * intros ? ? [= <- <-]. specialize (Hd data Hdec). lia.
    + rewrite N.ltb_irrefl. split; [|done]. destruct H2 as (w & -> & Hp2 & Hg2 & Hd2). exists w.
      split_and!; try done; [by eapply dst_put_trans|]. eapply grown_trans; [|exact Hg|exact Hg2]. lia.
Qed.

(** ** Reading a block *)

(** An error that leaves the buffers large enough. *)
Definition aborts {A} d (m : res (FrameDecoder R * IoError) A) : Prop :=
  exists r s v x, m = Err (set_r r (set_src s (set_dst v d)), x) /\
    len (fd_dst d) <= len v <= N.max (len (fd_dst d)) max_dst /\ len s <= N.max (len (fd_src d)) max_src.

Lemma aborts_r {A} d r x : aborts (A:=A) d (Err (set_r r d, x)).
Proof. exists r, (fd_src d), (fd_dst d), x. split; [by destruct d|lia]. Qed.

Lemma aborts_same {A} d x : aborts (A:=A) d (Err (d, x)).
Proof. rewrite <-(set_r_same d) at 2. apply aborts_r. Qed.

Lemma check_output_len_ok dict id d n : config dict id d ->
  if fd_bytes_output d + n <=? fd_max_output d
  then check_output_len d n = Ok (fd_bytes_output d + n)
  else exists x, check_output_len d n = Err (d, x).
Proof.
  intros []. unfold check_output_len, checked_add, fail.
  destruct (N.leb_spec (fd_bytes_output d + n) (fd_max_output d)).
  - rewrite (proj2 (N.leb_le _ _)) by lia. by rewrite (proj2 (N.ltb_ge _ _)) by lia.
  - destruct (N.leb_spec (fd_bytes_output d + n) usize_max); [|by eexists].
    rewrite (proj2 (N.ltb_lt _ _)) by lia. by eexists.
Qed.

(** A block that keeps to the declared size of its frame makes [dst] no longer
    than that. *)
Definition economical d info (n : N) (v : bytes) : Prop :=
  forall size, content_size info = Some size -> fd_content_len d + n <= size ->
    grown d v (fd_dst_start d + (size - fd_content_len d)).

(** Where the outcome of a block's bytes meets the output limit. *)
Definition block_outcome d info (parsed : option (bytes * bytes)) (m : res (FrameDecoder R * IoError) (FrameDecoder R))
  : Prop :=
  match parsed with
  | Some (data, l) =>
      if fd_bytes_output d + len data <=? fd_max_output d
      then exists r s v, m = Ok (block_read (set_r r (set_src s d)) v (len data)) /\
             stream r = l /\ dst_put d v data /\ len s <= N.max (len (fd_src d)) max_src /\
             economical d info (len data) v /\ len s <= N.max (len (fd_src d)) (len (left_over d))
      else aborts d m
  | None => aborts d m
  end.

Definition parse_raw info (n : N) (l : bytes) : option (bytes * bytes) :=
  if max_block info <? n then None else
  '(data, l) ← take_n n l;
  l ← take_checksum xxh32 (block_checksums info) data l;
  Some (data, l).

(** A failed read into [dst] or [src], which has been resized for a block. *)
Lemma aborts_dst {A} dict id info content d n r x : ready dict id info content d -> n <= max_block info ->
  aborts (A:=A) d (Err (set_r r (set_dst (grow (fd_dst d) (fd_dst_start d + n)) d), x)).
Proof.
  intros [[] ? ? ?] Hn. pose proof (dst_size_bound _ bt_info0).
  exists r, (fd_src d), (grow (fd_dst d) (fd_dst_start d + n)), x. split; [by destruct d|].
  unfold max_dst, WINDOW_SIZE in *. len_lia.
Qed.

Lemma aborts_src {A} d n r x : n <= max_src -> aborts (A:=A) d (Err (set_r r (set_src (grow (fd_src d) n) d), x)).
Proof. intros Hn. exists r, (grow (fd_src d) n), (fd_dst d), x. split; [by destruct d|]. len_lia. Qed.

(** The slice of [dst] that the bytes of a raw block are read into. *)
Lemma read_into_dst dict id info content d data :
  ready dict id info content d -> len data <= max_block info ->
  exists v, write_at (E:=FrameDecoder R * IoError) (grow (fd_dst d) (fd_dst_start d + len data)) (fd_dst_start d) data = Ok v /\
            dst_put d v data /\ grown d v (fd_dst_start d + len data).
Proof.
  intros [[] ? ? ?] Hn. set (last := fd_dst_start d + len data).
  pose proof (dst_size_bound _ bt_info0).
  rewrite write_at_ok by len_lia. eexists. split; [done|].
  split; [|unfold grown; fold last; rewrite length_splice by len_lia; len_lia].
  split; [lia|rewrite length_splice by len_lia; len_lia|rewrite length_splice by len_lia; len_lia| | |].
  - rewrite take_splice by len_lia. f_equal. apply take_grow. lia.
  - intros Hx. destruct rd_ext0 as [|Hroom]; [done|]. destruct bt_ext0 as [|(_ & _ & ?)]; [done|].
    unfold splice. rewrite app_assoc, drop_app_ge by len_lia. rewrite drop_drop.
    replace (_ + _)%nat with (N.to_nat (fd_ext_dict_offset d)) by len_lia. apply drop_grow; lia.
  - rewrite length_splice by len_lia. unfold max_dst, WINDOW_SIZE in *. len_lia.
Qed.

Lemma content_len_ok {E} dict id info content d n : ready dict id info content d ->
  fd_bytes_output d + n <= fd_max_output d ->
  checked_sum (E:=E) u64_max (fd_content_len d) n = Ok (fd_content_len d + n).
Proof.
  intros [[[] ? ? ? ? ? ? ? ? ? ?] ? ? ?] Ho. apply checked_sum_ok. pose proof usize_u64. lia.
Qed.

Lemma read_uncompressed_ok dict id info content d n : ready dict id info content d ->
  block_outcome d info (parse_raw info n (left_over d)) (read_uncompressed xxh32 d info (max_block info) n).
Proof.
  intros Hr. unfold parse_raw, read_uncompressed, fail. destruct (N.ltb_spec (max_block info) n) as [|Hn];
    [apply aborts_same|].
  pose proof (check_output_len_ok dict id d n ltac:(by destruct Hr as [[] ? ? ?])) as Ho.
  destruct (fd_bytes_output d + n <=? fd_max_output d) eqn:Hlim.
  2:{ destruct Ho as (x & ->). unfold block_outcome. mstep.
      destruct (take_n n _) as [[data l]|] eqn:Ht; cbn [mbind option_bind]; [|apply aborts_same].
      apply take_n_inv in Ht as [_ <-]. destruct (take_checksum _ _ _ _); cbn [mbind option_bind];
        [rewrite Hlim|]; apply aborts_same. }
  rewrite Ho. mstep. rewrite resize_ok by lia. mstep.
  pose proof (read_bytes_ok (set_dst (grow (fd_dst d) (fd_dst_start d + n)) d) n) as Hb. unfold left_over in Hb. dfields.
  change (stream (fd_r d)) with (left_over d) in Hb.
  destruct (take_n n _) as [[data l]|] eqn:Ht; cbn [mbind option_bind];
    [|destruct Hb as (r & ->); by eapply aborts_dst].
  destruct Hb as (r & -> & Hl). mstep. apply take_n_inv in Ht as [_ <-]. dfields.
  destruct (read_into_dst _ _ _ _ _ data Hr Hn) as (v & -> & Hp & Hg). mstep. dfields.
  change (set_dst v (set_r r (set_dst _ d))) with (set_dst v (set_r r d)).
  pose proof (block_checksum_ok (block_checksums info) (set_dst v (set_r r d)) data
    (fun d' => slice (fd_dst d') (fd_dst_start d') (fd_dst_start d' + len data))) as Hc.
  cbv beta zeta in Hc. unfold left_over in Hc at 1. dfields. rewrite Hl in Hc.
  assert (Hsl : slice (E:=FrameDecoder R * IoError) v (fd_dst_start d) (fd_dst_start d + len data) = Ok data).
  { rewrite slice_ok by (destruct Hp; lia). replace (_ + len data - _) with (len data) by lia.
    by rewrite (put_pending _ _ _ Hp). }
  specialize (Hc (fun _ => Hsl)). destruct (take_checksum _ _ _ _) as [l2|]; cbn [mbind option_bind].
  - destruct Hc as (r2 & Hr2 & ->). mstep. dfields. rewrite (content_len_ok _ _ _ _ _ _ Hr) by by apply N.leb_le.
    mstep.
    cbn [block_outcome]. rewrite Hlim. exists r2, (fd_src d), v. split_and!; try done; try lia.
    intros size _ Hsize. unfold grown in *. lia.
  - destruct Hc as (r2 & x & ->). mstep. exists r2, (fd_src d), v, x. split; [done|]. destruct Hp. lia.
Qed.

Definition parse_compressed info dict content (n : N) (l : bytes) : option (bytes * bytes) :=
  if max_block info <? n then None else
  '(block, l) ← take_n n l;
  l ← take_checksum xxh32 (block_checksums info) block l;
  data ← block_decode (block_history info dict content) block;
  if max_block info <? len data then None else Some (data, l).

(** The vector that a compressed block is read into. *)
Lemma read_into_src {E} (v block : bytes) :
  exists s, write_at (E:=E) (grow v (len block)) 0 block = Ok s /\
    len block <= len s <= N.max (len v) (len block) /\ take (length block) s = block.
Proof.
  rewrite write_at_ok by len_lia. eexists. split; [done|]. split; [rewrite length_splice by len_lia; len_lia|].
  unfold splice. change (N.to_nat 0) with 0%nat. rewrite take_0. cbn [app]. by rewrite take_app_length.
Qed.

(** The decoding and the sums after the bytes of a compressed block. *)
Lemma decode_step_ok dict id info content d block l :
  ready dict id info content d -> len block <= max_block info -> len block <= len (fd_src d) ->
  take (length block) (fd_src d) = block -> left_over d = l ->
  let remaining := match content_size info with
                   | Some size => usize_or_max (size - fd_content_len d)
                   | None => usize_max
                   end in
  let m :=
    '(d, decomp_size) ← map_err (fun '(d, e) => (d, io_of_error (DecompressionError e)))
                          (decompress_loop 2 d (len block) (N.min (max_block info) remaining) (max_block info));
    bytes_output ← check_output_len d decomp_size;
    content_len ← checked_sum u64_max (fd_content_len d) decomp_size;
    Ok (set_content (fd_content_hasher d) content_len
          (set_dst_pos (fd_dst_start d) (fd_dst_end d + decomp_size) (set_bytes_output bytes_output d))) in
  block_outcome d info
    (data ← block_decode (block_history info dict content) block;
     if max_block info <? len data then None else Some (data, l)) m.
Proof.
  intros Hr Hbm Hbl Hbt Hl remaining m. subst m.
  pose proof (decompress_loop_ok _ _ _ _ _ _ (N.min (max_block info) remaining) Hr ltac:(lia) Hbm Hbl Hbt) as [H Hg].
  destruct (decompress_loop _ _ _ _ _) as [[d1 k]|[d1 x]| |]; [| |done..]; cbn [decode_post] in H.
  - destruct H as (v & data & -> & -> & Hlen & -> & Hp & _). specialize (Hg _ _ eq_refl). dfields. mstep. cbn [mbind option_bind].
    rewrite (proj2 (N.ltb_ge _ _)) by lia. cbn [block_outcome].
    pose proof (check_output_len_ok dict id (set_dst v d) (len data)) as Ho. dfields.
    specialize (Ho ltac:(destruct Hr as [[[] ? ? ? ? ? ? ? ? ? ?] ? ? ?], Hp; split; dfields; done || lia)).
    destruct (N.leb_spec (fd_bytes_output d + len data) (fd_max_output d)) as [Hlim|].
    + rewrite Ho. mstep. rewrite (content_len_ok _ _ _ _ _ _ Hr Hlim). mstep.
      exists (fd_r d), (fd_src d), v. split_and!; [by destruct d|done|done|lia| |lia].
      intros size Hsize Hfit. subst remaining. rewrite Hsize in Hg. unfold usize_or_max, grown in *.
      assert (len data <= usize_max) by (destruct Hr as [[[] ? ? ? ? ? ? ? ? ? ?] ? ? ?]; lia). lia.
    + destruct Ho as (x & ->). mstep. exists (fd_r d), (fd_src d), v, x. split; [by destruct d|destruct Hp; lia].
  - destruct H as (v & -> & Hp & _ & Hd). mstep.
    assert (Ha : forall y, aborts (A:=FrameDecoder R) d (Err (set_dst v d, y))).
    { intros y. exists (fd_r d), (fd_src d), v, y. split; [by destruct d|destruct Hp; lia]. }
    destruct (block_decode _ block) as [data|]; cbn [mbind option_bind]; [|apply Ha].
    specialize (Hd data eq_refl). rewrite (proj2 (N.ltb_lt _ _)) by lia. apply Ha.
Qed.

Lemma block_outcome_src d r s info parsed m : len s <= N.max (len (fd_src d)) max_src ->
  len s <= N.max (len (fd_src d)) (len (left_over d)) -> len (stream r) <= len (left_over d) ->
  block_outcome (set_src s (set_r r d)) info parsed m -> block_outcome d info parsed m.
Proof.
  intros Hs Hs2 Hl. unfold block_outcome, aborts. destruct parsed as [[data l]|]; dfields; [case_match|].
  - intros (r2 & s2 & v & -> & ? & [] & ? & ? & Hs3). unfold left_over in Hs3. dfields.
    exists r2, s2, v. split_and!; try done; lia.
  - intros (r2 & s2 & v & x & -> & ? & ?). exists r2, s2, v, x. split_and!; done || lia.
  - intros (r2 & s2 & v & x & -> & ? & ?). exists r2, s2, v, x. split_and!; done || lia.
Qed.

Lemma ready_src dict id info content d r s : ready dict id info content d ->
  len s <= N.max (len (fd_src d)) max_src -> ready dict id info content (set_src s (set_r r d)).
Proof.
  intros [[[] ? ? ? ? ? ? ? ? ? ?] ? ? ?] Hs. split; dfields; try done; split; dfields; try done.
  split; dfields; done || lia.
Qed.

Lemma read_compressed_ok dict id info content d n : ready dict id info content d ->
  block_outcome d info (parse_compressed info dict content n (left_over d))
    (read_compressed xxh32 d info (max_block info) n).
Proof.
  intros Hr. unfold parse_compressed, read_compressed, fail.
  destruct (N.ltb_spec (max_block info) n) as [|Hn]; [apply aborts_same|].
  assert (Hmax : max_block info <= max_src) by (pose proof (max_block_le info); unfold max_src; lia).
  rewrite resize_ok by lia. mstep. pose proof (read_bytes_ok (set_src (grow (fd_src d) n) d) n) as Hb.
  unfold left_over in Hb. dfields. change (stream (fd_r d)) with (left_over d) in Hb.
  destruct (take_n n _) as [[block l]|] eqn:Ht; cbn [mbind option_bind];
    [|destruct Hb as (r & ->); apply aborts_src; lia].
  destruct Hb as (r & -> & Hl). mstep. apply take_n_inv in Ht as [Hlo <-]. dfields.
  destruct (read_into_src (E:=FrameDecoder R * IoError) (fd_src d) block) as (s & -> & [Hsl Hsm] & Hst). mstep.
  change (set_src s (set_r r (set_src _ d))) with (set_src s (set_r r d)).
  assert (Hsb : len s <= N.max (len (fd_src d)) max_src) by lia.
  pose proof (block_checksum_ok (block_checksums info) (set_src s (set_r r d)) block
    (fun d' => slice (fd_src d') 0 (len block))) as Hc.
  cbv beta zeta in Hc. unfold left_over in Hc at 1. dfields. rewrite Hl in Hc.
  assert (Hs : slice (E:=FrameDecoder R * IoError) s 0 (len block) = Ok block).
  { rewrite slice_ok by lia. by rewrite N.sub_0_r, sub_0, Nat2N.id, Hst. }
  specialize (Hc (fun _ => Hs)). destruct (take_checksum _ _ _ _) as [l2|] eqn:Hck; cbn [mbind option_bind].
  - destruct Hc as (r2 & Hr2 & ->). mstep. dfields.
    change (set_r r2 (set_src s (set_r r d))) with (set_src s (set_r r2 d)).
    assert (Hll : len l <= len (left_over d) /\ len block <= len (left_over d)) by (rewrite Hlo; len_lia).
    assert (len l2 <= len l) by (apply take_checksum_inv in Hck as ->; len_lia).
    apply (block_outcome_src d r2 s); [done|lia|rewrite Hr2; lia|].
    apply (decode_step_ok dict id info content (set_src s (set_r r2 d)) block l2); try done. by apply ready_src.
  - destruct Hc as (r2 & x & ->). mstep. exists r2, s, (fd_dst d), x. split; [by destruct d|lia].
Qed.

(** The parser by kind of block. *)
Lemma take_block_eq info dict content l :
  take_block xxh32 info dict content l =
    '(h, l) ← take_n 4 l;
    let w := from_le h in
    if w =? 0 then Some (None, l) else
    if 2 ^ 31 <=? w then '(data, l) ← parse_raw info (w - 2 ^ 31) l; Some (Some data, l)
    else '(data, l) ← parse_compressed info dict content w l; Some (Some data, l).
Proof.
  unfold take_block, parse_raw, parse_compressed.
  destruct (take_n 4 l) as [[h r]|]; cbn [mbind option_bind]; [|done]. cbv zeta.
  destruct (from_le h =? 0), (2 ^ 31 <=? from_le h); [done..| |].
  - destruct (max_block info <? _); [done|]. destruct (take_n _ r) as [[data r2]|]; cbn [mbind option_bind]; [|done].
    by destruct (take_checksum _ _ _ _).
  - destruct (max_block info <? _); [done|]. destruct (take_n _ r) as [[block r2]|]; cbn [mbind option_bind]; [|done].
    destruct (take_checksum _ _ _ _); cbn [mbind option_bind]; [|done].
    destruct (block_decode _ _); cbn [mbind option_bind]; [|done]. by destruct (max_block info <? _).
Qed.

(** The end mark: the size and the checksum of the content. *)
Lemma read_end_mark_ok dict id info content d : between dict id info content d ->
  ((forall n, content_size info = Some n -> n = len content) /\
   exists l r, take_checksum xxh32 (content_checksum info) content (left_over d) = Some l /\ stream r = l /\
     read_end_mark xxh32 d info = Ok (set_current None (set_r r d))) \/
  (~ ((forall n, content_size info = Some n -> n = len content) /\
      exists l, take_checksum xxh32 (content_checksum info) content (left_over d) = Some l) /\
   aborts d (read_end_mark xxh32 d info)).
Proof.
  intros []. unfold read_end_mark. rewrite bt_len0.
  assert (Hsize : (forall n, content_size info = Some n -> n = len content) /\
      (match content_size info with
       | Some expected => if negb (len content =? expected)
           then fail d (ContentLengthError expected (len content)) else Ok tt
       | None => Ok tt
       end : res (FrameDecoder R * IoError) unit) = Ok tt \/
    ~ (forall n, content_size info = Some n -> n = len content) /\ exists x,
      (match content_size info with
       | Some expected => if negb (len content =? expected)
           then fail d (ContentLengthError expected (len content)) else Ok tt
       | None => Ok tt
       end : res (FrameDecoder R * IoError) unit) = Err (d, x)).
  { destruct (content_size info) as [n|]; [|by left].
    destruct (N.eqb_spec (len content) n) as [<-|Hne]; cbn [negb]; [left|right].
    - split; [|done]. by intros n [= <-].
    - split; [|by eexists]. intros Hn. by specialize (Hn n eq_refl). }
  destruct Hsize as [[Hs ->]|[Hs (x & ->)]]; mstep.
  2:{ right. split; [by intros [? _]|apply aborts_same]. }
  destruct (content_checksum info) eqn:Hc.
  - unfold take_checksum, read_checksum. pose proof (read_bytes_ok d 4) as H.
    destruct (take_n 4 (left_over d)) as [[s l]|] eqn:Ht; cbn [mbind option_bind].
    2:{ right. split; [by intros (_ & ? & ?)|]. destruct H as (r & ->). apply aborts_r. }
    destruct H as (r & -> & Hr). apply take_n_inv in Ht as [_ Ht]. mstep. dfields.
    rewrite bt_hasher0, checksum_eq by done. destruct (decide _) as [Hd|Hd].
    + rewrite bool_decide_true by done. left. split; [done|]. by exists l, r.
    + rewrite bool_decide_false by done. right. split; [by intros (_ & ? & ?)|]. apply aborts_r.
  - left. split; [done|]. exists (left_over d), (fd_r d). split_and!; [done|done|by destruct d].
Qed.

(** ** One block *)

(** An abandoned frame: closed, with the settings and the output so far. *)
Definition abandoned dict id d d' : Prop :=
  idle dict id (set_current None d') /\ fd_max_output d' = fd_max_output d /\
  fd_bytes_output d' = fd_bytes_output d.

Lemma aborts_abandoned {A} dict id info content d0 d (m : res (FrameDecoder R * IoError) A) :
  between dict id info content d -> fd_max_output d = fd_max_output d0 ->
  fd_bytes_output d = fd_bytes_output d0 -> aborts d m ->
  exists d' x, m = Err (d', x) /\ abandoned dict id d0 d'.
Proof.
  intros [[] ? ? ? ? ? ? ? ? ? ?] Hm Hb (r & s & v & x & -> & Hv). eexists _, x. split; [done|].
  split; [|done]. split; dfields; try done; try lia. split; dfields; done || lia.
Qed.

Definition gives_up dict id d (m : res (FrameDecoder R * IoError) (FrameDecoder R * N)) : Prop :=
  exists d' x, m = Err (d', x) /\ abandoned dict id d d'.

(** The content of a frame that ends here is complete. *)
Definition size_declared info content : Prop := forall n, content_size info = Some n -> n = len content.

(** The buffers after a block of [n] bytes: [dst] ends at the declared size of
    the content, if that is respected, and [src] holds no more than was left. *)
Definition small_step info content d (n : N) d' : Prop :=
  (forall size, content_size info = Some size -> len content + n <= size -> grown d (fd_dst d') size) /\
  len (fd_src d') <= N.max (len (fd_src d)) (len (left_over d)).

(** What [read_block] does with the bytes that are left: it follows
    [take_block]. *)
Definition block_post dict id info content d (m : res (FrameDecoder R * IoError) (FrameDecoder R * N)) : Prop :=
  match take_block xxh32 info dict content (left_over d) with
  | Some (Some data, l) =>
      if fd_bytes_output d + len data <=? fd_max_output d
      then exists d', m = Ok (d', len data) /\ decoded dict id info content data d' /\ left_over d' = l /\
             fd_bytes_output d' = fd_bytes_output d + len data /\ fd_max_output d' = fd_max_output d /\
             small_step info content d (len data) d'
      else gives_up dict id d m
  | Some (None, l) =>
      (exists l2 d', size_declared info content /\
         take_checksum xxh32 (content_checksum info) content l = Some l2 /\
         m = Ok (d', 0) /\ idle dict id d' /\ left_over d' = l2 /\
         fd_bytes_output d' = fd_bytes_output d /\ fd_max_output d' = fd_max_output d /\
         fd_dst d' = fd_dst d /\ fd_src d' = fd_src d) \/
      (~ (size_declared info content /\
          exists l2, take_checksum xxh32 (content_checksum info) content l = Some l2) /\
       gives_up dict id d m)
  | None => gives_up dict id d m
  end.

Lemma take_block_shorter info dict content l o l' :
  take_block xxh32 info dict content l = Some (o, l') ->
  len l' < len l /\ forall data, o = Some data -> len data <= max_block info.
Proof.
  destruct o as [data|].
  - intros (b & -> & Hc)%take_block_inv. inversion Hc; subst; (split; [len_lia|]); intros ? [= <-]; lia.
  - intros ->%take_block_end. split; [len_lia|done].
Qed.

(** The part of [read_block] after the header of a block. *)
Definition read_data d info (i : BlockInfo) : res (FrameDecoder R * IoError) (FrameDecoder R * N) :=
  d ← match i with
      | Uncompressed n => read_uncompressed xxh32 d info (max_block info) n
      | Compressed n => read_compressed xxh32 d info (max_block info) n
      | EndMark => Ok d
      end;
  d ← (if content_checksum info then
         data ← slice (fd_dst d) (fd_dst_start d) (fd_dst_end d);
         Ok (set_content (fd_content_hasher d ++ data) (fd_content_len d) d)
       else Ok d);
  n ← usub (fd_dst_end d) (fd_dst_start d);
  Ok (d, n).

(** The content so far is at least what [dst] holds of it. *)
Lemma ready_start dict id info content d : ready dict id info content d -> fd_dst_start d <= len content.
Proof.
  intros [[] ? ? ?]. destruct (is_linked info) eqn:Hl; [|rewrite rd_front0; [lia|done]].
  destruct (bt_window0 eq_refl) as (P & HP & _). apply (f_equal length) in HP. unfold window in HP. len_lia.
Qed.

(** The same buffers before a block. *)
Definition same_buffers d0 d : Prop := fd_dst d = fd_dst d0 /\ fd_src d = fd_src d0.

(** A block with data. *)
Lemma read_data_ok dict id info content d0 d i parsed :
  ready dict id info content d -> fd_max_output d = fd_max_output d0 ->
  fd_bytes_output d = fd_bytes_output d0 -> same_buffers d0 d -> len (left_over d) <= len (left_over d0) ->
  block_outcome d info parsed match i with
      | Uncompressed n => read_uncompressed xxh32 d info (max_block info) n
      | Compressed n => read_compressed xxh32 d info (max_block info) n
      | EndMark => Ok d
      end ->
  take_block xxh32 info dict content (left_over d0) = ('(data, l) ← parsed; Some (Some data, l)) ->
  block_post dict id info content d0 (read_data d info i).
Proof.
  intros Hr Hm Hb [Hbd Hbs] Hlo Ho Ht. unfold block_post. rewrite Ht.
  unfold read_data. set (m := match i with EndMark => _ | _ => _ end) in *.
  assert (Herr : aborts d m -> exists d' x, m = Err (d', x) /\ abandoned dict id d0 d').
  { intros Ha. apply (aborts_abandoned dict id info content d0 d m); [apply Hr|done..]. }
  destruct parsed as [[data l]|]; cbn [mbind option_bind block_outcome] in Ho, Ht |- *.
  2:{ destruct (Herr Ho) as (d' & x & -> & ?). by exists d', x. }
  rewrite <-Hm, <-Hb. destruct (N.leb_spec (fd_bytes_output d + len data) (fd_max_output d)) as [Hlim|Hlim].
  - destruct Ho as (r & s & v & -> & Hl & Hp & Hs & He & Hs2). mstep.
    apply take_block_shorter in Ht as [_ Hn]. specialize (Hn data eq_refl).
    assert (Hp2 : dst_put (set_src s (set_r r d)) v data) by (by destruct Hp).
    destruct (block_done _ _ _ _ _ _ _ (ready_src _ _ _ _ _ r s Hr Hs) Hp2 Hn Hlim) as
      ([d' n] & Hd & -> & Hdec & Hleft & Hbytes & Hmax & Hdv & Hsv).
    change (set_r r (set_src s d)) with (set_src s (set_r r d)). cbv zeta in Hd. rewrite Hd.
    exists d'. split_and!; [done|done|by rewrite Hleft|done|done|].
    pose proof (ready_start _ _ _ _ _ Hr). pose proof (bt_len _ _ _ _ _ (rd_between _ _ _ _ _ Hr)) as Hcl.
    dfields. rewrite Hbs in Hs2. split; [|rewrite Hsv; lia].
    intros size Hsize Hfit. specialize (He size Hsize). unfold grown in *. rewrite Hdv, <-Hbd. lia.
  - destruct (Herr Ho) as (d' & x & -> & ?). by exists d', x.
Qed.

(** A block after the window has been arranged. *)
Lemma read_ready_ok dict id info content d0 d :
  ready dict id info content d -> fd_max_output d = fd_max_output d0 ->
  fd_bytes_output d = fd_bytes_output d0 -> same_buffers d0 d -> left_over d = left_over d0 ->
  block_post dict id info content d0
    ('(d, buffer) ← read_bytes d 4;
     block_info ← try_io d (BlockInfoImpl.read buffer);
     match block_info with
     | EndMark => d ← read_end_mark xxh32 d info; Ok (d, 0)
     | _ => read_data d info block_info
     end).
Proof.
  intros Hr Hm Hb Hbuf Hs. pose proof (take_block_eq info dict content (left_over d0)) as Ht. rewrite <-Hs in Ht.
  pose proof (read_bytes_ok d 4) as H4. destruct (take_n 4 (left_over d)) as [[h l]|] eqn:Hh;
    cbn [mbind option_bind] in Ht.
  2:{ destruct H4 as (r & ->). mstep. unfold block_post. rewrite <-Hs, Ht.
      exact (aborts_abandoned (A:=FrameDecoder R * N) dict id info content d0 d _ (rd_between _ _ _ _ _ Hr) Hm Hb
        (aborts_r d r (Simple UnexpectedEof))). }
  destruct H4 as (r & -> & Hl). mstep. apply take_n_inv in Hh as [Hh Hh4].
  assert (Hll : len l <= len (left_over d0)) by (rewrite <-Hs, Hh; len_lia).
  unfold try_io. rewrite block_read_spec, Hh4. change (4 <? 4) with false. mstep. cbv zeta in Ht |- *.
  rewrite take_ge by lia. apply (ready_r _ _ _ _ _ r) in Hr.
  assert (Hlr : left_over (set_r r d) = l) by done.
  destruct (N.eqb_spec (from_le h) 0) as [Hz|Hz]; [|destruct (N.leb_spec (2 ^ 31) (from_le h))].
  - (* the end mark *)
    unfold block_post. rewrite <-Hs, Ht. fold (size_declared info content).
    destruct (read_end_mark_ok _ _ _ _ _ (rd_between _ _ _ _ _ Hr)) as
      [(Hsize & l2 & r2 & Hck & Hr2 & ->)|[Hno Ha]]; rewrite Hlr in *; [left|right].
    + mstep. eexists l2, _. split; [done|]. split; [done|]. split; [done|].
      destruct Hr as [[[] ? ? ? ? ? ? ? ? ? ?] ? ? ?], Hbuf. dfields. split; [|done].
      split; dfields; try done; by split.
    + split; [done|]. destruct (aborts_abandoned dict id info content d0 _ _ (rd_between _ _ _ _ _ Hr) Hm Hb Ha)
        as (d' & x & -> & ?). by exists d', x.
  - apply (read_data_ok _ _ _ _ _ _ (Uncompressed _) (parse_raw info (from_le h - 2 ^ 31) l) Hr); try done; [by rewrite Hlr| |].
    + rewrite <-Hlr. by apply (read_uncompressed_ok dict id info content).
    + by rewrite <-Hs.
  - apply (read_data_ok _ _ _ _ _ _ (Compressed _) (parse_compressed info dict content (from_le h) l) Hr); try done; [by rewrite Hlr| |].
    + rewrite <-Hlr. by apply (read_compressed_ok dict id info content).
    + by rewrite <-Hs.
Qed.

Lemma read_block_ok dict id info content d : between dict id info content d ->
  block_post dict id info content d (read_block xxh32 d).
Proof.
  intros Hb. unfold read_block. rewrite (bt_empty _ _ _ _ _ Hb), N.eqb_refl. cbn [assert]. mstep.
  rewrite (bt_open _ _ _ _ _ Hb). mstep. rewrite get_size_max by apply Hb. mstep.
  destruct (window_slide_ok _ _ _ _ _ Hb) as (d1 & -> & (s & off & n & ->) & Hr). mstep.
  pose proof (read_ready_ok _ _ _ _ d _ Hr eq_refl eq_refl (conj eq_refl eq_refl) eq_refl) as H.
  unfold read_data in H. exact H.
Qed.

(** The outcome against the meaning of the bytes that are left. *)
Lemma block_rest dict id info content d m : block_post dict id info content d m ->
  match m with
  | Ok (d', n) =>
      fd_max_output d' = fd_max_output d /\ len (left_over d') < len (left_over d) /\
      ((exists data, n = len data /\ decoded dict id info content data d' /\
          fd_bytes_output d' = fd_bytes_output d + len data /\
          forall out, rest_of xxh32 dict id (Some (info, content)) (left_over d) out <->
            exists out', out = data ++ out' /\
              rest_of xxh32 dict id (Some (info, content ++ data)) (left_over d') out') \/
       (n = 0 /\ idle dict id d' /\ fd_bytes_output d' = fd_bytes_output d /\
          forall out, rest_of xxh32 dict id (Some (info, content)) (left_over d) out <->
            rest_of xxh32 dict id None (left_over d') out))
  | Err (d', _) =>
      abandoned dict id d d' /\
      forall out, rest_of xxh32 dict id (Some (info, content)) (left_over d) out ->
        fd_max_output d < fd_bytes_output d + len out
  | Panic | NoFuel => False
  end.
Proof.
  unfold block_post, gives_up. destruct (take_block _ _ _ _ _) as [[[data|] l]|] eqn:Ht.
  - pose proof (fun out => rest_block xxh32 dict id info content _ _ _ out Ht) as Hrest.
    apply take_block_shorter in Ht as [Hsh _].
    destruct (N.leb_spec (fd_bytes_output d + len data) (fd_max_output d)) as [Hlim|Hlim].
    + intros (d' & -> & Hd & Hl & Hbytes & Hm & _). rewrite Hl. split_and!; [done|done|]. left. by exists data.
    + intros (d' & x & -> & Ha). split; [done|]. intros out (out' & -> & _)%Hrest. len_lia.
  - pose proof (fun out => rest_end xxh32 dict id info content _ _ out Ht) as Hrest.
    apply take_block_shorter in Ht as [Hsh _].
    intros [(l2 & d' & Hs & Hck & -> & Hi & Hl & Hbytes & Hm & _)|[Hno (d' & x & -> & Ha)]].
    + rewrite Hl. split_and!; [done|apply take_checksum_inv in Hck as ->; len_lia|]. right.
      split_and!; [done|done|done|]. intros out. rewrite Hrest. split; [|by eauto].
      intros (_ & l3 & Hck3 & ?). congruence.
    + split; [done|]. intros out (Hs & l2 & Hck & _)%Hrest. exfalso. apply Hno. eauto.
  - intros (d' & x & -> & Ha). split; [done|]. intros out Hr. by apply (rest_stuck _ _ _ _ _ _ _ Ht) in Hr.
Qed.
End ops.
