(* ===== verification/FrameDecoderStream.v ===== *)
(** * The frame decoder as a reader

    The header of a frame, the loop over blocks and frames, and the methods of
    [Read] and [BufRead] on top.  [holds d out] says that the decoder is going to
    hand out [out]; [read] meets the law that [ReadLaws] states for the reader
    below it. *)

From S2P Require Import Prelude BlockSpec Core Primitives Decompress DecompressProofs DecompressSpec EncoderSpec FrameHeader FrameIO FrameSpec FrameDecoder FrameDecoderSpec FrameDecoderProofs.

Section ops.
Context `{T : Target} (xxh32 : bytes -> N) {R : Type} {HR : Read R} {HL : ReadLaws R}.
Implicit Types (d : FrameDecoder R) (info : FrameInfo) (dict content data out : bytes) (id : option N).
Import FrameDecoderImpl.

(** ** The header of a frame *)

(** [read_size] looks at the first seven bytes and asks for at most nineteen. *)
Lemma read_size_take l : 7 <= len l -> read_size (take 7 l) = read_size l.
Proof.
  intros Hl. unfold read_size, MIN_FRAME_INFO_SIZE. rewrite !slice_ok by len_lia. mstep.
  replace (sub (take 7 l) 0 (4 - 0)) with (sub l 0 (4 - 0)).
  2:{ unfold sub. change (N.to_nat 0) with 0%nat. rewrite !drop_0, take_take. f_equal. }
  assert (Hi : index (E:=Error) (take 7 l) 4 = index l 4).
  { unfold index. f_equal. apply lookup_take_lt. lia. }
  rewrite Hi, length_take_le by lia. by rewrite !(proj2 (N.ltb_ge _ 7)) by lia.
Qed.

Lemma read_size_bounds l : 7 <= len l ->
  (exists n, read_size l = Ok n /\ 7 <= n <= 19) \/ exists x, read_size l = Err x.
Proof.
  intros Hl. unfold read_size, MIN_FRAME_INFO_SIZE. rewrite slice_ok by lia. mstep.
  rewrite (proj2 (N.ltb_ge _ 7)) by lia.
  destruct (skippable_magic _); [left; eexists; split; [done|lia]|].
  destruct (negb _); [right; by eexists|]. destruct (index_ok (E:=Error) l 4 ltac:(lia)) as (b & _ & ->). mstep.
  left. eexists. split; [done|]. destruct (flag _ _), (flag _ _); lia.
Qed.

(** What a stream that starts with a header looks like to the decoder. *)
Lemma header_facts info l : info_ok info ->
  let S := header_bytes xxh32 info ++ l in
  7 <= len S /\ read_size (take 7 S) = Ok (write_size info) /\ write_size info <= len S /\
  FrameHeader.read xxh32 (take (N.to_nat (write_size info)) S) = Ok info.
Proof.
  intros Hi S. pose proof (length_header_bytes xxh32 info) as Hl.
  assert (Hw : 7 <= write_size info) by (unfold write_size, MIN_FRAME_INFO_SIZE;
    destruct (content_size info), (dict_id info); lia).
  assert (HS : write_size info <= len S) by (subst S; len_lia).
  split; [lia|]. split; [|split; [done|]].
  - rewrite read_size_take by lia. apply read_size_header_bytes.
  - subst S. rewrite <-Hl, Nat2N.id, take_app_length. rewrite <-(app_nil_r (header_bytes _ _)).
    by apply read_header_bytes.
Qed.

(** The header that the two calls accept is at the front of the stream. *)
Lemma header_sound info S n : 7 <= len S -> read_size (take 7 S) = Ok n -> n <= len S ->
  FrameHeader.read xxh32 (take (N.to_nat n) S) = Ok info ->
  info_ok info /\ S = header_bytes xxh32 info ++ drop (N.to_nat n) S.
Proof.
  intros HS Hn Hle Hr. apply read_inv in Hr as (Hi & rest & Ht). split; [done|].
  assert (HS2 : S = header_bytes xxh32 info ++ rest ++ drop (N.to_nat n) S)
    by (by rewrite app_assoc, <-Ht, take_drop).
  pose proof (header_facts info (rest ++ drop (N.to_nat n) S) Hi) as (_ & Hsz & _). cbv zeta in Hsz.
  rewrite <-HS2, Hn in Hsz. injection Hsz as ->.
  assert (rest = []) as ->; [|done]. pose proof (length_header_bytes xxh32 info) as Hl.
  apply (f_equal length) in Ht. rewrite length_take, length_app in Ht. destruct rest; [done|]. rewrite length_cons in Ht. lia.
Qed.

(** The first [k] bytes of [S] are in the buffer and the reader is behind them. *)
Definition filled (S buffer : bytes) (k : N) d : Prop :=
  len buffer = 19 /\ k <= len S /\ take (N.to_nat k) buffer = take (N.to_nat k) S /\
  left_over d = drop (N.to_nat k) S.

Lemma read_into_ok S buffer a b d : filled S buffer a d -> a <= b -> b <= 19 ->
  let m := if a =? b then Ok (d, buffer) else read_into d buffer a b in
  if b <=? len S then exists r buffer', m = Ok (set_r r d, buffer') /\ filled S buffer' b (set_r r d)
  else exists r, m = Err (set_r r d, Simple UnexpectedEof).
Proof.
  intros (Hb & Ha & Ht & Hs) Hab Hb19. cbv zeta. destruct (N.eqb_spec a b) as [<-|Hne].
  { rewrite (proj2 (N.leb_le _ _)) by done. exists (fd_r d), buffer. by rewrite set_r_same. }
  unfold read_into. rewrite slice_ok by lia. mstep. rewrite length_sub by lia. rewrite N2Nat.id.
  pose proof (read_bytes_ok d (b - a)) as Hr. unfold take_n in Hr. rewrite Hs in Hr.
  rewrite length_drop in Hr. destruct (N.leb_spec b (len S)) as [Hle|Hgt].
  - rewrite (proj2 (N.leb_le _ _)) in Hr by lia. destruct Hr as (r & -> & Hr). mstep.
    rewrite write_at_ok by len_lia. mstep. exists r. eexists. split; [done|].
    set (data := take (N.to_nat (b - a)) (drop _ S)). assert (Hd : len data = b - a) by (subst data; len_lia).
    split; [rewrite length_splice by len_lia; done|]. split; [done|]. split.
    + replace b with (a + len data) at 1 by lia. rewrite take_splice by lia. rewrite Ht. subst data.
      replace (N.to_nat b) with (N.to_nat a + N.to_nat (b - a))%nat by lia. apply take_take_drop.
    + unfold left_over. dfields. rewrite Hr, drop_drop. f_equal. lia.
  - rewrite (proj2 (N.leb_gt _ _)) in Hr by lia. destruct Hr as (r & ->). by exists r.
Qed.

(** The bytes that are left do not start with a header for this decoder. *)
Definition no_header id d : Prop :=
  left_over d <> [] /\
  forall info l, info_ok info -> dict_id info = id -> left_over d <> header_bytes xxh32 info ++ l.

Lemma no_header_frames dict id d out : no_header id d -> ~ rest_of xxh32 dict id None (left_over d) out.
Proof.
  intros [Hne Hno] Hr. destruct (rest_starts _ _ _ _ _ Hr) as [|(info & l & Hi & Hl)]; [done|].
  rewrite Hl in Hr. apply rest_header in Hr as [Hid _]; [|done]. by apply (Hno info l).
Qed.

(** An error on such a stream. *)
Definition header_failed dict id d (m : res (FrameDecoder R * IoError) (FrameDecoder R * N)) : Prop :=
  (exists d' x, m = Err (d', x) /\ abandoned dict id d d' /\ fd_current_frame_info d' = None) /\
  no_header id d.

Lemma idle_r dict id d r : idle dict id d -> idle dict id (set_r r d).
Proof. intros [[] ? ? ?]. split; dfields; try done; by split. Qed.

Lemma header_failed_r dict id d r x : idle dict id d -> no_header id d ->
  header_failed dict id d (Err (set_r r d, x)).
Proof.
  intros Hi Hn. split; [|done]. eexists _, x. split; [done|]. destruct Hi as [[] ? ? ?].
  split; [|done]. split; [|done]. split; dfields; try done; by split.
Qed.

Lemma reserve_capacity_le asked vec capacity top : asked <= top -> len vec <= top -> capacity <= top ->
  reserve_capacity asked vec capacity <= top.
Proof. unfold reserve_capacity. lia. Qed.

Lemma start_frame_between dict id info d : config dict id d -> info_ok info ->
  between dict id info [] (start_frame d info (max_block info)).
Proof.
  intros [] Hi. pose proof (max_block_le info) as Hmb.
  pose proof (reserve_capacity_le (fd_src_reserve d) (fd_src d) (N.min (max_block info) (declared_size info)) max_src
    ltac:(done) ltac:(done) ltac:(unfold max_src; lia)) as Hrs.
  pose proof (reserve_capacity_le (fd_dst_reserve d) (fd_dst d) (N.min (dst_size info) (declared_size info)) max_dst
    ltac:(done) ltac:(done) ltac:(unfold max_dst, dst_size; destruct (is_linked info); lia)) as Hrd.
  unfold start_frame. split; dfields; try done; try lia; try (by left); try (cbn [length]; lia).
  intros _. exists []. unfold window. dfields. split; [done|by left].
Qed.

Lemma check_dict_id_ok actual expected :
  if decide (actual = expected) then check_dict_id actual expected = Ok tt
  else exists x, check_dict_id actual expected = Err x.
Proof.
  destruct actual as [a|], expected as [b|]; cbn; destruct (decide _) as [He|He]; try done; try by eexists.
  - injection He as ->. by rewrite N.eqb_refl.
  - destruct (N.eqb_spec a b) as [->|]; [done|by eexists].
Qed.

(** The header once its bytes are in the buffer. *)
Definition parse_header d (buffer : bytes) (required : N) : res (FrameDecoder R * IoError) (FrameDecoder R * N) :=
  header ← slice buffer 0 required;
  info ← try_io d (FrameHeader.read xxh32 header);
  _ ← try_io d (check_dict_id (dict_id info) (fd_expected_dict_id d));
  max_block_size ← BlockSizeImpl.get_size (block_size info);
  Ok (start_frame d info max_block_size, required).

(** The outcomes of [read_frame_info]: the end, a frame, or an error. *)
Definition header_post dict id d (m : res (FrameDecoder R * IoError) (FrameDecoder R * N)) : Prop :=
  (exists d', m = Ok (d', 0) /\ idle dict id d' /\ left_over d = [] /\ left_over d' = [] /\
     fd_max_output d' = fd_max_output d /\ fd_bytes_output d' = fd_bytes_output d) \/
  (exists d' n info, m = Ok (d', n) /\ n <> 0 /\ between dict id info [] d' /\ dict_id info = id /\
     left_over d = header_bytes xxh32 info ++ left_over d' /\
     fd_max_output d' = fd_max_output d /\ fd_bytes_output d' = fd_bytes_output d) \/
  header_failed dict id d m.

Lemma parse_header_ok dict id d r buffer n : idle dict id d -> filled (left_over d) buffer n (set_r r d) ->
  7 <= n <= 19 -> read_size (take 7 (left_over d)) = Ok n ->
  header_post dict id d (parse_header (set_r r d) buffer n).
Proof.
  intros Hi (Hb & Hn & Ht & Hl) Hn7 Hsz. unfold parse_header. rewrite slice_ok by lia. mstep.
  rewrite N.sub_0_r, sub_0, Ht. unfold try_io.
  destruct (FrameHeader.read xxh32 _) as [info|x| |] eqn:Hr.
  3,4: by destruct (no_panic_read xxh32 (take (N.to_nat n) (left_over d))).
  - destruct (header_sound info (left_over d) n ltac:(lia) Hsz Hn Hr) as [Hinfo HS].
    mstep. dfields. pose proof (check_dict_id_ok (dict_id info) (fd_expected_dict_id d)) as Hc.
    pose proof (id_config _ _ _ Hi) as Hcf. rewrite (cf_id _ _ _ Hcf) in *.
    destruct (decide (dict_id info = id)) as [Hid|Hid].
    + rewrite Hc. mstep. rewrite get_size_max by done. mstep. right. left.
      eexists _, n, info. split; [done|]. split; [lia|].
      split; [apply start_frame_between; [by destruct Hcf|done]|]. split; [done|]. split; [|done].
      change (left_over (start_frame (set_r r d) info (max_block info))) with (left_over (set_r r d)). by rewrite Hl.
    + destruct Hc as (x & ->). mstep. right. right. apply header_failed_r; [done|].
      split; [intros HS2; rewrite HS2 in Hn; cbn in Hn; lia|].
      intros info2 l Hi2 Hid2 HS2. rewrite HS in HS2. by apply header_unique in HS2 as [<- _].
  - mstep. right. right. apply header_failed_r; [done|].
    split; [intros HS2; rewrite HS2 in Hn; cbn in Hn; lia|]. intros info l Hinfo _ HS.
    pose proof (header_facts info l Hinfo) as (_ & Hs & _ & Hh).
    cbv zeta in *. rewrite <-HS, Hsz in Hs. injection Hs as Hs. rewrite <-HS, <-Hs, Hr in Hh. done.
Qed.

(** A stream shorter than a header is no frame. *)
Lemma short_stream id d : left_over d <> [] ->
  (len (left_over d) < 7 \/ exists n, read_size (take 7 (left_over d)) = Ok n /\ len (left_over d) < n) \/
    (exists x, read_size (take 7 (left_over d)) = Err x) -> no_header id d.
Proof.
  intros Hne Hs. split; [done|]. intros info l Hinfo _ HS.
  pose proof (header_facts info l Hinfo) as (H7 & Hr & Hw & _). cbv zeta in *. rewrite <-HS in *.
  destruct Hs as [[?|(n & Hn & ?)]|(x & Hx)]; [lia| |congruence]. rewrite Hr in Hn. injection Hn as Hn. lia.
Qed.


(** After the first seven bytes. *)
Definition header_rest d (buffer : bytes) : res (FrameDecoder R * IoError) (FrameDecoder R * N) :=
  required ← try_io d (read_size (take 7 buffer));
  '(d, buffer) ← (if required =? MIN_FRAME_INFO_SIZE then Ok (d, buffer)
                  else read_into d buffer MIN_FRAME_INFO_SIZE required);
  parse_header d buffer required.

(** The end, a cut header, or at least seven bytes. *)
Lemma read_frame_info_start d : let S := left_over d in
  (S = [] /\ exists r, stream r = [] /\ read_frame_info xxh32 d = Ok (set_r r d, 0)) \/
  (S <> [] /\ len S < 7 /\ exists r, read_frame_info xxh32 d = Err (set_r r d, Simple UnexpectedEof)) \/
  (7 <= len S /\ exists r buffer, filled S buffer 7 (set_r r d) /\
     read_frame_info xxh32 d = header_rest (set_r r d) buffer).
Proof.
  intros S. unfold read_frame_info, read_some, on_r, MAGIC_NUMBER_SIZE.
  destruct (read_law (fd_r d) 4) as (r & b & -> & Hs & Hb4 & Hb0). mstep.
  change (stream (fd_r d)) with S in *.
  destruct (N.eqb_spec (len b) 0) as [Hz|Hz].
  { destruct b; [|cbn in Hz; lia]. destruct Hb0 as [|Hnil]; [done..|]. left. split; [done|]. exists r.
    by rewrite Hnil in Hs. }
  right. assert (Hne : S <> []) by (intros HS%(f_equal length); rewrite Hs, length_app in HS; cbn in HS; lia).
  set (buffer := replicate (N.to_nat MAX_FRAME_INFO_SIZE) x00).
  rewrite write_at_ok by (subst buffer; cbn [length]; rewrite length_replicate; unfold MAX_FRAME_INFO_SIZE; lia).
  mstep. assert (Hf : filled S (splice buffer 0 b) (len b) (set_r r d)).
  { subst buffer. unfold MAX_FRAME_INFO_SIZE. split; [rewrite length_splice by len_lia; done|].
    rewrite Hs. split; [len_lia|]. rewrite Nat2N.id, take_app_length. split.
    - unfold splice. change (N.to_nat 0) with 0%nat. rewrite take_0. cbn [app]. by rewrite take_app_length.
    - by rewrite drop_app_length. }
  pose proof (read_into_ok _ _ _ 4 _ Hf Hb4 ltac:(lia)) as H4. cbv zeta in H4.
  destruct (N.leb_spec 4 (len S)).
  2:{ left. destruct H4 as (r2 & ->). mstep. split; [done|]. split; [lia|]. by exists r2. }
  destruct H4 as (r2 & buffer2 & -> & Hf2). mstep.
  pose proof (read_into_ok _ _ _ 7 _ Hf2 ltac:(lia) ltac:(lia)) as H7. cbv zeta in H7.
  change (4 =? 7) with false in H7. cbn [N.eqb] in H7. change MIN_FRAME_INFO_SIZE with 7.
  destruct (N.leb_spec 7 (len S)).
  2:{ left. destruct H7 as (r3 & ->). mstep. split; [done|]. split; [done|]. by exists r3. }
  right. split; [done|]. destruct H7 as (r3 & buffer3 & -> & Hf3). mstep. exists r3, buffer3. split; [done|].
  destruct Hf3 as (Hl3 & _). rewrite slice_ok by lia. mstep. by rewrite N.sub_0_r, sub_0.
Qed.

Lemma read_frame_info_ok dict id d : idle dict id d ->
  header_post dict id d (read_frame_info xxh32 d).
Proof.
  intros Hi. destruct (read_frame_info_start d) as
    [(HS & r & Hr & ->)|[(Hne & Hs & r & ->)|(H7 & r & buffer & Hf & ->)]].
  - left. exists (set_r r d). split_and!; [done|by apply idle_r|done..].
  - right. right. apply header_failed_r; [done|]. apply short_stream; [done|]. left. by left.
  - assert (Hne : left_over d <> []) by (intros Hn; rewrite Hn in H7; cbn in H7; lia).
    pose proof Hf as (Hl & _ & Ht & _). unfold header_rest. change 7%nat with (N.to_nat 7). rewrite Ht.
    change (N.to_nat 7) with 7%nat. unfold try_io. change MIN_FRAME_INFO_SIZE with 7.
    destruct (read_size_bounds (left_over d) ltac:(lia)) as [(n & Hn & Hb)|(x & Hx)];
      rewrite <-read_size_take in * by lia.
    2:{ rewrite Hx. mstep. right. right. apply header_failed_r; [done|].
        apply short_stream; [done|]. right. by exists x. }
    rewrite Hn. mstep. pose proof (read_into_ok _ _ _ n _ Hf ltac:(lia) ltac:(lia)) as H19. cbv zeta in H19.
    rewrite N.eqb_sym in H19. destruct (N.leb_spec n (len (left_over d))).
    + destruct H19 as (r4 & buffer4 & -> & Hf4). mstep. by apply (parse_header_ok dict id d r4).
    + destruct H19 as (r4 & ->). mstep. right. right. apply (header_failed_r _ _ d r4); [done|].
      apply short_stream; [done|]. left. right. by exists n.
Qed.

(** ** Errors are final

    A reliable reader fails only at its end, and no check of the decoder yields
    an interrupted operation, which [read_to_end] would retry. *)

Definition calm {E A} (f : IoError -> bool) (kind : E -> IoError) (m : res E A) : Prop :=
  forall x, m = Err x -> f (kind x) = false.

(** [DecompressedSizeLimit] *)
Definition is_limit (x : IoError) : bool :=
  match x with Custom _ (DecompressedSizeLimit _ _) => true | _ => false end.

Lemma calm_bind {E A B} f (kind : E -> IoError) (m : res E A) (k : A -> res E B) :
  calm f kind m -> (forall a, calm f kind (k a)) -> calm f kind (m ≫= k).
Proof. intros Hm Hf x. destruct m; cbn; [apply Hf|intros [= <-]; by apply Hm|done..]. Qed.

Lemma calm_ok {E A} f (kind : E -> IoError) (a : A) : calm f kind (Ok a).
Proof. done. Qed.

Lemma calm_try_io {A} f d (m : res Error A) : calm f io_of_error m -> calm f snd (try_io d m).
Proof. intros Hm x. unfold try_io. destruct m; [done| |done..]. intros [= <-]. by apply Hm. Qed.

Lemma calm_read_bytes d n : calm is_interrupted snd (read_bytes d n).
Proof.
  intros x. pose proof (read_bytes_ok d n) as H. destruct (take_n n _) as [[a b]|];
    destruct H as (r & Hr); [destruct Hr as [-> _]|rewrite Hr]; [done|by intros [= <-]].
Qed.

Lemma calm_read_some d n : calm is_interrupted snd (read_some d n).
Proof. intros x. unfold read_some, on_r. destruct (read_law (fd_r d) n) as (r & b & -> & _). done. Qed.

Lemma calm_no_err {E A} f (kind : E -> IoError) (m : res E A) : (forall x, m <> Err x) -> calm f kind m.
Proof. intros Hm x Hx. by destruct (Hm x). Qed.

Lemma slice_no_err {E A} (l : list A) a b (x : E) : slice l a b <> Err x.
Proof. unfold slice. by case_match. Qed.

Lemma write_at_no_err {E A} (l : list A) a (data : list A) (x : E) : write_at l a data <> Err x.
Proof. unfold write_at. by case_match. Qed.

Lemma usub_no_err {E} a b (x : E) : usub a b <> Err x.
Proof. unfold usub. by case_match. Qed.

Lemma index_no_err {E A} (l : list A) i (x : E) : index l i <> Err x.
Proof. unfold index. by destruct (_ !! _). Qed.

Lemma assert_no_err {E} c (x : E) : assert c <> Err x.
Proof. by destruct c. Qed.

Lemma checked_sum_no_err {E} m a b (x : E) : checked_sum m a b <> Err x.
Proof. unfold checked_sum. by case_match. Qed.

Lemma get_size_no_err {E} b (x : E) : BlockSizeImpl.get_size b <> Err x.
Proof. by destruct b. Qed.

(** Splits a computation at its binds and branches down to the calls. *)
Ltac calm_split :=
  repeat first
    [ apply calm_ok | apply calm_read_bytes | apply calm_read_some
    | match goal with |- calm _ _ (_ ≫= _) => apply calm_bind; [|intros] end | apply calm_try_io
    | apply calm_no_err; first [apply slice_no_err | apply write_at_no_err | apply usub_no_err | apply index_no_err
        | apply assert_no_err | apply checked_sum_no_err | apply get_size_no_err]
    | match goal with
      | |- calm _ _ Panic => done
      | |- calm _ _ (Err _) => let x := fresh in intros x; by intros [= <-]
      | |- calm _ _ (match ?x with _ => _ end) => destruct x
      end ].

Lemma calm_read_exact f n (input : bytes) : f (Simple UnexpectedEof) = false ->
  calm f io_of_error (FrameHeader.read_exact n input).
Proof. intros Hf. unfold FrameHeader.read_exact. calm_split. Qed.

Lemma calm_header f (input : bytes) : f = is_interrupted \/ f = is_limit ->
  calm f io_of_error (read_size input) /\ calm f io_of_error (FrameHeader.read xxh32 input) /\
  calm f io_of_error (BlockInfoImpl.read input).
Proof.
  intros Hf. assert (He : forall n input, calm f io_of_error (FrameHeader.read_exact n input))
    by (intros; apply calm_read_exact; by destruct Hf as [-> | ->]). destruct Hf as [-> | ->];
  split_and!; unfold read_size, FrameHeader.read, BlockInfoImpl.read, block_size_of; cbv zeta;
    calm_split; apply He.
Qed.

Lemma calm_read_into d (buffer : bytes) a b : calm is_interrupted snd (read_into d buffer a b).
Proof. unfold read_into. calm_split. Qed.

Lemma calm_read_frame_info d : calm is_interrupted snd (read_frame_info xxh32 d).
Proof.
  pose proof calm_read_into as Hi. pose proof (fun l => calm_header is_interrupted l (or_introl eq_refl)) as Hh.
  unfold read_frame_info, check_dict_id. cbv zeta. calm_split; try apply Hi; apply Hh.
Qed.

Lemma calm_check_output_len d n : calm is_interrupted snd (check_output_len d n).
Proof. unfold check_output_len, fail. calm_split. Qed.

Lemma calm_read_block d : calm is_interrupted snd (read_block xxh32 d).
Proof.
  pose proof calm_check_output_len as Ho. pose proof (fun l => calm_header is_interrupted l (or_introl eq_refl)) as Hh.
  assert (Hc : forall d, calm is_interrupted snd (read_checksum d)) by (intros; unfold read_checksum; calm_split).
  assert (Hb : forall data n, calm is_interrupted io_of_error (check_block_checksum xxh32 data n))
    by (intros; unfold check_block_checksum; calm_split).
  assert (Hv : forall v a b, calm (E:=FrameDecoder R * IoError) is_interrupted snd (vec_resize_and_get_mut v a b))
    by (intros; unfold vec_resize_and_get_mut; cbv zeta; calm_split).
  assert (Hd : forall d n a b, calm (E:=FrameDecoder R * IoError) is_interrupted snd
      (map_err (fun '(d, e) => (d, io_of_error (DecompressionError e))) (decompress_loop 2 d n a b))).
  { intros e n a b x. destruct (decompress_loop _ _ _ _ _) as [|[]| |]; by intros [= <-]. }
  unfold read_block, slide, read_end_mark, read_uncompressed, read_compressed, fail. cbv zeta.
  calm_split; try apply Ho; try apply Hc; try apply Hb; try apply Hv; try apply Hd; apply Hh.
Qed.

(** ** The loop over blocks and frames *)

(** Nothing is pending and a frame is open or not. *)
Definition at_block dict id (at_ : option (FrameInfo * bytes)) d : Prop :=
  match at_ with
  | None => idle dict id d
  | Some (info, content) => between dict id info content d
  end.

Lemma at_block_config dict id at_ d : at_block dict id at_ d -> config dict id d.
Proof. destruct at_ as [[]|]; intros []; done. Qed.

(** The outcomes of [read_more]: the end, a block with data, or an error. *)
Definition more_post dict id at_ d (m : res (FrameDecoder R * IoError) (FrameDecoder R * N)) : Prop :=
  match m with
  | Ok (d', n) => fd_max_output d' = fd_max_output d /\
      ((n = 0 /\ idle dict id d' /\ left_over d' = [] /\ fd_bytes_output d' = fd_bytes_output d /\
          forall out, rest_of xxh32 dict id at_ (left_over d) out <-> out = []) \/
       (exists info content data, n = len data /\ n <> 0 /\ decoded dict id info content data d' /\
          len (left_over d') < len (left_over d) /\ fd_bytes_output d' = fd_bytes_output d + n /\
          forall out, rest_of xxh32 dict id at_ (left_over d) out <->
            exists out', out = data ++ out' /\
              rest_of xxh32 dict id (Some (info, content ++ data)) (left_over d') out'))
  | Err (d', x) => is_interrupted x = false /\ idle dict id d' /\ fd_max_output d' = fd_max_output d /\
      fd_bytes_output d' = fd_bytes_output d /\
      forall out, rest_of xxh32 dict id at_ (left_over d) out ->
        fd_max_output d < fd_bytes_output d + len out
  | Panic | NoFuel => False
  end.

(** One pass that produces nothing. *)
Lemma more_post_mono dict id at_ at' d d' m :
  fd_max_output d' = fd_max_output d -> fd_bytes_output d' = fd_bytes_output d ->
  len (left_over d') <= len (left_over d) ->
  (forall out, rest_of xxh32 dict id at_ (left_over d) out <-> rest_of xxh32 dict id at' (left_over d') out) ->
  more_post dict id at' d' m -> more_post dict id at_ d m.
Proof.
  intros Hm Hb Hl Hr. destruct m as [[e n]|[e x]| |]; cbn [more_post]; [| |done..]; rewrite Hm, Hb.
  - intros (? & [(? & ? & ? & ? & Ho)|(info & content & data & ? & ? & ? & ? & ? & Ho)]);
      (split; [done|]); [left|right].
    + split_and!; try done. intros out. by rewrite Hr.
    + exists info, content, data. split_and!; try done; [lia|]. intros out. by rewrite Hr.
  - intros (? & ? & ? & ? & Ho). split_and!; try done. intros out. rewrite Hr. apply Ho.
Qed.

(** The frame of [decoded] goes on at [at_block]. *)
Lemma decoded_empty dict id info content d : decoded dict id info content [] d ->
  between dict id info (content ++ []) d.
Proof.
  intros [Hb Hs Hp]. assert (Hd : fd_dst_start d = fd_dst_end d).
  { unfold pending in Hp. apply (f_equal length) in Hp. pose proof (bt_end _ _ _ _ _ Hb) as He. dfields.
    rewrite length_sub in Hp by lia. cbn in Hp. lia. }
  replace d with (set_dst_pos (fd_dst_end d) (fd_dst_end d) d) by (destruct d; cbn in *; by subst).
  done.
Qed.

(** A block read in an open frame, and the next pass. *)
Lemma more_block_ok dict id info content d (next : FrameDecoder R -> res (FrameDecoder R * IoError) (FrameDecoder R * N)) :
  between dict id info content d ->
  (forall at' d', at_block dict id at' d' -> len (left_over d') < len (left_over d) ->
    more_post dict id at' d' (next d')) ->
  more_post dict id (Some (info, content)) d
    ('(d, n) ← map_err (fun '(d, e) => (set_current None d, e)) (read_block xxh32 d);
     if negb (n =? 0) then Ok (d, n) else next d).
Proof.
  intros Hb Hnext. pose proof (block_rest xxh32 _ _ _ _ _ _ (read_block_ok xxh32 _ _ _ _ _ Hb)) as H. pose proof (calm_read_block d) as Hc.
  destruct (read_block xxh32 d) as [[d' n]|[d' x]| |]; [| |done..]; mstep.
  - destruct H as (Hm & Hl & [(data & -> & Hd & Hbytes & Ho)|(-> & Hi & Hbytes & Ho)]).
    + destruct (N.eqb_spec (len data) 0) as [Hz|Hz]; cbn [negb].
      * destruct data; [|cbn in Hz; lia]. apply (more_post_mono _ _ _ (Some (info, content ++ [])) _ d');
          [done|cbn in Hbytes; lia|lia| |].
        { intros out. rewrite Ho. split; [by intros (? & -> & ?)|]. intros ?. by exists out. }
        apply Hnext; [by apply decoded_empty|done].
      * split; [done|]. right. by exists info, content, data.
    + cbn [N.eqb negb]. apply (more_post_mono _ _ _ None _ d'); try done; [lia|]. by apply Hnext.
  - destruct H as [(Hi & Hm & Hbytes) Ho]. specialize (Hc _ eq_refl). by split_and!.
Qed.

Lemma read_more_ok dict id fuel at_ d : at_block dict id at_ d -> (length (left_over d) < fuel)%nat ->
  more_post dict id at_ d (read_more xxh32 fuel d).
Proof.
  revert at_ d. induction fuel as [|fuel IH]; intros at_ d Hat Hf; [lia|]. cbn [read_more].
  assert (Hnext : forall d1, (length (left_over d1) <= length (left_over d))%nat -> forall at' d',
      at_block dict id at' d' -> len (left_over d') < len (left_over d1) ->
      more_post dict id at' d' (read_more xxh32 fuel d')).
  { intros d1 H1 at' d' Hat' H'. apply IH; [done|lia]. }
  destruct at_ as [[info content]|]; cbn [at_block] in Hat.
  - rewrite (bt_open _ _ _ _ _ Hat). mstep. cbn [negb]. apply more_block_ok; [done|]. by apply Hnext.
  - rewrite (id_closed _ _ _ Hat). pose proof (calm_read_frame_info d) as Hc.
    destruct (read_frame_info_ok _ _ _ Hat) as
      [(d' & -> & Hi & Hl & Hl' & Hm & Hb)|[(d' & n & info & -> & Hn & Hb & Hid & Hl & Hm & Hbytes)|
        [(d' & x & Hx & (Hi & Hm & Hb) & Hcl) Ho]]].
    + mstep. cbn [N.eqb negb]. split; [done|]. left. split_and!; try done.
      intros out. rewrite Hl. apply rest_nil.
    + mstep. rewrite (proj2 (N.eqb_neq _ _) Hn). cbn [negb].
      assert (Hlen : len (left_over d') <= len (left_over d)) by (rewrite Hl; len_lia).
      apply (more_post_mono _ _ _ (Some (info, [])) _ d'); try done.
      { intros out. rewrite Hl, rest_header by apply Hb. by intuition. }
      apply more_block_ok; [done|]. apply Hnext. lia.
    + rewrite Hx. mstep. specialize (Hc _ Hx). cbn [snd] in Hc. split_and!; try done.
      * replace d' with (set_current None d') by (by destruct d'; cbn in *; subst). done.
      * intros out Hr. by apply (no_header_frames _ _ _ _ Ho) in Hr.
Qed.

(** ** Pending bytes *)

(** The decoder between two calls: once the pending bytes are handed out it
    goes on at [at_]. *)
Record open_at dict id (at_ : option (FrameInfo * bytes)) d : Prop := {
  oa_start : fd_dst_start d <= fd_dst_end d;
  oa_end : fd_dst_end d <= len (fd_dst d);
  oa_pending : fd_dst_end d - fd_dst_start d <= fd_bytes_output d;
  oa_block : at_block dict id at_ (set_dst_pos (fd_dst_end d) (fd_dst_end d) d)
}.

(** The output that is left, and the number of bytes handed out. *)
Definition remaining dict id (at_ : option (FrameInfo * bytes)) d out : Prop :=
  exists out', out = pending d ++ out' /\ rest_of xxh32 dict id at_ (left_over d) out'.
Definition handed d : N := fd_bytes_output d - (fd_dst_end d - fd_dst_start d).

Lemma length_pending_out dict id at_ d : open_at dict id at_ d ->
  len (pending d) = fd_dst_end d - fd_dst_start d.
Proof. intros []. unfold pending. rewrite length_sub by lia. lia. Qed.

Lemma set_dst_pos_same d : fd_dst_start d = fd_dst_end d -> set_dst_pos (fd_dst_end d) (fd_dst_end d) d = d.
Proof. destruct d. cbn. by intros ->. Qed.

Lemma pending_nil d : fd_dst_start d = fd_dst_end d -> pending d = [].
Proof. intros He. unfold pending. by rewrite He, N.sub_diag. Qed.

Lemma open_at_block dict id at_ d : at_block dict id at_ d -> open_at dict id at_ d.
Proof.
  intros Hat. assert (He : fd_dst_start d = fd_dst_end d /\ fd_dst_end d <= len (fd_dst d))
    by (destruct at_ as [[]|], Hat; done).
  destruct He as [He ?]. split; [lia|done|lia|]. by rewrite set_dst_pos_same.
Qed.

Lemma open_at_decoded dict id info content data d : decoded dict id info content data d ->
  open_at dict id (Some (info, content ++ data)) d.
Proof.
  intros [Hb Hs Hp]. pose proof (bt_end _ _ _ _ _ Hb). pose proof (bt_output _ _ _ _ _ Hb). dfields.
  split; [done|done| |done]. apply (f_equal length) in Hp. unfold pending in Hp.
  rewrite length_sub in Hp by lia. len_lia.
Qed.

Lemma remaining_block dict id at_ d out : fd_dst_start d = fd_dst_end d ->
  remaining dict id at_ d out <-> rest_of xxh32 dict id at_ (left_over d) out.
Proof.
  intros He. unfold remaining. rewrite pending_nil by done. split; [by intros (? & -> & ?)|by eexists].
Qed.

(** ** [fill_buf] and [consume] *)

Definition fill_post dict id at_ d (m : res (FrameDecoder R * IoError) (FrameDecoder R * bytes)) : Prop :=
  match m with
  | Ok (d', b) => b = pending d' /\ fd_max_output d' = fd_max_output d /\ handed d' = handed d /\
      exists at', open_at dict id at' d' /\
        (forall out, remaining dict id at_ d out <-> remaining dict id at' d' out) /\
        (b = [] -> at' = None /\ left_over d' = []) /\
        (d' = d /\ b <> [] \/ pending d = [] /\ (b = [] \/ len (left_over d') < len (left_over d)))
  | Err (d', x) => is_interrupted x = false /\ idle dict id d' /\ fd_max_output d' = fd_max_output d /\
      handed d' = handed d /\
      forall out, remaining dict id at_ d out -> fd_max_output d < handed d + len out
  | Panic | NoFuel => False
  end.

Lemma fill_buf_ok dict id fuel at_ d : open_at dict id at_ d -> (length (left_over d) < fuel)%nat ->
  fill_post dict id at_ d (fill_buf xxh32 fuel d).
Proof.
  intros Ho Hf. unfold fill_buf. pose proof (length_pending_out _ _ _ _ Ho) as Hlp. pose proof Ho as [].
  assert (Hslice : forall d, fd_dst_start d <= fd_dst_end d -> fd_dst_end d <= len (fd_dst d) ->
    slice (E:=FrameDecoder R * IoError) (fd_dst d) (fd_dst_start d) (fd_dst_end d) = Ok (pending d))
    by (intros; by apply slice_ok).
  destruct (N.eqb_spec (fd_dst_start d) (fd_dst_end d)) as [He|He].
  - rewrite set_dst_pos_same in oa_block0 by done.
    pose proof (read_more_ok _ _ _ _ _ oa_block0 Hf) as H.
    assert (Hh : handed d = fd_bytes_output d) by (unfold handed; lia).
    destruct (read_more xxh32 fuel d) as [[d' n]|[d' x]| |]; [| |done..]; cbn [more_post] in H; mstep.
    + destruct H as (Hm & [(-> & Hi & Hl & Hb & Hr)|(info & content & data & -> & Hn & Hd & Hl & Hb & Hr)]).
      * pose proof Hi as []. rewrite Hslice by lia. cbn. split_and!; try done; [unfold handed in *; lia|].
        exists None. split; [by apply open_at_block|]. split_and!; try done.
        -- intros out. rewrite !remaining_block by done. rewrite Hr, Hl. symmetry. apply rest_nil.
        -- right. rewrite !pending_nil by done. by split; [|left].
      * pose proof (open_at_decoded _ _ _ _ _ _ Hd) as Ho'. pose proof Ho' as []. pose proof Hd as [_ _ Hp].
        pose proof (length_pending_out _ _ _ _ Ho') as Hlp'.
        rewrite Hslice by lia. cbn. rewrite Hp in *.
        split_and!; try done; [unfold handed in *; lia|]. exists (Some (info, content ++ data)).
        split; [done|]. split_and!.
        -- intros out. rewrite remaining_block by done. rewrite Hr. unfold remaining. by rewrite Hp.
        -- by intros ->.
        -- right. split; [by apply pending_nil|by right].
    + destruct H as (Hx & Hi & Hm & Hb & Hr). split_and!; try done.
      { pose proof (id_empty _ _ _ Hi). rewrite Hh. unfold handed. lia. }
      intros out. rewrite remaining_block by done. rewrite Hh. apply Hr.
  - mstep. rewrite Hslice by done. cbn. split_and!; try done. exists at_.
    assert (pending d <> []) by (intros Hz; rewrite Hz in Hlp; cbn in Hlp; lia).
    split_and!; try done. by left.
Qed.

Lemma consume_ok dict id at_ d k : open_at dict id at_ d -> k <= len (pending d) ->
  returns (E:=FrameDecoder R * IoError) (consume d k) (fun d' =>
    open_at dict id at_ d' /\ pending d' = drop (N.to_nat k) (pending d) /\ handed d' = handed d + k /\
    fd_max_output d' = fd_max_output d /\ left_over d' = left_over d).
Proof.
  intros Ho Hk. rewrite (length_pending_out _ _ _ _ Ho) in Hk. destruct Ho. unfold consume. access. unfold assert.
  rewrite (proj2 (N.leb_le _ _)) by done. mstep. apply returns_ok. split; [|split_and!; try done].
  - by split; dfields; [lia|lia|lia|].
  - unfold pending, sub. dfields. rewrite skipn_firstn_comm, drop_drop. f_equal; [lia|]. f_equal. lia.
  - unfold handed. dfields. lia.
Qed.

(** ** [read] *)

(** The loop is [fill_buf] and [consume]. *)
Lemma read_fill dict id fuel at_ d n : open_at dict id at_ d -> (length (left_over d) < fuel)%nat ->
  read xxh32 fuel d n =
    ('(d, b) ← fill_buf xxh32 fuel d;
     d ← consume d (N.min (len b) n);
     Ok (d, take (N.to_nat n) b)).
Proof.
  intros Ho Hf. unfold read. cbn [read_loop].
  assert (Hread : forall d at_, open_at dict id at_ d ->
    (let dst_read_end := fd_dst_start d + N.min (fd_dst_end d - fd_dst_start d) n in
     data ← slice (fd_dst d) (fd_dst_start d) dst_read_end;
     Ok (set_dst_pos dst_read_end (fd_dst_end d) d, data)) =
    (d' ← consume d (N.min (len (pending d)) n); Ok (d', take (N.to_nat n) (pending d))
      : res (FrameDecoder R * IoError) (FrameDecoder R * bytes))).
  { intros e at' He. pose proof (length_pending_out _ _ _ _ He) as Hl. destruct He. cbv zeta.
    rewrite slice_ok by lia. unfold consume. access. unfold assert. rewrite (proj2 (N.leb_le _ _)) by lia.
    mstep. rewrite Hl. do 2 f_equal. unfold pending, sub. rewrite take_take. f_equal. lia. }
  assert (Hslice : forall d at_, open_at dict id at_ d ->
    slice (E:=FrameDecoder R * IoError) (fd_dst d) (fd_dst_start d) (fd_dst_end d) = Ok (pending d))
    by (intros ? ? []; by apply slice_ok).
  unfold fill_buf. pose proof Ho as [].
  destruct (N.ltb_spec (fd_dst_start d) (fd_dst_end d)) as [Hlt|Hge].
  { rewrite (proj2 (N.eqb_neq _ _)) by lia. mstep. rewrite (Hslice d at_) by done. mstep.
    by apply (Hread d at_). }
  assert (He : fd_dst_start d = fd_dst_end d) by lia. rewrite (proj2 (N.eqb_eq _ _) He).
  rewrite set_dst_pos_same in oa_block0 by done. pose proof (read_more_ok _ _ _ _ _ oa_block0 Hf) as H.
  destruct (read_more xxh32 fuel d) as [[d' k]|[d' x]| |]; [|done..]. mstep.
  destruct H as (_ & [(-> & Hi & _)|(info & content & data & -> & Hn & Hd & _)]).
  - rewrite (Hslice d' None) by (by apply open_at_block). mstep. pose proof Hi as [].
    rewrite pending_nil by done. change (len []) with 0. rewrite N.min_0_l, firstn_nil. unfold consume.
    rewrite usub_ok by lia. cbn [N.eqb]. mstep. unfold assert. rewrite (proj2 (N.leb_le _ _)) by lia. mstep.
    by rewrite N.add_0_r, id_empty, set_dst_pos_same.
  - pose proof (open_at_decoded _ _ _ _ _ _ Hd) as Ho'. rewrite (Hslice d' _ Ho'). mstep.
    rewrite (proj2 (N.eqb_neq _ _) Hn). pose proof (length_pending_out _ _ _ _ Ho') as Hl'.
    destruct Hd as [_ _ Hp]. rewrite Hp in Hl'.
    rewrite (proj2 (N.ltb_lt _ _)) by lia. by apply (Hread d' _ Ho').
Qed.

(** The state of a decoder that is going to hand out [out]. *)
Definition holds dict id d out : Prop :=
  exists at_, open_at dict id at_ d /\ remaining dict id at_ d out /\ handed d + len out <= fd_max_output d.

(** The law of [ReadLaws] for the decoder itself. *)
Lemma read_holds dict id fuel d out n : holds dict id d out -> (length (left_over d) < fuel)%nat ->
  returns (read xxh32 fuel d n) (fun '(d', b) => exists out', out = b ++ out' /\ holds dict id d' out' /\
    len b <= n /\ (b = [] -> n = 0 \/ out = []) /\ len (left_over d') <= len (left_over d)).
Proof.
  intros (at_ & Ho & Hr & Hm) Hf. rewrite (read_fill _ _ _ _ _ _ Ho Hf).
  pose proof (fill_buf_ok _ _ _ _ _ Ho Hf) as H.
  destruct (fill_buf xxh32 fuel d) as [[d1 b]|[d1 x]| |]; [| |done..]; cbn [fill_post] in H; mstep.
  2:{ destruct H as (_ & _ & _ & _ & H). specialize (H _ Hr). lia. }
  destruct H as (-> & Hm1 & Hh1 & at' & Ho1 & Hr1 & Hnil & Hcase). apply Hr1 in Hr as (out' & -> & Hr).
  destruct (consume_ok _ _ _ _ (N.min (len (pending d1)) n) Ho1 ltac:(lia)) as (d2 & -> & Ho2 & Hp2 & Hh2 & Hm2 & Hl2).
  mstep. apply returns_ok. exists (drop (N.to_nat n) (pending d1) ++ out').
  rewrite app_assoc, take_drop. split; [done|]. split; [|split_and!].
  - exists at'. split; [done|]. split; [|len_lia]. exists out'. rewrite Hl2. split; [|done]. rewrite Hp2. f_equal.
    destruct (N.leb_spec n (len (pending d1))); [f_equal; lia|]. rewrite !drop_ge by lia. done.
  - len_lia.
  - intros Ht%(f_equal length). rewrite length_take in Ht. cbn in Ht.
    destruct (pending d1) as [|x p] eqn:Hpd; [right|left; cbn in Ht; lia].
    destruct (Hnil eq_refl) as [-> Hl1]. rewrite Hl1 in Hr. by apply rest_nil in Hr.
  - rewrite Hl2. destruct Hcase as [[-> _]|[_ [Hz|?]]]; [lia| |lia].
    destruct (Hnil Hz) as [_ ->]. cbn. lia.
Qed.

(** ** [read_to_end] *)

(** The vector is extended by what was handed out. *)
Definition end_post dict id at_ d (buf : bytes) (written : N)
  (m : res (FrameDecoder R * bytes * IoError) (FrameDecoder R * bytes * N)) : Prop :=
  match m with
  | Ok (d', buf', n) => exists out, buf' = buf ++ out /\ n = written + len out /\
      fd_max_output d' = fd_max_output d /\ handed d' = handed d + len out /\
      remaining dict id at_ d out /\ (forall out', remaining dict id at_ d out' -> out' = out) /\
      idle dict id d' /\ left_over d' = []
  | Err (d', buf', x) => exists out, buf' = buf ++ out /\
      fd_max_output d' = fd_max_output d /\ handed d' = handed d + len out /\ idle dict id d' /\
      forall out', remaining dict id at_ d out' -> fd_max_output d < handed d + len out'
  | Panic | NoFuel => False
  end.

Lemma open_at_limit dict id at_ d : open_at dict id at_ d -> handed d + len (pending d) <= fd_max_output d.
Proof.
  intros Ho. rewrite (length_pending_out _ _ _ _ Ho). destruct Ho as [? ? ? [_ _ Hb _]%at_block_config].
  dfields. unfold handed. lia.
Qed.

Lemma open_at_reserve dict id at_ d x : open_at dict id at_ d -> open_at dict id at_ (set_content_reserve x d).
Proof.
  intros []. split; dfields; try done. destruct at_ as [[info content]|]; cbn [at_block] in *.
  - destruct oa_block0 as [[] ? ? ? ? ? ? ? ? ? ?]. split; dfields; try done; by split.
  - destruct oa_block0 as [[] ? ? ?]. split; dfields; try done; by split.
Qed.

(** The outcome after one more piece of the output. *)
Lemma end_post_step dict id at_ at' d d' (buf block : bytes) (written : N) m :
  fd_max_output d' = fd_max_output d -> handed d' = handed d + len block ->
  (forall out, remaining dict id at_ d out <-> exists out', out = block ++ out' /\ remaining dict id at' d' out') ->
  end_post dict id at' d' (buf ++ block) (written + len block) m -> end_post dict id at_ d buf written m.
Proof.
  intros Hm Hh Hr. destruct m as [[[e buf'] n]|[[e buf'] x]| |]; cbn [end_post]; [| |done..]; rewrite Hm, Hh.
  - intros (out & -> & -> & ? & Hh2 & Ho & Hu & ?). exists (block ++ out). rewrite app_assoc.
    split; [done|]. split; [len_lia|]. split; [done|]. split; [len_lia|].
    split; [apply Hr; by exists out|]. split; [|done]. intros o (o' & -> & Ho')%Hr. by rewrite (Hu o').
  - intros (out & -> & ? & Hh2 & ? & Ho). exists (block ++ out). rewrite app_assoc.
    split; [done|]. split; [done|]. split; [len_lia|]. split; [done|].
    intros o (o' & -> & Ho')%Hr. specialize (Ho _ Ho'). len_lia.
Qed.

Lemma read_to_end_ok dict id fuel at_ d (buf : bytes) (written : N) : open_at dict id at_ d ->
  (S (length (left_over d)) < fuel)%nat \/ pending d = [] /\ (length (left_over d) < fuel)%nat ->
  end_post dict id at_ d buf written (read_to_end xxh32 fuel d buf written).
Proof.
  revert at_ d buf written. induction fuel as [|fuel IH]; intros at_ d buf written Ho Hf; [lia|].
  cbn [read_to_end]. pose proof (fill_buf_ok _ _ (S fuel) _ _ Ho ltac:(lia)) as H.
  destruct (fill_buf xxh32 (S fuel) d) as [[d1 b]|[d1 x]| |]; [| |done..]; cbn [fill_post] in H.
  2:{ destruct H as (Hx & Hi & Hm & Hh & Hr). rewrite Hx. exists []. rewrite app_nil_r.
      split_and!; try done. cbn. lia. }
  destruct H as (-> & Hm1 & Hh1 & at1 & Ho1 & Hr1 & Hnil & Hcase).
  pose proof (open_at_limit _ _ _ _ Ho1) as Hlim. destruct (pending d1) as [|y p] eqn:Hp.
  - destruct (Hnil eq_refl) as [-> Hl]. exists []. rewrite app_nil_r.
    assert (Hrem : forall out, remaining dict id at_ d out <-> out = []).
    { intros out. rewrite Hr1. unfold remaining. rewrite Hp, Hl. cbn [app]. rewrite <-(rest_nil xxh32 dict id out).
      split; [by intros (? & -> & ?)|by eexists]. }
    split; [done|]. split; [cbn; lia|]. split; [done|]. split; [cbn; lia|]. split; [by apply Hrem|].
    split; [intros out; apply Hrem|]. split; [|done]. rewrite <-(set_dst_pos_same d1); [apply Ho1|].
    pose proof (length_pending_out _ _ _ _ Ho1) as Hlp. rewrite Hp in Hlp. cbn in Hlp. destruct Ho1. lia.
  - rewrite <-Hp in *. set (d2 := set_content_reserve None d1).
    pose proof (open_at_reserve _ _ _ _ None Ho1) as Ho2. fold d2 in Ho2.
    change (slice (fd_dst d2) (fd_dst_start d2) (fd_dst_end d2)) with
      (slice (E:=FrameDecoder R * bytes * IoError) (fd_dst d1) (fd_dst_start d1) (fd_dst_end d1)).
    rewrite slice_ok by (destruct Ho1; done). mstep. change (sub (fd_dst d1) _ _) with (pending d1).
    destruct (consume_ok _ _ _ _ (len (pending d1)) Ho2 (N.le_refl _))
      as (d3 & -> & Ho3 & Hp3 & Hh3 & Hm3 & Hl3). mstep.
    change (left_over d2) with (left_over d1) in Hl3. change (pending d2) with (pending d1) in Hp3.
    change (handed d2) with (handed d1) in Hh3. change (fd_max_output d2) with (fd_max_output d1) in Hm3.
    rewrite drop_ge in Hp3 by lia.
    apply (end_post_step _ _ _ at1 _ d3 _ (pending d1)); [congruence|lia| |].
    + intros out. rewrite Hr1. unfold remaining. rewrite Hp3, Hl3. cbn [app].
      split; [intros (o & -> & ?); exists o; split; [done|by exists o]|].
      intros (o & -> & o' & -> & ?). by exists o'.
    + apply IH; [done|]. right. split; [done|]. rewrite Hl3.
      destruct Hcase as [[-> Hne]|[_ [?|?]]]; [|congruence|lia]. destruct Hf as [|[? _]]; [lia|congruence].
Qed.

(** ** A new decoder *)

Definition opt_dict (o : FrameDecoderOptions) : bytes := match dictionary o with Some (dict, _) => dict | None => [] end.
Definition opt_id (o : FrameDecoderOptions) : option N := snd <$> dictionary o.
Definition opt_limit (o : FrameDecoderOptions) : N := match max_output o with Some n => n | None => usize_max end.

Lemma with_options_idle (rdr : R) o : opt_limit o <= usize_max ->
  idle (opt_dict o) (opt_id o) (with_options rdr o) /\ fd_max_output (with_options rdr o) = opt_limit o /\
  handed (with_options rdr o) = 0 /\ left_over (with_options rdr o) = stream rdr.
Proof.
  unfold opt_limit, opt_id, opt_dict, with_options. destruct o as [[[dict i]|] [n|]]; cbn -[usize_max]; intros Hl;
    (split; [split; cbn -[usize_max]; try done; split; cbn -[usize_max]; try done; lia|done]).
Qed.

Lemma with_options_holds (rdr : R) o out : opt_limit o <= usize_max ->
  frames xxh32 (opt_dict o) (opt_id o) (stream rdr) out -> len out <= opt_limit o ->
  holds (opt_dict o) (opt_id o) (with_options rdr o) out.
Proof.
  intros Hl Hf Ho. destruct (with_options_idle rdr o Hl) as (Hi & Hm & Hh & Hs). exists None.
  split; [by apply open_at_block|]. split; [|lia]. apply remaining_block; [by destruct Hi|]. by rewrite Hs.
Qed.

(** Calls of [read] one after the other: all bytes that they return. *)
Fixpoint reads (fuel : nat) d (sizes : list N) : res (FrameDecoder R * IoError) (FrameDecoder R * bytes) :=
  match sizes with
  | [] => Ok (d, [])
  | n :: sizes =>
      '(d, b) ← read xxh32 fuel d n;
      '(d, out) ← reads fuel d sizes;
      Ok (d, b ++ out)
  end.

Lemma reads_holds dict id fuel sizes d out : holds dict id d out -> (length (left_over d) < fuel)%nat ->
  returns (reads fuel d sizes) (fun '(d', b) => exists out', out = b ++ out' /\ holds dict id d' out' /\
    (Forall (N.lt 0) sizes -> len out <= len sizes -> out' = [])).
Proof.
  revert d out. induction sizes as [|n sizes IH]; intros d out Hd Hf; cbn [reads].
  { apply returns_ok. exists out. split; [done|]. split; [done|]. intros _ Hl. destruct out; [done|cbn in Hl; lia]. }
  destruct (read_holds _ _ _ _ _ n Hd Hf) as ([d1 b] & -> & out1 & -> & Hd1 & _ & Hb & Hl1). mstep.
  destruct (IH d1 out1 Hd1 ltac:(lia)) as ([d2 b2] & -> & out2 & -> & Hd2 & Hall). mstep. apply returns_ok.
  exists out2. rewrite app_assoc. split; [done|]. split; [done|]. intros [Hn Hs]%Forall_cons_1 Hlen.
  destruct b as [|x b].
  - destruct Hb as [|Hb]; [done|lia|]. cbn [app] in Hb. by apply app_eq_nil in Hb as [_ ->].
  - apply Hall; [done|]. rewrite length_app in Hlen |- *. rewrite !length_cons in Hlen. len_lia.
Qed.

(** ** Any client *)

(** Fuel that is enough for every call. *)
Definition enough d : nat := S (S (length (left_over d))).

Definition decoder_call d (c : dcall R) : res Empty_set (FrameDecoder R * bytes * option IoError) :=
  client_call xxh32 (enough d) d c.

(** The calls of a client go on after an error. *)
Fixpoint decoder_run d (cs : list (dcall R)) : res Empty_set (FrameDecoder R * bytes) :=
  match cs with
  | [] => Ok (d, [])
  | c :: cs =>
      '(d, b, _) ← decoder_call d c;
      '(d, out) ← decoder_run d cs;
      Ok (d, b ++ out)
  end.

Definition usable dict id d : Prop := exists at_, open_at dict id at_ d.

(** No frame is open and nothing is pending. *)
Definition closed d : Prop := fd_current_frame_info d = None /\ fd_dst_start d = fd_dst_end d.

Lemma usable_idle dict id d : idle dict id d -> usable dict id d.
Proof. intros Hi. exists None. by apply open_at_block. Qed.

Lemma usable_closed dict id d : usable dict id d -> closed d -> idle dict id d.
Proof.
  intros ([[info content]|] & []) [Hc He]; cbn [at_block] in *.
  - pose proof (bt_open _ _ _ _ _ oa_block0) as Ho. dfields. congruence.
  - by rewrite set_dst_pos_same in oa_block0.
Qed.

Lemma usable_limit dict id d : usable dict id d -> handed d <= fd_max_output d.
Proof. intros (at_ & Ho%open_at_limit). lia. Qed.

Lemma usable_buffers dict id d : usable dict id d ->
  (len (fd_dst d) <= max_dst /\ fd_dst_reserve d <= max_dst) /\ len (fd_src d) <= max_src /\ fd_src_reserve d <= max_src.
Proof. intros (at_ & [_ _ _ []%at_block_config]). done. Qed.

Lemma usable_replace dict id d r : usable dict id d -> usable dict id (get_mut d r).
Proof.
  intros (at_ & []). exists at_. unfold get_mut. split; dfields; try done.
  destruct at_ as [[info content]|]; cbn [at_block] in *;
    [exact (between_r _ _ _ _ _ r oa_block0)|exact (idle_r _ _ _ r oa_block0)].
Qed.

(** What every call keeps; after an error the decoder is closed. *)
Definition call_post dict id d : FrameDecoder R * bytes * option IoError -> Prop :=
  fun '(d', b, x) => usable dict id d' /\ handed d' = handed d + len b /\
    fd_max_output d' = fd_max_output d /\ (x <> None -> closed d').

Lemma failed_call dict id d d' b x : idle dict id d' -> handed d' = handed d + len b ->
  fd_max_output d' = fd_max_output d -> call_post dict id d (d', b, x).
Proof.
  intros Hi Hh Hm. split; [by apply usable_idle|]. split; [done|]. split; [done|]. intros _. by destruct Hi.
Qed.

Lemma take_usable dict id d n : usable dict id d ->
  returns (decoder_call d (DTake n)) (call_post dict id d).
Proof.
  intros (at_ & Ho). unfold decoder_call, client_call. assert (Hf : (length (left_over d) < enough d)%nat) by (unfold enough; lia).
  pose proof (fill_buf_ok _ _ _ _ _ Ho Hf) as H.
  destruct (fill_buf xxh32 _ d) as [[d1 b]|[d1 x]| |]; [| |done..]; cbn [fill_post] in H.
  - destruct H as (-> & Hm & Hh & at1 & Ho1 & _).
    destruct (consume_ok _ _ _ _ (N.min n (len (pending d1))) Ho1 ltac:(lia)) as (d2 & -> & Ho2 & _ & Hh2 & Hm2 & _).
    apply returns_ok. split; [by exists at1|]. split; [len_lia|]. split; [congruence|done].
  - destruct H as (_ & Hi & Hm & Hh & _). apply returns_ok. apply failed_call; [done|cbn; lia|done].
Qed.

(** [read] is [fill_buf] and [consume] in every state. *)
Lemma decoder_call_usable dict id d c : usable dict id d ->
  returns (decoder_call d c) (call_post dict id d).
Proof.
  intros Hu. pose proof Hu as (at_ & Ho).
  assert (Hf : (S (length (left_over d)) < enough d)%nat) by (unfold enough; lia). destruct c as [n|n|buf|r].
  - pose proof (take_usable _ _ _ n Hu) as H. unfold decoder_call, client_call in *.
    rewrite (read_fill _ _ _ _ _ _ Ho) by lia.
    destruct (fill_buf xxh32 _ d) as [[d1 b]|[d1 x]| |]; mstep; try done.
    rewrite N.min_comm. by destruct (consume d1 _) as [d2|[d2 x]| |].
  - by apply take_usable.
  - unfold decoder_call, client_call. pose proof (read_to_end_ok _ _ _ _ _ buf 0 Ho (or_introl Hf)) as H.
    destruct (read_to_end _ _ _ _ _) as [[[d1 b] k]|[[d1 b] x]| |]; [| |done..]; cbn [end_post] in H.
    + destruct H as (out & -> & _ & Hm & Hh & _ & _ & Hi & _). rewrite drop_app_length.
      apply returns_ok. by apply failed_call.
    + destruct H as (out & -> & Hm & Hh & Hi & _). rewrite drop_app_length.
      apply returns_ok. by apply failed_call.
  - apply returns_ok. split; [by apply usable_replace|]. split; [unfold handed, get_mut; dfields; cbn; lia|done].
Qed.

Lemma decoder_run_usable dict id cs d : usable dict id d ->
  returns (decoder_run d cs) (fun '(d', out) => usable dict id d' /\
    handed d' = handed d + len out /\ fd_max_output d' = fd_max_output d).
Proof.
  revert d. induction cs as [|c cs IH]; intros d Hu; cbn [decoder_run].
  { apply returns_ok. split; [done|]. split; [cbn; lia|done]. }
  destruct (decoder_call_usable _ _ _ c Hu) as ([[d1 b] x] & -> & Hu1 & Hh1 & Hm1 & _). mstep.
  destruct (IH d1 Hu1) as ([d2 out] & -> & Hu2 & Hh2 & Hm2). mstep. apply returns_ok.
  split; [done|]. split; [len_lia|congruence].
Qed.

(** The outcome of [read_to_end] on a closed decoder with a new reader. *)
Lemma closed_to_end dict id d r (buf : bytes) fuel : usable dict id d -> closed d ->
  (length (stream r) < fuel)%nat ->
  match read_to_end xxh32 fuel (get_mut d r) buf 0 with
  | Ok (d', buf', n) => exists out, buf' = buf ++ out /\ n = len out /\
      handed d + len out <= fd_max_output d /\
      forall out', frames xxh32 dict id (stream r) out' <-> out' = out
  | Err (d', buf', x) => exists out, buf' = buf ++ out /\ handed d + len out <= fd_max_output d /\
      forall out', frames xxh32 dict id (stream r) out' -> fd_max_output d < handed d + len out'
  | Panic | NoFuel => False
  end.
Proof.
  intros Hu Hc Hf. pose proof (usable_closed _ _ _ (usable_replace _ _ _ r Hu) Hc) as Hi.
  assert (He : fd_dst_start (get_mut d r) = fd_dst_end (get_mut d r)) by apply Hi.
  pose proof (read_to_end_ok _ _ fuel None _ buf 0 (open_at_block _ _ None _ Hi)
    (or_intror (conj (pending_nil _ He) Hf))) as H.
  pose proof (fun out => remaining_block dict id None _ out He) as Hr. cbn [rest_of] in Hr.
  change (left_over (get_mut d r)) with (stream r) in Hr.
  change (handed d) with (handed (get_mut d r)). change (fd_max_output d) with (fd_max_output (get_mut d r)).
  destruct (read_to_end _ _ _ _ _) as [[[d' b] n]|[[d' b] x]| |]; [| |done..]; cbn [end_post] in H.
  - destruct H as (out & -> & -> & Hm' & Hh' & Ho & Hx & Hi' & _).
    pose proof (usable_limit _ _ _ (usable_idle _ _ _ Hi')). exists out. split_and!; [done|lia|lia|].
    intros out'. rewrite <-Hr. split; [apply Hx|by intros ->].
  - destruct H as (out & -> & Hm' & Hh' & Hi' & Ho). pose proof (usable_limit _ _ _ (usable_idle _ _ _ Hi')).
    exists out. split_and!; [done|lia|]. intros out'. rewrite <-Hr. apply Ho.
Qed.
End ops.
