(* ===== verification/FrameDecoderLive.v ===== *)
(** * The frame decoder on a stream that has not ended

    A decoder hands out the content of every whole block that has arrived, before
    the frame is finished: [owed d out] says that the bytes that have arrived
    carry [out].  The client is [Read::read_exact] of the standard library. *)

From S2P Require Import Prelude BlockSpec Core Primitives Decompress DecompressProofs FrameHeader FrameIO FrameSpec FrameDecoder FrameDecoderSpec FrameDecoderProofs FrameDecoderStream.

Section ops.
Context `{T : Target} (xxh32 : bytes -> N) {R : Type} {HR : Read R} {HL : ReadLaws R}.
Context (E : option (FrameInfo * bytes) -> bytes -> Prop).
Implicit Types (d : FrameDecoder R) (info : FrameInfo) (dict content data out : bytes) (id : option N).
Import FrameDecoderImpl.

(** The block that [read_more] comes to is the first with data. *)
Lemma more_owes dict id at_ l out : owes xxh32 E dict id at_ l out -> out <> [] ->
  forall fuel d, at_block dict id at_ d -> left_over d = l -> (length l < fuel)%nat ->
    fd_bytes_output d + len out <= fd_max_output d ->
  exists d' info content data out', read_more xxh32 fuel d = Ok (d', len data) /\ data <> [] /\
    decoded dict id info content data d' /\ out = data ++ out' /\
    owes xxh32 E dict id (Some (info, content ++ data)) (left_over d') out' /\
    len (left_over d') <= len l /\ fd_bytes_output d' = fd_bytes_output d + len data /\
    fd_max_output d' = fd_max_output d.
Proof.
  induction 1 as [at_ l HE|info content l data l' out Ht Ho IH|info content l l1 l2 out Ht Hs Hck Ho IH|
    info l out Hi Hid Ho IH]; intros Hne fuel d Hat Hl Hf Hlim; [done|..].
  all: destruct fuel as [|fuel]; [lia|]; cbn [read_more]; cbn [at_block] in Hat.
  - pose proof (read_block_ok xxh32 _ _ _ _ _ Hat) as H. unfold block_post in H. rewrite Hl, Ht in H.
    rewrite (bt_open _ _ _ _ _ Hat). mstep. cbn [negb].
    rewrite (proj2 (N.leb_le _ _)) in H by len_lia. destruct H as (d' & -> & Hd & Hl' & Hb & Hm & _). mstep.
    apply take_block_shorter in Ht as [Hsh _].
    destruct (N.eqb_spec (len data) 0) as [Hz|Hz]; cbn [negb].
    + destruct data; [|cbn in Hz; lia]. cbn [app] in Hne, Hlim |- *. cbn [length] in Hb.
      destruct (IH Hne fuel d') as (d2 & i2 & c2 & data & o & Hr & ? & ? & ? & ? & ? & ? & ?);
        [by apply decoded_empty|done|lia|lia|].
      exists d2, i2, c2, data, o. split_and!; try done; [lia|lia|congruence].
    + exists d', info, content, data, out. rewrite Hl'. split_and!; try done; [by intros ->|lia].
  - pose proof (read_block_ok xxh32 _ _ _ _ _ Hat) as H. unfold block_post in H. rewrite Hl, Ht in H.
    rewrite (bt_open _ _ _ _ _ Hat). mstep. cbn [negb].
    destruct H as [(l3 & d' & _ & Hck2 & -> & Hi & Hl' & Hb & Hm & _)|[Hno _]].
    2:{ exfalso. apply Hno. split; [done|]. eauto. }
    rewrite Hck in Hck2. injection Hck2 as <-. mstep. cbn [N.eqb negb].
    apply take_block_shorter in Ht as [Hsh _]. apply take_checksum_inv in Hck.
    assert (len l2 <= len l1) by (rewrite Hck; len_lia).
    destruct (IH Hne fuel d') as (d2 & i2 & c2 & data & o & Hr & ? & ? & ? & ? & ? & ? & ?);
      [done|done|lia|lia|].
    exists d2, i2, c2, data, o. split_and!; try done; [lia|lia|congruence].
  - assert (Hh : exists d' n, read_frame_info xxh32 d = Ok (d', n) /\ n <> 0 /\ between dict id info [] d' /\
      left_over d' = l /\ fd_max_output d' = fd_max_output d /\ fd_bytes_output d' = fd_bytes_output d).
    { destruct (read_frame_info_ok xxh32 _ _ _ Hat) as
        [(d' & _ & _ & Hnil & _)|[(d' & n & info' & Hr & Hn & Hb & _ & Hl' & Hm & Hbytes)|[_ [_ Hno]]]].
      - rewrite Hl in Hnil. by apply header_nonempty in Hnil.
      - rewrite Hl in Hl'. apply header_unique in Hl' as [<- Hl']; [|done|apply Hb]. by exists d', n.
      - by destruct (Hno info l Hi Hid). }
    destruct Hh as (d' & n & Hr & Hn & Hb & Hl' & Hm & Hbytes).
    rewrite (id_closed _ _ _ Hat), Hr. mstep. rewrite (proj2 (N.eqb_neq _ _) Hn). cbn [negb].
    destruct (IH Hne (S fuel) d') as (d2 & i2 & c2 & data & o & Hr2 & ? & ? & ? & ? & ? & ? & ?);
      [done|done|len_lia|lia|].
    cbn [read_more] in Hr2. rewrite (bt_open _ _ _ _ _ Hb) in Hr2. cbn [negb mbind res_bind] in Hr2.
    exists d2, i2, c2, data, o. split_and!; try done; [len_lia|lia|congruence].
Qed.

(** The state of a decoder whose stream carries [out] so far. *)
Definition owed dict id d out : Prop :=
  exists at_ out', open_at dict id at_ d /\ out = pending d ++ out' /\
    owes xxh32 E dict id at_ (left_over d) out' /\ handed d + len out <= fd_max_output d.

Lemma fill_owed dict id fuel d out : owed dict id d out -> out <> [] -> (length (left_over d) < fuel)%nat ->
  returns (fill_buf xxh32 fuel d) (fun '(d', b) => b = pending d' /\ b <> [] /\ owed dict id d' out /\
    len (left_over d') <= len (left_over d)).
Proof.
  intros (at_ & out' & Ho & -> & Hw & Hlim) Hne Hf. pose proof (length_pending_out xxh32 _ _ _ _ Ho) as Hlp.
  pose proof Ho as []. unfold fill_buf.
  assert (Hslice : forall d at_, open_at dict id at_ d ->
    slice (E:=FrameDecoder R * IoError) (fd_dst d) (fd_dst_start d) (fd_dst_end d) = Ok (pending d))
    by (intros ? ? []; by apply slice_ok).
  destruct (N.eqb_spec (fd_dst_start d) (fd_dst_end d)) as [He|He].
  - rewrite set_dst_pos_same in oa_block by done. rewrite (pending_nil _ He) in *. cbn [app] in *.
    destruct (more_owes _ _ _ _ _ Hw Hne fuel d oa_block eq_refl Hf) as
      (d' & info & content & data & o & -> & Hd & Hdec & -> & Hw' & Hl & Hb & Hm).
    { unfold handed in Hlim. lia. }
    mstep. pose proof (open_at_decoded xxh32 _ _ _ _ _ _ Hdec) as Ho'. rewrite (Hslice _ _ Ho'). mstep.
    apply returns_ok. pose proof (dc_pending _ _ _ _ _ _ Hdec) as Hp. rewrite Hp.
    split; [done|]. split; [done|]. split; [|done]. exists (Some (info, content ++ data)), o.
    pose proof (length_pending_out xxh32 _ _ _ _ Ho') as Hlp'. rewrite Hp in Hlp'. rewrite Hp.
    split_and!; try done. destruct Ho'. unfold handed in *. lia.
  - mstep. rewrite (Hslice _ _ Ho). mstep. apply returns_ok. split; [done|].
    split; [intros Hz; rewrite Hz in Hlp; cbn in Hlp; lia|]. split; [|done]. by exists at_, out'.
Qed.

(** A read makes progress on a stream that carries more. *)
Lemma read_owed dict id fuel d out n : owed dict id d out -> out <> [] -> 0 < n ->
  (length (left_over d) < fuel)%nat ->
  returns (read xxh32 fuel d n) (fun '(d', b) => b <> [] /\ len b <= n /\
    exists out', out = b ++ out' /\ owed dict id d' out' /\ len (left_over d') <= len (left_over d)).
Proof.
  intros Hw Hne Hn Hf. pose proof Hw as (at_ & _ & Ho & _). rewrite (read_fill xxh32 _ _ _ _ _ _ Ho Hf).
  destruct (fill_owed _ _ _ _ _ Hw Hne Hf) as ([d1 b] & -> & -> & Hb & (at1 & o1 & Ho1 & -> & Hw1 & Hlim) & Hl). mstep.
  destruct (consume_ok xxh32 _ _ _ _ (N.min (len (pending d1)) n) Ho1 ltac:(lia))
    as (d2 & -> & Ho2 & Hp2 & Hh2 & Hm2 & Hl2). mstep. apply returns_ok.
  split; [intros Ht%(f_equal length); destruct (pending d1); [done|]; rewrite length_take in Ht; cbn in Ht; lia|].
  split; [len_lia|]. exists (drop (N.to_nat n) (pending d1) ++ o1). rewrite app_assoc, take_drop.
  split; [done|]. split; [|by rewrite Hl2]. exists at1, o1. rewrite Hl2, Hp2.
  split; [done|]. split; [|split; [done|len_lia]].
  f_equal. destruct (N.leb_spec n (len (pending d1))); [f_equal; lia|]. rewrite !drop_ge by lia. done.
Qed.

(** [Read::read_exact] of the standard library, over the decoder's [read]. *)
Fixpoint client_read_exact (passes fuel : nat) d (n : N) : res (FrameDecoder R * IoError) (FrameDecoder R * bytes) :=
  if n =? 0 then Ok (d, []) else
  match passes with
  | O => NoFuel
  | S passes =>
      match read xxh32 fuel d n with
      | Ok (d, []) => Err (d, Simple UnexpectedEof)
      | Ok (d, b) => '(d, l) ← client_read_exact passes fuel d (n - len b); Ok (d, b ++ l)
      | Err (d, x) => if is_interrupted x then client_read_exact passes fuel d n else Err (d, x)
      | Panic => Panic
      | NoFuel => NoFuel
      end
  end.

Lemma read_exact_owed dict id fuel passes d out n : owed dict id d out -> n <= len out ->
  (length (left_over d) < fuel)%nat -> (N.to_nat n <= passes)%nat ->
  returns (client_read_exact passes fuel d n) (fun '(d', b) => b = take (N.to_nat n) out /\
    owed dict id d' (drop (N.to_nat n) out)).
Proof.
  revert d out n. induction passes as [|passes IH]; intros d out n Hw Hn Hf Hp; cbn [client_read_exact].
  all: destruct (N.eqb_spec n 0) as [->|Hz]; [by apply returns_ok|try lia].
  assert (Hne : out <> []) by (intros ->; cbn in Hn; lia).
  destruct (read_owed _ _ _ _ _ n Hw Hne ltac:(lia) Hf) as ([d1 b] & -> & Hb & Hbn & o & -> & Hw1 & Hl).
  destruct b as [|x b0]; [done|]. set (b := x :: b0) in *. assert (0 < len b) by (subst b; cbn; lia).
  destruct (IH d1 o (n - len b) Hw1 ltac:(len_lia) ltac:(lia) ltac:(lia)) as ([d2 l] & -> & -> & Hw2).
  mstep. apply returns_ok. rewrite take_app_ge, drop_app_ge by lia.
  replace (N.to_nat n - length b)%nat with (N.to_nat (n - len b)) by lia. done.
Qed.

(** A new decoder on a stream that carries [out]. *)
Lemma with_options_owed (rdr : R) o out : opt_limit o <= usize_max ->
  owes xxh32 E (opt_dict o) (opt_id o) None (stream rdr) out -> len out <= opt_limit o ->
  owed (opt_dict o) (opt_id o) (with_options rdr o) out.
Proof.
  intros Hl Hf Ho. destruct (with_options_idle xxh32 rdr o Hl) as (Hi & Hm & Hh & Hs). exists None, out.
  split; [by apply (open_at_block xxh32)|]. rewrite pending_nil by apply Hi. split; [done|]. split; [|lia].
  by rewrite Hs.
Qed.
End ops.
