(* ===== verification/FrameDecoderMemory.v ===== *)
(** * The memory of the frame decoder

    A frame header is not trusted, but frames that declare their size and keep
    to it need no more memory than their contents: [dst], which never shrinks, is
    no longer than the longest content so far, and no more is reserved for it.
    [small] are the streams of such frames, [tidy] the decoders on them. *)

From S2P Require Import Prelude BlockSpec Core Primitives Decompress DecompressProofs DecompressSpec EncoderSpec FrameHeader FrameIO FrameSpec FrameDecoder FrameDecoderSpec FrameDecoderProofs FrameDecoderStream.

Section ops.
Context `{T : Target} (xxh32 : bytes -> N) {R : Type} {HR : Read R} {HL : ReadLaws R}.
Implicit Types (d : FrameDecoder R) (info : FrameInfo) (dict content data block out l : bytes) (id : option N)
  (c s : N).
Import FrameDecoderImpl.

(** ** What a successful call leaves alone *)

Definition same_reserves d0 d : Prop := fd_src_reserve d = fd_src_reserve d0 /\ fd_dst_reserve d = fd_dst_reserve d0.

Definition same_memory d0 d : Prop := same_buffers d0 d /\ same_reserves d0 d.

#[local] Instance same_reserves_preorder : PreOrder same_reserves.
Proof. split; [by intros|]. intros d1 d2 d3 [] []. split; congruence. Qed.

#[local] Instance same_memory_preorder : PreOrder same_memory.
Proof. split; [by intros|]. intros d1 d2 d3 [[] []] [[] []]. split; split; congruence. Qed.

(** The decoder that a successful call returns is related to the one it had. *)
Definition keeps (rel : FrameDecoder R -> FrameDecoder R -> Prop) {A E} d (m : res E A) (get : A -> FrameDecoder R) : Prop :=
  forall a, m = Ok a -> rel d (get a).

Section keeps.
Context (rel : FrameDecoder R -> FrameDecoder R -> Prop) {Hpre : PreOrder rel}.

Lemma keeps_from {A E} d e (m : res E A) f : rel d e -> keeps rel e m f -> keeps rel d m f.
Proof. intros Hr Hm a Ha. etrans; [exact Hr|by apply Hm]. Qed.

Lemma keeps_bind {A B E} d (m : res E A) (k : A -> res _ B) f g :
  keeps rel d m f -> (forall a, keeps rel (f a) (k a) g) -> keeps rel d (m ≫= k) g.
Proof.
  intros Hm Hk b. destruct m as [a| | |]; cbn; [|done..]. intros Hb. etrans; [by apply Hm|by apply Hk].
Qed.

(** A step that returns no decoder. *)
Lemma keeps_pure {A B E} d (m : res E A) (k : A -> res _ B) g :
  (forall a, keeps rel d (k a) g) -> keeps rel d (m ≫= k) g.
Proof using Type. intros Hk b. destruct m as [a| | |]; cbn; [apply Hk|done..]. Qed.

Lemma keeps_map_err {A E F} d (m : res E A) (h : E -> F) g : keeps rel d m g -> keeps rel d (map_err h m) g.
Proof using Type. intros Hm a. destruct m as [b| | |]; [|done..]. intros Ha. injection Ha as <-. by apply Hm. Qed.

Lemma keeps_ok {A E} d (a : A) f : rel d (f a) -> keeps (E:=E) rel d (Ok a) f.
Proof using Type. intros Hr b Hb. by injection Hb as <-. Qed.

Lemma keeps_err {A E} d (x : E) f : keeps (A:=A) rel d (Err x) f.
Proof using Type. done. Qed.

Lemma keeps_on_r d f : (forall r, rel d (set_r r d)) -> keeps rel d (on_r d f) fst.
Proof using Type.
  intros Hr [e b]. unfold on_r. destruct (f (fd_r d)) as [[r c]|[r x]| |]; [|done..].
  intros [= <- <-]. apply Hr.
Qed.
End keeps.

(** Splits a computation at its binds and branches; a call that returns the
    decoder is left. *)
Ltac keep_split :=
  repeat first
    [ match goal with
      | |- keeps _ _ (Ok _) _ => apply keeps_ok; try done
      | |- keeps _ _ (Err _) _ => apply keeps_err
      | |- keeps _ _ (map_err _ _) _ => apply keeps_map_err
      | |- keeps _ _ (@mbind _ _ (FrameDecoder _ * ?A) _ _ _) _ => apply (keeps_bind _ _ _ _ fst); [|intros [] ]
      | |- keeps _ _ (@mbind _ _ (FrameDecoder _) _ _ _) _ => apply (keeps_bind _ _ _ _ (fun d => d)); [|intros ?]
      | |- keeps _ _ (@mbind _ _ _ _ _ _) _ => apply keeps_pure; intros ?
      | |- keeps _ _ (on_r ?e _) _ => apply (keeps_from _ _ e); [done|by apply keeps_on_r]
      | |- keeps _ _ (match ?x with _ => _ end) _ => destruct x
      end ].

Lemma keeps_read_bytes d e n : same_reserves d e -> keeps same_reserves d (read_bytes e n) fst.
Proof. intros Hr. apply (keeps_from _ _ e); [done|]. by apply keeps_on_r. Qed.

(** A decoding call, also one that fails. *)
Definition decodes_in d (m : res (FrameDecoder R * DecompressError) (FrameDecoder R * N)) : Prop :=
  match m with Ok (e, _) | Err (e, _) => same_reserves d e | Panic | NoFuel => True end.

Lemma decodes_into d r rest : decodes_in d (decode_into d r rest).
Proof. by destruct r as [[]|[]| |]. Qed.

Lemma decodes_pure {A} d (m : res (FrameDecoder R * DecompressError) A) k :
  (forall x, m <> Err x) -> (forall a, decodes_in d (k a)) -> decodes_in d (m ≫= k).
Proof. intros Hm Hk. destruct m as [a|x| |]; cbn; [apply Hk|by destruct (Hm x)|done..]. Qed.

Lemma sink_new_no_err {E} l pos (x : E) : SliceSinkImpl.new l pos <> Err x.
Proof. unfold SliceSinkImpl.new, slice. by case_match. Qed.

Lemma vec_sink_no_err {E} v pos last (x : E) : vec_sink_for_decompression v pos last <> Err x.
Proof.
  unfold vec_sink_for_decompression, slice. case_match; [cbn|done].
  destruct (SliceSinkImpl.new _ _) eqn:Hs; cbn; [done|by apply sink_new_no_err in Hs|done..].
Qed.

Lemma decompress_block_memory d n limit : decodes_in d (decompress_block d n limit).
Proof.
  unfold decompress_block. cbv zeta. apply decodes_pure; [apply slice_no_err|]. intros input.
  apply decodes_pure; [intros x; unfold uadd; by case_match|]. intros last. destruct (_ && _).
  - apply decodes_pure; [apply assert_no_err|]. intros _.
    apply decodes_pure; [intros x; unfold slice_from; by case_match|]. intros tail.
    do 2 (apply decodes_pure; [apply slice_no_err|]; intros ?).
    apply decodes_pure; [apply sink_new_no_err|]. intros s. apply decodes_into.
  - apply decodes_pure; [apply vec_sink_no_err|]. intros []. destruct (negb _); apply decodes_into.
Qed.

Lemma decompress_loop_memory fuel d n limit size : decodes_in d (decompress_loop fuel d n limit size).
Proof.
  revert d limit. induction fuel as [|fuel IH]; intros d limit; [done|]. cbn [decompress_loop].
  pose proof (decompress_block_memory d n limit) as H. unfold decodes_in in *.
  destruct (decompress_block d n limit) as [[]|[e x]| |]; [done| |done..]. destruct (_ <? _); [|done].
  specialize (IH e size). destruct (decompress_loop _ _ _ _ _) as [[]|[]| |]; try done; by etrans.
Qed.

Lemma keeps_decompress_loop fuel d n limit size : keeps same_reserves d (decompress_loop fuel d n limit size) fst.
Proof.
  intros [e k] He. pose proof (decompress_loop_memory fuel d n limit size) as H. by rewrite He in H.
Qed.

Lemma read_block_reserves d : keeps same_reserves d (read_block xxh32 d) fst.
Proof.
  unfold read_block, slide, read_end_mark, read_uncompressed, read_compressed, read_checksum, fail. cbv zeta.
  keep_split; first [apply keeps_decompress_loop | by apply keeps_read_bytes].
Qed.

(** The header: the state it leaves is the one of [start_frame]. *)
Lemma keeps_read_into d buffer a b : keeps same_memory d (read_into d buffer a b) fst.
Proof. unfold read_into, read_bytes. keep_split. Qed.

Lemma keeps_part d (c : bool) buffer a b : keeps same_memory d (if c then Ok (d, buffer) else read_into d buffer a b) fst.
Proof. destruct c; [by apply keeps_ok|apply keeps_read_into]. Qed.

(** The end of the stream, or a frame that starts in [d]'s memory. *)
Definition header_memory d (p : FrameDecoder R * N) : Prop :=
  (p.2 = 0 /\ same_memory d p.1) \/
  exists e info size, same_memory d e /\ p.1 = start_frame e info size.

Lemma header_memory_from d e p : same_memory d e -> header_memory e p -> header_memory d p.
Proof.
  intros Hd [[]|(f & info & size & ? & ?)]; [left; split; [done|]|right; exists f, info, size; split; [|done]]; by etrans.
Qed.

(** A step that leaves the memory alone. *)
Lemma header_step {A} d (m : res (FrameDecoder R * IoError) A) (k : A -> res _ (FrameDecoder R * N)) f p :
  keeps same_memory d m f -> (forall a, k a = Ok p -> header_memory (f a) p) -> m ≫= k = Ok p -> header_memory d p.
Proof. intros Hm Hk (a & Ha & Hp)%bind_Ok. apply (header_memory_from _ (f a)); [by apply Hm|by apply Hk]. Qed.

Lemma read_frame_info_memory d p : read_frame_info xxh32 d = Ok p -> header_memory d p.
Proof.
  unfold read_frame_info. cbv zeta.
  apply (header_step _ _ _ fst); [by apply keeps_on_r|]. intros [e b]. cbn [fst].
  destruct (len b =? 0); [intros [= <-]; by left|]. intros (w & _ & Hp)%bind_Ok. revert Hp.
  apply (header_step _ _ _ fst); [apply keeps_part|]. intros [e1 w1]. cbn [fst].
  apply (header_step _ _ _ fst); [apply keeps_read_into|]. intros [e2 w2]. cbn [fst].
  intros (head & _ & (required & _ & Hp)%bind_Ok)%bind_Ok. revert Hp.
  apply (header_step _ _ _ fst); [apply keeps_part|]. intros [e3 w3]. cbn [fst].
  intros (hd & _ & (info & _ & (u & _ & (size & _ & Hp)%bind_Ok)%bind_Ok)%bind_Ok)%bind_Ok. injection Hp as <-.
  right. by exists e3, info, size.
Qed.

(** ** Streams of frames that declare their sizes *)

(** Frames that declare the size of their content, which is at most [c]. *)
Inductive declared_frames c dict id : bytes -> bytes -> Prop :=
| declared_nil : declared_frames c dict id [] []
| declared_cons info frame content rest content' :
    dict_id info = id -> content_size info = Some (len content) -> len content <= c ->
    is_frame xxh32 info dict frame content -> declared_frames c dict id rest content' ->
    declared_frames c dict id (frame ++ rest) (content ++ content').

Lemma declared_are_frames c dict id l out : declared_frames c dict id l out -> frames xxh32 dict id l out.
Proof. induction 1; by econstructor. Qed.

(** The same for the rest of a stream, block by block. *)
Inductive small c dict id : option (FrameInfo * bytes) -> bytes -> Prop :=
| small_nil : small c dict id None []
| small_header info l :
    info_ok info -> small c dict id (Some (info, [])) l -> small c dict id None (header_bytes xxh32 info ++ l)
| small_block info content data l l' :
    take_block xxh32 info dict content l = Some (Some data, l') -> small c dict id (Some (info, content ++ data)) l' ->
    small c dict id (Some (info, content)) l
| small_mark info content l l1 l2 :
    take_block xxh32 info dict content l = Some (None, l1) ->
    take_checksum xxh32 (content_checksum info) content l1 = Some l2 ->
    content_size info = Some (len content) -> len content <= c -> small c dict id None l2 ->
    small c dict id (Some (info, content)) l.

Lemma small_none c dict id l : small c dict id None l ->
  l = [] \/ exists info l', info_ok info /\ small c dict id (Some (info, [])) l' /\ l = header_bytes xxh32 info ++ l'.
Proof. inversion 1; eauto 6. Qed.

(** The content so far is within the declared size. *)
Lemma small_bound c dict id info content l : small c dict id (Some (info, content)) l ->
  exists size, content_size info = Some size /\ len content <= size <= c.
Proof.
  intros Hs. remember (Some (info, content)) as at_ eqn:Ha. revert info content Ha.
  induction Hs as [| |info content data l l' Ht Hs IH|info content l l1 l2 Ht Hck Hsz Hc Hs IH];
    intros info' content' Ha; try done; injection Ha as -> ->.
  - destruct (IH _ _ eq_refl) as (size & Hsize & Hb). exists size. split; [done|]. len_lia.
  - exists (len content'). by split.
Qed.

Lemma small_body c dict id info content body content' rest :
  frame_body xxh32 info dict content body content' -> content_size info = Some (len content') ->
  len content' <= c -> small c dict id None rest -> small c dict id (Some (info, content)) (body ++ rest).
Proof.
  induction 1 as [content Hn|content b data body content' Hb Hbody IH]; intros Hsz Hc Hr; rewrite <-app_assoc.
  - eapply small_mark; [by apply take_block_end|apply take_checksum_app|done..].
  - eapply small_block; [by apply take_block_carries|]. by apply IH.
Qed.

Lemma declared_small c dict id l out : declared_frames c dict id l out -> small c dict id None l.
Proof.
  induction 1 as [|info frame content rest content' Hid Hsz Hc (Hi & body & -> & Hb) Hr IH]; [constructor|].
  rewrite <-app_assoc. apply small_header; [done|]. by apply (small_body c dict id info [] body content).
Qed.

(** ** Tidy decoders *)

(** The decoder is at [at_] of such a stream, of contents up to [k].  [dst] is no
    longer than [c], and neither [src] nor what is left is longer than [s]; no
    more is reserved for them than [rd] and [rs]. *)
Context (k rd rs : N).

Record tidy c s dict id (at_ : option (FrameInfo * bytes)) d : Prop := {
  td_open : open_at dict id at_ d;
  td_small : small k dict id at_ (left_over d);
  td_dst : len (fd_dst d) <= c;
  td_src : len (fd_src d) <= s;
  td_left : len (left_over d) <= s;
  td_dst_reserve : fd_dst_reserve d <= rd;
  td_src_reserve : fd_src_reserve d <= rs;
  td_larger : k <= c /\ c <= rd /\ k <= rs /\ s <= rs
}.

Lemma tidy_block c s dict id at_ d : tidy c s dict id at_ d -> fd_dst_start d = fd_dst_end d ->
  at_block dict id at_ d.
Proof. intros [[_ _ _ Hb] _ _ _ _ _ _ _] He. by rewrite set_dst_pos_same in Hb. Qed.

Lemma at_block_empty dict id at_ d : at_block dict id at_ d -> fd_dst_start d = fd_dst_end d.
Proof. destruct at_ as [[]|]; by intros []. Qed.

(** The state of a stream goes with the bytes of a block. *)
Lemma read_block_tidy c s dict id info content d d' n : tidy c s dict id (Some (info, content)) d ->
  fd_dst_start d = fd_dst_end d -> read_block xxh32 d = Ok (d', n) ->
  exists at', tidy c s dict id at' d' /\ (n = 0 -> fd_dst_start d' = fd_dst_end d').
Proof.
  intros Ht He Hr. pose proof (tidy_block _ _ _ _ _ _ Ht He) as Hat. destruct Ht as [_ Hs Hd Hsrc Hl Hrd Hrs Hla].
  pose proof (small_bound _ _ _ _ _ _ Hs) as (size & Hsize & Hb).
  pose proof (read_block_reserves d _ Hr) as [Hrs' Hrd']. cbn [fst] in Hrs', Hrd'.
  pose proof (read_block_ok xxh32 _ _ _ _ _ Hat) as H. unfold block_post, gives_up in H. rewrite Hr in H.
  inversion Hs as [| |? ? data ? l' Hb' Hs' | ? ? ? l1 l2 Hb' Hck Hsz Hc Hs']; subst; rewrite Hb' in H.
  - pose proof (take_block_shorter xxh32 _ _ _ _ _ _ Hb') as [Hsh _].
    destruct (_ <=? _); [|by destruct H as (? & ? & [=] & _)].
    destruct H as (e & [= <- ->] & Hdec & Hl' & _ & _ & Hg & Hgs). rewrite <-Hl' in Hs'.
    exists (Some (info, content ++ data)). split; [split; [by apply open_at_decoded|done| |lia|rewrite Hl'; lia|lia..|done]|].
    + destruct (small_bound _ _ _ _ _ _ Hs') as (size' & Hsize' & Hb2). rewrite Hsize in Hsize'. injection Hsize' as <-.
      specialize (Hg size Hsize ltac:(len_lia)). unfold grown in Hg. lia.
    + intros Hz. destruct data; [|cbn in Hz; lia]. apply (decoded_empty xxh32) in Hdec. by destruct Hdec.
  - destruct H as [(l3 & e & _ & Hck2 & [= <- ->] & Hi & Hl' & _ & _ & Hde & Hse)|[_ (? & ? & [=] & _)]].
    rewrite Hck in Hck2. injection Hck2 as <-. pose proof (take_block_shorter xxh32 _ _ _ _ _ _ Hb') as [Hsh _].
    assert (len l2 <= len l1) by (apply take_checksum_inv in Hck as ->; len_lia).
    exists None. split; [split; [by apply open_at_block|by rewrite Hl'|by rewrite Hde|by rewrite Hse|rewrite Hl'; lia|lia..|done]|].
    intros _. by destruct Hi.
Qed.

(** The header leaves the buffers alone and reserves no more than the declared
    size. *)
Lemma start_frame_reserves (e : FrameDecoder R) info size (n : N) : content_size info = Some n ->
  fd_dst_reserve (start_frame e info size) <= N.max (fd_dst_reserve e) (N.max (len (fd_dst e)) n) /\
  fd_src_reserve (start_frame e info size) <= N.max (fd_src_reserve e) (N.max (len (fd_src e)) n).
Proof.
  intros Hn. unfold start_frame, reserve_capacity, declared_size, usize_or_max. dfields. rewrite Hn. cbv zeta.
  destruct (is_linked info); lia.
Qed.

Lemma read_frame_info_tidy c s dict id d d' n : tidy c s dict id None d -> fd_dst_start d = fd_dst_end d ->
  read_frame_info xxh32 d = Ok (d', n) ->
  if n =? 0 then tidy c s dict id None d'
  else exists info, tidy c s dict id (Some (info, [])) d' /\ fd_dst_start d' = fd_dst_end d'.
Proof.
  intros Ht He Hr. pose proof (tidy_block _ _ _ _ _ _ Ht He) as Hat. destruct Ht as [_ Hs Hd Hsrc Hl Hrd Hrs Hla].
  pose proof (read_frame_info_memory d _ Hr) as Hmem.
  destruct (read_frame_info_ok xxh32 _ _ _ Hat) as
    [(e & He' & Hi & Hl0 & Hl' & _)|[(e & m & info & He' & Hn & Hb & Hid & Hl' & _)|[(e & x & He' & _) _]]];
    rewrite Hr in He'; [injection He' as <- ->|injection He' as <- ->|done].
  - cbn [N.eqb]. assert (same_memory d d') as [[Hd' Hs'] [Hrs' Hrd']].
    { destruct Hmem as [[]|(e & info & size & _ & Hst)]; [done|]. cbn in Hst. pose proof (id_closed _ _ _ Hi) as Ho. by rewrite Hst in Ho. }
    split; [by apply open_at_block|rewrite Hl'; constructor|by rewrite Hd'|by rewrite Hs'|rewrite Hl'; cbn; lia|lia..|done].
  - rewrite (proj2 (N.eqb_neq _ _) Hn). exists info. split; [|by destruct Hb].
    destruct Hmem as [[]|(e & info' & size & [[Hd' Hs'] [Hrs' Hrd']] & Hst)]; [done|]. cbn [fst] in Hst.
    assert (info' = info) as -> by (pose proof (bt_open _ _ _ _ _ Hb) as Ho; rewrite Hst in Ho; by injection Ho).
    rewrite Hl' in Hs, Hl.
    assert (Hsm : small k dict id (Some (info, [])) (left_over d')).
    { destruct (small_none _ _ _ _ Hs) as [Hnil|(info2 & l & Hi2 & Hs2 & Heq)].
      - pose proof (header_facts xxh32 info (left_over d') (bt_info _ _ _ _ _ Hb)) as (H7 & _). cbv zeta in H7.
        rewrite Hnil in H7. cbn in H7. lia.
      - pose proof (header_unique _ _ _ _ _ (bt_info _ _ _ _ _ Hb) Hi2 Heq) as [<- <-]. done. }
    pose proof (small_bound _ _ _ _ _ _ Hsm) as (size' & Hk & Hkc).
    pose proof (start_frame_reserves e info size size' Hk) as [Hr1 Hr2].
    assert (len (fd_dst d') = len (fd_dst d) /\ len (fd_src d') = len (fd_src d)) as [] by (rewrite Hst; cbn; by rewrite Hd', Hs').
    rewrite Hd', Hs', Hrs', Hrd', <-Hst in *.
    split; [exact (open_at_block xxh32 dict id (Some (info, [])) _ Hb)|done|len_lia..|done].
Qed.

Lemma read_more_tidy c s dict id fuel at_ d d' n : tidy c s dict id at_ d -> fd_dst_start d = fd_dst_end d ->
  read_more xxh32 fuel d = Ok (d', n) -> exists at', tidy c s dict id at' d'.
Proof.
  revert at_ d. induction fuel as [|fuel IH]; intros at_ d Ht He; [done|]. cbn [read_more].
  assert (Hgo : forall info content e, tidy c s dict id (Some (info, content)) e -> fd_dst_start e = fd_dst_end e ->
    ('(d, n) ← map_err (fun '(d, x) => (set_current None d, x)) (read_block xxh32 e);
     if negb (n =? 0) then Ok (d, n) else read_more xxh32 fuel d) = Ok (d', n) ->
    exists at', tidy c s dict id at' d').
  { intros info content e Hte Hee. destruct (read_block xxh32 e) as [[e1 m]|[]| |] eqn:Hr; [|done..]. mstep.
    destruct (read_block_tidy _ _ _ _ _ _ _ _ _ Hte Hee Hr) as (at1 & Ht1 & Hz).
    destruct (N.eqb_spec m 0) as [Hk|Hk]; cbn [negb]; [by apply (IH at1), Hz|]. intros [= <- <-]. by exists at1. }
  destruct at_ as [[info content]|].
  - rewrite (bt_open _ _ _ _ _ (tidy_block _ _ _ _ _ _ Ht He)). mstep. cbn [negb]. by apply (Hgo info content).
  - rewrite (id_closed _ _ _ (tidy_block _ _ _ _ _ _ Ht He)).
    destruct (read_frame_info xxh32 d) as [[e m]|[]| |] eqn:Hr; [|done..]. mstep.
    pose proof (read_frame_info_tidy _ _ _ _ _ _ _ Ht He Hr) as H.
    destruct (m =? 0); cbn [negb]; [intros [= <- <-]; by exists None|]. destruct H as (info & H & H2). by apply (Hgo info []).
Qed.

Lemma fill_buf_tidy c s dict id fuel at_ d d' b : tidy c s dict id at_ d -> fill_buf xxh32 fuel d = Ok (d', b) ->
  exists at', tidy c s dict id at' d'.
Proof.
  intros Ht. unfold fill_buf. destruct (N.eqb_spec (fd_dst_start d) (fd_dst_end d)) as [He|He].
  - destruct (read_more xxh32 fuel d) as [[e m]|[]| |] eqn:Hr; [|done..]. mstep.
    apply (read_more_tidy _ _ _ _ _ _ _ _ _ Ht He) in Hr as (at' & Ht'). unfold slice. case_match; [|done].
    mstep. intros [= <- <-]. by exists at'.
  - mstep. unfold slice. case_match; [|done]. mstep. intros [= <- <-]. by exists at_.
Qed.

(** Handing out all that is pending. *)
Lemma consume_tidy {E} c s dict id at_ d d' (f : FrameDecoder R * IoError -> E) x : tidy c s dict id at_ d ->
  map_err f (consume (set_content_reserve x d) (len (pending d))) = Ok d' -> tidy c s dict id at_ d'.
Proof.
  intros [Ho Hs Hd Hsrc Hl Hrd Hrs Hla] Hc.
  destruct (consume_ok xxh32 _ _ _ _ (len (pending d)) (open_at_reserve _ _ _ _ x Ho) (N.le_refl _)) as
    (e & He & Ho' & _ & _ & _ & Hl'). rewrite He in Hc. injection Hc as <-.
  unfold consume in He. apply bind_Ok in He as (? & _ & He). apply bind_Ok in He as (? & _ & [= He]).
  split; [done|by rewrite Hl'|by rewrite <-He|by rewrite <-He|by rewrite Hl'|by rewrite <-He|by rewrite <-He|done].
Qed.

Lemma calm_read_more fuel d : calm is_interrupted snd (read_more xxh32 fuel d).
Proof.
  revert d. induction fuel as [|fuel IH]; intros d; [done|]. cbn [read_more]. apply calm_bind.
  - destruct (fd_current_frame_info d); [apply calm_ok|]. apply calm_bind; [exact (calm_read_frame_info xxh32 d)|].
    intros [e m]. apply calm_ok.
  - intros [e more]. destruct (negb more); [apply calm_ok|]. apply calm_bind.
    + intros [e2 x] Hx. pose proof (calm_read_block xxh32 e) as Hc. destruct (read_block xxh32 e) as [|[]| |]; [done| |done..].
      injection Hx as <- <-. exact (Hc _ eq_refl).
    + intros [e2 m]. destruct (negb _); [apply calm_ok|apply IH].
Qed.

Lemma calm_fill_buf fuel d : calm is_interrupted snd (fill_buf xxh32 fuel d).
Proof.
  unfold fill_buf. apply calm_bind.
  - destruct (_ =? _); [|apply calm_ok]. apply calm_bind; [apply calm_read_more|]. intros [e m]. apply calm_ok.
  - intros e. apply calm_bind; [|intros b; apply calm_ok]. apply calm_no_err. intros x. unfold slice. by case_match.
Qed.

Lemma read_to_end_tidy c s dict id fuel at_ d buf n d' buf' n' : tidy c s dict id at_ d ->
  read_to_end xxh32 fuel d buf n = Ok (d', buf', n') -> exists at', tidy c s dict id at' d'.
Proof.
  revert at_ d buf n. induction fuel as [|fuel IH]; intros at_ d buf n Ht; [done|]. cbn [read_to_end].
  pose proof (calm_fill_buf (S fuel) d) as Hcalm.
  destruct (fill_buf xxh32 (S fuel) d) as [[e b]|[e x]| |] eqn:Hf; [| |done..].
  2:{ specialize (Hcalm _ eq_refl). cbn [snd] in Hcalm. by rewrite Hcalm. }
  apply (fill_buf_tidy _ _ _ _ _ _ _ _ _ Ht) in Hf as (at1 & Ht1).
  destruct b as [|y b]; [intros [= <- <- <-]; by exists at1|]. cbv zeta. dfields.
  pose proof (td_open _ _ _ _ _ _ Ht1) as []. rewrite slice_ok by done. mstep.
  change (sub (fd_dst e) _ _) with (pending e).
  destruct (map_err _ (consume _ _)) as [e2| | |] eqn:Hc; mstep; [|done..].
  apply (consume_tidy _ _ _ _ _ _ _ _ _ Ht1) in Hc. by apply (IH at1).
Qed.
End ops.
