(* ===== verification/FrameFaults.v ===== *)
(** * The faults of a frame header

    What is wrong with the bytes of a header, by their values, and the error that
    [read_size] and [read] of [src/frame/header.rs] must return for it.  The
    first fault counts, in the order of the version, the reserved bits, the block
    size and the checksum. *)

From S2P Require Import Prelude Core FrameHeader FrameIO FrameSpec FrameDecoderSpec.

(** The magic numbers of frames to skip. *)
Definition skippable (w : N) : Prop := 407710288 <= w <= 407710303.

(** The size of a header, by the bits of its first byte. *)
Definition header_size (flg : byte) : N :=
  7 + (if N.testbit (u8 flg) 3 then 8 else 0) + (if N.testbit (u8 flg) 0 then 4 else 0).

(** A header of the two bytes [flg] and [bd], the optional fields and the checksum
    [sum]: its first fault.  The version is in the two high bits, and must be [1];
    the block size is in three bits of the second byte. *)
Inductive header_fault (xxh32 : bytes -> N) (flg bd : byte) (fields : bytes) (sum : byte) : Error -> Prop :=
| fault_version : u8 flg / 64 <> 1 -> header_fault xxh32 flg bd fields sum (UnsupportedVersion (64 * (u8 flg / 64)))
| fault_reserved : u8 flg / 64 = 1 -> N.testbit (u8 flg) 1 = true \/ 128 <= u8 bd \/ u8 bd mod 16 <> 0 ->
    header_fault xxh32 flg bd fields sum ReservedBitsSet
| fault_block_size : u8 flg / 64 = 1 -> N.testbit (u8 flg) 1 = false -> u8 bd mod 16 = 0 -> u8 bd < 64 ->
    header_fault xxh32 flg bd fields sum (UnsupportedBlocksize (u8 bd / 16))
| fault_checksum : u8 flg / 64 = 1 -> N.testbit (u8 flg) 1 = false -> u8 bd mod 16 = 0 -> 64 <= u8 bd < 128 ->
    u8 sum <> xxh32 (flg :: bd :: fields) / 256 mod 256 -> header_fault xxh32 flg bd fields sum HeaderChecksumError.

Section faults.
Context (xxh32 : bytes -> N).
Implicit Types (flg bd sum : byte) (fields l : bytes).

Lemma header_fault_unique flg bd fields sum e e' :
  header_fault xxh32 flg bd fields sum e -> header_fault xxh32 flg bd fields sum e' -> e = e'.
Proof.
  intros H1 H2. destruct H1 as [?|? [?|?]|?|?], H2 as [?|? [?|?]|?|?]; try done; try lia; congruence.
Qed.

(** ** The bits of the code *)

Lemma flg_bits flg :
  N.land (u8 flg) FLG_VERSION_MASK = 64 * (u8 flg / 64) /\ flag (u8 flg) FLG_RESERVED_MASK = N.testbit (u8 flg) 1 /\
  flag (u8 flg) FLG_CONTENT_SIZE = N.testbit (u8 flg) 3 /\ flag (u8 flg) FLG_DICTIONARY_ID = N.testbit (u8 flg) 0.
Proof. by destruct flg. Qed.

Lemma bd_bits bd :
  flag (u8 bd) BD_RESERVED_MASK = (128 <=? u8 bd) || negb (u8 bd mod 16 =? 0) /\
  N.shiftr (N.land (u8 bd) BD_BLOCK_SIZE_MASK) BD_BLOCK_SIZE_MASK_RSHIFT = u8 bd / 16 mod 8 /\ u8 bd < 256.
Proof. by destruct bd. Qed.

Lemma block_size_cases i : i < 8 ->
  if i <? 4 then block_size_of i = Err (UnsupportedBlocksize i) else exists b, block_size_of i = Ok b.
Proof.
  intros Hi. assert (H : i ∈ [0; 1; 2; 3; 4; 5; 6; 7]) by (rewrite !elem_of_cons; lia). clear Hi.
  repeat (apply elem_of_cons in H; destruct H as [->|H]; [cbn; eauto|]). by apply not_elem_of_nil in H.
Qed.

Lemma hash_byte (n : N) (sum : byte) : byte_eqb (to_u8 (N.shiftr n 8)) sum = (u8 sum =? n / 256 mod 256).
Proof.
  rewrite N.shiftr_div_pow2. change (2 ^ 8) with 256.
  destruct (byte_eqb_spec (to_u8 (n / 256)) sum) as [<-|Hne]; symmetry.
  - apply N.eqb_eq. by rewrite u8_to_u8.
  - apply N.eqb_neq. intros He. apply Hne, u8_inj. by rewrite u8_to_u8, He.
Qed.

(** ** [read] *)

Lemma read_opt_fields (c : bool) (k : nat) l l' : length l = (if c then k else 0)%nat -> exists o,
  (if c then '(b, input) ← FrameHeader.read_exact (N.of_nat k) (l ++ l'); Ok (E:=Error) (Some (from_le b), input)
   else Ok (None, l ++ l')) = Ok (o, l').
Proof.
  destruct c; intros Hl; cbn iota in Hl.
  { rewrite (read_exact_app xxh32 l l' (N.of_nat k)) by (by rewrite Hl). mstep. by eexists. }
  destruct l; [|done]. by exists None.
Qed.

(** [read] reports the fault of a header, or there is none. *)
Lemma read_faults flg bd fields sum l : 7 + len fields = header_size flg ->
  let m := FrameHeader.read xxh32 (to_le 4 LZ4F_MAGIC_NUMBER ++ flg :: bd :: fields ++ sum :: l) in
  (exists e, header_fault xxh32 flg bd fields sum e /\ m = Err e) \/
  (forall e, ~ header_fault xxh32 flg bd fields sum e) /\ exists info, m = Ok info.
Proof.
  intros Hsz m. subst m. unfold FrameHeader.read. cbv zeta. set (input := to_le 4 LZ4F_MAGIC_NUMBER ++ _).
  assert (Hi : FrameHeader.read_exact 4 input = Ok (to_le 4 LZ4F_MAGIC_NUMBER, [flg; bd] ++ fields ++ sum :: l))
    by exact (read_exact_app xxh32 (to_le 4 LZ4F_MAGIC_NUMBER) _ 4 eq_refl).
  rewrite Hi. clear Hi. mstep.
  change (from_le (to_le 4 LZ4F_MAGIC_NUMBER)) with LZ4F_MAGIC_NUMBER.
  change (skippable_magic LZ4F_MAGIC_NUMBER) with false. rewrite N.eqb_refl. cbn [negb].
  rewrite (read_exact_app xxh32) by done. mstep.
  change (index [flg; bd] 0) with (Ok (E:=Error) flg). change (index [flg; bd] 1) with (Ok (E:=Error) bd). mstep.
  destruct (flg_bits flg) as (-> & -> & HS & HI). destruct (bd_bits bd) as (-> & -> & Hbd).
  destruct (N.eqb_spec (64 * (u8 flg / 64)) FLG_SUPPORTED_VERSION_BITS) as [Hv|Hv]; unfold FLG_SUPPORTED_VERSION_BITS in Hv; cbn [negb].
  2:{ left. eexists. split; [apply fault_version; lia|done]. }
  assert (Hv1 : u8 flg / 64 = 1) by lia.
  destruct (N.testbit (u8 flg) 1) eqn:Hr; cbn [orb]; [left; eexists; split; [apply fault_reserved; auto|done]|].
  destruct (N.leb_spec 128 (u8 bd)) as [Hb|Hb]; cbn [orb]; [left; eexists; split; [apply fault_reserved; auto|done]|].
  destruct (N.eqb_spec (u8 bd mod 16) 0) as [Hz|Hz]; cbn [negb]; [|left; eexists; split; [apply fault_reserved; auto|done]].
  assert (Hdiv : u8 bd / 16 mod 8 = u8 bd / 16) by (apply N.mod_small; lia). rewrite Hdiv.
  pose proof (block_size_cases (u8 bd / 16) ltac:(lia)) as Hbs.
  destruct (N.ltb_spec (u8 bd / 16) 4) as [Hlt|Hge].
  { left. rewrite Hbs. eexists. split; [|done]. apply fault_block_size; [done..|lia]. }
  destruct Hbs as [b ->]. mstep. rewrite HS, HI. unfold header_size in Hsz.
  set (cs := N.testbit (u8 flg) 3) in *. set (ci := N.testbit (u8 flg) 0) in *.
  set (k := (if cs then 8 else 0)%nat). replace (fields ++ sum :: l) with (take k fields ++ drop k fields ++ sum :: l) by (by rewrite app_assoc, take_drop).
  assert (Hk : length fields = (k + (if ci then 4 else 0))%nat) by (subst k; destruct cs, ci; lia).
  destruct (read_opt_fields cs 8 (take k fields) (drop k fields ++ sum :: l)) as (o & Ho);
    [rewrite length_take; subst k; lia|]. change (N.of_nat 8) with 8 in Ho. rewrite Ho. mstep. clear Ho.
  destruct (read_opt_fields ci 4 (drop k fields) (sum :: l)) as (o2 & Ho); [rewrite length_drop; lia|].
  change (N.of_nat 4) with 4 in Ho. rewrite Ho. mstep. clear Ho.
  assert (H1 : FrameHeader.read_exact 1 (sum :: l) = Ok ([sum], l)) by exact (read_exact_app xxh32 [sum] l 1 eq_refl).
  rewrite H1. clear H1. mstep. change (index [sum] 0) with (Ok (E:=Error) sum). mstep.
  change input with (to_le 4 LZ4F_MAGIC_NUMBER ++ (flg :: bd :: fields) ++ sum :: l).
  rewrite (hashed_range xxh32 (to_le 4 LZ4F_MAGIC_NUMBER) (flg :: bd :: fields) sum l) by done.
  unfold header_hash. rewrite hash_byte. destruct (N.eqb_spec (u8 sum) (xxh32 (flg :: bd :: fields) / 256 mod 256)); cbn [negb].
  - right. split; [|by eexists]. intros x [?|? [?|[?|?]]|?|?]; done || lia || congruence.
  - left. eexists. split; [|done]. apply fault_checksum; [done..|lia|done].
Qed.

Lemma read_fault flg bd fields sum l e : 7 + len fields = header_size flg -> header_fault xxh32 flg bd fields sum e ->
  FrameHeader.read xxh32 (to_le 4 LZ4F_MAGIC_NUMBER ++ flg :: bd :: fields ++ sum :: l) = Err e.
Proof.
  intros Hsz Hf. destruct (read_faults flg bd fields sum l Hsz) as [(e' & Hf' & ->)|[Hno _]].
  - by rewrite (header_fault_unique _ _ _ _ _ _ Hf Hf').
  - by destruct (Hno e).
Qed.

(** ** [read_size] *)

Lemma skippable_eq w : skippable_magic w = bool_decide (skippable w).
Proof.
  unfold skippable_magic, skippable. destruct (N.leb_spec 407710288 w), (N.leb_spec w 407710303); cbn [andb]; symmetry;
    try (apply bool_decide_eq_false_2; lia). by apply bool_decide_eq_true_2.
Qed.

(** The first seven bytes: a word and three more. *)
Lemma read_size_word w l : w < 2 ^ 32 -> 3 <= len l ->
  read_size (take 7 (to_le 4 w ++ l)) =
    if bool_decide (skippable w) then Ok 8 else
    if negb (w =? LZ4F_MAGIC_NUMBER) then Err WrongMagicNumber else
    match l with flg :: _ => Ok (header_size flg) | [] => Panic end.
Proof.
  intros Hw Hl. destruct l as [|flg [|b [|c l]]]; cbn [length] in Hl; try lia.
  change (take 7 (to_le 4 w ++ flg :: b :: c :: l)) with (to_le 4 w ++ [flg; b; c]). unfold read_size. cbv zeta.
  rewrite slice_ok by (cbn; lia). mstep.
  change (sub (to_le 4 w ++ [flg; b; c]) 0 (4 - 0)) with (to_le 4 w). rewrite from_le_word by done.
  change (len (to_le 4 w ++ [flg; b; c]) <? MIN_FRAME_INFO_SIZE) with false. cbn iota. rewrite skippable_eq.
  destruct (bool_decide _); [done|]. destruct (negb _); [done|].
  change (index (to_le 4 w ++ [flg; b; c]) 4) with (Ok (E:=Error) flg). mstep.
  destruct (flg_bits flg) as (_ & _ & -> & ->). unfold header_size, MIN_FRAME_INFO_SIZE.
  by destruct (N.testbit _ 3), (N.testbit _ 0).
Qed.

(** [read] on a frame to skip. *)
Lemma read_skippable w n l : skippable w -> w < 2 ^ 32 -> n < 2 ^ 32 ->
  FrameHeader.read xxh32 (to_le 4 w ++ to_le 4 n ++ l) = Err (SkippableFrame n).
Proof.
  intros Hs Hw Hn. unfold FrameHeader.read. cbv zeta. rewrite (read_exact_app xxh32) by done. mstep.
  rewrite from_le_word by done. rewrite skippable_eq, bool_decide_eq_true_2 by done.
  rewrite (read_exact_app xxh32) by done. mstep. by rewrite from_le_word.
Qed.

(** ** What follows a frame *)

(** The bytes [l] between frames, when they are no header that a decoder with the
    identifier [id] accepts: what the error of the decoder is.  [cut] is the error
    of an end of the stream, and [is_error e] that of an error [e]. *)
Definition is_error (e : Error) (x : IoError) : Prop := x = io_of_error e.
Definition cut : IoError -> Prop := eq (Simple UnexpectedEof).

(** A frame and a decoder with different dictionaries. *)
Inductive dict_error : option N -> option N -> Error -> Prop :=
| dict_unexpected a : dict_error (Some a) None DictionaryNotSupported
| dict_missing e : dict_error None (Some e) DictionaryRequired
| dict_other a e : a <> e -> dict_error (Some a) (Some e) (DictIdMismatch e a).

Inductive bad_header (id : option N) l : (IoError -> Prop) -> Prop :=
| bad_cut : l <> [] -> len l < 7 -> bad_header id l cut
| bad_magic w l' : l = to_le 4 w ++ l' -> w < 2 ^ 32 -> 3 <= len l' -> w <> LZ4F_MAGIC_NUMBER -> ~ skippable w ->
    bad_header id l (is_error WrongMagicNumber)
| bad_cut_skippable w l' : l = to_le 4 w ++ l' -> w < 2 ^ 32 -> len l' = 3 -> skippable w -> bad_header id l cut
| bad_skippable w n l' : l = to_le 4 w ++ to_le 4 n ++ l' -> w < 2 ^ 32 -> n < 2 ^ 32 -> skippable w ->
    bad_header id l (is_error (SkippableFrame n))
| bad_cut_header flg l' : l = to_le 4 LZ4F_MAGIC_NUMBER ++ flg :: l' -> 7 <= len l < header_size flg ->
    bad_header id l cut
| bad_descriptor flg bd fields sum l' e : l = to_le 4 LZ4F_MAGIC_NUMBER ++ flg :: bd :: fields ++ sum :: l' ->
    7 + len fields = header_size flg -> header_fault xxh32 flg bd fields sum e -> bad_header id l (is_error e)
| bad_dictionary info l' e : info_ok info -> l = header_bytes xxh32 info ++ l' ->
    dict_error (dict_id info) id e -> bad_header id l (is_error e).

(** The same by what the code finds. *)
Inductive refused (id : option N) l : (IoError -> Prop) -> Prop :=
| refused_cut : l <> [] -> len l < 7 -> refused id l cut
| refused_start e : 7 <= len l -> read_size (take 7 l) = Err e -> refused id l (is_error e)
| refused_cut_header n : 7 <= len l -> read_size (take 7 l) = Ok n -> len l < n -> refused id l cut
| refused_descriptor n e : 7 <= len l -> read_size (take 7 l) = Ok n -> n <= len l ->
    FrameHeader.read xxh32 (take (N.to_nat n) l) = Err e -> refused id l (is_error e)
| refused_dictionary info l' e : info_ok info -> l = header_bytes xxh32 info ++ l' ->
    dict_error (dict_id info) id e -> refused id l (is_error e).

Lemma header_size_bounds flg : 7 <= header_size flg <= 19.
Proof. unfold header_size. destruct (N.testbit _ 3), (N.testbit _ 0); lia. Qed.

(** Where a header with the magic number ends. *)
Lemma take_descriptor flg bd fields sum l : 7 + len fields = header_size flg ->
  let S := to_le 4 LZ4F_MAGIC_NUMBER ++ flg :: bd :: fields ++ sum :: l in
  7 <= len S /\ header_size flg <= len S /\ read_size (take 7 S) = Ok (header_size flg) /\
  take (N.to_nat (header_size flg)) S = to_le 4 LZ4F_MAGIC_NUMBER ++ flg :: bd :: fields ++ [sum].
Proof.
  intros Hsz S. subst S. assert (Hl : 3 <= len (flg :: bd :: fields ++ sum :: l)) by len_lia. split_and!.
  - len_lia.
  - len_lia.
  - by rewrite read_size_word.
  - rewrite <-Hsz.
    assert (Heq : to_le 4 LZ4F_MAGIC_NUMBER ++ flg :: bd :: fields ++ sum :: l
      = (to_le 4 LZ4F_MAGIC_NUMBER ++ flg :: bd :: fields ++ [sum]) ++ l)
      by (rewrite <-app_assoc; cbn [app]; by rewrite <-app_assoc).
    rewrite Heq. apply take_app_length'. len_lia.
Qed.

Lemma bad_header_refused id l P : bad_header id l P -> refused id l P.
Proof.
  destruct 1 as [|w l' -> Hw Hl Hm Hs|w l' -> Hw Hl Hs|w n l' -> Hw Hn Hs|flg l' -> Hl|flg bd fields sum l' e -> Hsz Hf|].
  - by apply refused_cut.
  - apply refused_start; [len_lia|]. rewrite read_size_word by done. rewrite bool_decide_eq_false_2 by done.
    by rewrite (proj2 (N.eqb_neq _ _) Hm).
  - apply (refused_cut_header _ _ 8); [len_lia| |len_lia]. rewrite read_size_word by lia. by rewrite bool_decide_eq_true_2.
  - apply (refused_descriptor _ _ 8); [len_lia| |len_lia|].
    + rewrite read_size_word by (done || len_lia). by rewrite bool_decide_eq_true_2.
    + change (take (N.to_nat 8) (to_le 4 w ++ to_le 4 n ++ l')) with (to_le 4 w ++ to_le 4 n ++ []). by apply read_skippable.
  - apply (refused_cut_header _ _ (header_size flg)); [lia| |lia]. rewrite read_size_word by (done || len_lia). done.
  - destruct (take_descriptor flg bd fields sum l' Hsz) as (H7 & Hle & Hr & Ht).
    apply (refused_descriptor _ _ (header_size flg)); [done..|]. rewrite Ht. by apply read_fault.
  - by eapply refused_dictionary.
Qed.

(** Every other start of a header is cut or read. *)
Lemma header_start id l : 7 <= len l ->
  (exists P, bad_header id l P) \/
  exists n info, read_size (take 7 l) = Ok n /\ n <= len l /\ FrameHeader.read xxh32 (take (N.to_nat n) l) = Ok info.
Proof.
  intros Hl. destruct (decide (4 <= len l)) as [H4|]; [|lia].
  assert (Hw : l = to_le 4 (from_le (take 4 l)) ++ drop 4 l).
  { rewrite word_from_le by len_lia. by rewrite take_drop. }
  assert (Hb : from_le (take 4 l) < 2 ^ 32).
  { pose proof (from_le_bound (take 4 l)) as Hb. by rewrite length_take_le in Hb by lia. }
  revert Hw Hb. generalize (from_le (take 4 l)) as w, (drop 4 l) as l'. intros w l' -> Hw.
  assert (Hl' : 3 <= len l') by len_lia. clear H4.
  destruct (decide (skippable w)) as [Hs|Hs].
  { left. destruct (decide (len l' = 3)); [eexists; by eapply bad_cut_skippable|].
    assert (Hn : l' = to_le 4 (from_le (take 4 l')) ++ drop 4 l') by (rewrite word_from_le by len_lia; by rewrite take_drop).
    pose proof (from_le_bound (take 4 l')) as Hb. rewrite length_take_le in Hb by lia.
    eexists. eapply (bad_skippable _ _ w (from_le (take 4 l'))); [by rewrite Hn at 1|done..]. }
  destruct (decide (w = LZ4F_MAGIC_NUMBER)) as [->|Hm]; [|left; eexists; by eapply bad_magic].
  destruct l' as [|flg rest]; [cbn in Hl'; lia|]. set (S := to_le 4 LZ4F_MAGIC_NUMBER ++ flg :: rest) in *.
  destruct (decide (len S < header_size flg)); [left; eexists; by eapply bad_cut_header|].
  pose proof (header_size_bounds flg) as Hsz. assert (HS : len S = 5 + len rest) by (subst S; len_lia).
  destruct rest as [|bd rest]; [clear -Hl HS; clearbody S; cbn [length] in HS; lia|]. cbn [length] in HS.
  set (k := N.to_nat (header_size flg - 7)). destruct (drop k rest) as [|sum tail] eqn:Hd.
  { apply (f_equal length) in Hd. rewrite length_drop in Hd. cbn in Hd. lia. }
  assert (Hrest : rest = take k rest ++ sum :: tail) by (by rewrite <-Hd, take_drop).
  assert (Hf : 7 + len (take k rest) = header_size flg) by (rewrite length_take; lia).
  subst S. rewrite Hrest. revert Hf. generalize (take k rest) as fields. clear. intros fields Hf.
  destruct (take_descriptor flg bd fields sum tail Hf) as (H7 & Hle & Hr & Ht).
  destruct (read_faults flg bd fields sum [] Hf) as [(e & He & _)|[_ (info & Hi)]].
  - left. eexists. by eapply bad_descriptor.
  - right. exists (header_size flg), info. by rewrite Ht.
Qed.
End faults.
