(* ===== verification/FrameDamage.v ===== *)
(** * The errors of a damaged stream

    What is wrong with a stream, and the error that the decoder must report for
    it: [damage] is a defect inside a frame, [bad_header] one between frames.
    [read_to_end] hands out everything before the defect and then reports that
    error, a [DecompressionError] around any other for a block that does not
    decode. *)

From S2P Require Import Prelude BlockSpec Core Primitives Decompress DecompressProofs DecompressSpec EncoderSpec FrameHeader FrameIO FrameSpec FrameDecoder FrameDecoderSpec FrameDecoderProofs FrameDecoderStream FrameDecoderLive FrameFaults.

Section spec.
Context `{T : Target} (xxh32 : bytes -> N).
Implicit Types (info : FrameInfo) (dict content data block l s : bytes) (id : option N).

(** The total output after [n] more bytes as an error shows it. *)
Definition shown (total n : N) : N := N.min (total + n) usize_max.

(** The size of a checksum. *)
Definition checksum_size (c : bool) : N := if c then 4 else 0.

(** [damage info dict content total limit l P]: [l] follows a content in an open
    frame and begins with a defect, whose error satisfies [P]; [total] bytes have
    been put out of [limit].  The header of a block is a word: [0] is the end
    mark, a size from [2 ^ 31] is that of raw data. *)
Inductive damage info dict content (total limit : N) : bytes -> (IoError -> Prop) -> Prop :=
| damage_word l : len l < 4 -> damage info dict content total limit l cut
| damage_size n l raw : max_block info < n -> n < 2 ^ 31 ->
    damage info dict content total limit (to_le 4 (if raw : bool then n + 2 ^ 31 else n) ++ l) (is_error BlockTooBig)
| damage_limit_raw n l : n <= max_block info -> limit < total + n ->
    damage info dict content total limit (to_le 4 (n + 2 ^ 31) ++ l)
      (is_error (DecompressedSizeLimit limit (shown total n)))
| damage_cut_raw n l : n <= max_block info -> total + n <= limit ->
    len l < n + checksum_size (block_checksums info) ->
    damage info dict content total limit (to_le 4 (n + 2 ^ 31) ++ l) cut
| damage_cut_block n l : 0 < n -> n <= max_block info ->
    len l < n + checksum_size (block_checksums info) ->
    damage info dict content total limit (to_le 4 n ++ l) cut
| damage_checksum_raw data s l : len data <= max_block info -> total + len data <= limit ->
    block_checksums info = true -> len s = 4 -> s <> to_le 4 (xxh32 data) ->
    damage info dict content total limit (to_le 4 (len data + 2 ^ 31) ++ data ++ s ++ l) (is_error BlockChecksumError)
| damage_checksum_block block s l : 0 < len block -> len block <= max_block info ->
    block_checksums info = true -> len s = 4 -> s <> to_le 4 (xxh32 block) ->
    damage info dict content total limit (to_le 4 (len block) ++ block ++ s ++ l) (is_error BlockChecksumError)
| damage_undecodable block l : 0 < len block -> len block <= max_block info ->
    (forall data, block_decode (block_history info dict content) block = Some data -> max_block info < len data) ->
    damage info dict content total limit
      (to_le 4 (len block) ++ block ++ checksum xxh32 (block_checksums info) block ++ l)
      (fun x => exists e, is_error (DecompressionError e) x)
| damage_limit_block block data l : 0 < len block -> len block <= max_block info ->
    block_decode (block_history info dict content) block = Some data -> len data <= max_block info ->
    limit < total + len data ->
    damage info dict content total limit
      (to_le 4 (len block) ++ block ++ checksum xxh32 (block_checksums info) block ++ l)
      (is_error (DecompressedSizeLimit limit (shown total (len data))))
| damage_content_size n l : content_size info = Some n -> n <> len content ->
    damage info dict content total limit (to_le 4 0 ++ l) (is_error (ContentLengthError n (len content)))
| damage_cut_checksum l : (forall n, content_size info = Some n -> n = len content) ->
    content_checksum info = true -> len l < 4 ->
    damage info dict content total limit (to_le 4 0 ++ l) cut
| damage_content_checksum s l : (forall n, content_size info = Some n -> n = len content) ->
    content_checksum info = true -> len s = 4 -> s <> to_le 4 (xxh32 content) ->
    damage info dict content total limit (to_le 4 0 ++ s ++ l) (is_error ContentChecksumError).

(** A defect at a point of the stream. *)
Definition defect dict id (total limit : N) (P : IoError -> Prop) (at_ : option (FrameInfo * bytes)) l : Prop :=
  match at_ with
  | Some (info, content) => damage info dict content total limit l P
  | None => bad_header xxh32 id l P
  end.

(** The stream [S] carries [out] up to a defect. *)
Inductive broken dict id (total limit : N) (P : IoError -> Prop) : bytes -> bytes -> Prop :=
| broken_between F out l : frames xxh32 dict id F out -> bad_header xxh32 id l P ->
    broken dict id total limit P (F ++ l) out
| broken_inside F c info bs content l : frames xxh32 dict id F c -> info_ok info -> dict_id info = id ->
    emitted xxh32 info dict bs content -> damage info dict content total limit l P ->
    broken dict id total limit P (F ++ header_bytes xxh32 info ++ bs ++ l) (c ++ content).

(** ** Every stream is whole or broken *)

Lemma take_n_cases n l : {a : bytes & {r | l = a ++ r /\ len a = n}} + {len l < n}.
Proof.
  destruct (decide (len l < n)) as [|Hn]; [by right|left].
  exists (take (N.to_nat n) l), (drop (N.to_nat n) l). rewrite take_drop. split; [done|len_lia].
Qed.

Lemma checksum_cases c data l : checksum_size c <= len l ->
  (exists l', take_checksum xxh32 c data l = Some l' /\ l = checksum xxh32 c data ++ l') \/
  (c = true /\ exists s l', l = s ++ l' /\ len s = 4 /\ s <> to_le 4 (xxh32 data)).
Proof.
  intros Hl. destruct c; [|left; by exists l]. destruct (take_n_cases 4 l) as [(s & r & -> & Hs)|Hs]; [|cbn in Hl; lia].
  destruct (decide (s = to_le 4 (xxh32 data))) as [->|Hne].
  - left. exists r. split; [apply (take_checksum_app xxh32 true)|done].
  - right. split; [done|]. by exists s, r.
Qed.

(** The end mark. *)
Lemma end_cases info dict content total limit l :
  (exists l', (forall n, content_size info = Some n -> n = len content) /\
     take_checksum xxh32 (content_checksum info) content l = Some l') \/
  exists P, damage info dict content total limit (to_le 4 0 ++ l) P.
Proof.
  assert (Hs : (forall n, content_size info = Some n -> n = len content) \/
    exists n, content_size info = Some n /\ n <> len content).
  { destruct (content_size info) as [n|]; [|by left]. destruct (decide (n = len content)) as [->|]; [|by eauto].
    left. by intros ? [= ->]. }
  destruct Hs as [Hs|(n & Hc & Hn)]; [|by right; eauto using damage].
  destruct (decide (len l < checksum_size (content_checksum info))) as [Hl|Hl].
  { right. destruct (content_checksum info) eqn:Hc; cbn in Hl; [|lia]. eexists. by apply damage_cut_checksum. }
  destruct (checksum_cases (content_checksum info) content l ltac:(lia)) as [(l' & Ht & _)|(Hc & s & l' & -> & H4 & Hne)].
  - left. by exists l'.
  - right. eexists. by apply damage_content_checksum.
Qed.

(** The word of raw data, and of a compressed block. *)
Lemma raw_cases info dict content total limit n l : n < 2 ^ 31 ->
  (exists data l', n = len data /\ l = data ++ checksum xxh32 (block_checksums info) data ++ l' /\
     n <= max_block info /\ total + n <= limit) \/
  exists P, damage info dict content total limit (to_le 4 (n + 2 ^ 31) ++ l) P.
Proof.
  intros Hn. destruct (decide (n <= max_block info)) as [Hm|Hm].
  2:{ right. eexists. apply (damage_size _ _ _ _ _ n l true); [lia|done]. }
  destruct (decide (total + n <= limit)) as [Ht|Ht].
  2:{ right. eexists. apply (damage_limit_raw _ _ _ _ _ n l); [done|lia]. }
  destruct (decide (len l < n + checksum_size (block_checksums info))) as [Hl|Hl].
  { right. eexists. by apply damage_cut_raw. }
  destruct (take_n_cases n l) as [(data & r & -> & <-)|]; [|lia].
  destruct (checksum_cases (block_checksums info) data r ltac:(len_lia)) as [(l' & _ & ->)|(Hc & s & l' & -> & H4 & Hne)].
  - left. by exists data, l'.
  - right. eexists. by apply damage_checksum_raw.
Qed.

Lemma block_cases info dict content total limit n l : 0 < n -> n < 2 ^ 31 ->
  (exists block data l', n = len block /\ l = block ++ checksum xxh32 (block_checksums info) block ++ l' /\
     n <= max_block info /\ block_decode (block_history info dict content) block = Some data /\
     len data <= max_block info /\ total + len data <= limit) \/
  exists P, damage info dict content total limit (to_le 4 n ++ l) P.
Proof.
  intros H0 Hn. destruct (decide (n <= max_block info)) as [Hm|Hm].
  2:{ right. eexists. apply (damage_size _ _ _ _ _ n l false); [lia|done]. }
  destruct (decide (len l < n + checksum_size (block_checksums info))) as [Hl|Hl].
  { right. eexists. by apply damage_cut_block. }
  destruct (take_n_cases n l) as [(block & r & -> & <-)|]; [|lia].
  destruct (checksum_cases (block_checksums info) block r ltac:(len_lia)) as [(l' & _ & ->)|(Hc & s & l' & -> & H4 & Hne)].
  2:{ right. eexists. by apply damage_checksum_block. }
  destruct (block_decode (block_history info dict content) block) as [data|] eqn:Hd.
  2:{ right. eexists. apply damage_undecodable; [done..|]. by rewrite Hd. }
  destruct (decide (len data <= max_block info)) as [Hdm|Hdm].
  2:{ right. eexists. apply damage_undecodable; [done..|]. rewrite Hd. intros ? [= <-]. lia. }
  destruct (decide (total + len data <= limit)) as [Ht|Ht]; [left; by exists block, data, l'|].
  right. eexists. apply (damage_limit_block _ _ _ _ _ block data); try done. lia.
Qed.

Lemma damage_cases info dict content total limit l :
  (exists data l', take_block xxh32 info dict content l = Some (Some data, l') /\ total + len data <= limit) \/
  (exists l1 l2, take_block xxh32 info dict content l = Some (None, l1) /\
     (forall n, content_size info = Some n -> n = len content) /\
     take_checksum xxh32 (content_checksum info) content l1 = Some l2) \/
  exists P, damage info dict content total limit l P.
Proof.
  destruct (take_n_cases 4 l) as [(h & r & -> & Hh)|Hl]; [|right; right; eexists; by apply damage_word].
  pose proof (word_from_le h Hh) as Hw. pose proof (from_le_bound h) as Hb. rewrite Hh in Hb.
  change (256 ^ 4) with (2 ^ 32) in Hb. rewrite <-Hw. set (w := from_le h) in *. clearbody w. clear h Hh Hw.
  destruct (decide (w = 0)) as [->|H0].
  { right. destruct (end_cases info dict content total limit r) as [(l' & Hs & Hc)|]; [left|by right].
    exists r, l'. split; [by apply take_block_end|done]. }
  destruct (decide (2 ^ 31 <= w)) as [H31|H31].
  - replace w with (w - 2 ^ 31 + 2 ^ 31) by lia.
    destruct (raw_cases info dict content total limit (w - 2 ^ 31) r) as [(data & l' & Hn & -> & Hm & Ht)|HP]; [lia| |by right; right].
    left. exists data, l'. split; [|lia]. rewrite !app_assoc, <-(app_assoc (to_le 4 _)).
    apply take_block_carries. rewrite Hn. apply carries_raw. lia.
  - destruct (block_cases info dict content total limit w r) as [(block & data & l' & -> & -> & Hm & Hd & Hdm & Ht)|HP];
      [lia|lia| |by right; right].
    left. exists data, l'. split; [|done]. rewrite !app_assoc, <-(app_assoc (to_le 4 _)).
    apply take_block_carries. apply carries_compressed; [lia|done..].
Qed.

Lemma header_cases id l :
  l = [] \/ (exists info l', info_ok info /\ dict_id info = id /\ l = header_bytes xxh32 info ++ l') \/
  exists P, bad_header xxh32 id l P.
Proof.
  destruct (decide (l = [])) as [|Hne]; [by left|right]. destruct (decide (len l < 7)) as [|H7]; [right; eauto using bad_header|].
  destruct (header_start xxh32 id l ltac:(lia)) as [HP|(n & info & Hn & Hl & Hr)]; [by right|].
  destruct (header_sound xxh32 info l n ltac:(lia) Hn ltac:(lia) Hr) as [Hi Hl2].
  assert (Hd : dict_id info = id \/ exists e, dict_error (dict_id info) id e).
  { destruct (dict_id info) as [a|], id as [e|]; [destruct (decide (a = e)) as [->|]|..]; eauto using dict_error. }
  destruct Hd as [Hd|(e & He)]; [left; by eauto|right; eauto using bad_header].
Qed.

(** At each point the rest of the stream completes the frames, or there is a
    first defect after an output that fits the limit. *)
Lemma stream_cases dict id limit at_ l n : (forall info content, at_ = Some (info, content) -> info_ok info) -> n <= limit ->
  exists out, n + len out <= limit /\
    (rest_of xxh32 dict id at_ l out \/
     exists P, owes xxh32 (defect dict id (n + len out) limit P) dict id at_ l out).
Proof.
  revert at_ n. induction l as [l IH] using (induction_ltof1 _ length); unfold ltof in IH. intros [[info content]|] n Hok Hn.
  - destruct (damage_cases info dict content n limit l) as [(data & l' & Ht & Hl)|[(l1 & l2 & Ht & Hs & Hc)|(P & HP)]].
    + pose proof (take_block_shorter xxh32 _ _ _ _ _ _ Ht) as [Hsh _].
      destruct (IH l' ltac:(lia) (Some (info, content ++ data)) (n + len data)) as (out & Hout & Hr); [|lia|].
      { intros ? ? [= <- <-]. by eapply Hok. }
      exists (data ++ out). split; [len_lia|]. destruct Hr as [Hr|(P & HP)].
      * left. apply (rest_block _ _ _ _ _ _ _ _ _ Ht). by exists out.
      * right. exists P. eapply owes_block; [done|]. replace (n + len (data ++ out)) with (n + len data + len out) by len_lia. done.
    + pose proof (take_block_shorter xxh32 _ _ _ _ _ _ Ht) as [Hsh _].
      assert (len l2 <= len l1) by (apply take_checksum_inv in Hc as ->; len_lia).
      destruct (IH l2 ltac:(lia) None n) as (out & Hout & Hr); [done..|]. exists out. split; [done|].
      destruct Hr as [Hr|(P & HP)]; [left|right].
      * apply (rest_end _ _ _ _ _ _ _ _ Ht). split; [done|]. by exists l2.
      * exists P. by eapply owes_end.
    + exists []. rewrite N.add_0_r. split; [done|]. right. exists P. by apply owes_now.
  - destruct (header_cases id l) as [->|[(info & l' & Hi & Hid & ->)|(P & HP)]].
    + exists []. rewrite N.add_0_r. split; [done|]. left. by apply rest_nil.
    + pose proof (length_header_bytes xxh32 info) as Hh. assert (7 <= write_size info) by
        (unfold write_size, MIN_FRAME_INFO_SIZE; destruct (content_size info), (dict_id info); lia).
      destruct (IH l' ltac:(len_lia) (Some (info, [])) n) as (out & Hout & Hr); [|done|].
      { by intros ? ? [= <- <-]. }
      exists out. split; [done|]. destruct Hr as [Hr|(P & HP)]; [left; by apply rest_header|right].
      exists P. by apply owes_header.
    + exists []. rewrite N.add_0_r. split; [done|]. right. exists P. by apply owes_now.
Qed.

Lemma owes_broken dict id total limit P at_ l out : owes xxh32 (defect dict id total limit P) dict id at_ l out ->
  forall F c, frames xxh32 dict id F c ->
  match at_ with
  | None => broken dict id total limit P (F ++ l) (c ++ out)
  | Some (info, content) => forall bs, info_ok info -> dict_id info = id -> emitted xxh32 info dict bs content ->
      broken dict id total limit P (F ++ header_bytes xxh32 info ++ bs ++ l) (c ++ content ++ out)
  end.
Proof.
  induction 1 as [[[info content]|] l HE|info content l data l' out Hb Ho IH|info content l l1 l2 out Hb Hs Hck Ho IH|
    info l out Hi Hid Ho IH]; intros F c HF.
  - intros bs Hi Hid He. rewrite app_nil_r. by apply broken_inside.
  - rewrite app_nil_r. by apply broken_between.
  - intros bs Hi Hid He. apply take_block_inv in Hb as (b & -> & Hc).
    specialize (IH F c HF (bs ++ b) Hi Hid (emitted_snoc _ _ _ _ _ _ _ He Hc)). by rewrite <-!app_assoc in IH.
  - intros bs Hi Hid He. apply take_block_end in Hb as ->. apply take_checksum_inv in Hck as ->.
    assert (Hf : is_frame xxh32 info dict (header_bytes xxh32 info ++ bs ++ to_le 4 0 ++
      checksum xxh32 (content_checksum info) content) content).
    { split; [done|]. eexists. split; [done|]. eapply emitted_body; [done|]. by constructor. }
    apply frames_one in Hf. rewrite Hid in Hf. specialize (IH _ _ (frames_app _ _ _ _ _ _ _ HF Hf)).
    by rewrite <-!app_assoc in IH.
  - specialize (IH F c HF [] Hi Hid (emitted_nil _ _ _)). done.
Qed.

(** The frames fill the stream, or it is broken. *)
Lemma whole_or_broken dict id limit S n : n <= limit ->
  exists out, n + len out <= limit /\
    (frames xxh32 dict id S out \/ exists P, broken dict id (n + len out) limit P S out).
Proof.
  intros Hn. destruct (stream_cases dict id limit None S n) as (out & Hl & [Hr|(P & HP)]); [done..| |];
    exists out; (split; [done|]); [by left|right].
  exists P. apply (owes_broken _ _ _ _ _ _ _ _ HP [] []). constructor.
Qed.

Lemma broken_owes dict id total limit P S out : broken dict id total limit P S out ->
  owes xxh32 (defect dict id total limit P) dict id None S out.
Proof.
  destruct 1 as [F out l Hf Hb|F c info bs content l Hf Hi Hid He Hd].
  - rewrite <-(app_nil_r out). apply frames_owes; [done|]. by apply owes_now.
  - apply frames_owes; [done|]. apply owes_header; [done..|]. rewrite <-(app_nil_r content).
    apply emitted_owes; [done|]. by apply owes_now.
Qed.
End spec.

Section ops.
Context `{T : Target} (xxh32 : bytes -> N) {R : Type} {HR : Read R} {HL : ReadLaws R}.
Implicit Types (d : FrameDecoder R) (info : FrameInfo) (dict content data block l s : bytes) (id : option N).
Import FrameDecoderImpl.

Definition reports {A} (m : res (FrameDecoder R * IoError) A) (P : IoError -> Prop) : Prop :=
  exists d x, m = Err (d, x) /\ P x.

Lemma reports_bind {A B} (m : res (FrameDecoder R * IoError) A) (k : A -> res _ B) P :
  reports m P -> reports (m ≫= k) P.
Proof. intros (d & x & -> & HP). by exists d, x. Qed.

Lemma reports_err {A} d x (P : IoError -> Prop) : P x -> reports (A:=A) (Err (d, x)) P.
Proof. by exists d, x. Qed.

(** ** The reader *)

Lemma read_bytes_app d a l : left_over d = a ++ l ->
  exists r, read_bytes d (len a) = Ok (set_r r d, a) /\ stream r = l.
Proof. intros Hl. pose proof (read_bytes_ok d (len a)) as H. by rewrite Hl, take_n_app in H. Qed.

Lemma read_bytes_cut d n : len (left_over d) < n -> reports (read_bytes d n) cut.
Proof.
  intros Hl. pose proof (read_bytes_ok d n) as H. unfold take_n in H.
  rewrite (proj2 (N.leb_gt _ _)) in H by done. destruct H as (r & ->). by apply reports_err.
Qed.

Lemma read_bytes_there d n : n <= len (left_over d) ->
  exists r data, read_bytes d n = Ok (set_r r d, data) /\ len data = n /\ len (stream r) = len (left_over d) - n.
Proof.
  intros Hl. pose proof (read_bytes_ok d n) as H. unfold take_n in H.
  rewrite (proj2 (N.leb_le _ _)) in H by done. destruct H as (r & -> & Hs). eexists r, _. split; [done|].
  rewrite Hs. len_lia.
Qed.

(** A checksum that is not there or is another. *)
Lemma checksum_cut d (k : FrameDecoder R * N -> res (FrameDecoder R * IoError) (FrameDecoder R)) :
  len (left_over d) < 4 -> reports ('(d, n) ← read_checksum d; k (d, n)) cut.
Proof. intros Hl. apply reports_bind, reports_bind. by apply read_bytes_cut. Qed.

Lemma checksum_wrong d data s l get :
  (forall r, get (set_r r d) = Ok data) -> left_over d = s ++ l -> len s = 4 -> s <> to_le 4 (xxh32 data) ->
  reports ('(d, expected_checksum) ← read_checksum d; data ← get d;
           _ ← try_io d (check_block_checksum xxh32 data expected_checksum); Ok d) (is_error BlockChecksumError).
Proof.
  intros Hg Hl H4 Hs. destruct (read_bytes_app d s l Hl) as (r & Hr & _). rewrite H4 in Hr.
  unfold read_checksum. rewrite Hr. mstep. rewrite Hg. mstep. unfold check_block_checksum, try_io.
  rewrite checksum_eq, bool_decide_false by done. mstep. by apply reports_err.
Qed.

(** ** The word of a block *)

Lemma read_block_word dict id info content d w l : between dict id info content d ->
  left_over d = to_le 4 w ++ l -> w < 2 ^ 32 ->
  exists d1, ready dict id info content d1 /\ left_over d1 = l /\ fd_bytes_output d1 = fd_bytes_output d /\
    fd_max_output d1 = fd_max_output d /\
    read_block xxh32 d =
      if w =? 0 then d ← read_end_mark xxh32 d1 info; Ok (d, 0)
      else read_data xxh32 d1 info (if 2 ^ 31 <=? w then Uncompressed (w - 2 ^ 31) else Compressed w).
Proof.
  intros Hb Hl Hw. unfold read_block. rewrite (bt_empty _ _ _ _ _ Hb), N.eqb_refl. cbn [assert]. mstep.
  rewrite (bt_open _ _ _ _ _ Hb). mstep. rewrite get_size_max by apply Hb. mstep.
  destruct (window_slide_ok xxh32 _ _ _ _ _ Hb) as (d1 & -> & (s & off & n & ->) & Hr). mstep.
  set (d1 := set_dst_pos s s (set_ext_dict off n d)) in *.
  destruct (read_bytes_app d1 (to_le 4 w) l Hl) as (r & Hrd & Hs). rewrite length_to_le in Hrd.
  change (N.of_nat 4) with 4 in Hrd. rewrite Hrd. mstep. unfold try_io. rewrite block_read_spec.
  change (len (to_le 4 w) <? 4) with false. cbv iota zeta. mstep. rewrite take_ge by done. rewrite from_le_word by done.
  exists (set_r r d1). split; [by apply ready_r|]. split; [done|]. split; [done|]. split; [done|].
  destruct (w =? 0); [done|]. by destruct (2 ^ 31 <=? w).
Qed.

(** ** A block *)

Lemma output_limit dict id d n : config dict id d -> fd_max_output d < fd_bytes_output d + n ->
  check_output_len d n
  = Err (d, io_of_error (DecompressedSizeLimit (fd_max_output d) (shown (fd_bytes_output d) n))).
Proof.
  intros [] Hl. unfold check_output_len, checked_add, fail, shown.
  destruct (N.leb_spec (fd_bytes_output d + n) usize_max).
  - rewrite (proj2 (N.ltb_lt _ _)) by done. by rewrite N.min_l by done.
  - by rewrite N.min_r by lia.
Qed.

Lemma output_room dict id d n : config dict id d -> fd_bytes_output d + n <= fd_max_output d ->
  check_output_len d n = Ok (fd_bytes_output d + n).
Proof. intros Hc Hl. pose proof (check_output_len_ok xxh32 dict id d n Hc) as H. by rewrite (proj2 (N.leb_le _ _)) in H. Qed.

(** Raw data: the bytes are there, or not. *)
Lemma raw_cut dict id info content d n : ready dict id info content d -> n <= max_block info ->
  fd_bytes_output d + n <= fd_max_output d -> len (left_over d) < n + checksum_size (block_checksums info) ->
  reports (read_uncompressed xxh32 d info (max_block info) n) cut.
Proof.
  intros Hr Hn Ho Hl. unfold read_uncompressed. rewrite (proj2 (N.ltb_ge _ _)) by done.
  rewrite (output_room dict id) by (done || by destruct Hr as [[] ? ? ?]). mstep. rewrite resize_ok by lia. mstep.
  destruct (N.ltb_spec (len (left_over d)) n); [by apply reports_bind, read_bytes_cut|].
  destruct (read_bytes_there (set_dst (grow (fd_dst d) (fd_dst_start d + n)) d) n) as (r & data & -> & Hd & Hs); [done|].
  mstep. dfields. change (len (stream r) = len (left_over d) - n) in Hs.
  destruct (read_into_dst xxh32 _ _ _ _ _ data Hr ltac:(lia)) as (v & Hv & _). rewrite Hd in Hv. rewrite Hv. mstep.
  unfold checksum_size in Hl. destruct (block_checksums info); [|lia]. apply reports_bind, reports_bind.
  apply reports_bind, read_bytes_cut. unfold left_over. dfields. lia.
Qed.

Lemma raw_checksum dict id info content d data s l : ready dict id info content d -> len data <= max_block info ->
  fd_bytes_output d + len data <= fd_max_output d -> left_over d = data ++ s ++ l ->
  block_checksums info = true -> len s = 4 -> s <> to_le 4 (xxh32 data) ->
  reports (read_uncompressed xxh32 d info (max_block info) (len data)) (is_error BlockChecksumError).
Proof.
  intros Hr Hn Ho Hl Hc H4 Hs. unfold read_uncompressed. rewrite (proj2 (N.ltb_ge _ _)) by done.
  rewrite (output_room dict id) by (done || by destruct Hr as [[] ? ? ?]). mstep. rewrite resize_ok by lia. mstep.
  destruct (read_bytes_app (set_dst (grow (fd_dst d) (fd_dst_start d + len data)) d) data (s ++ l) Hl) as (r & -> & Hl1).
  mstep. dfields.
  destruct (read_into_dst xxh32 _ _ _ _ _ data Hr Hn) as (v & -> & Hp & _). mstep. rewrite Hc. dfields.
  apply reports_bind.
  apply (checksum_wrong (set_dst v (set_r r d)) data s l
    (fun d' => slice (fd_dst d') (fd_dst_start d') (fd_dst_start d' + len data))); [|done..].
  intros r2. dfields. rewrite slice_ok by (destruct Hp; lia). replace (_ + len data - _) with (len data) by lia.
  by rewrite (put_pending xxh32 _ _ _ Hp).
Qed.

(** A compressed block. *)
Lemma block_cut info d n : n <= max_block info ->
  len (left_over d) < n + checksum_size (block_checksums info) ->
  reports (read_compressed xxh32 d info (max_block info) n) cut.
Proof.
  intros Hn Hl. unfold read_compressed. rewrite (proj2 (N.ltb_ge _ _)) by done.
  rewrite resize_ok by lia. mstep. set (d0 := set_src _ d).
  destruct (N.ltb_spec (len (left_over d)) n); [by apply reports_bind, read_bytes_cut|].
  destruct (read_bytes_there d0 n) as (r & data & -> & Hd & Hs); [done|]. mstep. subst d0. dfields.
  change (len (stream r) = len (left_over d) - n) in Hs.
  destruct (read_into_src xxh32 (E:=FrameDecoder R * IoError) (fd_src d) data) as (v & Hv & _).
  rewrite Hd in Hv. dfields. rewrite Hv. mstep. unfold checksum_size in Hl. destruct (block_checksums info); [|lia].
  apply reports_bind, reports_bind. apply reports_bind, read_bytes_cut. unfold left_over. dfields. lia.
Qed.

Lemma block_checksum info d block s l : len block <= max_block info -> left_over d = block ++ s ++ l ->
  block_checksums info = true -> len s = 4 -> s <> to_le 4 (xxh32 block) ->
  reports (read_compressed xxh32 d info (max_block info) (len block)) (is_error BlockChecksumError).
Proof.
  intros Hn Hl Hc H4 Hs. unfold read_compressed. rewrite (proj2 (N.ltb_ge _ _)) by done.
  rewrite resize_ok by lia. mstep.
  destruct (read_bytes_app (set_src (grow (fd_src d) (len block)) d) block (s ++ l) Hl) as (r & -> & Hl1). mstep. dfields.
  destruct (read_into_src xxh32 (E:=FrameDecoder R * IoError) (fd_src d) block) as (v & -> & [Hv _] & Ht). mstep. rewrite Hc.
  apply reports_bind. apply (checksum_wrong (set_src v (set_r r d)) block s l (fun d' => slice (fd_src d') 0 (len block)));
    [|done..]. intros r2. dfields. rewrite slice_ok by lia. by rewrite N.sub_0_r, sub_0, Nat2N.id, Ht.
Qed.

(** The block under its checksum has been read: what is left is to decode it. *)
Lemma block_body dict id info content d block l (P : IoError -> Prop) : ready dict id info content d ->
  len block <= max_block info -> left_over d = block ++ checksum xxh32 (block_checksums info) block ++ l ->
  match block_decode (block_history info dict content) block with
  | Some data =>
      if max_block info <? len data then forall e, P (io_of_error (DecompressionError e))
      else fd_max_output d < fd_bytes_output d + len data /\
        P (io_of_error (DecompressedSizeLimit (fd_max_output d) (shown (fd_bytes_output d) (len data))))
  | None => forall e, P (io_of_error (DecompressionError e))
  end ->
  reports (read_compressed xxh32 d info (max_block info) (len block)) P.
Proof.
  intros Hr Hn Hl HP. unfold read_compressed. rewrite (proj2 (N.ltb_ge _ _)) by done.
  rewrite resize_ok by lia. mstep.
  destruct (read_bytes_app (set_src (grow (fd_src d) (len block)) d) block _ Hl) as (r & -> & Hl1). mstep. dfields.
  destruct (read_into_src xxh32 (E:=FrameDecoder R * IoError) (fd_src d) block) as (v & -> & [Hv Hvm] & Ht). mstep.
  change (set_src v (set_r r (set_src _ d))) with (set_src v (set_r r d)).
  pose proof (block_checksum_ok xxh32 (block_checksums info) (set_src v (set_r r d)) block
    (fun d' => slice (fd_src d') 0 (len block))) as Hck. cbv zeta in Hck.
  unfold left_over at 1 in Hck. dfields. rewrite Hl1, take_checksum_app in Hck. destruct Hck as (r2 & _ & ->).
  { intros r2. rewrite slice_ok by lia. by rewrite N.sub_0_r, sub_0, Nat2N.id, Ht. }
  mstep. dfields. set (d2 := set_r r2 (set_src v (set_r r d))).
  assert (Hr2 : ready dict id info content d2).
  { apply ready_r, (ready_src xxh32); [done|]. pose proof (max_block_le info). unfold max_src. lia. }
  pose proof (decompress_loop_ok xxh32 _ _ _ _ _ block (N.min (max_block info) (match content_size info with
    | Some size => usize_or_max (size - fd_content_len d2) | None => usize_max end)) Hr2 ltac:(lia) Hn ltac:(done) Ht) as [H _].
  change (fd_content_len d2) with (fd_content_len d) in H.
  destruct (decompress_loop _ _ _ _ _) as [[e k]|[e x]| |]; [| |done..]; cbn [decode_post] in H; mstep.
  - destruct H as (w & data & -> & -> & Hlen & Hd & Hp & _). rewrite Hd, (proj2 (N.ltb_ge _ _)) in HP by done.
    destruct HP as [Hlim HP]. rewrite (output_limit dict id (set_dst w d2)); [mstep; by apply reports_err| |done].
    destruct Hr2 as [[[] ? ? ? ? ? ? ? ? ? ?] ? ? ?], Hp. split; dfields; done || lia.
  - destruct H as (w & -> & _ & _ & Hd). apply reports_err. destruct (block_decode _ block) as [data|]; [|apply HP].
    by rewrite (proj2 (N.ltb_lt _ _)) in HP by by apply Hd.
Qed.

(** The end of a frame. *)
Lemma end_size info d n : content_size info = Some n -> n <> fd_content_len d ->
  reports (read_end_mark xxh32 d info) (is_error (ContentLengthError n (fd_content_len d))).
Proof.
  intros Hc Hn. unfold read_end_mark. rewrite Hc. rewrite (proj2 (N.eqb_neq _ _)) by congruence. by apply reports_err.
Qed.

Lemma end_checksum info d P : (forall n, content_size info = Some n -> n = fd_content_len d) ->
  content_checksum info = true ->
  reports ('(d, n) ← read_checksum d;
           if negb (xxh32 (fd_content_hasher d) mod 2 ^ 32 =? n) then fail d ContentChecksumError else Ok d) P ->
  reports (A:=FrameDecoder R) (read_end_mark xxh32 d info) P.
Proof.
  intros Hs Hc HP. unfold read_end_mark. rewrite Hc. destruct (content_size info) as [n|].
  - specialize (Hs n eq_refl). rewrite Hs, N.eqb_refl. cbn [negb]. mstep. by apply reports_bind.
  - mstep. by apply reports_bind.
Qed.

(** The three kinds of word. *)
Definition after_word dict id info content d l (f : FrameDecoder R -> Prop) : Prop :=
  forall d1, ready dict id info content d1 -> left_over d1 = l -> fd_bytes_output d1 = fd_bytes_output d ->
    fd_max_output d1 = fd_max_output d -> f d1.

Lemma raw_word dict id info content d n l P : between dict id info content d ->
  left_over d = to_le 4 (n + 2 ^ 31) ++ l -> n < 2 ^ 31 ->
  after_word dict id info content d l (fun d1 => reports (read_uncompressed xxh32 d1 info (max_block info) n) P) ->
  reports (read_block xxh32 d) P.
Proof.
  intros Hb Hl Hn H. destruct (read_block_word _ _ _ _ _ _ _ Hb Hl ltac:(lia)) as (d1 & Hr & Hl1 & Ho & Hm & ->).
  rewrite (proj2 (N.eqb_neq _ _)), (proj2 (N.leb_le _ _)) by lia. apply reports_bind.
  replace (n + 2 ^ 31 - 2 ^ 31) with n by lia. by apply H.
Qed.

Lemma block_word dict id info content d n l P : between dict id info content d ->
  left_over d = to_le 4 n ++ l -> 0 < n -> n < 2 ^ 31 ->
  after_word dict id info content d l (fun d1 => reports (read_compressed xxh32 d1 info (max_block info) n) P) ->
  reports (read_block xxh32 d) P.
Proof.
  intros Hb Hl Hz Hn H. destruct (read_block_word _ _ _ _ _ _ _ Hb Hl ltac:(lia)) as (d1 & Hr & Hl1 & Ho & Hm & ->).
  rewrite (proj2 (N.eqb_neq _ _)), (proj2 (N.leb_gt _ _)) by lia. apply reports_bind. by apply H.
Qed.

Lemma end_word dict id info content d l P : between dict id info content d -> left_over d = to_le 4 0 ++ l ->
  after_word dict id info content d l (fun d1 => reports (read_end_mark xxh32 d1 info) P) ->
  reports (read_block xxh32 d) P.
Proof.
  intros Hb Hl H. destruct (read_block_word _ _ _ _ _ _ _ Hb Hl ltac:(lia)) as (d1 & Hr & Hl1 & Ho & Hm & ->).
  apply reports_bind. by apply H.
Qed.

Lemma read_block_damaged dict id info content d P : between dict id info content d ->
  damage xxh32 info dict content (fd_bytes_output d) (fd_max_output d) (left_over d) P ->
  reports (read_block xxh32 d) P.
Proof.
  intros Hb Hdm. pose proof (max_block_pos _ (bt_info _ _ _ _ _ Hb)) as Hm.
  remember (left_over d) as L eqn:Hleft. symmetry in Hleft. destruct Hdm as [l Hl|n l [] Hn Hn2|n l Hn Hlim|n l Hn Ho Hl|
    n l Hz Hn Hl|data s l Hn Ho Hc H4 Hs|block s l Hz Hn Hc H4 Hs|block l Hz Hn Hd|block data l Hz Hn Hd Hdl Hlim|
    n l Hc Hn|l Hs Hc Hl|s l Hs Hc H4 Hne].
  - unfold read_block. rewrite (bt_empty _ _ _ _ _ Hb), N.eqb_refl. cbn [assert]. mstep.
    rewrite (bt_open _ _ _ _ _ Hb). mstep. rewrite get_size_max by apply Hb. mstep.
    destruct (window_slide_ok xxh32 _ _ _ _ _ Hb) as (d1 & -> & (s & off & n & ->) & Hr). mstep.
    apply reports_bind, read_bytes_cut. change (len (left_over d) < 4). by rewrite Hleft.
  - eapply raw_word; [done|done|lia|]. intros d1 Hr Hl1 Hb1 Hm1. unfold read_uncompressed.
    rewrite (proj2 (N.ltb_lt _ _)) by done. by apply reports_err.
  - eapply block_word; [done|done|lia|lia|]. intros d1 Hr Hl1 Hb1 Hm1. unfold read_compressed.
    rewrite (proj2 (N.ltb_lt _ _)) by done. by apply reports_err.
  - eapply raw_word; [done|done|lia|]. intros d1 Hr Hl1 Hb1 Hm1. unfold read_uncompressed.
    rewrite (proj2 (N.ltb_ge _ _)) by done. rewrite (output_limit dict id) by (lia || by destruct Hr as [[] ? ? ?]).
    rewrite Hb1, Hm1. by apply reports_err.
  - eapply raw_word; [done|done|lia|]. intros d1 Hr Hl1 Hb1 Hm1.
    apply (raw_cut dict id info content); [done|done|lia|by rewrite Hl1].
  - eapply block_word; [done|done|lia|lia|]. intros d1 Hr Hl1 Hb1 Hm1. apply block_cut; [done|by rewrite Hl1].
  - eapply raw_word; [done|done|lia|]. intros d1 Hr Hl1 Hb1 Hm1.
    apply (raw_checksum dict id info content d1 data s l); try done. lia.
  - eapply block_word; [done|done|lia|lia|]. intros d1 Hr Hl1 Hb1 Hm1. by apply (block_checksum info d1 block s l).
  - eapply block_word; [done|done|lia|lia|]. intros d1 Hr Hl1 Hb1 Hm1.
    apply (block_body dict id info content d1 block l); try done. destruct (block_decode _ _) as [data|].
    + rewrite (proj2 (N.ltb_lt _ _)) by by apply Hd. intros e. by exists e.
    + intros e. by exists e.
  - eapply block_word; [done|done|lia|lia|]. intros d1 Hr Hl1 Hb1 Hm1.
    apply (block_body dict id info content d1 block l); try done. rewrite Hd, (proj2 (N.ltb_ge _ _)) by done.
    rewrite Hb1, Hm1. by split.
  - eapply end_word; [done..|]. intros d1 Hr _ _ _. pose proof (bt_len _ _ _ _ _ (rd_between _ _ _ _ _ Hr)) as Hlen.
    rewrite <-Hlen. apply end_size; [done|congruence].
  - eapply end_word; [done..|]. intros d1 Hr Hl1 _ _. pose proof (bt_len _ _ _ _ _ (rd_between _ _ _ _ _ Hr)) as Hlen.
    apply end_checksum; [by rewrite Hlen|done|]. apply (checksum_cut d1 (fun '(d, n) => _)). by rewrite Hl1.
  - eapply end_word; [done..|]. intros d1 Hr Hl1 _ _. pose proof (rd_between _ _ _ _ _ Hr) as [].
    apply end_checksum; [by rewrite bt_len|done|]. destruct (read_bytes_app d1 s l Hl1) as (r & Hrd & _).
    rewrite H4 in Hrd. unfold read_checksum. rewrite Hrd. mstep. dfields.
    rewrite bt_hasher, checksum_eq, bool_decide_false by done. by apply reports_err.
Qed.

(** ** A header *)

Lemma check_dict_id_error actual expected e : dict_error actual expected e -> check_dict_id actual expected = Err e.
Proof. destruct 1 as [| |a b Hab]; cbn; [done..|]. by rewrite (proj2 (N.eqb_neq _ _)). Qed.

Lemma read_frame_info_bad dict id d P : idle dict id d -> bad_header xxh32 id (left_over d) P ->
  reports (read_frame_info xxh32 d) P.
Proof.
  intros Hi Hbad%bad_header_refused. destruct (read_frame_info_start xxh32 d) as
    [(HS & r & Hr & ->)|[(Hne & Hs & r & ->)|(H7 & r & buffer & Hf & ->)]].
  - exfalso. rewrite HS in Hbad. destruct Hbad as [|? H7|? H7|? ? H7|info l e _ Hl]; [done|cbn in H7; lia..|].
    symmetry in Hl. by apply header_nonempty in Hl.
  - apply reports_err. destruct Hbad as [|? H7|? H7|? ? H7|info l e Hinfo Hl]; [done|lia|done|lia|].
    pose proof (header_facts xxh32 info l Hinfo) as (H7 & _). rewrite <-Hl in H7. lia.
  - pose proof Hf as (_ & _ & Ht & _). unfold header_rest. change 7%nat with (N.to_nat 7). rewrite Ht.
    change (N.to_nat 7) with 7%nat. unfold try_io. change MIN_FRAME_INFO_SIZE with 7.
    assert (Hpart : forall n (P : IoError -> Prop), read_size (take 7 (left_over d)) = Ok n ->
      (7 <= n <= 19 -> forall r buffer, filled (left_over d) buffer n (set_r r d) ->
         reports (parse_header xxh32 (set_r r d) buffer n) P) ->
      (len (left_over d) < n -> P (Simple UnexpectedEof)) ->
      reports ('(d, buffer) ← (if n =? 7 then Ok (set_r r d, buffer) else read_into (set_r r d) buffer 7 n);
               parse_header xxh32 d buffer n) P).
    { intros n Q Hn Hok Hcut. destruct (read_size_bounds xxh32 (take 7 (left_over d)) ltac:(len_lia)) as [(k & Hk & Hb)|(x & Hx)];
        [|congruence]. rewrite Hk in Hn. injection Hn as <-.
      pose proof (read_into_ok xxh32 _ _ _ k _ Hf ltac:(lia) ltac:(lia)) as H. cbv zeta in H. rewrite N.eqb_sym in H.
      destruct (N.leb_spec k (len (left_over d))).
      - destruct H as (r2 & buffer2 & -> & Hf2). mstep. by apply Hok.
      - destruct H as (r2 & ->). mstep. by apply reports_err, Hcut. }
    destruct Hbad as [|e _ He|n _ Hn Hlen|n e _ Hn Hlen He|info l e Hinfo Hl He]; [lia|..].
    + rewrite He. mstep. by apply reports_err.
    + rewrite Hn. mstep. apply Hpart; [done| |done]. intros _ r2 b2 (_ & Hk & _). lia.
    + rewrite Hn. mstep. apply Hpart; [done| |lia]. intros Hn19 r2 b2 (Hb2 & Hk & Ht2 & _). unfold parse_header.
      rewrite slice_ok by lia. mstep. rewrite N.sub_0_r, sub_0, Ht2, He. by apply reports_err.
    + pose proof (header_facts xxh32 info l Hinfo) as (_ & Hsz & Hw & Hh). rewrite <-Hl in *. rewrite Hsz. mstep.
      apply Hpart; [done| |lia]. intros Hn19 r2 b2 (Hb2 & Hk & Ht2 & _). unfold parse_header.
      rewrite slice_ok by lia. mstep. rewrite N.sub_0_r, sub_0, Ht2, Hh. unfold try_io. mstep. dfields.
      rewrite (cf_id _ _ _ (id_config _ _ _ Hi)), (check_dict_id_error _ _ _ He). by apply reports_err.
Qed.

(** ** The loop *)

Lemma more_defect dict id P at_ l out fuel d :
  owes xxh32 (defect xxh32 dict id (fd_bytes_output d) (fd_max_output d) P) dict id at_ l out -> out = [] ->
  at_block dict id at_ d -> left_over d = l -> (length l < fuel)%nat -> reports (read_more xxh32 fuel d) P.
Proof.
  remember (fd_bytes_output d) as total eqn:Ht. remember (fd_max_output d) as limit eqn:Hm. intros Ho.
  revert fuel d Ht Hm. induction Ho as [at_ l HE|info content l data l' out Hb Ho IH|info content l l1 l2 out Hb Hs Hck Ho IH|
    info l out Hi Hid Ho IH]; intros fuel d Ht Hm Hout Hat Hl Hf; (destruct fuel as [|fuel]; [lia|]); cbn [read_more].
  - subst. destruct at_ as [[info content]|]; cbn [at_block defect] in *.
    + rewrite (bt_open _ _ _ _ _ Hat). mstep. cbn [negb].
      destruct (read_block_damaged _ _ _ _ _ _ Hat HE) as (e & x & -> & HP). by apply reports_err.
    + rewrite (id_closed _ _ _ Hat). destruct (read_frame_info_bad _ _ _ _ Hat HE) as (e & x & -> & HP). by apply reports_err.
  - apply app_eq_nil in Hout as [-> ->]. rewrite (bt_open _ _ _ _ _ Hat). mstep. cbn [negb].
    pose proof (read_block_ok xxh32 _ _ _ _ _ Hat) as H. unfold block_post in H. rewrite Hl, Hb in H.
    pose proof (cf_output _ _ _ (bt_config _ _ _ _ _ Hat)).
    rewrite (proj2 (N.leb_le _ _)) in H by (cbn [length]; lia). destruct H as (d' & -> & Hd & Hl' & Hby & Hmx & _). mstep.
    cbn [length] in *. apply take_block_shorter in Hb as [Hsh _].
    apply IH; [lia|congruence|done|by apply decoded_empty|done|lia].
  - rewrite (bt_open _ _ _ _ _ Hat). mstep. cbn [negb].
    pose proof (read_block_ok xxh32 _ _ _ _ _ Hat) as H. unfold block_post in H. rewrite Hl, Hb in H.
    destruct H as [(l3 & d' & _ & Hck2 & -> & Hi & Hl' & Hby & Hmx & _)|[Hno _]]; [|exfalso; apply Hno; by eauto].
    rewrite Hck in Hck2. injection Hck2 as <-. mstep. cbn [N.eqb negb]. apply take_block_shorter in Hb as [Hsh _].
    assert (len l2 <= len l1) by (apply take_checksum_inv in Hck as ->; len_lia).
    apply IH; [congruence|congruence|done|done|done|lia].
  - rewrite (id_closed _ _ _ Hat).
    destruct (read_frame_info_ok xxh32 _ _ _ Hat) as
      [(d' & _ & _ & Hnil & _)|[(d' & n & info' & Hr & Hn & Hb & _ & Hl' & Hmx & Hby)|[_ [_ Hno]]]].
    + rewrite Hl in Hnil. by apply header_nonempty in Hnil.
    + rewrite Hl in Hl'. apply header_unique in Hl' as [<- Hl']; [|done|apply Hb]. rewrite Hr. mstep.
      rewrite (proj2 (N.eqb_neq _ _) Hn). cbn [negb].
      specialize (IH (S fuel) d' ltac:(congruence) ltac:(congruence) Hout Hb ltac:(done) ltac:(len_lia)).
      cbn [read_more] in IH. rewrite (bt_open _ _ _ _ _ Hb) in IH. exact IH.
    + by destruct (Hno info l Hi Hid).
Qed.

(** ** Errors of the output limit *)

Lemma owes_point E dict id at_ l out : owes xxh32 E dict id at_ l out ->
  (forall info content, at_ = Some (info, content) -> info_ok info) ->
  exists at' l', E at' l' /\ (forall info content, at' = Some (info, content) -> info_ok info).
Proof.
  induction 1 as [at_ l HE|info content l data l' out Hb Ho IH|info content l l1 l2 out Hb Hs Hck Ho IH|
    info l out Hi Hid Ho IH]; intros Hok; [by exists at_, l|apply IH..]; [|done|].
  - intros ? ? [= <- <-]. by eapply Hok.
  - by intros ? ? [= <- <-].
Qed.

Lemma is_error_limit e x : is_error e x -> is_limit x = true -> is_limit (io_of_error e) = true.
Proof. by intros ->. Qed.

Lemma defect_limit dict id total limit P at_ l x : defect xxh32 dict id total limit P at_ l -> P x -> is_limit x = true ->
  limit < total + 4194304.
Proof.
  intros Hd HP Hx. destruct at_ as [[info content]|]; cbn [defect] in Hd.
  - pose proof (max_block_le info). destruct Hd; try (by apply (is_error_limit _ _ HP) in Hx); try lia;
      try (by subst x); try (unfold cut in HP; by subst x). destruct HP as (e & HP). by apply (is_error_limit _ _ HP) in Hx.
  - pose proof (fun l => calm_header xxh32 is_limit l (or_intror eq_refl)) as Hc.
    destruct (bad_header_refused _ _ _ _ Hd) as [|e _ He|n _ Hn|n e _ _ _ He|info l' e _ _ He]; try (unfold cut in HP; by subst x);
      apply (is_error_limit _ _ HP) in Hx.
    + by rewrite (proj1 (Hc _) _ He) in Hx.
    + by rewrite (proj1 (proj2 (Hc _)) _ He) in Hx.
    + by destruct He.
Qed.

(** The limit is an error only when it is nearly reached. *)
Lemma read_more_limit dict id at_ fuel d d' x : at_block dict id at_ d -> (length (left_over d) < fuel)%nat ->
  read_more xxh32 fuel d = Err (d', x) -> is_limit x = true -> fd_max_output d < fd_bytes_output d + 4194304.
Proof.
  intros Hat Hf Hr Hx. pose proof (cf_output _ _ _ (at_block_config _ _ _ _ Hat)) as Hlim.
  assert (Hok : forall info content, at_ = Some (info, content) -> info_ok info)
    by (intros info content ->; exact (bt_info _ _ _ _ _ Hat)).
  pose proof (read_more_ok xxh32 _ _ fuel _ _ Hat Hf) as Hpost. rewrite Hr in Hpost. destruct Hpost as (_ & _ & _ & _ & Hno).
  destruct (stream_cases xxh32 dict id (fd_max_output d) at_ (left_over d) (fd_bytes_output d) Hok Hlim)
    as (out & Hfit & [Hrest|(P & Ho)]); [apply Hno in Hrest; lia|].
  destruct (decide (out = [])) as [->|Hne].
  - rewrite N.add_0_r in Ho. destruct (more_defect dict id P at_ _ [] fuel d Ho eq_refl Hat eq_refl Hf) as (e & y & Hr2 & HP).
    rewrite Hr in Hr2. injection Hr2 as <- <-.
    destruct (owes_point _ _ _ _ _ _ Ho Hok) as (at' & l' & Hd & _). by apply (defect_limit _ _ _ _ _ _ _ _ Hd HP).
  - destruct (more_owes xxh32 _ _ _ _ _ _ Ho Hne fuel d Hat eq_refl Hf Hfit) as (e & i & c & data & o & Hr2 & _).
    by rewrite Hr in Hr2.
Qed.

(** [read_to_end] hands out everything before the defect and reports it. *)
Lemma read_to_end_defect dict id total P fuel d (buf out : bytes) (written : N) :
  owed xxh32 (defect xxh32 dict id total (fd_max_output d) P) dict id d out -> total = handed d + len out ->
  (length (left_over d) + length out < fuel)%nat ->
  exists d' x, read_to_end xxh32 fuel d buf written = Err (d', buf ++ out, x) /\ P x.
Proof.
  remember (fd_max_output d) as limit eqn:Hm.
  revert d buf out written Hm. induction fuel as [|fuel IH]; intros d buf out written Hm Hw Ht Hf; [lia|]. cbn [read_to_end].
  destruct out as [|y out].
  - destruct Hw as (at_ & out' & Ho & Hp & Hw & Hlim). symmetry in Hp. apply app_eq_nil in Hp as [Hp ->].
    pose proof (length_pending_out xxh32 _ _ _ _ Ho) as Hlp. rewrite Hp in Hlp. cbn [length] in *.
    pose proof Ho as [Hse _ _ Hat]. assert (He : fd_dst_start d = fd_dst_end d) by lia.
    rewrite set_dst_pos_same in Hat by done. pose proof (fill_buf_ok xxh32 _ _ (S fuel) _ _ Ho ltac:(lia)) as Hpost.
    assert (Hr : reports (fill_buf xxh32 (S fuel) d) P).
    { unfold fill_buf. rewrite (proj2 (N.eqb_eq _ _) He). apply reports_bind, reports_bind.
      apply (more_defect dict id P at_ (left_over d) [] (S fuel) d); [|done|done|done|lia].
      rewrite <-Hm. unfold handed in Ht. by replace (fd_bytes_output d) with total by lia. }
    destruct Hr as (e & x & Hr & HP). rewrite Hr in Hpost |- *. destruct Hpost as (Hx & _). rewrite Hx, app_nil_r.
    by exists e, x.
  - destruct (fill_owed xxh32 _ _ _ (S fuel) _ _ Hw ltac:(done) ltac:(lia)) as ([d1 b] & Hfill & -> & Hb & Hw1 & Hl1).
    destruct Hw as (at_ & _ & Ho & _). pose proof (fill_buf_ok xxh32 _ _ (S fuel) _ _ Ho ltac:(lia)) as Hpost.
    rewrite Hfill in Hpost |- *. destruct Hpost as (_ & Hm1 & Hh1 & _).
    destruct Hw1 as (at1 & o1 & Ho1 & Hout & Hw1 & Hlim). set (p := pending d1) in *.
    destruct p as [|z q] eqn:Hp; [done|]. rewrite <-Hp in *. set (d2 := set_content_reserve None d1).
    pose proof (open_at_reserve _ _ _ _ None Ho1) as Ho2. fold d2 in Ho2.
    change (slice (fd_dst d2) (fd_dst_start d2) (fd_dst_end d2)) with
      (slice (E:=FrameDecoder R * bytes * IoError) (fd_dst d1) (fd_dst_start d1) (fd_dst_end d1)).
    rewrite slice_ok by (destruct Ho1; done). mstep. change (sub (fd_dst d1) _ _) with (pending d2).
    destruct (consume_ok xxh32 _ _ _ _ (len (pending d2)) Ho2 (N.le_refl _)) as (d3 & -> & Ho3 & Hp3 & Hh3 & Hm3 & Hl3). mstep.
    change (fd_max_output d2) with (fd_max_output d1) in Hm3. change (handed d2) with (handed d1) in Hh3.
    change (left_over d2) with (left_over d1) in Hl3. change (pending d2) with p in *. rewrite drop_ge in Hp3 by lia.
    assert (Hlen : (length (y :: out) = length p + length o1)%nat) by (rewrite Hout; apply length_app).
    rewrite Hlen in Ht, Hf, Hlim. rewrite Hout, app_assoc.
    assert (0 < length p)%nat by (rewrite Hp; cbn; lia).
    apply IH; [congruence| |lia|rewrite Hl3; lia].
    exists at1, o1. rewrite Hp3, Hl3. split; [done|]. split; [done|]. split; [done|]. lia.
Qed.
End ops.
