(* ===== verification/FrameReaders.v ===== *)
(** * One decoder over two readers

    A call of the frame decoder, and the same call on a decoder that differs in
    its reader only.  [replays] says that the second run does what the first
    did when its reader delivers the chunks that the first run was given; its
    rules follow the structure of the code, and every method has a lemma.  The
    correspondence of the readers is a parameter. *)

From S2P Require Import Prelude Core Decompress FrameHeader FrameIO FrameDecoder.

(** ** Two runs

    [m] ran; [m' t] is the run with the chunks [t] still to be delivered.  [f t a]
    is the result that corresponds to [a] when the chunks [t] are left. *)
Section runs.
Context {E1 E2 : Type} (Re : E1 -> E2 -> Prop).

Definition replays {A1 A2} (f : list bytes -> A1 -> A2) (m : res E1 A1) (m' : list bytes -> res E2 A2) : Prop :=
  match m with
  | Ok a => exists t, forall rest, m' (t ++ rest) = Ok (f rest a)
  | Err e => exists t e', m' t = Err e' /\ Re e e'
  | Panic => exists t, m' t = Panic
  | NoFuel => exists t, m' t = NoFuel
  end.

(** A run that does not read. *)
Definition lockstep {A1 A2} (f : A1 -> A2) (m : res E1 A1) (m' : res E2 A2) : Prop :=
  match m with
  | Ok a => m' = Ok (f a)
  | Err e => exists e', m' = Err e' /\ Re e e'
  | Panic => m' = Panic
  | NoFuel => m' = NoFuel
  end.

Lemma replays_bind {A1 A2 B1 B2} (f : list bytes -> A1 -> A2) (g : list bytes -> B1 -> B2) m m' k k' :
  replays f m m' -> (forall a, replays g (k a) (fun t => k' (f t a))) ->
  replays g (m ≫= k) (fun t => m' t ≫= k').
Proof.
  intros Hm Hk. destruct m as [a|e| |]; cbn in Hm |- *.
  - destruct Hm as (t & Ht). specialize (Hk a). unfold replays in Hk. destruct (k a) as [b|e| |].
    + destruct Hk as (t2 & Hk). exists (t ++ t2). intros rest. by rewrite <-app_assoc, Ht; cbn.
    + destruct Hk as (t2 & e' & Hk & He). exists (t ++ t2), e'. by rewrite Ht; cbn.
    + destruct Hk as (t2 & Hk). exists (t ++ t2). by rewrite Ht; cbn.
    + destruct Hk as (t2 & Hk). exists (t ++ t2). by rewrite Ht; cbn.
  - destruct Hm as (t & e' & Hm & He). exists t, e'. by rewrite Hm.
  - destruct Hm as (t & Hm). exists t. by rewrite Hm.
  - destruct Hm as (t & Hm). exists t. by rewrite Hm.
Qed.

Lemma lockstep_replays {A1 A2} (f : list bytes -> A1 -> A2) m m' :
  (forall t, lockstep (f t) m (m' t)) -> replays f m m'.
Proof.
  intros H. destruct m; cbn in *; [by exists []| |by exists []..].
  destruct (H []) as (e' & ? & ?). by exists [], e'.
Qed.

Lemma lockstep_bind {A1 A2 B1 B2} (f : A1 -> A2) (g : B1 -> B2) m m' k k' :
  lockstep f m m' -> (forall a, lockstep g (k a) (k' (f a))) -> lockstep g (m ≫= k) (m' ≫= k').
Proof.
  intros Hm Hk. destruct m; cbn in Hm |- *; [by subst m'; cbn| |by subst m'..].
  destruct Hm as (e' & -> & He). by exists e'.
Qed.

(** First a step that does not read. *)
Lemma replays_step {A1 A2 B1 B2} (f : list bytes -> A1 -> A2) (g : list bytes -> B1 -> B2) m m' k k' :
  (forall t, lockstep (f t) m (m' t)) -> (forall a, replays g (k a) (fun t => k' t (f t a))) ->
  replays g (m ≫= k) (fun t => m' t ≫= k' t).
Proof.
  intros Hm Hk. destruct m as [a|e| |]; cbn in Hm |- *.
  - specialize (Hk a). unfold replays in *. destruct (k a) as [b|e| |].
    + destruct Hk as (t & Hk). exists t. intros rest. rewrite Hm. cbn. apply Hk.
    + destruct Hk as (t & e' & Hk). exists t, e'. by rewrite Hm.
    + destruct Hk as (t & Hk). exists t. by rewrite Hm.
    + destruct Hk as (t & Hk). exists t. by rewrite Hm.
  - destruct (Hm []) as (e' & He & ?). exists [], e'. by rewrite He.
  - exists []. by rewrite Hm.
  - exists []. by rewrite Hm.
Qed.

Lemma lockstep_ok {A1 A2} (f : A1 -> A2) a a' : a' = f a -> lockstep f (Ok a) (Ok a').
Proof. by intros ->. Qed.

(** The checked accesses. *)
Ltac same_access := intros; repeat case_match; done.

Lemma lockstep_slice {A} (v : list A) a b : lockstep id (slice v a b) (slice v a b).
Proof. unfold slice. same_access. Qed.

Lemma lockstep_slice_from {A} (v : list A) a : lockstep id (slice_from v a) (slice_from v a).
Proof. unfold slice_from. same_access. Qed.

Lemma lockstep_write_at {A} (v : list A) a d : lockstep id (write_at v a d) (write_at v a d).
Proof. unfold write_at. same_access. Qed.

Lemma lockstep_usub a b : lockstep id (usub a b) (usub a b).
Proof. unfold usub. same_access. Qed.

Lemma lockstep_uadd `{T : Target} a b : lockstep id (uadd a b) (uadd a b).
Proof. unfold uadd. same_access. Qed.

Lemma lockstep_sum m a b : lockstep id (checked_sum m a b) (checked_sum m a b).
Proof. unfold checked_sum. same_access. Qed.

Lemma lockstep_assert b : lockstep id (assert b) (assert b).
Proof. unfold assert. same_access. Qed.

Lemma lockstep_get_size s : lockstep id (BlockSizeImpl.get_size s) (BlockSizeImpl.get_size s).
Proof. unfold BlockSizeImpl.get_size. same_access. Qed.

Lemma lockstep_sink_new out pos : lockstep id (SliceSinkImpl.new out pos) (SliceSinkImpl.new out pos).
Proof. unfold SliceSinkImpl.new. eapply lockstep_bind; [apply lockstep_slice|done]. Qed.

Lemma lockstep_vec_resize v a b : lockstep id (vec_resize_and_get_mut v a b) (vec_resize_and_get_mut v a b).
Proof. unfold vec_resize_and_get_mut. by eapply lockstep_bind; [apply lockstep_slice|]. Qed.

Lemma lockstep_vec_sink `{T : Target} v a b :
  lockstep id (vec_sink_for_decompression v a b) (vec_sink_for_decompression v a b).
Proof.
  unfold vec_sink_for_decompression. eapply lockstep_bind; [apply lockstep_slice|]. intros head.
  by eapply lockstep_bind; [apply lockstep_sink_new|].
Qed.
End runs.

Create HintDb lockstep.
#[export] Hint Resolve lockstep_slice lockstep_slice_from lockstep_write_at lockstep_usub lockstep_uadd lockstep_sum
  lockstep_assert lockstep_get_size lockstep_sink_new lockstep_vec_resize lockstep_vec_sink : lockstep.

(** The next step is a checked access of both runs. *)
Ltac access_step :=
  first [ eapply (replays_step _ (fun _ => id)); [intros; solve [auto with lockstep]|]
        | eapply (lockstep_bind _ id); [solve [auto with lockstep]|] ]; cbn [id].

(** ** Decoders *)

(** [d] with another reader. *)
Definition with_reader {R1 R2} (r : R2) (d : FrameDecoder R1) : FrameDecoder R2 :=
  {| fd_r := r; fd_current_frame_info := fd_current_frame_info d;
     fd_content_hasher := fd_content_hasher d; fd_content_len := fd_content_len d;
     fd_src := fd_src d; fd_dst := fd_dst d; fd_ext_dict_offset := fd_ext_dict_offset d;
     fd_ext_dict_len := fd_ext_dict_len d; fd_dst_start := fd_dst_start d;
     fd_dst_end := fd_dst_end d; fd_dict := fd_dict d;
     fd_expected_dict_id := fd_expected_dict_id d; fd_max_output := fd_max_output d;
     fd_bytes_output := fd_bytes_output d; fd_content_reserve := fd_content_reserve d;
     fd_src_reserve := fd_src_reserve d; fd_dst_reserve := fd_dst_reserve d |}.

Section methods.
Context `{T : Target} (xxh32 : bytes -> N) {R1 R2 : Type} {HR1 : Read R1} {HR2 : Read R2}.
Implicit Types (d : FrameDecoder R1) (info : FrameInfo).
Import FrameDecoderImpl.

(** The reader of the second run when the chunks are left; the readers and the
    errors after a failed call. *)
Context (conv : list bytes -> R1 -> R2) (Rr : R1 -> R2 -> Prop) (Rx : IoError -> IoError -> Prop).

Definition image t d : FrameDecoder R2 := with_reader (conv t (fd_r d)) d.
Definition image_with {A} t (p : FrameDecoder R1 * A) : FrameDecoder R2 * A := (image t p.1, p.2).

Definition same_failure : FrameDecoder R1 * IoError -> FrameDecoder R2 * IoError -> Prop :=
  fun '(d1, x1) '(d2, x2) => (exists r, d2 = with_reader r d1 /\ Rr (fd_r d1) r) /\ Rx x1 x2.

Hypothesis conv_ok : forall t r, Rr r (conv t r).
Hypothesis same_ok : forall x, Rx x x.
Hypothesis exact_ok : forall r n,
  replays (fun '(r, x) '(r', x') => Rr r r' /\ Rx x x') (fun t (p : R1 * bytes) => (conv t p.1, p.2))
    (read_exact r n) (fun t => read_exact (conv t r) n).

Abbreviation run := (replays same_failure).
Abbreviation step := (lockstep same_failure).

Lemma image_failure t d x : same_failure (d, x) (image t d, x).
Proof using conv_ok same_ok. split; [by eexists|done]. Qed.

Lemma try_io_step {A} t d (m : res Error A) : step id (try_io d m) (try_io (image t d) m).
Proof using conv_ok same_ok.
  unfold try_io. destruct m; cbn; try done. eexists. split; [done|apply image_failure].
Qed.

Lemma fail_step {A1 A2} (f : A1 -> A2) t d x : step f (fail d x) (fail (image t d) x).
Proof using conv_ok same_ok. eexists. split; [done|apply image_failure]. Qed.

Lemma read_bytes_run d n : run image_with (read_bytes d n) (fun t => read_bytes (image t d) n).
Proof using exact_ok.
  unfold read_bytes, on_r. pose proof (exact_ok (fd_r d) n) as H.
  destruct (read_exact (fd_r d) n) as [[r b]|[r x]| |]; cbn in H |- *.
  - destruct H as (t & H). exists t. intros rest. by rewrite H.
  - destruct H as (t & [r' x'] & H & Hr & Hx). eexists t, _. rewrite H. split; [done|]. split; [|done].
    by exists r'.
  - destruct H as (t & H). exists t. by rewrite H.
  - destruct H as (t & H). exists t. by rewrite H.
Qed.

Lemma read_into_run d buffer a b :
  run image_with (read_into d buffer a b) (fun t => read_into (image t d) buffer a b).
Proof using exact_ok.
  unfold read_into. access_step. intros s.
  eapply replays_bind; [apply read_bytes_run|]. intros [d1 data]. cbn [image_with fst snd].
  access_step. intros w. by exists [].
Qed.

Lemma read_checksum_run d : run image_with (read_checksum d) (fun t => read_checksum (image t d)).
Proof using exact_ok.
  unfold read_checksum. eapply replays_bind; [apply read_bytes_run|]. intros [d1 b]. by exists [].
Qed.

Lemma check_output_len_step t d n : step id (check_output_len d n) (check_output_len (image t d) n).
Proof using conv_ok same_ok.
  unfold check_output_len. cbn [fd_bytes_output fd_max_output image with_reader].
  case_match; [case_match; [by apply fail_step|done]|by apply fail_step].
Qed.

(** ** A block *)

Lemma slide_step t d info n : step (image t) (slide d info n) (slide (image t d) info n).
Proof.
  unfold slide. cbn [fd_dst_start fd_ext_dict_len image with_reader]. destruct (is_linked info).
  - case_match; [|case_match; [|done]].
    + access_step. intros _. by access_step.
    + by access_step.
  - by access_step.
Qed.

(** The checksum of a block: [get] reads the block from a buffer. *)
Lemma checksum_run d (c : bool) (get1 : FrameDecoder R1 -> res (FrameDecoder R1 * IoError) bytes)
    (get2 : FrameDecoder R2 -> res (FrameDecoder R2 * IoError) bytes) :
  (forall t d, step id (get1 d) (get2 (image t d))) ->
  run image
    (if c then '(d, expected_checksum) ← read_checksum d; data ← get1 d;
               _ ← try_io d (check_block_checksum xxh32 data expected_checksum); Ok d
     else Ok d)
    (fun t => if c then '(d, expected_checksum) ← read_checksum (image t d); data ← get2 d;
               _ ← try_io d (check_block_checksum xxh32 data expected_checksum); Ok d
     else Ok (image t d)).
Proof using conv_ok same_ok exact_ok.
  intros Hg. destruct c; [|by exists []]. eapply replays_bind; [apply read_checksum_run|]. intros [d1 k].
  cbn [image_with fst snd]. eapply replays_step; [intros t; apply Hg|]. intros data.
  eapply replays_step; [intros t; apply try_io_step|]. intros _. by exists [].
Qed.

(** The sums after a block. *)
Lemma finish_step t d n a :
  step (image t)
    (content_len ← checked_sum u64_max (fd_content_len d) n;
     Ok (set_content (fd_content_hasher d) content_len
          (set_dst_pos (fd_dst_start d) (fd_dst_end d + n) (set_bytes_output a d))))
    (content_len ← checked_sum u64_max (fd_content_len (image t d)) n;
     Ok (set_content (fd_content_hasher (image t d)) content_len
          (set_dst_pos (fd_dst_start (image t d)) (fd_dst_end (image t d) + n) (set_bytes_output a (image t d))))).
Proof. by access_step. Qed.

Lemma read_uncompressed_run d info m n :
  run image (read_uncompressed xxh32 d info m n) (fun t => read_uncompressed xxh32 (image t d) info m n).
Proof using conv_ok same_ok exact_ok.
  unfold read_uncompressed. case_match; [apply lockstep_replays; intros; apply fail_step|].
  eapply replays_step; [intros t; apply check_output_len_step|]. intros a. cbn [id].
  access_step. intros w. eapply replays_bind; [apply (read_bytes_run (set_dst w d))|]. intros [d1 data].
  cbn [image_with fst snd]. access_step. intros v.
  eapply replays_bind; [apply (checksum_run (set_dst v d1) (block_checksums info)
    (fun d => slice (fd_dst d) (fd_dst_start d) (fd_dst_start d + n))
    (fun e => slice (fd_dst e) (fd_dst_start e) (fd_dst_start e + n)))|].
  { intros t e. apply lockstep_slice. }
  intros d2. apply lockstep_replays. intros t. apply finish_step.
Qed.

(** A failed decoding changes [dst] only. *)
Definition block_failure t : FrameDecoder R1 * DecompressError -> FrameDecoder R2 * DecompressError -> Prop :=
  fun p q => q = (image t p.1, p.2).

Lemma decode_into_step t d r rest :
  lockstep (block_failure t) (image_with t) (decode_into d r rest) (decode_into (image t d) r rest).
Proof. unfold decode_into. destruct r as [[s n]|[s e]| |]; try done. by eexists. Qed.

Lemma decompress_block_step t d n limit :
  lockstep (block_failure t) (image_with t) (decompress_block d n limit) (decompress_block (image t d) n limit).
Proof.
  unfold decompress_block.
  cbn [fd_src fd_dst_start fd_current_frame_info fd_ext_dict_len fd_ext_dict_offset fd_dst fd_dict image with_reader].
  access_step. intros input. access_step. intros last. cbv zeta.
  set (linked := match fd_current_frame_info d with Some info => is_linked info | None => false end).
  destruct (linked && negb (fd_ext_dict_len d =? 0)).
  - do 4 (access_step; intros ?). access_step. intros s. apply decode_into_step.
  - access_step. intros [s rest]. destruct (negb _); apply decode_into_step.
Qed.

Lemma decompress_loop_step t fuel d n limit m :
  lockstep (block_failure t) (image_with t) (decompress_loop fuel d n limit m)
    (decompress_loop fuel (image t d) n limit m).
Proof.
  revert limit d. induction fuel as [|fuel IH]; intros limit d; [done|]. cbn [decompress_loop].
  pose proof (decompress_block_step t d n limit) as H.
  destruct (decompress_block d n limit) as [[d1 k]|[d1 x]| |]; cbn in H; [by rewrite H| |by rewrite H..].
  destruct H as (p & -> & ->). cbn [fst snd]. destruct (limit <? m); [apply IH|by eexists].
Qed.

Lemma read_compressed_run d info m n :
  run image (read_compressed xxh32 d info m n) (fun t => read_compressed xxh32 (image t d) info m n).
Proof using conv_ok same_ok exact_ok.
  unfold read_compressed. case_match; [apply lockstep_replays; intros; apply fail_step|].
  access_step. intros w. eapply replays_bind; [apply (read_bytes_run (set_src w d))|]. intros [d1 data].
  cbn [image_with fst snd]. access_step. intros s. eapply replays_bind; [apply (checksum_run (set_src s d1) (block_checksums info)
    (fun d => slice (fd_src d) 0 n) (fun e => slice (fd_src e) 0 n))|].
  { intros t e. apply lockstep_slice. }
  intros d2. cbv zeta. eapply (replays_step _ image_with).
  { intros t. pose proof (decompress_loop_step t 2 d2 n (N.min m (match content_size info with
      Some size => usize_or_max (size - fd_content_len d2) | None => usize_max end)) m) as Hl.
    destruct (decompress_loop 2 d2 _ _ _) as [[e k]|[e x]| |]; cbn in Hl |- *; [by rewrite Hl| |by rewrite Hl..].
    destruct Hl as (p & -> & ->). eexists. split; [done|]. apply image_failure. }
  intros [d3 k]. cbn [image_with fst snd]. eapply (replays_step _ (fun _ => id)); [intros t; apply check_output_len_step|].
  intros a. apply lockstep_replays. intros t. apply finish_step.
Qed.

Lemma read_end_mark_run d info :
  run image (read_end_mark xxh32 d info) (fun t => read_end_mark xxh32 (image t d) info).
Proof using conv_ok same_ok exact_ok.
  unfold read_end_mark. cbn [fd_content_len image with_reader]. eapply (replays_step _ (fun _ => id)).
  { intros t. case_match; [case_match; [by apply fail_step|done]|done]. }
  intros _. eapply (replays_bind _ image); [|intros d1; by exists []].
  destruct (content_checksum info); [|by exists []].
  eapply replays_bind; [apply read_checksum_run|]. intros [d1 k]. cbn [image_with fst snd].
  apply lockstep_replays. intros t. cbn [fd_content_hasher image with_reader]. case_match; [by apply fail_step|done].
Qed.

(** What follows a block of data. *)
Lemma hash_block_run info m m' : run image m m' ->
  run image_with
    (d ← m;
     d ← (if content_checksum info then
            data ← slice (fd_dst d) (fd_dst_start d) (fd_dst_end d);
            Ok (set_content (fd_content_hasher d ++ data) (fd_content_len d) d)
          else Ok d);
     n ← usub (fd_dst_end d) (fd_dst_start d); Ok (d, n))
    (fun t => d ← m' t;
     d ← (if content_checksum info then
            data ← slice (fd_dst d) (fd_dst_start d) (fd_dst_end d);
            Ok (set_content (fd_content_hasher d ++ data) (fd_content_len d) d)
          else Ok d);
     n ← usub (fd_dst_end d) (fd_dst_start d); Ok (d, n)).
Proof.
  intros Hm. eapply replays_bind; [exact Hm|]. intros d. eapply (replays_step _ image).
  - intros t. destruct (content_checksum info); [|done]. by access_step.
  - intros d1. access_step. intros n. by exists [].
Qed.

Lemma read_block_run d : run image_with (read_block xxh32 d) (fun t => read_block xxh32 (image t d)).
Proof using conv_ok same_ok exact_ok.
  unfold read_block. cbn [fd_dst_start fd_dst_end fd_current_frame_info image with_reader].
  access_step. intros _. eapply (replays_step _ (fun _ => id)).
  { intros t. case_match; [done|]. eexists. split; [done|apply image_failure]. }
  intros info. access_step. intros size. eapply (replays_step _ image); [intros t; apply slide_step|]. intros d1.
  eapply replays_bind; [apply read_bytes_run|]. intros [d2 buffer]. cbn [image_with fst snd].
  eapply (replays_step _ (fun _ => id)); [intros t; apply try_io_step|]. intros [n|n|]; cbn [id].
  - apply hash_block_run, read_compressed_run.
  - apply hash_block_run, read_uncompressed_run.
  - eapply replays_bind; [apply read_end_mark_run|]. intros d3. by exists [].
Qed.

(** ** The header of a frame *)

(** [read_frame_info] after the first call on the reader. *)
Definition frame_header {R} {HR : Read R} (d : FrameDecoder R) (b : bytes)
  : res (FrameDecoder R * IoError) (FrameDecoder R * N) :=
  let buffer := replicate (N.to_nat MAX_FRAME_INFO_SIZE) x00 in
  if len b =? 0 then Ok (d, 0) else
  buffer ← write_at buffer 0 b;
  '(d, buffer) ← (if len b =? MAGIC_NUMBER_SIZE then Ok (d, buffer)
                  else read_into d buffer (len b) MAGIC_NUMBER_SIZE);
  '(d, buffer) ← read_into d buffer MAGIC_NUMBER_SIZE MIN_FRAME_INFO_SIZE;
  head ← slice buffer 0 MIN_FRAME_INFO_SIZE;
  required ← try_io d (read_size head);
  '(d, buffer) ← (if required =? MIN_FRAME_INFO_SIZE then Ok (d, buffer)
                  else read_into d buffer MIN_FRAME_INFO_SIZE required);
  header ← slice buffer 0 required;
  info ← try_io d (FrameHeader.read xxh32 header);
  _ ← try_io d (check_dict_id (dict_id info) (fd_expected_dict_id d));
  max_block_size ← BlockSizeImpl.get_size (block_size info);
  Ok (start_frame d info max_block_size, required).

Lemma read_frame_info_eq {R} {HR : Read R} (d : FrameDecoder R) :
  read_frame_info xxh32 d = '(d, b) ← read_some d MAGIC_NUMBER_SIZE; frame_header d b.
Proof. done. Qed.

(** A part of the header that may be there already. *)
Lemma part_run d (c : bool) buffer a b :
  run image_with (if c then Ok (d, buffer) else read_into d buffer a b)
    (fun t => if c then Ok (image t d, buffer) else read_into (image t d) buffer a b).
Proof using exact_ok. destruct c; [by exists []|apply read_into_run]. Qed.

Lemma frame_header_run d b : run image_with (frame_header d b) (fun t => frame_header (image t d) b).
Proof using conv_ok same_ok exact_ok.
  unfold frame_header. cbv zeta. destruct (len b =? 0); [by exists []|]. access_step. intros w.
  eapply replays_bind; [apply part_run|]. clear d. intros [d w1]. cbn [image_with fst snd].
  eapply replays_bind; [apply read_into_run|]. clear d. intros [d w2]. cbn [image_with fst snd].
  access_step. intros head. eapply (replays_step _ (fun _ => id)); [intros t; apply try_io_step|]. intros required.
  eapply replays_bind; [apply part_run|]. clear d. intros [d w3]. cbn [image_with fst snd].
  access_step. intros header. eapply (replays_step _ (fun _ => id)); [intros t; apply try_io_step|]. intros info.
  eapply (replays_step _ (fun _ => id)); [intros t; apply try_io_step|]. intros _. access_step. intros size.
  by exists [].
Qed.
End methods.

(** ** More fuel

    A run that has ended ends in the same way with more fuel. *)
Section fuel.
Context `{T : Target} (xxh32 : bytes -> N) {R : Type} {HR : Read R}.
Implicit Types (d : FrameDecoder R).
Import FrameDecoderImpl.

Definition ended {E A} (m : res E A) : Prop := m <> NoFuel.

Lemma read_more_mono f1 f2 d : (f1 <= f2)%nat -> ended (read_more xxh32 f1 d) ->
  read_more xxh32 f2 d = read_more xxh32 f1 d.
Proof.
  revert f2 d. induction f1 as [|f1 IH]; intros f2 d Hf He; [by destruct He|].
  destruct f2 as [|f2]; [lia|]. cbn [read_more] in *.
  destruct (match fd_current_frame_info d with Some _ => _ | None => _ end) as [[e more]| | |]; [|done..].
  cbn [mbind res_bind] in *. destruct (negb more); [done|].
  destruct (map_err _ (read_block xxh32 e)) as [[e2 n]| | |]; [|done..]. cbn [mbind res_bind] in *.
  destruct (negb (n =? 0)); [done|]. apply IH; [lia|done].
Qed.

Lemma fill_buf_mono f1 f2 d : (f1 <= f2)%nat -> ended (fill_buf xxh32 f1 d) ->
  fill_buf xxh32 f2 d = fill_buf xxh32 f1 d.
Proof.
  intros Hf He. unfold fill_buf in *. destruct (_ =? _); [|done].
  rewrite (read_more_mono f1 f2); [done..|]. intros Hn. by rewrite Hn in He.
Qed.

Lemma read_mono f1 f2 d n : (f1 <= f2)%nat -> ended (read xxh32 f1 d n) -> read xxh32 f2 d n = read xxh32 f1 d n.
Proof.
  unfold read. generalize 2%nat. intros passes. revert d. induction passes as [|passes IH]; intros d Hf He; [done|].
  cbn [read_loop] in *. destruct (_ <? _); [done|].
  assert (Hm : ended (read_more xxh32 f1 d)) by (intros Hn; by rewrite Hn in He).
  rewrite (read_more_mono f1 f2) by done. destruct (read_more xxh32 f1 d) as [[e k]| | |]; [|done..].
  cbn [mbind res_bind] in *. destruct (k =? 0); [done|]. by apply IH.
Qed.

Lemma read_to_end_mono f1 f2 d buf w : (f1 <= f2)%nat -> ended (read_to_end xxh32 f1 d buf w) ->
  read_to_end xxh32 f2 d buf w = read_to_end xxh32 f1 d buf w.
Proof.
  revert f2 d buf w. induction f1 as [|f1 IH]; intros f2 d buf w Hf He; [by destruct He|].
  destruct f2 as [|f2]; [lia|]. cbn [read_to_end] in *.
  assert (Hm : ended (fill_buf xxh32 (S f1) d)) by (intros Hn; by rewrite Hn in He).
  rewrite (fill_buf_mono (S f1) (S f2)) by done.
  destruct (fill_buf xxh32 (S f1) d) as [[e b]|[e x]| |]; [| |done..].
  - destruct b; [done|]. destruct (slice _ _ _) as [block| | |]; [|done..]. cbn [mbind res_bind] in *.
    destruct (map_err _ _) as [e2| | |]; [|done..]. cbn [mbind res_bind] in *. apply IH; [lia|done].
  - destruct (is_interrupted x); [apply IH; [lia|done]|done].
Qed.

(** An interruption is never the result. *)
Lemma read_to_end_error fuel d buf w d' buf' x :
  read_to_end xxh32 fuel d buf w = Err (d', buf', x) -> is_interrupted x = false.
Proof.
  revert d buf w. induction fuel as [|fuel IH]; intros d buf w; [done|]. cbn [read_to_end].
  destruct (fill_buf xxh32 (S fuel) d) as [[e b]|[e y]| |]; [| |done..].
  - destruct b; [done|]. unfold slice. destruct (_ && _); [|done]. cbn [mbind res_bind].
    unfold consume, usub, assert. destruct (_ <=? fd_dst_end _); [|done]. cbn [mbind res_bind].
    destruct (_ <=? _); [|done]. apply IH.
  - destruct (is_interrupted y) eqn:Hy; [apply IH|]. intros [= _ _ <-]. done.
Qed.
End fuel.
