(* ===== verification/FrameCodecTheorems.v ===== *)
(** * Theorems on the frame codec

    The encoder and the decoder of [src/frame] against the frame format, and
    against each other.  [create] makes an encoder, with a dictionary and its
    identifier or without; a client of the encoder is a list of calls, and a
    client of the decoder is a list of calls or a call of [read_to_end]. *)

From S2P Require Import Prelude BlockSpec Core Primitives HashTable Compress EncoderSpec FrameHeader FrameIO FrameSpec FrameEncoder FrameEncoderProofs FrameSession FrameDecoder FrameDecoderSpec FrameDecoderProofs FrameDecoderStream FrameDecoderLive DecoderTheorems EncoderTheorems FrameTheorems.

(** ** Encoders and what they have written *)

(** [FrameEncoder::with_dictionary] and [FrameEncoder::with_frame_info]. *)
Definition create {W} (d : option (bytes * N)) (info : FrameInfo) (w : W) : res Error (FrameEncoder W) :=
  match d with
  | Some (dict, id) => FrameEncoderImpl.with_dictionary w dict id (Some info)
  | None => Ok (FrameEncoderImpl.with_frame_info info w)
  end.

Definition create_info (d : option (bytes * N)) (info : FrameInfo) : FrameInfo :=
  match d with Some (_, id) => FrameEncoderImpl.with_dict_id id info | None => info end.

Definition create_dict (d : option (bytes * N)) : bytes := match d with Some (dict, _) => dict | None => [] end.

(** What the length limits and the field widths ask of the arguments. *)
Record create_ok `{T : Target} (d : option (bytes * N)) (info : FrameInfo) : Prop := {
  co_fields : fields_ok (create_info d info);
  co_dict : len (create_dict d) <= isize_max
}.

Lemma create_eq {W} d info (w : W) :
  create d info w = Ok (set_dict (create_dict d) (FrameEncoderImpl.with_frame_info (create_info d info) w)).
Proof. by destruct d as [[dict id]|]. Qed.

Lemma create_content_size d info : content_size (create_info d info) = content_size info.
Proof. by destruct d as [[dict id]|]. Qed.

(** The bytes [out] are the finished frames and the header and blocks of an open
    one, up to at most a block of its content. *)
Definition written_as (xxh32 : bytes -> N) dict info0 (s : session) (out : bytes) : Prop :=
  exists F, frames xxh32 dict (dict_id info0) F (ss_done s) /\
  match ss_open s with
  | None => out = F
  | Some all => exists info B content rest,
      info_ok info /\ dict_id info = dict_id info0 /\ content_size info = content_size info0 /\
      out = F ++ header_bytes xxh32 info ++ B /\ emitted xxh32 info dict B content /\
      all = content ++ rest /\ len rest <= max_block info
  end.

(** ** Lemmas on sessions *)

Section sessions.
Implicit Types (s : session).

Definition session_bytes s : bytes := ss_done s ++ ss_current s.

Lemma session_call_bytes d s c s' : session_call d s c = Some s' ->
  session_bytes s' = session_bytes s ++ call_bytes c.
Proof.
  unfold session_bytes, ss_current. destruct s as [done o wr], c as [[|x buf]| |]; cbn [session_call call_bytes].
  1,3: intros [= <-]; by rewrite app_nil_r.
  1: intros [= <-]; cbn; by rewrite app_assoc.
  unfold finish_frame, ss_current. destruct o, wr; cbn; repeat case_match; intros [= <-]; cbn;
    by rewrite ?app_nil_r.
Qed.

Lemma session_run_bytes d cs s s' : session_run d s cs = Some s' ->
  session_bytes s' = session_bytes s ++ calls_bytes cs.
Proof.
  revert s. induction cs as [|c cs IH]; intros s; cbn [session_run].
  { intros [= <-]. by rewrite app_nil_r. }
  intros (s1 & Hc & Hr)%bind_Some. rewrite (IH _ Hr), (session_call_bytes _ _ _ _ Hc).
  unfold calls_bytes. cbn. by rewrite app_assoc.
Qed.

Lemma session_run_app d cs1 cs2 s :
  session_run d s (cs1 ++ cs2) = s' ← session_run d s cs1; session_run d s' cs2.
Proof.
  revert s. induction cs1 as [|c cs IH]; intros s; cbn [session_run app]; [done|].
  destruct (session_call d s c); cbn [mbind option_bind]; [apply IH|done].
Qed.

Lemma finish_closed d s s' : session_call d s CTryFinish = Some s' -> ss_open s' = None.
Proof.
  unfold session_call, finish_frame. destruct s as [done [all|] []]; cbn; repeat case_match; by intros [= <-].
Qed.

(** Without a declared size no call fails. *)
Lemma session_run_undeclared cs s : exists s', session_run None s cs = Some s'.
Proof.
  revert s. induction cs as [|c cs IH]; intros s; cbn [session_run]; [by exists s|].
  assert (Hc : exists s1, session_call None s c = Some s1).
  { destruct s as [done o wr], c as [[|x buf]| |]; try by eexists. cbn. destruct o, wr; by eexists. }
  destruct Hc as (s1 & ->). apply IH.
Qed.
End sessions.

Section codec.
Context `{T : Target} (xxh32 : bytes -> N).
Implicit Types (info : FrameInfo) (dict buf out content : bytes) (d : option (bytes * N)) (s : session)
  (cs : list call).

Section written.
Context {W : Type} {HW : Write W} {HL : WriteLaws W}.
Implicit Types (w : W).
Import FrameEncoderImpl.

Lemma session_inv_written out dict info0 k f s (e : FrameEncoder W) : session_inv xxh32 out dict info0 k f s e ->
  exists F, sunk (fe_w e) = out ++ F /\ written_as xxh32 dict info0 s F.
Proof.
  intros (_ & _ & (b & Hb) & F & HF & Ho). unfold written_as. destruct (ss_open s) as [all|].
  - destruct Ho as (k1 & k2 & _ & _ & B & content & Hoi & _ & ->). exists (F ++ header_bytes xxh32 (fe_frame_info e) ++ B).
    rewrite (oi_w _ _ _ _ _ _ _ Hoi), <-!app_assoc. split; [done|]. exists F. split; [done|].
    exists (fe_frame_info e), B, content, (FrameEncoderProofs.pending e).
    destruct (length_pending _ _ (oi_buffer _ _ _ _ _ _ _ Hoi)) as [_ Hp].
    split_and!; try done; [apply Hoi|by rewrite Hb|by rewrite Hb|apply Hoi].
  - destruct Ho as [_ []]. exists F. split; [done|]. by exists F.
Qed.

(** What the writer has, within the bound for its calls. *)
Lemma session_inv_sized out dict info0 k f s (e : FrameEncoder W) : session_inv xxh32 out dict info0 k f s e ->
  exists F content rest, sunk (fe_w e) = out ++ F /\ session_bytes s = content ++ rest /\
    sized k (f + if fe_is_frame_open e then 1 else 0) F content.
Proof.
  intros (_ & _ & _ & F & HF & Ho). unfold session_bytes, ss_current. destruct (ss_open s) as [all|].
  - destruct Ho as (k1 & k2 & -> & Hsz1 & B & content & Hoi & Hsz2 & ->).
    exists (F ++ header_bytes xxh32 (fe_frame_info e) ++ B), (ss_done s ++ content), (FrameEncoderProofs.pending e).
    rewrite (oi_w _ _ _ _ _ _ _ Hoi), (oi_open _ _ _ _ _ _ _ Hoi), <-!app_assoc. split_and!; [done..|].
    apply sized_app; [done|]. rewrite <-(app_nil_r B).
    apply (sized_frame k2 0); [apply header_bytes_max|cbn; lia|done].
  - destruct Ho as [Hsz []]. exists F, (ss_done s), []. rewrite ci_open. by rewrite N.add_0_r.
Qed.

Lemma create_inv d info w : create_ok d info ->
  session_inv xxh32 (sunk w) (create_dict d) (create_info d info) 0 0 new_session
    (set_dict (create_dict d) (with_frame_info (create_info d info) w)).
Proof. intros []. by apply new_session_inv. Qed.

Lemma create_run d info w cs : create_ok d info -> len (calls_bytes cs) <= u64_max ->
  refines xxh32 (sunk w) (create_dict d) (create_info d info)
    (flushes (content_size info) new_session cs) (finishes (content_size info) new_session cs)
    (session_run (content_size info) new_session cs)
    (run_calls xxh32 (set_dict (create_dict d) (with_frame_info (create_info d info) w)) cs).
Proof.
  intros Hok Hl. rewrite <-(create_content_size d). apply (run_refines xxh32 _ _ _ 0 0); [by destruct Hok|by apply create_inv|done].
Qed.

Lemma run_calls_app (e : FrameEncoder W) cs1 cs2 :
  run_calls xxh32 e (cs1 ++ cs2) = (e ← run_calls xxh32 e cs1; run_calls xxh32 e cs2).
Proof.
  revert e. induction cs1 as [|c cs IH]; intros e; cbn [run_calls app]; [done|].
  destruct (call_encoder xxh32 e c); mstep; [apply IH|done..].
Qed.

Lemma drop_finish (e : FrameEncoder W) w' : finish xxh32 e = Ok w' ->
  AutoFinishEncoderImpl.drop xxh32 (AutoFinishEncoderImpl.auto_finish e) = Ok (Some w').
Proof.
  unfold finish. cbn [AutoFinishEncoderImpl.drop AutoFinishEncoderImpl.auto_finish].
  destruct (try_finish xxh32 e) as [e'|[]| |]; mstep; by intros [= <-].
Qed.

(** Calls and [finish] produce frames of all the bytes written. *)
Lemma finished_frames d info w cs s : create_ok d info -> len (calls_bytes cs) <= u64_max ->
  session_run (content_size info) new_session (cs ++ [CTryFinish]) = Some s ->
  exists e1 w' F, run_calls xxh32 (set_dict (create_dict d) (with_frame_info (create_info d info) w)) cs = Ok e1 /\
    finish xxh32 e1 = Ok w' /\ sunk w' = sunk w ++ F /\
    frames xxh32 (create_dict d) (dict_id (create_info d info)) F (calls_bytes cs).
Proof.
  intros Hok Hl Hs. assert (Hcs : calls_bytes (cs ++ [CTryFinish]) = calls_bytes cs).
  { unfold calls_bytes. rewrite fmap_app, concat_app. cbn. by rewrite app_nil_r. }
  pose proof (create_run d info w (cs ++ [CTryFinish]) Hok ltac:(by rewrite Hcs)) as H.
  rewrite Hs in H. destruct H as (e' & Hr & Hinv). rewrite run_calls_app in Hr.
  apply bind_Ok in Hr as (e1 & Hr1 & Hr2). cbn [run_calls call_encoder] in Hr2.
  apply bind_Ok in Hr2 as (e2 & Hf & [= ->]).
  destruct (session_inv_written _ _ _ _ _ _ _ Hinv) as (F & HF & F' & Hfr & Ho).
  pose proof (session_run_bytes _ _ _ _ Hs) as Hb. rewrite Hcs in Hb. cbn in Hb.
  rewrite session_run_app in Hs. apply bind_Some in Hs as (s1 & _ & Hs1). cbn [session_run] in Hs1.
  apply bind_Some in Hs1 as (s2 & Hs1 & [= ->]). apply finish_closed in Hs1.
  unfold session_bytes, ss_current in Hb. rewrite Hs1 in Hb, Ho. cbn in Hb. rewrite app_nil_r in Hb. subst F'.
  exists e1, (fe_w e'), F. split; [done|]. unfold finish. rewrite Hf. mstep. rewrite <-Hb. by split_and!.
Qed.

(** C6: the encoder refines the abstract session.  Any sequence of writes,
    flushes and [try_finish] on a new encoder, with a writer that accepts all
    bytes, succeeds exactly when the frames that the session finishes have the
    declared size; the bytes written are then those frames, and of an open
    frame the header and blocks that carry all but at most a block of its
    content.  Otherwise the error names the declared and another size. *)
Theorem encoder_refines_session d info w cs :
  create_ok d info -> len (calls_bytes cs) <= u64_max ->
  exists e, create d info w = Ok e /\
  match session_run (content_size info) new_session cs with
  | Some s => exists e' F, run_calls xxh32 e cs = Ok e' /\ sunk (fe_w e') = sunk w ++ F /\
      session_bytes s = calls_bytes cs /\
      written_as xxh32 (create_dict d) (create_info d info) s F
  | None => exists e' n k, run_calls xxh32 e cs = Err (e', ContentLengthError n k) /\
      content_size info = Some n /\ n <> k
  end.
Proof.
  intros Hok Hl. eexists. split; [apply create_eq|]. pose proof (create_run d info w cs Hok Hl) as H.
  destruct (session_run _ _ _) as [s|] eqn:Hs; cbn [refines] in H.
  - destruct H as (e' & -> & Hinv). destruct (session_inv_written _ _ _ _ _ _ _ Hinv) as (F & HF & Hw).
    exists e', F. split_and!; try done. by apply session_run_bytes in Hs.
  - destruct H as (e' & n & k & Hn & Hk & ->). exists e', n, k. by rewrite create_content_size in Hn.
Qed.

(** C16: a frame is never much longer than its content, for every sequence of
    calls and every content.  What an encoder has written exceeds the bytes it
    was given by at most 27 bytes for each frame that is finished or open, and 8
    for each block; there is a block for every 64 KiB, and at most one more for
    each flush of an open frame and for each frame that [try_finish] ends.
    [try_finish] on a closed encoder that has written a frame adds nothing. *)
Theorem encoder_output_bound d info w cs e e' :
  create_ok d info -> len (calls_bytes cs) <= u64_max ->
  create d info w = Ok e -> run_calls xxh32 e cs = Ok e' ->
  len (sunk (fe_w e')) <= len (sunk w) + len (calls_bytes cs)
    + 27 * (finishes (content_size info) new_session cs + if fe_is_frame_open e' then 1 else 0)
    + 8 * (len (calls_bytes cs) / 65536 + flushes (content_size info) new_session cs).
Proof.
  intros Hok Hl He Hrun. rewrite create_eq in He. injection He as <-.
  pose proof (create_run d info w cs Hok Hl) as H. rewrite Hrun in H.
  destruct (session_run _ _ _) as [s|] eqn:Hs; cbn [refines] in H; [|by destruct H as (? & ? & ? & _ & _ & [=])].
  destruct H as (e2 & [= <-] & Hinv). apply session_run_bytes in Hs.
  destruct (session_inv_sized _ _ _ _ _ _ _ Hinv) as (F & content & rest & -> & Hb & Hsz%sized_bound).
  assert (Hc : len content <= len (calls_bytes cs)) by (rewrite Hb in Hs; cbn in Hs; rewrite <-Hs; len_lia).
  rewrite length_app. lia.
Qed.

(** After a flush the blocks carry everything that was written. *)
Lemma flushed_owes d info w cs s : create_ok d info -> len (calls_bytes cs) <= u64_max ->
  session_run (content_size info) new_session cs = Some s ->
  exists e1 e2 F, run_calls xxh32 (set_dict (create_dict d) (with_frame_info (create_info d info) w)) cs = Ok e1 /\
    flush xxh32 e1 = Ok e2 /\ sunk (fe_w e2) = sunk w ++ F /\
    owes xxh32 (fun _ _ => True) (create_dict d) (dict_id (create_info d info)) None F (calls_bytes cs).
Proof.
  intros Hok Hl Hs. pose proof (create_run d info w cs Hok Hl) as H. rewrite Hs in H.
  destruct H as (e1 & Hr & Hinv). pose proof (session_run_bytes _ _ _ _ Hs) as Hb. cbn in Hb.
  assert (Hsl : session_len s <= u64_max).
  { unfold session_len. rewrite <-Hb in Hl. unfold session_bytes in Hl. len_lia. }
  destruct (flush_refines xxh32 _ _ _ _ _ _ _ Hinv Hsl) as (e2 & Hf & (_ & _ & (b & Hi) & F & HF & Ho) & He).
  exists e1, e2. rewrite <-Hb. unfold session_bytes, ss_current. destruct (ss_open s) as [all|].
  - destruct Ho as (k1 & k2 & _ & _ & B & content & Hoi & _ & ->). unfold FrameEncoderProofs.pending. rewrite He, N.sub_diag.
    change (sub (fe_src e2) (fe_src_end e2) 0) with (@nil byte). cbn [from_option id].
    exists (F ++ header_bytes xxh32 (fe_frame_info e2) ++ B).
    split_and!; [done|done|by rewrite (oi_w _ _ _ _ _ _ _ Hoi), <-!app_assoc|].
    apply frames_owes; [done|]. apply owes_header; [apply Hoi|by rewrite Hi|].
    rewrite <-(app_nil_r B). apply emitted_owes; [apply Hoi|by constructor].
  - exists F. cbn [from_option id]. split_and!; [done|done|by destruct Ho as [_ []]|].
    rewrite <-(app_nil_r F). apply frames_owes; [done|by constructor].
Qed.
End written.

(** C22: a failed encoder stays failed, for every writer: after a call has
    returned an error every later call returns the error of a reused encoder
    and changes nothing, so nothing more is written. *)
Theorem failed_encoder_stays_failed {W} {HW : Write W} (e e' : FrameEncoder W) c x c' cs :
  call_encoder xxh32 e c = Err (e', x) ->
  run_calls xxh32 e' (c' :: cs) = Err (e', IoErr other).
Proof.
  intros Hc. pose proof (call_fails xxh32 e c) as Hf. rewrite Hc in Hf. cbn [fails_marked] in Hf.
  cbn [run_calls]. by rewrite (call_marked xxh32 e' c' Hf).
Qed.

Section read.
Context {R : Type} {HR : Read R} {HL : ReadLaws R}.
Implicit Types (r : R).
Import FrameDecoderImpl.

(** C4: the decoder implements the frame format, after any history.  A client may
    have made any calls, replaced readers and seen errors; when no frame is open
    and nothing is pending, [read_to_end] on a reader of any byte string returns.
    It succeeds exactly when the string is a sequence of frames whose content
    fits what is left of the output limit, and then the vector is extended by
    exactly that content.  With an error it is extended within the limit. *)
Theorem read_to_end_correct r0 o (cs : list (dcall R)) before dec r buf fuel :
  opt_limit o <= usize_max ->
  decoder_run xxh32 (with_options r0 o) cs = Ok (dec, before) -> closed dec ->
  (length (stream r) < fuel)%nat ->
  match read_to_end xxh32 fuel (get_mut dec r) buf 0 with
  | Ok (_, buf', n) => exists content, buf' = buf ++ content /\ n = len content /\
      len before + len content <= opt_limit o /\
      forall out, frames xxh32 (opt_dict o) (opt_id o) (stream r) out <-> out = content
  | Err (_, buf', _) => exists content, buf' = buf ++ content /\
      len before + len content <= opt_limit o /\
      forall out, frames xxh32 (opt_dict o) (opt_id o) (stream r) out -> opt_limit o < len before + len out
  | Panic | NoFuel => False
  end.
Proof.
  intros Hl Hrun Hc Hf. destruct (with_options_idle xxh32 r0 o Hl) as (Hi & Hm & Hh & _).
  destruct (decoder_run_usable xxh32 _ _ cs _ (usable_idle xxh32 _ _ _ Hi)) as ([d out] & Hr & Hu & Hh' & Hm').
  rewrite Hrun in Hr. injection Hr as <- <-.
  pose proof (closed_to_end xxh32 _ _ _ r buf fuel Hu Hc Hf) as H.
  rewrite Hm', Hm, Hh', Hh, N.add_0_l in H.
  by destruct (read_to_end _ _ _ _ _) as [[[d2 b] n]|[[d2 b] x]| |].
Qed.

(** C13: the decoder is safe on every byte string, under every client.  Reads of
    any size, looks at the buffer, [read_to_end] and replaced readers in any
    order, also after errors, return without a panic; all together they hand
    out no more bytes than the output limit, and neither the two buffers nor the
    capacities that are reserved for them exceed the largest block and the
    largest window; a further call that fails closes the frame. *)
Theorem decoder_total r o (cs : list (dcall R)) : opt_limit o <= usize_max ->
  exists dec out, decoder_run xxh32 (with_options r o) cs = Ok (dec, out) /\ len out <= opt_limit o /\
    (len (fd_dst dec) <= max_dst /\ fd_dst_reserve dec <= max_dst) /\
    (len (fd_src dec) <= max_src /\ fd_src_reserve dec <= max_src) /\
    forall c, exists dec' b x, decoder_call xxh32 dec c = Ok (dec', b, x) /\ (x <> None -> closed dec').
Proof.
  intros Hl. destruct (with_options_idle xxh32 r o Hl) as (Hi & Hm & Hh & _).
  destruct (decoder_run_usable xxh32 _ _ cs _ (usable_idle xxh32 _ _ _ Hi)) as ([dec out] & Hr & Hu & Hh' & Hm').
  exists dec, out. split; [done|]. pose proof (usable_limit xxh32 _ _ _ Hu). split; [lia|].
  destruct (usable_buffers _ _ _ Hu) as [Hd Hs]. split; [done|]. split; [done|]. intros c.
  destruct (decoder_call_usable xxh32 _ _ _ c Hu) as ([[dec' b] x] & Hc & _ & _ & _ & Hx). by exists dec', b, x.
Qed.

(** C21: the decoder meets the law of a reader.  Reads of positive sizes hand out
    a sequence of frames in order: what they have returned is a prefix of the
    content, and as many reads as the content has bytes return all of it. *)
Theorem reads_deliver_content r o content sizes fuel :
  opt_limit o <= usize_max -> (length (stream r) < fuel)%nat ->
  frames xxh32 (opt_dict o) (opt_id o) (stream r) content -> len content <= opt_limit o ->
  Forall (N.lt 0) sizes ->
  exists dec b rest, reads xxh32 fuel (with_options r o) sizes = Ok (dec, b) /\ content = b ++ rest /\
    (len content <= len sizes -> rest = []).
Proof.
  intros Hl Hf Hc Hlc Hs. pose proof (with_options_holds xxh32 r o content Hl Hc Hlc) as Hh.
  destruct (with_options_idle xxh32 r o Hl) as (_ & _ & _ & Hst).
  destruct (reads_holds xxh32 _ _ fuel sizes _ _ Hh ltac:(by rewrite Hst)) as ([dec b] & Hr & rest & Hb & _ & Hrest).
  exists dec, b, rest. split_and!; [done|done|]. by apply Hrest.
Qed.
End read.

(** A decoder for the streams of an encoder. *)
Definition decoder_options d (limit : option N) : FrameDecoderOptions :=
  {| dictionary := d; max_output := limit |}.

Lemma decoder_options_eq d info limit : (d = None -> dict_id info = None) ->
  opt_dict (decoder_options d limit) = create_dict d /\
  opt_id (decoder_options d limit) = dict_id (create_info d info).
Proof. intros Hid. destruct d as [[]|]; [done|]. split; [done|symmetry; by apply Hid]. Qed.

(** C12: a flush withholds nothing.  After writes, flushes and [try_finish] of any
    kind and a last flush, a decoder that is given what has been written so far
    reads every byte, although no frame may be finished. *)
Theorem flush_withholds_nothing {W} {HW : Write W} {HWL : WriteLaws W} {R} {HR : Read R} {HRL : ReadLaws R}
    d info (w : W) cs s limit :
  create_ok d info -> (d = None -> dict_id info = None) -> sunk w = [] ->
  len (calls_bytes cs) <= u64_max ->
  session_run (content_size info) new_session cs = Some s ->
  len (calls_bytes cs) <= opt_limit (decoder_options d limit) <= usize_max ->
  exists e e1 e2, create d info w = Ok e /\ run_calls xxh32 e cs = Ok e1 /\
    FrameEncoderImpl.flush xxh32 e1 = Ok e2 /\
    forall (r : R), stream r = sunk (fe_w e2) ->
      exists dec, client_read_exact xxh32 (length (calls_bytes cs)) (S (length (stream r)))
          (FrameDecoderImpl.with_options r (decoder_options d limit)) (len (calls_bytes cs))
        = Ok (dec, calls_bytes cs).
Proof.
  intros Hok Hid Hw Hl Hs [Hlim Hmax].
  destruct (flushed_owes d info w cs s Hok Hl Hs) as (e1 & e2 & F & H1 & H2 & H3 & H4).
  eexists _, e1, e2. split; [apply create_eq|]. split; [done|]. split; [done|]. intros r Hr.
  rewrite Hw in H3. cbn [app] in H3. rewrite <-H3, <-Hr in H4.
  destruct (decoder_options_eq d info limit Hid) as [Hd Ho]. rewrite <-Hd, <-Ho in H4.
  destruct (with_options_idle xxh32 r _ Hmax) as (_ & _ & _ & Hst).
  destruct (read_exact_owed xxh32 (fun _ _ => True) _ _ (S (length (stream r))) (length (calls_bytes cs)) _ _ (len (calls_bytes cs))
    (with_options_owed xxh32 _ r _ _ Hmax H4 Hlim)) as ([dec b] & Hx & -> & _); [lia|rewrite Hst; lia|lia|].
  exists dec. by rewrite Nat2N.id, firstn_all in Hx.
Qed.

(** C3: the round trip of the frame codec: whatever is written to an encoder,
    in pieces and with flushes of any kind, a decoder with the same dictionary
    reads back from the finished stream, whatever pieces its reader delivers.
    Dropping an [AutoFinishEncoder] finishes the stream as [finish] does. *)
Theorem frame_round_trip {W} {HW : Write W} {HWL : WriteLaws W} {R} {HR : Read R} {HRL : ReadLaws R}
    d info (w : W) cs s limit buf :
  create_ok d info -> (d = None -> dict_id info = None) -> sunk w = [] ->
  len (calls_bytes cs) <= u64_max ->
  session_run (content_size info) new_session (cs ++ [CTryFinish]) = Some s ->
  let o := decoder_options d limit in
  len (calls_bytes cs) <= opt_limit o <= usize_max ->
  exists e e1 w', create d info w = Ok e /\ run_calls xxh32 e cs = Ok e1 /\
    FrameEncoderImpl.finish xxh32 e1 = Ok w' /\
    AutoFinishEncoderImpl.drop xxh32 (AutoFinishEncoderImpl.auto_finish e1) = Ok (Some w') /\
    forall (r : R), stream r = sunk w' ->
      exists dec, FrameDecoderImpl.read_to_end xxh32 (S (length (sunk w'))) (FrameDecoderImpl.with_options r o) buf 0
        = Ok (dec, buf ++ calls_bytes cs, len (calls_bytes cs)).
Proof.
  intros Hok Hid Hw Hl Hs o [Hlim Hmax]. destruct (finished_frames d info w cs s Hok Hl Hs) as (e1 & w' & F & H1 & H2 & H3 & H4).
  eexists _, e1, w'. split; [apply create_eq|]. split; [done|]. split; [done|]. split; [by apply drop_finish|].
  intros r Hr. rewrite Hw in H3. cbn [app] in H3. subst F.
  destruct (decoder_options_eq d info limit Hid) as [Hd Ho]. fold o in Hd, Ho. rewrite <-Hd, <-Ho, <-Hr in H4. rewrite <-Hr.
  destruct (with_options_idle xxh32 r o Hmax) as (Hi & Hm & Hh & Hst).
  assert (He : fd_dst_start (FrameDecoderImpl.with_options r o) = fd_dst_end (FrameDecoderImpl.with_options r o)) by apply Hi.
  pose proof (read_to_end_ok xxh32 _ _ (S (length (stream r))) None _ buf 0 (open_at_block xxh32 _ _ None _ Hi)) as H.
  rewrite Hst in H. specialize (H (or_intror (conj (pending_nil _ He) (Nat.lt_succ_diag_r _)))).
  assert (Hrem : remaining xxh32 (opt_dict o) (opt_id o) None (FrameDecoderImpl.with_options r o) (calls_bytes cs))
    by (apply remaining_block; [done|by rewrite Hst]).
  destruct (FrameDecoderImpl.read_to_end _ _ _ _ _) as [[[dec b] n]|[[dec b] x]| |]; [| |done..]; cbn [end_post] in H.
  - destruct H as (out & -> & -> & _ & _ & _ & Hu & _). exists dec. by rewrite (Hu _ Hrem).
  - destruct H as (out & _ & _ & _ & _ & Hout). specialize (Hout _ Hrem). lia.
Qed.
End codec.

(** ** Witnesses *)

#[local] Existing Instance x86_64.

Definition sample_dict : option (bytes * N) := Some (take 20 text, 7).
Definition stream_info : FrameInfo :=
  {| content_size := None; dict_id := None; block_size := Max64KB; block_mode := Linked;
     block_checksums := true; content_checksum := true |}.
Definition sample_calls : list call := [CWrite text; CFlush; CWrite text; CTryFinish; CWrite text].

Lemma sample_create : create_ok sample_dict stream_info.
Proof. split; [by split; intros n [= <-]|concrete]. Defined.

Definition sample_session : session :=
  {| ss_done := text ++ text; ss_open := Some text; ss_written := true |}.

Lemma sample_run : session_run None new_session sample_calls = Some sample_session.
Proof. concrete. Defined.

Definition sample_finished : session :=
  {| ss_done := text ++ text ++ text; ss_open := None; ss_written := true |}.

Lemma sample_finish : session_run None new_session (sample_calls ++ [CTryFinish]) = Some sample_finished.
Proof. concrete. Defined.

Lemma encoder_refines_session_witness :
  exists e, create sample_dict stream_info ([] : VecWriter) = Ok e /\
  exists e' F, run_calls toy_hash e sample_calls = Ok e' /\ sunk (fe_w e') = sunk ([] : VecWriter) ++ F /\
    session_bytes sample_session = calls_bytes sample_calls /\
    written_as toy_hash (create_dict sample_dict) (create_info sample_dict stream_info) sample_session F.
Proof.
  pose proof (encoder_refines_session toy_hash sample_dict stream_info ([] : VecWriter) sample_calls
    sample_create ltac:(concrete)) as H.
  cbn [stream_info content_size] in H. rewrite sample_run in H. exact H.
Defined.

Lemma encoder_output_bound_witness :
  exists e e', create sample_dict stream_info ([] : VecWriter) = Ok e /\ run_calls toy_hash e sample_calls = Ok e' /\
    len (sunk (fe_w e')) <= 0 + 93
      + 27 * (finishes (content_size stream_info) new_session sample_calls + if fe_is_frame_open e' then 1 else 0)
      + 8 * (93 / 65536 + flushes (content_size stream_info) new_session sample_calls).
Proof.
  pose proof (create_run toy_hash sample_dict stream_info ([] : VecWriter) sample_calls sample_create
    ltac:(concrete)) as H.
  cbn [stream_info content_size] in H. rewrite sample_run in H. destruct H as (e' & He & _).
  eexists _, e'. split_and!; [apply create_eq|exact He|].
  apply (encoder_output_bound toy_hash sample_dict stream_info ([] : VecWriter) sample_calls _ e' sample_create
    ltac:(concrete) (create_eq _ _ _) He).
Defined.

Lemma flush_withholds_nothing_witness :
  exists e e1 e2, create sample_dict stream_info ([] : VecWriter) = Ok e /\
    run_calls toy_hash e sample_calls = Ok e1 /\ FrameEncoderImpl.flush toy_hash e1 = Ok e2 /\
    forall (r : SliceReader), stream r = sunk (fe_w e2) ->
      exists dec, client_read_exact toy_hash 93 (S (length (stream r)))
          (FrameDecoderImpl.with_options r (decoder_options sample_dict (Some 100))) 93
        = Ok (dec, text ++ text ++ text).
Proof.
  apply (flush_withholds_nothing toy_hash sample_dict stream_info ([] : VecWriter) sample_calls sample_session
    (Some 100) sample_create); [done|done|concrete|exact sample_run|split; concrete].
Defined.

Lemma failed_encoder_stays_failed_witness :
  let w := {| sw_written := []; sw_room := 9 |} in
  let e := FrameEncoderImpl.with_frame_info stream_info w in
  exists e' x, call_encoder toy_hash e CTryFinish = Err (e', x) /\ sw_written (fe_w e') <> [] /\
    run_calls toy_hash e' [CFlush] = Err (e', IoErr other).
Proof.
  intros w e. destruct (call_encoder toy_hash e CTryFinish) as [|[e' x]| |] eqn:Hc; [vm_compute in Hc; done| |
    vm_compute in Hc; done|vm_compute in Hc; done].
  exists e', x. split; [done|]. split.
  - assert (Hw : match call_encoder toy_hash e CTryFinish with
                 | Err (e', _) => negb (len (sw_written (fe_w e')) =? 0) | _ => false end = true) by concrete.
    rewrite Hc in Hw. by destruct (sw_written (fe_w e')).
  - exact (failed_encoder_stays_failed toy_hash e e' CTryFinish x CFlush [] Hc).
Defined.

(** A frame with the three bytes 120 121 122, in a raw block and without checksums. *)
Definition plain_info : FrameInfo :=
  {| content_size := None; dict_id := None; block_size := Max64KB; block_mode := Independent;
     block_checksums := false; content_checksum := false |}.
Definition plain_data : bytes := bytes_of [120; 121; 122].
Definition plain_stream : bytes :=
  header_bytes toy_hash plain_info ++ to_le 4 (3 + 2 ^ 31) ++ plain_data ++ to_le 4 0.
Definition plain_options : FrameDecoderOptions := {| dictionary := None; max_output := Some 10 |}.

Lemma plain_frames : frames toy_hash [] None plain_stream plain_data.
Proof.
  apply (frames_one toy_hash [] plain_info). split; [split; [done|split; by intros n [=]]|].
  eexists. split; [done|]. rewrite app_assoc.
  eapply (body_block _ _ _ _ _ plain_data).
  - pose proof (carries_raw toy_hash plain_info [] [] plain_data ltac:(concrete)) as H.
    cbn [block_checksums plain_info checksum] in H. rewrite app_nil_r in H. exact H.
  - exact (body_end toy_hash plain_info [] plain_data ltac:(by intros n [=])).
Defined.

Definition plain_reader : SliceReader := {| sr_bytes := plain_stream; sr_chunk := 3 |}.
Definition plain_decoder : FrameDecoder SliceReader := FrameDecoderImpl.with_options plain_reader plain_options.

Lemma plain_limit : opt_limit plain_options <= usize_max.
Proof. concrete. Defined.

Lemma plain_fuel : (length (stream plain_reader) < 100)%nat.
Proof. apply Nat.ltb_lt. concrete. Defined.

(** A client that meets an error in the middle of the frame. *)
Definition plain_calls : list (dcall SliceReader) := [DReplace {| sr_bytes := take 12 plain_stream; sr_chunk := 1 |}; DRead 2].

Lemma plain_run : exists dec, decoder_run toy_hash plain_decoder plain_calls = Ok (dec, []) /\ closed dec.
Proof. vm_compute. eexists. split; [reflexivity|split; reflexivity]. Defined.

Lemma read_to_end_correct_witness :
  exists dec, decoder_run toy_hash plain_decoder plain_calls = Ok (dec, []) /\ closed dec /\
  match FrameDecoderImpl.read_to_end toy_hash 100 (FrameDecoderImpl.get_mut dec plain_reader) [x2a] 0 with
  | Ok (_, buf', n) => exists content, buf' = [x2a] ++ content /\ n = len content /\
      len ([] : bytes) + len content <= opt_limit plain_options /\
      forall out, frames toy_hash (opt_dict plain_options) (opt_id plain_options) (stream plain_reader) out
        <-> out = content
  | Err (_, buf', _) => exists content, buf' = [x2a] ++ content /\
      len ([] : bytes) + len content <= opt_limit plain_options /\
      forall out, frames toy_hash (opt_dict plain_options) (opt_id plain_options) (stream plain_reader) out ->
        opt_limit plain_options < len ([] : bytes) + len out
  | Panic | NoFuel => False
  end.
Proof.
  destruct plain_run as (dec & Hr & Hc). exists dec. split; [exact Hr|]. split; [exact Hc|].
  exact (read_to_end_correct toy_hash plain_reader plain_options plain_calls [] dec plain_reader [x2a] 100
    plain_limit Hr Hc plain_fuel).
Defined.

Lemma decoder_total_witness :
  exists dec out, decoder_run toy_hash plain_decoder plain_calls = Ok (dec, out) /\
    len out <= opt_limit plain_options /\ (len (fd_dst dec) <= max_dst /\ fd_dst_reserve dec <= max_dst) /\
    (len (fd_src dec) <= max_src /\ fd_src_reserve dec <= max_src) /\
    forall c, exists dec' b x, decoder_call toy_hash dec c = Ok (dec', b, x) /\ (x <> None -> closed dec').
Proof. exact (decoder_total toy_hash plain_reader plain_options plain_calls plain_limit). Defined.

Lemma reads_deliver_content_witness :
  exists d' b rest, reads toy_hash 100 plain_decoder [2; 1; 7] = Ok (d', b) /\ plain_data = b ++ rest /\
    (len plain_data <= len [2; 1; 7] -> rest = []).
Proof.
  apply (reads_deliver_content toy_hash plain_reader plain_options plain_data [2; 1; 7] 100 plain_limit plain_fuel);
    [exact plain_frames|concrete|]. repeat constructor; concrete.
Defined.

(** The model runs: the bytes of the encoder, and the decoder's answer. *)
Example codec_runs :
  match create sample_dict stream_info ([] : VecWriter) with
  | Ok e =>
      match run_calls toy_hash e sample_calls with
      | Ok e =>
          match FrameEncoderImpl.finish toy_hash e with
          | Ok w =>
              match FrameDecoderImpl.read_to_end toy_hash 200
                  (FrameDecoderImpl.with_options {| sr_bytes := w; sr_chunk := 3 |} (decoder_options sample_dict None))
                  [] 0 with
              | Ok (_, b, n) => len w = 104 /\ b = text ++ text ++ text /\ n = 93
              | _ => False
              end
          | _ => False
          end
      | _ => False
      end
  | _ => False
  end.
Proof. vm_compute. by split_and!. Qed.

Lemma frame_round_trip_witness :
  exists e e1 w', create sample_dict stream_info ([] : VecWriter) = Ok e /\
    run_calls toy_hash e sample_calls = Ok e1 /\ FrameEncoderImpl.finish toy_hash e1 = Ok w' /\
    AutoFinishEncoderImpl.drop toy_hash (AutoFinishEncoderImpl.auto_finish e1) = Ok (Some w') /\
    forall (r : SliceReader), stream r = sunk w' ->
      exists dec, FrameDecoderImpl.read_to_end toy_hash (S (length (sunk w')))
          (FrameDecoderImpl.with_options r (decoder_options sample_dict None)) [x2a] 0
        = Ok (dec, [x2a] ++ text ++ text ++ text, 93).
Proof.
  apply (frame_round_trip toy_hash sample_dict stream_info ([] : VecWriter) sample_calls sample_finished None [x2a]
    sample_create);
    [done|done|concrete|exact sample_finish|split; concrete].
Defined.
