(* ===== verification/Reuse.v ===== *)
(** * What an output buffer held before

    A relation on outcomes for two runs of the same code, with its rules, and
    its use on the decoder: the bytes that an output buffer held before a call
    have no effect that can be observed. *)

From S2P Require Import Prelude BlockSpec Core Primitives Decompress DecompressProofs DecompressSpec.

(** ** Two runs

    A run that panics relates to everything; other theorems exclude it. *)
Section agreement.
Context {E : Type} (Re : E -> E -> Prop).

Definition agree {A} (Ra : A -> A -> Prop) (m1 m2 : res E A) : Prop :=
  match m1, m2 with
  | Ok a1, Ok a2 => Ra a1 a2
  | Err e1, Err e2 => Re e1 e2
  | NoFuel, NoFuel => True
  | Panic, _ | _, Panic => True
  | _, _ => False
  end.

Lemma agree_bind {A B} (Ra : A -> A -> Prop) (Rb : B -> B -> Prop) m1 m2 (k1 k2 : A -> res E B) :
  agree Ra m1 m2 -> (forall a1 a2, Ra a1 a2 -> agree Rb (k1 a1) (k2 a2)) ->
  agree Rb (m1 ≫= k1) (m2 ≫= k2).
Proof.
  intros Hm Hk. destruct m1, m2; cbn in *; try done; [by apply Hk|..];
    first [by destruct (k1 _)|by destruct (k2 _)].
Qed.

Lemma agree_mono {A} (Ra Rb : A -> A -> Prop) m1 m2 :
  agree Ra m1 m2 -> (forall a1 a2, Ra a1 a2 -> Rb a1 a2) -> agree Rb m1 m2.
Proof. intros Hm H. destruct m1, m2; cbn in *; auto. Qed.

Lemma agree_panic {A} (Ra : A -> A -> Prop) m : agree Ra m Panic.
Proof. by destruct m. Qed.

(** The same computation of both runs that does not fail. *)
Lemma agree_same {A} (m : res E A) : (forall e, m <> Err e) -> agree eq m m.
Proof. intros Hm. destruct m; cbn; try done. by destruct (Hm e). Qed.

Lemma agree_assert b1 b2 : b1 = b2 -> agree eq (assert b1) (assert b2).
Proof. intros ->. by destruct b2. Qed.

Lemma agree_usub a b : agree (fun n1 n2 => n2 = n1 /\ a = b + n1) (usub a b) (usub a b).
Proof. unfold usub. bcase; [cbn; lia|done]. Qed.

(** Slices of two vectors that agree where they are read. *)
Lemma sub_agree {B} (v1 v2 : list B) a n : (forall i, a <= i < a + n -> v1.[i] = v2.[i]) ->
  a + n <= len v1 -> a + n <= len v2 -> sub v1 a n = sub v2 a n.
Proof.
  intros Hv H1 H2. apply list_eq_same_length with (n := N.to_nat n);
    [by apply length_sub..|]. intros i x y Hi. replace i with (N.to_nat (N.of_nat i)) by lia.
  rewrite !lookup_sub, Hv by lia. congruence.
Qed.

Lemma agree_slice {B} (v1 v2 : list B) a b : (forall i, a <= i < b -> v1.[i] = v2.[i]) ->
  agree eq (slice v1 a b) (slice v2 a b).
Proof.
  intros Hv. unfold slice. destruct (N.leb_spec a b); cbn [andb]; [|done].
  destruct (N.leb_spec b (len v1)), (N.leb_spec b (len v2)); try done. cbn.
  apply sub_agree; [|lia..]. intros i Hi. apply Hv. lia.
Qed.

(** A slice that both runs take. *)
Lemma agree_slice_bind {A B} (Ra : A -> A -> Prop) (v1 v2 : list B) a b k1 k2 :
  (a <= b -> b <= len v1 -> b <= len v2 -> agree Ra (k1 (sub v1 a (b - a))) (k2 (sub v2 a (b - a)))) ->
  agree Ra (slice v1 a b ≫= k1) (slice v2 a b ≫= k2).
Proof.
  intros H. unfold slice.
  destruct (N.leb_spec a b); cbn [andb]; [|done].
  destruct (N.leb_spec b (len v1)), (N.leb_spec b (len v2)); mstep; [by apply H|..|done];
    [by destruct (k1 _)|done].
Qed.

Lemma agree_slice_from_bind {A B} (Ra : A -> A -> Prop) (v1 v2 : list B) a k1 k2 :
  (a <= len v1 -> a <= len v2 -> agree Ra (k1 (drop (N.to_nat a) v1)) (k2 (drop (N.to_nat a) v2))) ->
  agree Ra (slice_from v1 a ≫= k1) (slice_from v2 a ≫= k2).
Proof.
  intros H. unfold slice_from.
  destruct (N.leb_spec a (len v1)), (N.leb_spec a (len v2)); mstep; [by apply H|..|done|done].
  by destruct (k1 _).
Qed.

Lemma agree_sink_new o1 o2 pos : agree (fun s1 s2 => pos <= len o1 /\ pos <= len o2 /\
    s1 = {| sink_output := o1; sink_pos := pos |} /\ s2 = {| sink_output := o2; sink_pos := pos |})
  (SliceSinkImpl.new o1 pos) (SliceSinkImpl.new o2 pos).
Proof. unfold SliceSinkImpl.new. by apply agree_slice_bind. Qed.
End agreement.

(** A change of the error. *)
Lemma agree_map_err {E F A} Re Re' (Ra : A -> A -> Prop) (f1 f2 : E -> F) m1 m2 :
  agree Re Ra m1 m2 -> (forall e1 e2, Re e1 e2 -> Re' (f1 e1) (f2 e2)) ->
  agree Re' Ra (map_err f1 m1) (map_err f2 m2).
Proof. intros Hm H. destruct m1, m2; cbn in *; auto. Qed.

(** ** The block decoder *)

Section decoder.
Context `{T : Target}.
Implicit Types (input out ext_dict : bytes) (s : SliceSink).

(** Two buffers of one size that agree up to the position of the output. *)
Lemma decompress_body_stale USE_DICT input out1 out2 pos ext_dict :
  buffer_ok input -> buffer_ok out1 -> length out2 = length out1 -> pos <= len out1 ->
  take (N.to_nat pos) out2 = take (N.to_nat pos) out1 ->
  observe (decompress_body USE_DICT input out1 pos ext_dict) =
  observe (decompress_body USE_DICT input out2 pos ext_dict).
Proof.
  intros Hbi Hbo Hl Hp Ht. assert (Hbo2 : buffer_ok out2) by (unfold buffer_ok in *; lia).
  pose proof (decompress_body_sim USE_DICT input out1 pos ext_dict Hbi Hbo Hp) as H1.
  pose proof (decompress_body_sim USE_DICT input out2 pos ext_dict Hbi Hbo2 ltac:(lia)) as H2.
  cbv zeta in H1, H2. unfold history at 1 in H2. rewrite Hl, Ht in H2.
  fold (history (dict_of USE_DICT ext_dict) out1 pos) in H2. by eapply body_sim_det.
Qed.

(** Two sinks with the same bytes written. *)
Definition sinks_agree n s1 s2 : Prop :=
  length (sink_output s1) = length (sink_output s2) /\
  take (N.to_nat n) (sink_output s1) = take (N.to_nat n) (sink_output s2).

Lemma decompress_sink_stale USE_DICT input s1 s2 ext_dict :
  buffer_ok input -> buffer_ok (sink_output s1) -> sink_ok s1 -> sink_pos s2 = sink_pos s1 ->
  sinks_agree (sink_pos s1) s1 s2 ->
  agree (fun '(t1, e1) '(t2, e2) => e1 = e2 /\ sinks_agree (sink_pos s1) t1 t2 /\
      length (sink_output t1) = length (sink_output s1))
    (fun '(t1, n1) '(t2, n2) => n1 = n2 /\ sinks_agree (sink_pos s1 + n1) t1 t2 /\
      length (sink_output t1) = length (sink_output s1) /\ sink_pos s1 + n1 <= len (sink_output t1))
    (decompress_into_sink_with_dict USE_DICT input s1 ext_dict)
    (decompress_into_sink_with_dict USE_DICT input s2 ext_dict).
Proof.
  intros Hbi Hbo Hs Hpos [Hl Ht]. assert (Hbo2 : buffer_ok (sink_output s2)) by (unfold buffer_ok in *; lia).
  assert (Hs2 : sink_ok s2) by (unfold sink_ok in *; cbn in *; lia).
  pose proof (sink_post_ok USE_DICT input s1 ext_dict Hbi Hbo Hs) as H1.
  pose proof (sink_post_ok USE_DICT input s2 ext_dict Hbi Hbo2 Hs2) as H2.
  pose proof (decompress_body_stale USE_DICT input _ _ _ ext_dict Hbi Hbo (eq_sym Hl) Hs (eq_sym Ht)) as Ho.
  unfold decompress_into_sink_with_dict, decompress_internal in *.
  cbn [output_mut_with_pos set_output_with_pos SliceSink_Sink OutSinkImpl.new os_output os_pos] in *. rewrite Hpos in *.
  destruct (decompress_body _ _ (sink_output s1) _ _) as [[[o1 p1] n1]|[[o1 p1] e1]| |]; try done;
    destruct (decompress_body _ _ (sink_output s2) _ _) as [[[o2 p2] n2]|[[o2 p2] e2]| |]; try done;
    injection Ho as Ho He.
  - subst n2. destruct H1 as (Hl1 & Hp1 & Hk1 & _), H2 as (Hl2 & Hp2 & _). unfold sink_ok in Hk1. cbn in *.
    split; [done|]. split; [|split; [done|lia]]. split; cbn; [congruence|].
    by replace (sink_pos s1 + n1) with p1 by lia; rewrite Ho; f_equal; lia.
  - destruct H1 as (Hl1 & _ & Ht1 & _), H2 as (Hl2 & _ & Ht2 & _). cbn in *. split; [done|].
    split; [|done]. split; cbn; [congruence|]. unfold written in *. congruence.
Qed.

(** A call from position 0, and the same call on another buffer of that size. *)
Lemma decompress_internal_stale USE_DICT input out1 out2 ext_dict :
  buffer_ok input -> buffer_ok out1 -> length out2 = length out1 ->
  match decompress_internal USE_DICT input (OutSinkImpl.new out1 0) ext_dict with
  | Ok (s1, n) => exists s2 : OutSink, decompress_internal USE_DICT input (OutSinkImpl.new out2 0) ext_dict = Ok (s2, n) /\
      take (N.to_nat n) (os_output s2) = take (N.to_nat n) (os_output s1) /\
      length (os_output s1) = length out1 /\ length (os_output s2) = length out1 /\ n <= len out1
  | Err (s1, e) => exists s2 : OutSink, decompress_internal USE_DICT input (OutSinkImpl.new out2 0) ext_dict = Err (s2, e) /\
      length (os_output s1) = length out1 /\ length (os_output s2) = length out1
  | Panic | NoFuel => False
  end.
Proof.
  intros Hbi Hbo Hl. assert (Hbo2 : buffer_ok out2) by (unfold buffer_ok in *; lia).
  pose proof (entry_post_ok USE_DICT input out1 ext_dict Hbi Hbo) as H1.
  pose proof (entry_post_ok USE_DICT input out2 ext_dict Hbi Hbo2) as H2.
  pose proof (decompress_body_stale USE_DICT input out1 out2 0 ext_dict Hbi Hbo Hl ltac:(lia) eq_refl) as Ho.
  unfold decompress_internal in *. cbn [os_output os_pos OutSinkImpl.new] in *.
  destruct (decompress_body _ _ out1 _ _) as [[[o1 p1] n1]|[[o1 p1] e1]| |]; try done;
    destruct (decompress_body _ _ out2 _ _) as [[[o2 p2] n2]|[[o2 p2] e2]| |]; try done;
    injection Ho as Ho He; cbn [os_output os_pos OutSinkImpl.new] in *.
  - destruct H1 as (-> & Hl1 & Hn & _), H2 as (-> & Hl2 & _). subst n2.
    eexists. split; [done|]. cbn. split_and!; [done|done|congruence|done].
  - destruct H1 as [Hl1 _], H2 as [Hl2 _]. subst e2. eexists. split; [done|]. split; [done|cbn; congruence].
Qed.

(** An appending call starts on a new buffer of zeros. *)
Lemma decompress_append_stale USE_DICT input output before ext_dict :
  buffer_ok input -> len before + len output + 1024 <= isize_max ->
  match decompress_internal USE_DICT input (OutSinkImpl.new output 0) ext_dict with
  | Ok (s, n) => decompress_append_internal USE_DICT input before (len output) ext_dict =
      Ok (before ++ take (N.to_nat n) (os_output s), n)
  | Err (_, e) => decompress_append_internal USE_DICT input before (len output) ext_dict = Err (before, e)
  | Panic | NoFuel => False
  end.
Proof.
  intros Hbi Hm. assert (Hbo : buffer_ok output) by (unfold buffer_ok; lia).
  pose proof (decompress_internal_stale USE_DICT input output (replicate (length output) x00) ext_dict Hbi Hbo
    (length_replicate _ _)) as H.
  unfold decompress_append_internal, assert. bcase. mstep. access.
  rewrite drop_app_length' by lia. rewrite !(take_app_length' before), (Nat2N.id (length output)) by lia.
  destruct (decompress_internal _ _ (OutSinkImpl.new output 0) _) as [[s n]|[s e]| |]; [| |done..].
  - destruct H as (s2 & -> & Ht & Hl1 & Hl2 & Hn). rewrite take_app_ge, <-Ht by lia. do 3 f_equal. f_equal. lia.
  - destruct H as (s2 & -> & _). do 2 f_equal. apply take_app_length'. lia.
Qed.
End decoder.
