(* ===== verification/FrameDecoderReuse.v ===== *)
(** * A frame decoder that is used again

    Two decoders whose buffers and past differ, but which agree on what the
    code may read and have as much of their output limits left, behave alike:
    each method returns the same bytes and the same error. *)

From S2P Require Import Prelude BlockSpec Core Primitives Decompress DecompressProofs DecompressSpec EncoderSpec FrameHeader FrameIO FrameSpec FrameDecoder FrameDecoderSpec FrameDecoderProofs FrameDecoderStream Reuse.

(** The output limits: the decoders have as much left, or nothing is said of runs
    that meet the limit. *)
Inductive limits := SameRoom | AnyRoom.

Section ops.
Context `{T : Target} (xxh32 : bytes -> N) {R : Type} {HR : Read R} {HS : ReadSound R}.
Implicit Types (d : FrameDecoder R) (info : FrameInfo) (data : bytes).
Import FrameDecoderImpl.

Context (limits_are : limits).

(** ** What two decoders share *)

Record fixed d1 d2 : Prop := {
  fx_r : fd_r d2 = fd_r d1;
  fx_dict : fd_dict d2 = fd_dict d1;
  fx_id : fd_expected_dict_id d2 = fd_expected_dict_id d1;
  fx_room : limits_are = SameRoom -> fd_max_output d2 + fd_bytes_output d1 = fd_max_output d1 + fd_bytes_output d2;
  fx_limit1 : fd_max_output d1 <= usize_max;
  fx_limit2 : fd_max_output d2 <= usize_max
}.

(** The positions of [dst] that the code may read: those below [hi] and those of
    the dictionary inside [dst]. *)
Definition readable hi d (i : N) : Prop :=
  i < hi \/ fd_ext_dict_offset d <= i < fd_ext_dict_offset d + fd_ext_dict_len d.

Record in_frame info hi d1 d2 : Prop := {
  if_open1 : fd_current_frame_info d1 = Some info;
  if_open2 : fd_current_frame_info d2 = Some info;
  if_hasher : fd_content_hasher d2 = fd_content_hasher d1;
  if_size : fd_content_len d2 = fd_content_len d1;
  if_ext : fd_ext_dict_len d2 = fd_ext_dict_len d1;
  if_start : fd_dst_start d2 = fd_dst_start d1;
  if_end : fd_dst_end d2 = fd_dst_end d1;
  if_offset : fd_ext_dict_len d1 <> 0 -> fd_ext_dict_offset d2 = fd_ext_dict_offset d1;
  if_linked : is_linked info = false -> fd_ext_dict_len d1 = 0;
  if_data : forall i, readable hi d1 i -> (fd_dst d1).[i] = (fd_dst d2).[i]
}.

Definition emptied d : Prop := fd_dst_start d = fd_dst_end d.

(** Between two calls. *)
Definition alike d1 d2 : Prop := fixed d1 d2 /\
  match fd_current_frame_info d1 with
  | None => fd_current_frame_info d2 = None /\ emptied d1 /\ emptied d2
  | Some info => in_frame info (fd_dst_end d1) d1 d2
  end.

(** Between two blocks, and after an error inside a block. *)
Definition between_blocks info hi d1 d2 : Prop := fixed d1 d2 /\ in_frame info hi d1 d2 /\ emptied d1.

Definition stopped d1 d2 : Prop := fixed d1 d2 /\ emptied d1 /\ emptied d2.

(** An error of the output limit shows the bytes handed out before. *)
Definition limited (x : IoError) : Prop :=
  exists max actual, x = io_of_error (DecompressedSizeLimit max actual).

Definition same_error (x1 x2 : IoError) : Prop := x1 = x2 \/ limited x1 /\ limited x2.

(** The relation of two calls, given the one of the states after an error. *)
Definition hide {A} (m : res (FrameDecoder R * IoError) A) : res (FrameDecoder R * IoError) A :=
  match m, limits_are with Err (_, x), AnyRoom => if is_limit x then Panic else m | _, _ => m end.

Definition same (Rd : FrameDecoder R -> FrameDecoder R -> Prop) {A} (Ra : A -> A -> Prop)
    (m1 m2 : res (FrameDecoder R * IoError) A) : Prop :=
  agree (fun '(d1, x1) '(d2, x2) => same_error x1 x2 /\ Rd d1 d2) Ra (hide m1) (hide m2).

Lemma hide_bind {A B} (m : res (FrameDecoder R * IoError) A) (k : A -> res _ B) :
  hide (m ≫= k) = hide m ≫= (fun a => hide (k a)).
Proof. destruct m as [a|[d x]| |]; cbn; [done| |done..]. by destruct limits_are, (is_limit x). Qed.

Lemma same_bind (Rd : FrameDecoder R -> FrameDecoder R -> Prop) {A B} (Ra : A -> A -> Prop) (Rb : B -> B -> Prop)
    m1 m2 k1 k2 :
  same Rd Ra m1 m2 -> (forall a1 a2, Ra a1 a2 -> same Rd Rb (k1 a1) (k2 a2)) -> same Rd Rb (m1 ≫= k1) (m2 ≫= k2).
Proof. intros Hm Hk. unfold same. rewrite !hide_bind. by eapply agree_bind. Qed.

Lemma same_agree (Rd : FrameDecoder R -> FrameDecoder R -> Prop) {A} (Ra : A -> A -> Prop) m1 m2 :
  agree (fun '(d1, x1) '(d2, x2) => same_error x1 x2 /\ Rd d1 d2) Ra m1 m2 -> same Rd Ra m1 m2.
Proof.
  unfold same, hide. destruct m1 as [|[]| |], m2 as [|[]| |]; cbn; try done; destruct limits_are; try done;
    repeat case_match; done.
Qed.

(** All that is hidden is in the second mode. *)
Lemma same_strict (Rd : FrameDecoder R -> FrameDecoder R -> Prop) {A} (Ra : A -> A -> Prop) m1 m2 :
  limits_are = SameRoom -> same Rd Ra m1 m2 -> agree (fun '(d1, x1) '(d2, x2) => same_error x1 x2 /\ Rd d1 d2) Ra m1 m2.
Proof. unfold same, hide. intros ->. by destruct m1 as [|[]| |], m2 as [|[]| |]. Qed.

(** A change of the state after an error. *)
Lemma same_map_state (Rd Rd' : FrameDecoder R -> FrameDecoder R -> Prop) g {A} (Ra : A -> A -> Prop) m1 m2 :
  same Rd Ra m1 m2 -> (forall d1 d2, Rd d1 d2 -> Rd' (g d1) (g d2)) ->
  same Rd' Ra (map_err (fun '(d, x) => (g d, x)) m1) (map_err (fun '(d, x) => (g d, x)) m2).
Proof.
  unfold same, hide. intros Hm Hg. destruct limits_are, m1 as [|[]| |], m2 as [|[]| |]; cbn in *; try done;
    repeat case_match; try done; destruct Hm; cbn; by auto.
Qed.

Lemma same_mono (Rd : FrameDecoder R -> FrameDecoder R -> Prop) {A} (Ra Rb : A -> A -> Prop) m1 m2 :
  same Rd Ra m1 m2 -> (forall a1 a2, Ra a1 a2 -> Rb a1 a2) -> same Rd Rb m1 m2.
Proof. apply agree_mono. Qed.

Lemma same_slice_bind (Rd : FrameDecoder R -> FrameDecoder R -> Prop) {A B} (Ra : A -> A -> Prop) (v1 v2 : list B) a b k1 k2 :
  (a <= b -> b <= len v1 -> b <= len v2 -> same Rd Ra (k1 (sub v1 a (b - a))) (k2 (sub v2 a (b - a)))) ->
  same Rd Ra (slice v1 a b ≫= k1) (slice v2 a b ≫= k2).
Proof.
  intros Hk. unfold same. rewrite !hide_bind. unfold slice. repeat case_match; cbn; try done; try (apply agree_panic).
  by apply Hk; apply andb_prop in H as [?%N.leb_le ?%N.leb_le]; apply andb_prop in H0 as [?%N.leb_le ?%N.leb_le].
Qed.

(** States that differ in nothing else, with equal results. *)
Definition with_eq {A} (Rd : FrameDecoder R -> FrameDecoder R -> Prop)
  : FrameDecoder R * A -> FrameDecoder R * A -> Prop :=
  fun '(d1, a1) '(d2, a2) => Rd d1 d2 /\ a1 = a2.

Lemma between_stopped info hi d1 d2 : between_blocks info hi d1 d2 -> stopped d1 d2.
Proof. intros (Hf & [] & He). split_and!; [done..|]. unfold emptied in *. congruence. Qed.

Lemma stopped_closed d1 d2 : stopped d1 d2 -> alike (set_current None d1) (set_current None d2).
Proof. intros ([] & H1 & H2). split; [by split|]. by cbn. Qed.

Lemma same_try {A} (Rd : FrameDecoder R -> FrameDecoder R -> Prop) d1 d2 (m : res Error A) : Rd d1 d2 ->
  same Rd eq (try_io d1 m) (try_io d2 m).
Proof. intros Hd. apply same_agree. destruct m; cbn; unfold same_error; auto. Qed.

Lemma same_fail (Rd : FrameDecoder R -> FrameDecoder R -> Prop) {A} d1 d2 x (Ra : A -> A -> Prop) :
  Rd d1 d2 -> same Rd Ra (fail d1 x) (fail d2 x).
Proof. intros Hd. apply same_agree. cbn. unfold same_error. auto. Qed.

(** ** The reader *)

Lemma fixed_r d1 d2 r : fixed d1 d2 -> fixed (set_r r d1) (set_r r d2).
Proof. intros []. by split. Qed.

Lemma between_blocks_r info hi d1 d2 r : between_blocks info hi d1 d2 ->
  between_blocks info hi (set_r r d1) (set_r r d2).
Proof. intros (Hf & [] & He). split_and!; [by apply fixed_r|by split|done]. Qed.

Lemma alike_r d1 d2 r : alike d1 d2 -> alike (set_r r d1) (set_r r d2).
Proof.
  intros [Hf H]. split; [by apply fixed_r|]. dfields. case_match; [|done]. destruct H. by split.
Qed.

(** The buffers play no part outside a frame. *)
Lemma stopped_resized d1 d2 s1 s2 w1 w2 : stopped d1 d2 ->
  stopped (set_src s1 (set_dst w1 d1)) (set_src s2 (set_dst w2 d2)).
Proof. intros ([] & H1 & H2). split; [by split|done]. Qed.

Lemma stopped_r d1 d2 r : stopped d1 d2 -> stopped (set_r r d1) (set_r r d2).
Proof. intros (Hf & ? & ?). split; [by apply fixed_r|done]. Qed.

Lemma same_on_r (Rd : FrameDecoder R -> FrameDecoder R -> Prop) d1 d2 f : fixed d1 d2 ->
  (forall r, Rd (set_r r d1) (set_r r d2)) ->
  same Rd (fun '(e1, b1) '(e2, b2) => b2 = b1 /\
      exists r, f (fd_r d1) = Ok (r, b1) /\ e1 = set_r r d1 /\ e2 = set_r r d2)
    (on_r d1 f) (on_r d2 f).
Proof.
  intros [] Hr. apply same_agree. unfold on_r. rewrite fx_r0. destruct (f (fd_r d1)) as [[r b]|[r x]| |]; cbn; unfold same_error; eauto 10.
Qed.

Lemma same_bytes (Rd : FrameDecoder R -> FrameDecoder R -> Prop) d1 d2 n : fixed d1 d2 ->
  (forall r, Rd (set_r r d1) (set_r r d2)) ->
  same Rd (fun '(e1, b1) '(e2, b2) => b2 = b1 /\ len b1 = n /\
      exists r, e1 = set_r r d1 /\ e2 = set_r r d2)
    (read_bytes d1 n) (read_bytes d2 n).
Proof.
  intros Hf Hr. eapply same_mono; [by apply same_on_r|].
  intros [e1 b1] [e2 b2] (-> & r & Hb & -> & ->). split; [done|]. split; [|by exists r].
  pose proof (read_exact_sound (fd_r d1) n) as H. by rewrite Hb in H.
Qed.

(** ** A block *)

Lemma slide_same info size d1 d2 : between_blocks info (fd_dst_end d1) d1 d2 ->
  same stopped (fun e1 e2 => between_blocks info (fd_dst_end e1) e1 e2 /\
      fd_dst_start e1 + size <= size * 2 + WINDOW_SIZE)
    (slide d1 info size) (slide d2 info size).
Proof.
  intros (Hf & Hi & He). pose proof Hi as []. apply same_agree. unfold slide. rewrite if_ext0, if_start0.
  destruct (is_linked info) eqn:Hl; [destruct (N.ltb_spec (size * 2 + WINDOW_SIZE) (fd_dst_start d1 + size));
    [|destruct (N.ltb_spec WINDOW_SIZE (fd_dst_start d1 + fd_ext_dict_len d1))]|].
  - unfold assert, usub. bcase. mstep. bcase. mstep. cbn. split; [|lia].
    split; [destruct Hf; by split|]. split; [|done].
    unfold emptied in He. split; dfields; try done; [congruence|]. intros i [Hi'|Hi']; dfields; [lia|].
    apply if_data0. left. lia.
  - unfold assert. dfields. rewrite if_start0. bcase. mstep. cbn. split; [|done].
    split; [destruct Hf; by split|]. split; [|done].
    split; dfields; try done; [intros; rewrite if_offset0 by lia; lia|congruence|].
    intros i [Hi'|Hi']; dfields; apply if_data0; [by left|right; lia].
  - split; [done|lia].
  - unfold assert. bcase. mstep. cbn. split; [|lia].
    split; [destruct Hf; by split|]. split; [|done].
    split; dfields; try done. intros i [Hi'|Hi']; dfields; lia.
Qed.

Lemma check_output_len_same info hi d1 d2 n : between_blocks info hi d1 d2 ->
  same stopped (fun a1 a2 => limits_are = SameRoom -> fd_max_output d2 + a1 = fd_max_output d1 + a2)
    (check_output_len d1 n) (check_output_len d2 n).
Proof.
  intros Hb. pose proof (between_stopped _ _ _ _ Hb) as Hst. pose proof Hb as ([] & _).
  unfold check_output_len, checked_add, same, hide. destruct limits_are; [specialize (fx_room0 eq_refl)|].
  - repeat match goal with |- context [if ?a <=? ?b then _ else _] => destruct (N.leb_spec a b) end; try lia;
      repeat match goal with |- context [if ?a <? ?b then _ else _] => destruct (N.ltb_spec a b) end; try lia;
      cbn; try lia; unfold same_error, limited; eauto 10.
  - repeat match goal with |- context [if ?c then _ else _] => destruct c end; cbn; done.
Qed.

Lemma lookup_grow v last i :
  (grow v last).[i] = match v.[i] with Some b => Some b | None => if i <? last then Some x00 else None end.
Proof.
  assert (Hn : len v <= i -> v.[i] = None) by (intros; apply lookup_ge_None_2; lia).
  assert (Hs : i < len v -> is_Some v.[i]) by (intros; apply lookup_lt_is_Some_2; lia).
  unfold grow. destruct (N.ltb_spec i (len v)) as [Hi|Hi].
  - destruct (Hs Hi) as [b Hb]. rewrite Hb. bcase; [by apply lookup_app_l_Some|done].
  - rewrite (Hn Hi). destruct (N.ltb_spec (len v) last).
    + rewrite lookup_app_r by lia. bcase; [by rewrite lookup_replicate_2 by lia|].
      apply lookup_ge_None_2. len_lia.
    + bcase. by apply Hn.
Qed.

Lemma lookup_grow_same v1 v2 last i : v1.[i] = v2.[i] -> (grow v1 last).[i] = (grow v2 last).[i].
Proof. intros Hv. by rewrite !lookup_grow, Hv. Qed.

Lemma resize_same v1 v2 start last :
  same stopped (fun w1 w2 => w1 = grow v1 last /\ w2 = grow v2 last)
    (vec_resize_and_get_mut v1 start last) (vec_resize_and_get_mut v2 start last).
Proof.
  apply same_agree. unfold vec_resize_and_get_mut. eapply (agree_bind _ (fun _ _ => True)); [|done].
  unfold slice. by repeat case_match.
Qed.

(** The bytes that are read into a buffer. *)
Lemma write_same v1 v2 start last data (P : N -> Prop) :
  (forall i, P i -> v1.[i] = v2.[i]) ->
  same stopped (fun w1 w2 => (forall i, P i \/ start <= i < start + len data -> w1.[i] = w2.[i]) /\
       last <= len w1 /\ last <= len w2)
    (write_at (grow v1 last) start data) (write_at (grow v2 last) start data).
Proof.
  intros Hv. apply same_agree. unfold write_at.
  destruct (N.leb_spec (start + len data) (len (grow v1 last))), (N.leb_spec (start + len data) (len (grow v2 last)));
    try done. cbn. rewrite !length_splice, !length_grow by lia. split_and!; [|lia..].
  intros i Hi. rewrite !lookup_splice by lia. bcase; [|bcase; [done|]];
    (destruct Hi as [Hi|?]; [by apply lookup_grow_same, Hv|lia]).
Qed.

Lemma read_checksum_same d1 d2 : stopped d1 d2 ->
  same stopped (fun '(e1, k1) '(e2, k2) => k2 = k1 /\ exists r, e1 = set_r r d1 /\ e2 = set_r r d2)
    (read_checksum d1) (read_checksum d2).
Proof.
  intros Hst. unfold read_checksum. eapply same_bind.
  - apply (same_bytes stopped); [apply Hst|]. intros r. by apply stopped_r.
  - intros [e1 b1] [e2 b2] (-> & _ & Hr). cbn. eauto.
Qed.

(** The checksum of a block. *)
Lemma checksum_same info hi d1 d2 (c : bool) (get : FrameDecoder R -> res (FrameDecoder R * IoError) bytes) :
  between_blocks info hi d1 d2 ->
  (forall r, same stopped eq (get (set_r r d1)) (get (set_r r d2))) ->
  let check d := if c then '(d, expected_checksum) ← read_checksum d; data ← get d;
                           _ ← try_io d (check_block_checksum xxh32 data expected_checksum); Ok d
                 else Ok d in
  same stopped (fun e1 e2 => exists r, e1 = set_r r d1 /\ e2 = set_r r d2) (check d1) (check d2).
Proof.
  intros Hb Hg. cbv zeta. destruct c; [|cbn; exists (fd_r d1)].
  - eapply same_bind; [by eapply read_checksum_same, between_stopped|].
    intros [e1 k1] [e2 k2] (-> & r & -> & ->). eapply same_bind; [apply Hg|]. intros data ? <-.
    eapply same_bind; [apply same_try; by apply stopped_r, (between_stopped info hi)|].
    intros _ _ _. cbn. eauto.
  - destruct Hb as ([] & _). split; [by destruct d1|]. rewrite <-fx_r0. by destruct d2.
Qed.

(** A block has been decoded. *)
Definition after_block info d1 d2 : Prop := fixed d1 d2 /\ in_frame info (fd_dst_end d1) d1 d2.

Lemma finish_block_same info d1 d2 n a1 a2 : between_blocks info (fd_dst_end d1 + n) d1 d2 ->
  (limits_are = SameRoom -> fd_max_output d2 + a1 = fd_max_output d1 + a2) ->
  let finish d a := content_len ← checked_sum u64_max (fd_content_len d) n;
    Ok (set_content (fd_content_hasher d) content_len
         (set_dst_pos (fd_dst_start d) (fd_dst_end d + n) (set_bytes_output a d))) in
  same stopped (after_block info) (finish d1 a1) (finish d2 a2).
Proof.
  intros ([] & [] & _) Ha. cbv zeta beta. rewrite if_size0. unfold checked_sum. case_match; mstep; [|done].
  cbn. split; split; dfields; try done; try congruence.
Qed.

Lemma between_dst info hi hi' w1 w2 d1 d2 : between_blocks info hi d1 d2 ->
  (forall i, readable hi' d1 i -> w1.[i] = w2.[i]) ->
  between_blocks info hi' (set_dst w1 d1) (set_dst w2 d2).
Proof. intros ([] & [] & He) Hw. split_and!; [by split|by split|done]. Qed.

Lemma read_uncompressed_same info size n d1 d2 : between_blocks info (fd_dst_end d1) d1 d2 ->
  same stopped (after_block info) (read_uncompressed xxh32 d1 info size n) (read_uncompressed xxh32 d2 info size n).
Proof.
  intros Hb. pose proof (between_stopped _ _ _ _ Hb) as Hst. unfold read_uncompressed. bcase; [by apply same_fail|].
  eapply same_bind; [by eapply check_output_len_same|]. intros a1 a2 Ha.
  pose proof Hb as (Hf & [] & He). unfold emptied in He. rewrite if_start0.
  eapply same_bind; [apply resize_same|]. intros ? ? [-> ->]. set (last := fd_dst_start d1 + n).
  pose proof (stopped_resized d1 d2 (fd_src d1) (fd_src d2) (grow (fd_dst d1) last) (grow (fd_dst d2) last) Hst) as Hst1.
  eapply same_bind; [apply (same_bytes stopped); [apply Hst1|intros r; by apply (stopped_r _ _ r) in Hst1]|].
  intros [e1 data] [e2 ?] (-> & Hn & r & -> & ->). dfields. rewrite if_start0.
  eapply same_bind; [apply (write_same _ _ _ _ _ _ if_data0)|]. intros w1 w2 (Hw & _). rewrite Hn in Hw.
  change (set_dst w1 (set_r r (set_dst _ d1))) with (set_dst w1 (set_r r d1)).
  change (set_dst w2 (set_r r (set_dst _ d2))) with (set_dst w2 (set_r r d2)). subst last.
  assert (Hb2 : between_blocks info (fd_dst_end d1 + n) (set_dst w1 (set_r r d1)) (set_dst w2 (set_r r d2))).
  { apply between_dst with (hi := fd_dst_end d1); [by apply between_blocks_r|].
    intros i Hi. apply Hw. unfold readable in *. dfields. lia. }
  eapply same_bind; [apply (checksum_same info _ _ _ (block_checksums info)
    (fun d => slice (fd_dst d) (fd_dst_start d) (fd_dst_start d + n)) Hb2)|].
  { intros r'. dfields. rewrite if_start0. apply same_agree, agree_slice. intros i Hi. apply Hw. lia. }
  intros e1 e2 (r' & -> & ->). by apply (finish_block_same info _ _ n a1 a2), Ha; apply between_blocks_r.
Qed.

(** ** A compressed block *)

(** Before a block of [n] bytes is decoded. *)
Definition decoding info (n hi : N) d1 d2 : Prop := between_blocks info hi d1 d2 /\
  fd_dst_start d1 = hi /\ sub (fd_src d1) 0 n = sub (fd_src d2) 0 n.

Definition decoded_same info n hi : res (FrameDecoder R * DecompressError) (FrameDecoder R * N) ->
  res (FrameDecoder R * DecompressError) (FrameDecoder R * N) -> Prop :=
  agree (fun '(d1, x1) '(d2, x2) => x1 = x2 /\ decoding info n hi d1 d2)
    (fun '(d1, k1) '(d2, k2) => k2 = k1 /\ between_blocks info (hi + k1) d1 d2 /\ fd_dst_start d1 = hi).

Lemma decode_into_same USE_DICT info n hi d1 d2 input ext v1 v2 last :
  decoding info n hi d1 d2 -> buffer_ok input -> last + 1024 <= isize_max -> hi <= last ->
  last <= len v1 -> last <= len v2 ->
  (forall i, readable hi d1 i -> v1.[i] = v2.[i]) -> (fd_ext_dict_len d1 = 0 \/ last <= fd_ext_dict_offset d1) ->
  let decode v d := decode_into d (decompress_into_sink_with_dict USE_DICT input
    {| sink_output := take (N.to_nat last) v; sink_pos := hi |} ext) (drop (N.to_nat last) v) in
  decoded_same info n hi (decode v1 d1) (decode v2 d2).
Proof.
  intros (Hb & Hs & Hsrc) Hbi Hlast Hhi Hl1 Hl2 Hv Hext. cbv zeta beta.
  set (s1 := {| sink_output := take _ v1; sink_pos := _ |}). set (s2 := {| sink_output := take _ v2; sink_pos := _ |}).
  assert (Hagree : sinks_agree hi s1 s2).
  { split; subst s1 s2; cbn [sink_output]; [len_lia|].
    rewrite !take_take. replace (N.to_nat hi `min` N.to_nat last)%nat with (N.to_nat hi) by lia.
    rewrite <-!sub_0. apply sub_agree; [|lia..]. intros i Hi. apply Hv. left. lia. }
  pose proof (decompress_sink_stale USE_DICT input s1 s2 ext Hbi ltac:(subst s1; unfold buffer_ok; cbn; len_lia)
    ltac:(subst s1; unfold sink_ok; cbn; len_lia) eq_refl Hagree) as H. cbn [sink_pos s1] in H.
  assert (Hdata : forall t1 t2 k, sinks_agree (hi + k) t1 t2 -> length (sink_output t1) = length (sink_output s1) ->
    hi + k <= len (sink_output t1) -> forall i, readable (hi + k) d1 i ->
    (sink_output t1 ++ drop (N.to_nat last) v1).[i] = (sink_output t2 ++ drop (N.to_nat last) v2).[i]).
  { intros t1 t2 k [Ht1 Ht2] Hlen Hk i Hi. assert (Hls : len (sink_output t1) = last) by (subst s1; cbn in Hlen; len_lia).
    destruct (N.ltb_spec i (hi + k)) as [Hlt|Hge].
    - rewrite !lookup_app_l by lia. rewrite <-(lookup_take_lt _ (N.to_nat (hi + k))), Ht2 by lia. apply lookup_take_lt. lia.
    - destruct Hi as [?|Hi]; [lia|]. destruct Hext as [?|Hext]; [lia|].
      rewrite !lookup_app_r by lia. rewrite !lookup_drop, Ht1 in *.
      replace (N.to_nat last + (N.to_nat i - length (sink_output t2)))%nat with (N.to_nat i) by lia.
      apply Hv. right. lia. }
  unfold decoded_same, decode_into.
  destruct (decompress_into_sink_with_dict _ _ s1 _) as [[t1 k1]|[t1 x1]| |],
    (decompress_into_sink_with_dict _ _ s2 _) as [[t2 k2]|[t2 x2]| |]; cbn in H |- *; try done.
  - destruct H as (-> & Ht & Hlen & Hk). split; [done|]. split; [|done]. eapply between_dst; [done|]. by apply Hdata.
  - destruct H as (-> & Ht & Hlen). split; [done|]. split; [|done].
    eapply between_dst; [done|]. intros i Hi. apply (Hdata t1 t2 0); rewrite ?N.add_0_r; try done.
    rewrite Hlen. subst s1. cbn. len_lia.
Qed.

Lemma decompress_block_same info n size limit hi d1 d2 :
  decoding info n hi d1 d2 -> n <= size -> limit <= size -> size <= 4194304 ->
  hi + size <= size * 2 + WINDOW_SIZE ->
  decoded_same info n hi (decompress_block d1 n limit) (decompress_block d2 n limit).
Proof.
  intros Hd Hn Hlim Hsize Hroom. pose proof Hd as (([] & [] & _) & Hs & Hsrc).
  assert (Hbi : n + 1024 <= isize_max) by dlia.
  unfold decompress_block. rewrite if_open3, if_open4, if_ext0, if_start0, fx_dict0, Hs.
  apply agree_slice_bind. intros _ Hn1 Hn2. rewrite N.sub_0_r, <-Hsrc.
  assert (Hi : buffer_ok (sub (fd_src d1) 0 n)) by (unfold buffer_ok; rewrite length_sub by lia; lia).
  set (input := sub (fd_src d1) 0 n) in *.
  rewrite uadd_ok by dlia. mstep. set (last := hi + limit).
  assert (Hlast : last + 1024 <= isize_max) by (subst last; dlia).
  destruct (is_linked info && negb (fd_ext_dict_len d1 =? 0)) eqn:Hcase.
  - apply andb_prop in Hcase as [_ Hx%negb_true_iff%N.eqb_neq]. rewrite (if_offset0 Hx).
    unfold assert. destruct (N.leb_spec last (fd_ext_dict_offset d1)); mstep; [|done].
    apply agree_slice_from_bind. intros Ho1 Ho2.
    apply agree_slice_bind. intros _ He1 He2. rewrite N.sub_0_r.
    apply agree_slice_bind. intros _ Hh1 Hh2. autorewrite with lz4_len in *.
    eapply agree_bind; [apply agree_sink_new|]. intros s1 s2 (_ & _ & -> & ->).
    rewrite !N.sub_0_r, !(sub_0 (take _ _)), !take_take.
    replace (N.to_nat last `min` N.to_nat (fd_ext_dict_offset d1))%nat with (N.to_nat last) by lia.
    replace (sub (drop _ (fd_dst d2)) 0 _) with (sub (drop (N.to_nat (fd_ext_dict_offset d1)) (fd_dst d1)) 0 (fd_ext_dict_len d1)).
    2:{ apply (sub_agree (fd_dst d1) (fd_dst d2) (fd_ext_dict_offset d1)); [|lia..]. intros i Hi'. apply if_data0. by right. }
    apply (decode_into_same true info n hi d1 d2 input); try done; lia || auto.
  - assert (Hx : fd_ext_dict_len d1 = 0).
    { destruct (is_linked info); [by apply negb_false_iff, N.eqb_eq in Hcase|by apply if_linked0]. }
    set (w d := grow (fd_dst d) last).
    set (sink_of d := {| sink_output := take (N.to_nat last) (w d); sink_pos := hi |}).
    eapply (agree_bind _ (fun p1 p2 => p1 = (sink_of d1, drop (N.to_nat last) (w d1)) /\
      p2 = (sink_of d2, drop (N.to_nat last) (w d2)))).
    { unfold vec_sink_for_decompression. apply agree_slice_bind. intros _ _ _. rewrite N.sub_0_r, !sub_0.
      eapply agree_bind; [apply agree_sink_new|]. by intros s1 s2 (_ & _ & -> & ->). }
    intros ? ? [-> ->].
    assert (Hw : forall d, last <= len (w d)) by (intros; subst w; cbn; len_lia).
    assert (Hsame : forall i, readable hi d1 i -> (w d1).[i] = (w d2).[i])
      by (intros i Hr; by apply lookup_grow_same, if_data0).
    cbv beta iota. destruct (len (fd_dict d1) =? 0); cbn [negb]; eapply (decode_into_same _ info n hi d1 d2 input); try done; try lia; auto.
Qed.

Lemma decompress_loop_same fuel info n size limit hi d1 d2 :
  decoding info n hi d1 d2 -> n <= size -> limit <= size -> size <= 4194304 ->
  hi + size <= size * 2 + WINDOW_SIZE ->
  decoded_same info n hi (decompress_loop fuel d1 n limit size) (decompress_loop fuel d2 n limit size).
Proof.
  revert limit d1 d2. induction fuel as [|fuel IH]; intros limit d1 d2 Hd Hn Hlim Hs Hroom; [done|].
  cbn [decompress_loop]. pose proof (decompress_block_same info n size limit hi d1 d2 Hd Hn Hlim Hs Hroom) as H.
  destruct (decompress_block d1 n limit) as [[e1 k1]|[e1 x1]| |],
    (decompress_block d2 n limit) as [[e2 k2]|[e2 x2]| |]; try done.
  - destruct H as [-> H]. destruct (limit <? size); [by apply IH|done].
  - unfold decoded_same, agree. by repeat case_match.
Qed.

Lemma between_src info hi s1 s2 d1 d2 : between_blocks info hi d1 d2 ->
  between_blocks info hi (set_src s1 d1) (set_src s2 d2).
Proof. intros ([] & [] & He). split_and!; [by split|by split|done]. Qed.

Lemma read_compressed_same info size n d1 d2 : between_blocks info (fd_dst_end d1) d1 d2 ->
  size <= 4194304 -> fd_dst_start d1 + size <= size * 2 + WINDOW_SIZE ->
  same stopped (after_block info) (read_compressed xxh32 d1 info size n) (read_compressed xxh32 d2 info size n).
Proof.
  intros Hb Hsize Hroom. pose proof (between_stopped _ _ _ _ Hb) as Hst. unfold read_compressed.
  destruct (N.ltb_spec size n); [by apply same_fail|].
  eapply same_bind; [apply resize_same|]. intros ? ? [-> ->].
  pose proof (stopped_resized d1 d2 (grow (fd_src d1) n) (grow (fd_src d2) n) (fd_dst d1) (fd_dst d2) Hst) as Hst1.
  eapply same_bind; [apply (same_bytes stopped); [apply Hst1|intros r; by apply (stopped_r _ _ r) in Hst1]|].
  intros [e1 data] [e2 ?] (-> & Hn & r & -> & ->). dfields.
  eapply same_bind; [by apply (write_same _ _ _ _ _ (fun _ => False))|]. intros s1 s2 (Hw & Hs1 & Hs2).
  change (set_src s1 (set_r r (set_src _ d1))) with (set_src s1 (set_r r d1)).
  change (set_src s2 (set_r r (set_src _ d2))) with (set_src s2 (set_r r d2)).
  assert (Hb2 : between_blocks info (fd_dst_end d1) (set_src s1 (set_r r d1)) (set_src s2 (set_r r d2)))
    by (by apply between_src, between_blocks_r).
  eapply same_bind; [apply (checksum_same info _ _ _ (block_checksums info) (fun d => slice (fd_src d) 0 n) Hb2)|].
  { intros r'. dfields. apply same_agree, agree_slice. intros i Hi. apply Hw. lia. }
  intros e1 e2 (r' & -> & ->). dfields. apply (between_blocks_r _ _ _ _ r') in Hb2.
  pose proof Hb as (_ & [] & He). rewrite if_size0.
  assert (Hd : decoding info n (fd_dst_end d1) (set_r r' (set_src s1 (set_r r d1))) (set_r r' (set_src s2 (set_r r d2)))).
  { split; [done|]. split; [done|]. dfields. apply sub_agree; [|lia..]. intros i Hi. apply Hw. lia. }
  unfold emptied in He. rewrite He in Hroom.
  eapply same_bind; [eapply same_agree, agree_map_err; [eapply decompress_loop_same; [exact Hd|lia..]|]|].
  { intros [e1 x1] [e2 x2] (-> & Hd' & _). split; [by left|by eapply between_stopped]. }
  intros [e1 k] [e2 ?] (-> & Hb3 & Hs3). eapply same_bind; [by eapply check_output_len_same|]. intros a1 a2 Ha.
  pose proof Hb3 as (_ & _ & He3). unfold emptied in He3. rewrite <-Hs3, He3 in Hb3.
  by apply (finish_block_same info e1 e2 k a1 a2).
Qed.

(** ** The end of a frame *)

Lemma read_end_mark_same info d1 d2 : between_blocks info (fd_dst_end d1) d1 d2 ->
  same stopped alike (read_end_mark xxh32 d1 info) (read_end_mark xxh32 d2 info).
Proof.
  intros Hb. pose proof (between_stopped _ _ _ _ Hb) as Hst. pose proof Hb as (Hf & [] & _).
  unfold read_end_mark. rewrite if_size0.
  eapply (same_bind _ eq); [case_match; [case_match; [by apply same_fail|done]|done]|].
  intros _ _ _. eapply (same_bind _ stopped); [|intros e1 e2 He; by apply stopped_closed].
  destruct (content_checksum info); [|done]. eapply same_bind; [by apply read_checksum_same|].
  intros [e1 k] [e2 ?] (-> & r & -> & ->). dfields. rewrite if_hasher0.
  case_match; [by apply same_fail, stopped_r|by apply stopped_r].
Qed.

(** What follows a block of data. *)
Lemma hash_block_same info m1 m2 : same stopped (after_block info) m1 m2 ->
  let finish m := d ← m;
    d ← (if content_checksum info then
           data ← slice (fd_dst d) (fd_dst_start d) (fd_dst_end d);
           Ok (set_content (fd_content_hasher d ++ data) (fd_content_len d) d)
         else Ok d);
    n ← usub (fd_dst_end d) (fd_dst_start d); Ok (d, n) in
  same stopped (with_eq alike) (finish m1) (finish m2).
Proof.
  intros Hm. cbv zeta beta. eapply same_bind; [exact Hm|]. intros d1 d2 Hd.
  eapply (same_bind _ (after_block info)).
  - destruct Hd as (Hf & []). destruct (content_checksum info); [|by split].
    rewrite if_hasher0, if_size0, if_start0, if_end0. eapply same_bind; [apply same_agree, (agree_slice _ (fd_dst d1) (fd_dst d2))|].
    { intros i Hi. apply if_data0. left. lia. }
    intros data ? <-. split; [by destruct Hf; split|by split].
  - clear d1 d2 Hd. intros d1 d2 (Hf & Hi). pose proof Hi as []. rewrite if_start0, if_end0.
    eapply same_bind; [apply same_agree, agree_usub|]. intros n ? [-> _]. split; [|done]. split; [done|by rewrite if_open3].
Qed.

Lemma read_block_same info d1 d2 : after_block info d1 d2 ->
  same stopped (with_eq alike) (read_block xxh32 d1) (read_block xxh32 d2).
Proof.
  intros [Hf Hi]. pose proof Hi as []. unfold read_block. rewrite if_open3, if_open4, if_start0, if_end0.
  unfold assert. destruct (N.eqb_spec (fd_dst_start d1) (fd_dst_end d1)) as [He|]; mstep; [|done].
  assert (Hb : between_blocks info (fd_dst_end d1) d1 d2) by done.
  eapply (same_bind _ (fun s1 s2 => s2 = s1 /\ s1 <= 4194304)).
  { by destruct (block_size info). }
  intros size ? [-> Hsize]. eapply same_bind; [by apply slide_same|]. clear dependent d1 d2.
  intros d1 d2 (Hb & Hroom). pose proof (between_stopped _ _ _ _ Hb) as Hst.
  eapply same_bind; [apply (same_bytes stopped); [apply Hb|intros r; by apply stopped_r]|].
  intros [e1 data] [e2 ?] (-> & _ & r & -> & ->). apply (between_blocks_r _ _ _ _ r) in Hb. apply (stopped_r _ _ r) in Hst.
  change (fd_dst_end d1) with (fd_dst_end (set_r r d1)) in Hb.
  change (fd_dst_start d1) with (fd_dst_start (set_r r d1)) in Hroom.
  revert Hb Hst Hroom. generalize (set_r r d1) (set_r r d2). clear d1 d2. intros d1 d2 Hb Hst Hroom.
  eapply same_bind; [by apply same_try|]. intros block ? <-.
  destruct block as [n|n|].
  - by apply hash_block_same, read_compressed_same.
  - by apply hash_block_same, read_uncompressed_same.
  - eapply same_bind; [by apply read_end_mark_same|]. by intros e1 e2 H.
Qed.

(** ** The header of a frame *)

Definition shut d1 d2 : Prop := stopped d1 d2 /\
  fd_current_frame_info d1 = None /\ fd_current_frame_info d2 = None.

Lemma shut_alike d1 d2 : shut d1 d2 -> alike d1 d2.
Proof. intros ((Hf & H1 & H2) & Hc & ?). split; [done|]. by rewrite Hc. Qed.

Lemma shut_r d1 d2 r : shut d1 d2 -> shut (set_r r d1) (set_r r d2).
Proof. intros (Hs & Hc). split; [by apply stopped_r|done]. Qed.

Lemma read_some_shut d1 d2 n : shut d1 d2 ->
  same alike (with_eq shut) (read_some d1 n) (read_some d2 n).
Proof.
  intros Hs. eapply same_mono; [apply (same_on_r alike); [apply Hs|intros r; by apply alike_r, shut_alike]|].
  intros [e1 b] [e2 ?] (-> & r & _ & -> & ->). split; [by apply shut_r|done].
Qed.

Lemma read_into_shut d1 d2 buffer a b : shut d1 d2 ->
  same alike (with_eq shut) (read_into d1 buffer a b) (read_into d2 buffer a b).
Proof.
  intros Hs. unfold read_into. apply same_slice_bind. intros _ _ _.
  eapply same_bind; [apply (same_bytes alike); [apply Hs|intros r; by apply alike_r, shut_alike]|].
  intros [e1 data] [e2 ?] (-> & _ & r & -> & ->).
  eapply same_bind; [apply same_agree, agree_same; intros e; unfold write_at; by case_match|].
  intros w ? <-. split; [by apply shut_r|done].
Qed.

Lemma start_frame_same d1 d2 info size : shut d1 d2 ->
  between_blocks info (fd_dst_end (start_frame d1 info size)) (start_frame d1 info size) (start_frame d2 info size).
Proof.
  intros ((Hf & _) & _). destruct Hf. split; [by split|]. split; [|done].
  split; cbn; try done. intros i [Hi|Hi]; cbn in Hi; lia.
Qed.

Lemma read_frame_info_same d1 d2 : shut d1 d2 ->
  same alike (fun '(e1, n1) '(e2, n2) => n2 = n1 /\ (n1 = 0 -> shut e1 e2) /\
      (n1 <> 0 -> exists info, between_blocks info (fd_dst_end e1) e1 e2))
    (read_frame_info xxh32 d1) (read_frame_info xxh32 d2).
Proof.
  intros Hs. unfold read_frame_info.
  eapply same_bind; [by apply read_some_shut|]. clear dependent d1 d2. intros [d1 b] [d2 ?] [Hs <-].
  destruct (N.eqb_spec (len b) 0) as [Hz|Hz]; [by cbn|].
  eapply same_bind; [apply same_agree, agree_same; intros e; unfold write_at; by case_match|]. intros w ? <-.
  eapply (same_bind _ (with_eq shut)); [case_match; [by split|by apply read_into_shut]|].
  clear dependent d1 d2. intros [d1 w1] [d2 ?] [Hs <-].
  eapply same_bind; [by apply read_into_shut|]. clear dependent d1 d2. intros [d1 w2] [d2 ?] [Hs <-].
  apply same_slice_bind. intros _ Hw _. set (head := sub w2 0 _).
  assert (Hh : len head = 7) by (subst head; rewrite length_sub; unfold MIN_FRAME_INFO_SIZE in *; lia).
  eapply (same_bind _ (fun n1 n2 => n2 = n1 /\ n1 <> 0)).
  { pose proof (read_size_bounds xxh32 head ltac:(lia)) as [(n & -> & Hn)|(x & ->)]; [cbn; lia|].
    by apply (same_fail alike), shut_alike. }
  intros required ? [-> Hnz].
  eapply (same_bind _ (with_eq shut)); [case_match; [by split|by apply read_into_shut]|].
  clear dependent d1 d2. intros [d1 w3] [d2 ?] [Hs <-].
  apply same_slice_bind. intros _ _ _.
  eapply same_bind; [by apply same_try, shut_alike|]. intros info ? <-.
  pose proof Hs as (([] & _) & _). rewrite fx_id0.
  eapply same_bind; [by apply same_try, shut_alike|]. intros _ _ _.
  eapply (same_bind _ eq); [by destruct (block_size info)|]. intros size ? <-.
  split; [done|]. split; [done|intros _; exists info; by apply start_frame_same].
Qed.

(** ** The methods *)

Lemma read_more_same fuel d1 d2 : alike d1 d2 ->
  same alike (with_eq alike) (read_more xxh32 fuel d1) (read_more xxh32 fuel d2).
Proof.
  revert d1 d2. induction fuel as [|fuel IH]; intros d1 d2 Ha; [done|]. cbn [read_more].
  eapply (same_bind _ (fun '(e1, m1) '(e2, m2) => m2 = m1 /\
    if (m1 : bool) then exists info, after_block info e1 e2 else shut e1 e2)).
  { destruct Ha as [Hf Ha]. destruct (fd_current_frame_info d1) as [info|] eqn:Hc.
    - rewrite (if_open2 _ _ _ _ Ha). split; [done|]. exists info. by split.
    - destruct Ha as (Hc2 & H1 & H2). rewrite Hc2. eapply same_bind; [by apply read_frame_info_same|].
      intros [e1 n] [e2 ?] (-> & H0 & Hn). split; [done|].
      destruct (N.eqb_spec n 0) as [|Hz]; cbn; [auto|]. destruct (Hn Hz) as (info & Hf' & Hi & _). by exists info. }
  intros [e1 m] [e2 ?] [-> Hm]. destruct m; cbn [negb]; [|split; [by apply shut_alike|done]].
  destruct Hm as (info & Hb).
  eapply same_bind; [apply (same_map_state stopped); [by apply (read_block_same info)|by apply stopped_closed]|].
  intros [f1 n] [f2 ?] [Hf <-]. destruct (n =? 0); cbn [negb]; [by apply IH|by split].
Qed.

(** What is pending in two decoders. *)
Lemma alike_pending d1 d2 : alike d1 d2 ->
  fd_dst_end d2 - fd_dst_start d2 = fd_dst_end d1 - fd_dst_start d1 /\
  (fd_dst_start d2 <? fd_dst_end d2) = (fd_dst_start d1 <? fd_dst_end d1) /\
  (fd_dst_start d2 =? fd_dst_end d2) = (fd_dst_start d1 =? fd_dst_end d1).
Proof.
  intros [Hf H]. destruct (fd_current_frame_info d1) as [info|].
  - destruct H. by rewrite if_start0, if_end0.
  - destruct H as (_ & H1 & H2). unfold emptied in *. rewrite H1, H2, !N.ltb_irrefl, !N.eqb_refl.
    split_and!; [lia|done..].
Qed.

(** Handing out [n] of the pending bytes. *)
Lemma alike_slice {E} (Re : E -> E -> Prop) d1 d2 n : alike d1 d2 -> fd_dst_start d1 + n <= fd_dst_end d1 ->
  agree Re eq (slice (fd_dst d1) (fd_dst_start d1) (fd_dst_start d1 + n))
    (slice (fd_dst d2) (fd_dst_start d2) (fd_dst_start d2 + n)).
Proof.
  intros [Hf H] Hn. destruct (fd_current_frame_info d1) as [info|].
  - destruct H. rewrite if_start0. apply (agree_slice _ (fd_dst d1) (fd_dst d2)). intros i Hr. apply if_data0. left. lia.
  - destruct H as (_ & H1 & _). unfold emptied in *. assert (n = 0) as -> by lia. rewrite !N.add_0_r.
    unfold slice. rewrite !N.leb_refl, !N.sub_diag. cbn [andb]. by do 2 case_match.
Qed.

Lemma alike_move d1 d2 n : alike d1 d2 -> fd_dst_start d1 + n <= fd_dst_end d1 ->
  alike (set_dst_pos (fd_dst_start d1 + n) (fd_dst_end d1) d1)
    (set_dst_pos (fd_dst_start d2 + n) (fd_dst_end d2) d2).
Proof.
  intros [Hf H] Hn. split; [destruct Hf; by split|]. dfields. destruct (fd_current_frame_info d1) as [info|].
  - destruct H. rewrite if_start0, if_end0. by split.
  - destruct H as (? & H1 & H2). split; [done|]. unfold emptied in *. dfields. lia.
Qed.

Lemma read_loop_same passes fuel d1 d2 n : alike d1 d2 ->
  same alike (with_eq alike) (read_loop xxh32 passes fuel d1 n) (read_loop xxh32 passes fuel d2 n).
Proof.
  revert d1 d2. induction passes as [|passes IH]; intros d1 d2 Ha; [done|]. cbn [read_loop].
  destruct (alike_pending _ _ Ha) as (-> & -> & _).
  destruct (N.ltb_spec (fd_dst_start d1) (fd_dst_end d1)).
  - eapply same_bind; [apply same_agree, alike_slice; [done|lia]|]. intros data ? <-.
    split; [|done]. apply alike_move; [done|lia].
  - eapply same_bind; [by apply read_more_same|]. intros [e1 k] [e2 ?] [He <-].
    destruct (k =? 0); [by split|by apply IH].
Qed.

Lemma alike_rest {E} (Re : E -> E -> Prop) d1 d2 : alike d1 d2 ->
  agree Re eq (slice (fd_dst d1) (fd_dst_start d1) (fd_dst_end d1))
    (slice (fd_dst d2) (fd_dst_start d2) (fd_dst_end d2)).
Proof.
  intros Ha. destruct (alike_pending _ _ Ha) as (Hp & _).
  destruct (N.leb_spec (fd_dst_start d1) (fd_dst_end d1)) as [Hle|Hgt].
  - pose proof (alike_slice Re d1 d2 (fd_dst_end d1 - fd_dst_start d1) Ha ltac:(lia)) as H.
    destruct (N.leb_spec (fd_dst_start d2) (fd_dst_end d2)) as [Hle2|Hgt2].
    + by replace (fd_dst_start d1 + _) with (fd_dst_end d1) in H by lia;
        replace (fd_dst_start d2 + _) with (fd_dst_end d2) in H by lia.
    + unfold slice at 2. rewrite (proj2 (N.leb_gt _ _)) by done. apply agree_panic.
  - unfold slice at 1. by rewrite (proj2 (N.leb_gt _ _)).
Qed.

Lemma fill_buf_same fuel d1 d2 : alike d1 d2 ->
  same alike (with_eq alike) (fill_buf xxh32 fuel d1) (fill_buf xxh32 fuel d2).
Proof.
  intros Ha. unfold fill_buf. destruct (alike_pending _ _ Ha) as (_ & _ & ->).
  eapply (same_bind _ alike).
  { case_match; [|done]. eapply same_bind; [by apply read_more_same|]. by intros [e1 k] [e2 ?] [He _]. }
  clear dependent d1 d2. intros d1 d2 Ha. eapply same_bind; [by apply same_agree, alike_rest|]. by intros data ? <-.
Qed.

Lemma consume_same d1 d2 n : alike d1 d2 -> same alike alike (consume d1 n) (consume d2 n).
Proof.
  intros Ha. destruct (alike_pending _ _ Ha) as (Hp & _). unfold consume, usub, assert.
  do 2 (case_match; mstep; [|done]).
  destruct (N.leb_spec (fd_dst_start d2) (fd_dst_end d2)); mstep; [|done]. rewrite Hp.
  case_match; mstep; [|done]. apply alike_move; [done|].
  repeat match goal with H : (_ <=? _) = true |- _ => apply N.leb_le in H end. lia.
Qed.

Lemma alike_reserve x1 x2 d1 d2 : alike d1 d2 -> alike (set_content_reserve x1 d1) (set_content_reserve x2 d2).
Proof.
  intros [Hf H]. split; [destruct Hf; by split|]. dfields. case_match; [destruct H; by split|done].
Qed.

Lemma same_error_kind x1 x2 : same_error x1 x2 -> is_interrupted x1 = is_interrupted x2.
Proof. by intros [->|[(? & ? & ->) (? & ? & ->)]]. Qed.

Lemma read_to_end_same fuel d1 d2 buf written : limits_are = SameRoom -> alike d1 d2 ->
  agree (fun '(d1, b1, x1) '(d2, b2, x2) => b1 = b2 /\ same_error x1 x2 /\ alike d1 d2)
    (fun '(d1, b1, n1) '(d2, b2, n2) => b1 = b2 /\ n1 = n2 /\ alike d1 d2)
    (read_to_end xxh32 fuel d1 buf written) (read_to_end xxh32 fuel d2 buf written).
Proof.
  revert d1 d2 buf written. induction fuel as [|fuel IH]; intros d1 d2 buf written Hlim Ha; [done|].
  cbn [read_to_end]. pose proof (same_strict _ _ _ _ Hlim (fill_buf_same (S fuel) d1 d2 Ha)) as H.
  destruct (fill_buf _ _ d1) as [[e1 b1]|[e1 x1]| |], (fill_buf _ _ d2) as [[e2 b2]|[e2 x2]| |];
    try done; try apply agree_panic.
  - destruct H as [He ->]. destruct b2 as [|x l]; [done|].
    eapply agree_bind; [apply alike_rest; by apply alike_reserve|]. intros block ? <-.
    eapply agree_bind; [eapply agree_map_err; [by apply same_strict, consume_same, alike_reserve|]|].
    { by intros [f1 x1] [f2 x2] [Hx Hf]. }
    intros f1 f2 Hf. by apply IH.
  - destruct H as [Hx He]. rewrite (same_error_kind _ _ Hx). destruct (is_interrupted x2); [by apply IH|done].
Qed.

(** ** A client *)

(** What a client sees of a call. *)
Definition same_result : bytes * option IoError -> bytes * option IoError -> Prop :=
  fun '(b1, x1) '(b2, x2) => b1 = b2 /\ option_Forall2 same_error x1 x2.

Lemma client_call_same fuel d1 d2 c : limits_are = SameRoom -> alike d1 d2 ->
  agree (fun _ _ => False) (fun '(e1, b1, x1) '(e2, b2, x2) => same_result (b1, x1) (b2, x2) /\ alike e1 e2)
    (client_call xxh32 fuel d1 c) (client_call xxh32 fuel d2 c).
Proof.
  intros Hlim Ha. assert (Hx : forall b1 b2 x1 x2, b1 = b2 -> same_error x1 x2 -> same_result (b1, Some x1) (b2, Some x2))
    by (intros; split; [done|by constructor]).
  assert (Hn : forall b1 b2, b1 = b2 -> same_result (b1, None) (b2, None)) by (intros; split; [done|constructor]).
  destruct c as [n|n|buf|r]; cbn [client_call].
  - pose proof (same_strict _ _ _ _ Hlim (read_loop_same 2 fuel d1 d2 n Ha)) as H. fold (read xxh32 fuel d1 n) in H.
    fold (read xxh32 fuel d2 n) in H.
    destruct (read _ _ d1 _) as [[e1 b1]|[e1 x1]| |], (read _ _ d2 _) as [[e2 b2]|[e2 x2]| |];
      try done; destruct H as [H1 H2]; [exact (conj (Hn _ _ H2) H1)|exact (conj (Hx [] [] _ _ eq_refl H1) H2)].
  - pose proof (same_strict _ _ _ _ Hlim (fill_buf_same fuel d1 d2 Ha)) as H.
    destruct (fill_buf _ _ d1) as [[e1 b1]|[e1 x1]| |], (fill_buf _ _ d2) as [[e2 b2]|[e2 x2]| |];
      try done; try apply agree_panic.
    + destruct H as [He ->]. pose proof (same_strict _ _ _ _ Hlim (consume_same e1 e2 (N.min n (len b2)) He)) as H.
      destruct (consume e1 _) as [f1|[f1 x1]| |], (consume e2 _) as [f2|[f2 x2]| |];
        try done; [exact (conj (Hn _ _ eq_refl) H)|destruct H as [H1 H2]; exact (conj (Hx [] [] _ _ eq_refl H1) H2)].
    + destruct H as [H1 H2]. exact (conj (Hx [] [] _ _ eq_refl H1) H2).
  - pose proof (read_to_end_same fuel d1 d2 buf 0 Hlim Ha) as H.
    destruct (read_to_end _ _ d1 _ _) as [[[e1 b1] n1]|[[e1 b1] x1]| |],
      (read_to_end _ _ d2 _ _) as [[[e2 b2] n2]|[[e2 b2] x2]| |]; try done;
      destruct H as (-> & H1 & H2); [exact (conj (Hn _ _ eq_refl) H2)|exact (conj (Hx _ _ _ _ eq_refl H1) H2)].
  - exact (conj (Hn [] [] eq_refl) (alike_r _ _ r Ha)).
Qed.

(** A decoder with nothing open or pending against a new one that has as much of
    its limit left. *)
Definition remaining_options o (handed : N) : FrameDecoderOptions :=
  {| dictionary := dictionary o; max_output := Some (opt_limit o - handed) |}.

Lemma reused_alike o d r : idle (opt_dict o) (opt_id o) d -> fd_max_output d = opt_limit o ->
  alike (get_mut d r) (with_options r (remaining_options o (fd_bytes_output d))).
Proof.
  intros [[] Hc He _] Hm. unfold get_mut, with_options, opt_dict, opt_id, remaining_options in *. rewrite <-Hm.
  destruct o as [[[dict id]|] m]; cbn [dictionary max_output fmap option_fmap option_map snd] in *;
    (split; [split; dfields; try done; cbn -[usize_max N.sub N.add]; lia|]); dfields; by rewrite Hc.
Qed.

(** The same, when the limit does not count. *)
Lemma unlimited_alike o d r : limits_are = AnyRoom -> idle (opt_dict o) (opt_id o) d -> max_output o = None ->
  alike (get_mut d r) (with_options r o).
Proof.
  intros Hany [[] Hc He _] Hm. unfold get_mut, with_options, opt_dict, opt_id in *. rewrite Hm.
  destruct o as [[[dict id]|] m]; cbn [dictionary max_output fmap option_fmap option_map snd] in *;
    (split; [split; dfields; try done; by rewrite Hany|]); dfields; by rewrite Hc.
Qed.
End ops.

(** ** A client with enough fuel *)

Section trace.
Context `{T : Target} (xxh32 : bytes -> N) {R : Type} {HR : Read R} {HL : ReadLaws R}.
Implicit Types (d : FrameDecoder R).

(** The results of the calls of a client, which goes on after an error. *)
Fixpoint decoder_trace d (cs : list (dcall R)) : res Empty_set (list (bytes * option IoError)) :=
  match cs with
  | [] => Ok []
  | c :: cs =>
      '(d, b, x) ← decoder_call xxh32 d c;
      l ← decoder_trace d cs;
      Ok ((b, x) :: l)
  end.

Lemma decoder_trace_same dict id d1 d2 cs : alike SameRoom d1 d2 -> usable dict id d1 -> usable dict id d2 ->
  exists l1 l2, decoder_trace d1 cs = Ok l1 /\ decoder_trace d2 cs = Ok l2 /\ Forall2 same_result l1 l2.
Proof.
  revert d1 d2. induction cs as [|c cs IH]; intros d1 d2 Ha H1 H2; [exists [], []; split_and!; [done..|constructor]|].
  pose proof (client_call_same xxh32 SameRoom (enough d1) d1 d2 c eq_refl Ha) as Hc. cbn [decoder_trace].
  assert (Hfuel : enough d2 = enough d1) by (unfold enough, left_over; by destruct Ha as [[-> _ _ _ _] _]).
  rewrite <-Hfuel in Hc at 2. fold (decoder_call xxh32 d1 c) (decoder_call xxh32 d2 c) in Hc.
  destruct (decoder_call_usable xxh32 _ _ _ c H1) as ([[e1 b1] x1] & Hc1 & Hu1 & _).
  destruct (decoder_call_usable xxh32 _ _ _ c H2) as ([[e2 b2] x2] & Hc2 & Hu2 & _).
  rewrite Hc1, Hc2 in Hc |- *. mstep. destruct Hc as [Hr He].
  destruct (IH _ _ He Hu1 Hu2) as (l1 & l2 & -> & -> & Hl). mstep. eexists _, _.
  split_and!; [done..|]. by constructor.
Qed.
End trace.
