(* ===== verification/ReuseTheorems.v ===== *)
(** * Theorems on buffers and decoders that are used again *)

From S2P Require Import Prelude BlockSpec Core Primitives Decompress DecompressProofs DecompressSpec DecoderTheorems FrameHeader FrameIO FrameSpec FrameDecoder FrameDecoderSpec FrameDecoderProofs FrameDecoderStream FrameTheorems FrameCodecTheorems Reuse FrameDecoderReuse.

(** The two calls that decode into a buffer and those that append to a vector. *)
Definition decode_into `{T : Target} (dict : option bytes) (input output : bytes) :=
  match dict with
  | Some dict => decompress_into_with_dict input output dict
  | None => decompress_into input output
  end.

Definition decode_append `{T : Target} (dict : option bytes) (input output : bytes) (max_size : N) :=
  match dict with
  | Some dict => DecompressorImpl.decompress_append (DecompressorImpl.with_dict dict) input output max_size
  | None => decompress_append input output max_size
  end.

(** C28: nothing that an output buffer held reaches the result.  Decoding into two
    buffers of one size gives the same count and bytes or the same error, with a
    dictionary or without one, and appending to a vector gives these as well:
    after an error the vector is as it was, after a success it has grown by the
    decoded bytes. *)
Theorem stale_output_unobservable `{T : Target} dict input out1 out2 before :
  buffer_ok input -> len before + len out1 + 1024 <= isize_max -> length out2 = length out1 ->
  match decode_into dict input out1 with
  | Ok (out1', n) =>
      (exists out2', decode_into dict input out2 = Ok (out2', n) /\
         take (N.to_nat n) out2' = take (N.to_nat n) out1' /\ n <= len out1) /\
      decode_append dict input before (len out1) = Ok (before ++ take (N.to_nat n) out1', n)
  | Err (_, e) =>
      (exists out2', decode_into dict input out2 = Err (out2', e)) /\
      decode_append dict input before (len out1) = Err (before, e)
  | Panic | NoFuel => False
  end.
Proof.
  intros Hbi Hm Hl. assert (Hbo : buffer_ok out1) by (unfold buffer_ok; lia).
  set (D := default [] dict). set (use := bool_decide (is_Some dict)).
  pose proof (decompress_internal_stale use input out1 out2 D Hbi Hbo Hl) as H.
  pose proof (decompress_append_stale use input out1 before D Hbi Hm) as Ha.
  assert (Hu : decode_append dict input before (len out1)
    = decompress_append_internal use input before (len out1) D) by by destruct dict.
  assert (Hi : forall out, decode_into dict input out =
    match decompress_internal use input (OutSinkImpl.new out 0) D with
    | Ok (s, n) => Ok (os_output s, n) | Err (s, e) => Err (os_output s, e) | Panic => Panic | NoFuel => NoFuel
    end) by by destruct dict.
  rewrite Hu, !Hi. destruct (decompress_internal _ _ (OutSinkImpl.new out1 0) _) as [[s n]|[s e]| |]; [| |done..].
  - destruct H as (s2 & -> & Ht & _ & _ & Hn). split; [by exists (os_output s2)|done].
  - destruct H as (s2 & -> & _). split; [by exists (os_output s2)|done].
Qed.

(** C27: a decoder that is used again decodes as a new one.  After any calls of a
    client, errors included, when no frame is open and nothing is pending, and
    with another reader in place, any further calls return the same bytes and
    errors as those of a new decoder that has as much of its output limit left;
    only the numbers in an error of the limit may differ. *)
Theorem decoder_reuse `{T : Target} (xxh32 : bytes -> N) {R} {HR : Read R} {HRL : ReadLaws R}
    (r0 : R) o (before_calls : list (dcall R)) before dec (r : R) calls :
  opt_limit o <= usize_max ->
  decoder_run xxh32 (FrameDecoderImpl.with_options r0 o) before_calls = Ok (dec, before) -> closed dec ->
  exists l1 l2, decoder_trace xxh32 (FrameDecoderImpl.get_mut dec r) calls = Ok l1 /\
    decoder_trace xxh32 (FrameDecoderImpl.with_options r (remaining_options o (len before))) calls = Ok l2 /\
    Forall2 same_result l1 l2.
Proof.
  intros Hl Hrun Hc. destruct (with_options_idle xxh32 r0 o Hl) as (Hi & Hm & Hh & _).
  destruct (decoder_run_usable xxh32 _ _ before_calls _ (usable_idle xxh32 _ _ _ Hi)) as ([d out] & Hr & Hu & Hh' & Hm').
  rewrite Hrun in Hr. injection Hr as <- <-. pose proof (usable_closed _ _ _ Hu Hc) as Hd.
  assert (Ho : fd_bytes_output dec = len before)
    by (destruct Hc as [_ He]; unfold handed at 1 in Hh'; rewrite He, Hh in Hh'; lia).
  assert (Hl2 : opt_limit (remaining_options o (len before)) <= usize_max) by (cbn -[usize_max]; lia).
  apply (decoder_trace_same xxh32 (opt_dict o) (opt_id o)).
  - rewrite <-Ho. apply (reused_alike xxh32 SameRoom); [done|congruence].
  - by apply usable_replace.
  - apply (usable_idle xxh32). exact (proj1 (with_options_idle xxh32 r (remaining_options o (len before)) Hl2)).
Qed.

(** ** Witnesses *)

#[local] Existing Instance x86_64.

Lemma stale_output_unobservable_witness :
  match decode_into (Some DecoderTheorems.sample_dict) dict_block (replicate 12 x55) with
  | Ok (out1', n) =>
      (exists out2', decode_into (Some DecoderTheorems.sample_dict) dict_block (replicate 12 xff) = Ok (out2', n) /\
         take (N.to_nat n) out2' = take (N.to_nat n) out1' /\ n <= 12) /\
      decode_append (Some DecoderTheorems.sample_dict) dict_block [x2a] 12 = Ok ([x2a] ++ take (N.to_nat n) out1', n)
  | Err (_, e) =>
      (exists out2', decode_into (Some DecoderTheorems.sample_dict) dict_block (replicate 12 xff) = Err (out2', e)) /\
      decode_append (Some DecoderTheorems.sample_dict) dict_block [x2a] 12 = Err ([x2a], e)
  | Panic | NoFuel => False
  end.
Proof.
  apply (stale_output_unobservable (Some DecoderTheorems.sample_dict) dict_block (replicate 12 x55) (replicate 12 xff) [x2a]);
    concrete.
Defined.

Lemma decoder_reuse_witness :
  exists dec, decoder_run toy_hash plain_decoder plain_calls = Ok (dec, []) /\ closed dec /\
  exists l1 l2, decoder_trace toy_hash (FrameDecoderImpl.get_mut dec plain_reader) [DToEnd []; DRead 3] = Ok l1 /\
    decoder_trace toy_hash (FrameDecoderImpl.with_options plain_reader (remaining_options plain_options 0))
      [DToEnd []; DRead 3] = Ok l2 /\
    Forall2 same_result l1 l2.
Proof.
  destruct plain_run as (dec & Hr & Hc). exists dec. split; [exact Hr|]. split; [exact Hc|].
  exact (decoder_reuse toy_hash plain_reader plain_options plain_calls [] dec plain_reader [DToEnd []; DRead 3]
    plain_limit Hr Hc).
Defined.
