(* ===== verification/FrameAnyReader.v ===== *)
(** * The frame decoder on any reader

    A reader may fail at any call, end and go on, or never end.  Each call of
    the decoder does what it does on a reader of some chunks, the ones it was
    given, so the invariant of the decoder is kept, and with it the limits on
    output and buffers. *)

From S2P Require Import Prelude Core Decompress FrameHeader FrameIO FrameDecoder FrameDecoderProofs FrameDecoderStream FrameReaders.

Section ops.
Context `{T : Target} (xxh32 : bytes -> N) {R : Type} {HR : Read R} {HS : ReadSound R}.
Implicit Types (d : FrameDecoder R) (b : bytes).
Import FrameDecoderImpl.

(** ** Chunks for a call *)

Definition chunks (t : list bytes) (_ : R) : ChunkReader := {| cr_chunks := t |}.

(** A failed call on the reader is an early end of the chunks. *)
Definition cut_short (x x' : IoError) : Prop := x' = x \/ x' = Simple UnexpectedEof.

Abbreviation failure := (same_failure (fun (_ : R) (_ : ChunkReader) => True) cut_short).
Abbreviation run := (replays failure).

Lemma exact_chunks (r : R) n :
  replays (fun '(r, x) '(r', x') => True /\ cut_short x x') (fun t (p : R * bytes) => (chunks t p.1, p.2))
    (FrameIO.read_exact r n) (fun t => FrameIO.read_exact (chunks t r) n).
Proof.
  pose proof (read_exact_sound r n) as H. destruct (FrameIO.read_exact r n) as [[r' b]|[r' x]| |]; [| |done..].
  - destruct (N.eqb_spec n 0) as [->|Hn].
    + exists []. intros rest. destruct b; [|cbn in H; lia]. cbn -[N.leb].
      rewrite (proj2 (N.leb_le _ _)) by lia. by destruct rest.
    + exists [b]. intros rest. cbn. rewrite length_app, (proj2 (N.leb_le _ _)) by lia.
      rewrite (proj2 (N.eqb_neq _ _)), (proj2 (N.ltb_ge _ _)), H, N.sub_diag by lia.
      destruct rest; cbn; by rewrite app_nil_r.
  - eexists [], _. cbn. rewrite (proj2 (N.leb_gt _ _)) by done. split; [done|]. split; [done|by right].
Qed.

(** The end of a call: what is left of the chunks does not matter. *)
Definition ends {A} (m : res (FrameDecoder R * IoError) (FrameDecoder R * A))
  (m' : list bytes -> res (FrameDecoder ChunkReader * IoError) (FrameDecoder ChunkReader * A)) : Prop :=
  match m with
  | Ok (d, a) => exists t r, m' t = Ok (with_reader r d, a)
  | Err (d, x) => exists t r x', m' t = Err (with_reader r d, x') /\ cut_short x x'
  | Panic => exists t, m' t = Panic
  | NoFuel => exists t, m' t = NoFuel
  end.

Lemma run_ends {A} m m' : run (image_with chunks) m m' -> ends (A:=A) m m'.
Proof.
  destruct m as [[d a]|[d x]| |]; cbn; [| |done..].
  - intros (t & H). specialize (H []). rewrite app_nil_r in H. by eexists t, _.
  - intros (t & [d' x'] & H & (r & -> & _) & Hx). by exists t, r, x'.
Qed.

Lemma ends_bind {A1 A2 B} (f : list bytes -> A1 -> A2) m m' k k' : run f m m' ->
  (forall a, ends (k a) (fun t => k' (f t a))) -> ends (A:=B) (m ≫= k) (fun t => m' t ≫= k').
Proof.
  intros Hm Hk. destruct m as [a|[d x]| |]; cbn in Hm |- *.
  - destruct Hm as (t & Ht). specialize (Hk a). unfold ends in Hk. destruct (k a) as [[d b]|[d x]| |].
    + destruct Hk as (t2 & r & Hk). exists (t ++ t2), r. by rewrite Ht; cbn.
    + destruct Hk as (t2 & r & x' & Hk & Hx). exists (t ++ t2), r, x'. by rewrite Ht; cbn.
    + destruct Hk as (t2 & Hk). exists (t ++ t2). by rewrite Ht; cbn.
    + destruct Hk as (t2 & Hk). exists (t ++ t2). by rewrite Ht; cbn.
  - destruct Hm as (t & [d' x'] & Hm & (r & -> & _) & Hx). exists t, r, x'. by rewrite Hm.
  - destruct Hm as (t & Hm). exists t. by rewrite Hm.
  - destruct Hm as (t & Hm). exists t. by rewrite Hm.
Qed.

(** Chunks that are delivered first. *)
Lemma ends_shift {A} s m m1 m2 : (forall t, m2 (s ++ t) = m1 t) -> ends (A:=A) m m1 -> ends m m2.
Proof.
  intros Hs. destruct m as [[d a]|[d x]| |]; cbn.
  - intros (t & r & H). exists (s ++ t), r. by rewrite Hs.
  - intros (t & r & x' & H). exists (s ++ t), r, x'. by rewrite Hs.
  - intros (t & H). exists (s ++ t). by rewrite Hs.
  - intros (t & H). exists (s ++ t). by rewrite Hs.
Qed.

Lemma run_shift {A1 A2} (f : list bytes -> A1 -> A2) s m m1 m2 :
  (forall t, m2 (s ++ t) = m1 t) -> run f m m1 -> run f m m2.
Proof.
  intros Hs. destruct m as [a|e| |]; cbn.
  - intros (t & H). exists (s ++ t). intros rest. by rewrite <-app_assoc, Hs.
  - intros (t & e' & H). exists (s ++ t), e'. by rewrite Hs.
  - intros (t & H). exists (s ++ t). by rewrite Hs.
  - intros (t & H). exists (s ++ t). by rewrite Hs.
Qed.

(** After a call that has ended, a step that does not read. *)
Lemma ends_step {A B} m m' k k' : ends (A:=A) m m' ->
  (forall d a r, lockstep failure (fun p : FrameDecoder R * B => (with_reader r p.1, p.2))
     (k (d, a)) (k' (with_reader r d, a))) ->
  ends (m ≫= k) (fun t => m' t ≫= k').
Proof.
  intros Hm Hk. destruct m as [[d a]|[d x]| |]; cbn in Hm |- *.
  - destruct Hm as (t & r & Ht). specialize (Hk d a r). unfold ends. destruct (k (d, a)) as [[e b]|[e x]| |]; cbn in Hk.
    + exists t, r. by rewrite Ht.
    + destruct Hk as ([e' x'] & Hk & (r' & -> & _) & Hx). exists t, r', x'. by rewrite Ht.
    + exists t. by rewrite Ht.
    + exists t. by rewrite Ht.
  - destruct Hm as (t & r & x' & Hm & Hx). exists t, r, x'. by rewrite Hm.
  - destruct Hm as (t & Hm). exists t. by rewrite Hm.
  - destruct Hm as (t & Hm). exists t. by rewrite Hm.
Qed.

(** ** The header of a frame *)

Abbreviation chunked := (image chunks).

Lemma read_some_cases d n :
  (exists r, read_some d n = Ok (set_r r d, [])) \/
  (exists r b, read_some d n = Ok (set_r r d, b) /\ b <> [] /\
     forall rest, read_some (chunked (b :: rest) d) n = Ok (chunked rest (set_r r d), b)) \/
  (exists r x, read_some d n = Err (set_r r d, x)).
Proof.
  unfold read_some, on_r. pose proof (read_sound (fd_r d) n) as H.
  destruct (FrameIO.read (fd_r d) n) as [[r b]|[r x]| |]; [|by right; right; eexists _, _|done..].
  destruct b as [|y b]; [by left; eexists|]. right. left. eexists _, _. split; [done|]. split; [done|]. intros rest.
  cbn [FrameIO.read ChunkReader_Read cr_chunks image with_reader fd_r chunks next_chunk].
  rewrite (proj2 (N.eqb_neq _ _)) by (rewrite length_cons; lia). by rewrite (proj2 (N.ltb_ge _ _)).
Qed.

(** The end of the stream ends the call. *)
Definition header_runs m m' : Prop := ends (A:=N) m m' /\
  forall d1 n, m = Ok (d1, n) -> n <> 0 -> exists t, forall rest, m' (t ++ rest) = Ok (chunked rest d1, n).

Lemma read_frame_info_chunks d :
  header_runs (read_frame_info xxh32 d) (fun t => read_frame_info xxh32 (chunked t d)).
Proof.
  rewrite read_frame_info_eq. destruct (read_some_cases d MAGIC_NUMBER_SIZE) as
    [(r & ->)|[(r & b & -> & Hb & Hs)|(r & x & ->)]]; cbn [mbind res_bind].
  - split; [|by intros ? ? [= _ <-]]. by exists [], {| cr_chunks := [] |}.
  - pose proof (frame_header_run xxh32 chunks (fun _ _ => True) cut_short ltac:(done) ltac:(by left)
      exact_chunks (set_r r d) b) as Hr.
    assert (Hrun : run (image_with chunks) (frame_header xxh32 (set_r r d) b)
      (fun t => read_frame_info xxh32 (chunked t d))).
    { eapply (run_shift _ [b]); [|exact Hr]. intros t. cbn [app]. by rewrite read_frame_info_eq, Hs. }
    split; [by apply run_ends|]. intros e n He _. unfold replays in Hrun. by rewrite He in Hrun.
  - split; [|done]. exists [[x00]]. eexists _, _. rewrite read_frame_info_eq. cbn. split; [done|by right].
Qed.

(** ** The methods *)

Lemma close_run m m' : run (image_with chunks) m m' ->
  run (image_with (A:=N) chunks) (map_err (fun '(d, e) => (set_current None d, e)) m)
    (fun t => map_err (fun '(d, e) => (set_current None d, e)) (m' t)).
Proof.
  destruct m as [a|[d x]| |]; cbn.
  - intros (t & H). exists t. intros rest. by rewrite H.
  - intros (t & [d' x'] & H & (r & -> & _) & Hx). eexists t, _. rewrite H. split; [done|]. split; [|done]. by exists r.
  - intros (t & H). exists t. by rewrite H.
  - intros (t & H). exists t. by rewrite H.
Qed.

Lemma read_more_chunks fuel d : ends (read_more xxh32 fuel d) (fun t => read_more xxh32 fuel (chunked t d)).
Proof.
  revert d. induction fuel as [|fuel IH]; intros d; [by exists []|]. cbn [read_more].
  change (fd_current_frame_info (chunked _ d)) with (fd_current_frame_info d).
  assert (Hblock : forall d1, ends
    ('(d, n) ← map_err (fun '(d, e) => (set_current None d, e)) (read_block xxh32 d1);
     if negb (n =? 0) then Ok (d, n) else read_more xxh32 fuel d)
    (fun t => '(d, n) ← map_err (fun '(d, e) => (set_current None d, e)) (read_block xxh32 (chunked t d1));
     if negb (n =? 0) then Ok (d, n) else read_more xxh32 fuel d)).
  { intros d1. eapply ends_bind; [apply close_run, (read_block_run xxh32 chunks (fun _ _ => True) cut_short);
      [done|by left|apply exact_chunks]|].
    intros [d2 n]. cbn [image_with fst snd]. destruct (negb (n =? 0)); [|apply IH].
    by exists [], {| cr_chunks := [] |}. }
  destruct (fd_current_frame_info d) as [info|]; cbn [mbind res_bind negb]; [apply Hblock|].
  destruct (read_frame_info_chunks d) as [He Hn].
  destruct (read_frame_info xxh32 d) as [[d1 n]|[d1 x]| |] eqn:Hd; cbn [mbind res_bind] in He |- *.
  - destruct (N.eqb_spec n 0) as [->|Hz]; cbn [negb].
    + destruct He as (t & r & He). exists t, r. rewrite He. by cbn.
    + destruct (Hn _ _ eq_refl Hz) as (s & Ht). eapply (ends_shift s); [|apply (Hblock d1)].
      intros t. cbv beta. rewrite Ht. cbn [mbind res_bind]. by rewrite (proj2 (N.eqb_neq _ _) Hz).
  - destruct He as (t & r & x' & He & Hx). exists t, r, x'. by rewrite He.
  - destruct He as (t & He). exists t. by rewrite He.
  - destruct He as (t & He). exists t. by rewrite He.
Qed.

(** ** The invariant *)

Implicit Types (dict content data : bytes) (id : option N) (info : FrameInfo).

Lemma idle_reader {R2} dict id d (r : R2) : idle dict id (with_reader r d) <-> idle dict id d.
Proof. split; intros [[] ? ? ?]; split; try done; by split. Qed.

Lemma between_reader {R2} dict id info content d (r : R2) :
  between dict id info content (with_reader r d) <-> between dict id info content d.
Proof. split; intros [[] ? ? ? ? ? ? ? ? ? ?]; split; try done; by split. Qed.

Lemma at_block_reader {R2} dict id at_ d (r : R2) : at_block dict id at_ (with_reader r d) <-> at_block dict id at_ d.
Proof. destruct at_ as [[]|]; [apply between_reader|apply idle_reader]. Qed.

Lemma decoded_reader {R2} dict id info content data d (r : R2) :
  decoded dict id info content data (with_reader r d) <-> decoded dict id info content data d.
Proof.
  split; intros [Hb Hs Hp]; (split; [|done..]); by apply (between_reader dict id info _ (set_dst_pos _ _ d) r).
Qed.

(** What a call keeps of the output and its limit. *)
Definition kept d d' : Prop := fd_max_output d' = fd_max_output d /\ handed d' = handed d.

Definition more_any dict id d (m : res (FrameDecoder R * IoError) (FrameDecoder R * N)) : Prop :=
  match m with
  | Ok (d', n) => fd_max_output d' = fd_max_output d /\ fd_bytes_output d' = fd_bytes_output d + n /\
      ((n = 0 /\ idle dict id d') \/
       exists info content data, n = len data /\ n <> 0 /\ decoded dict id info content data d')
  | Err (d', _) => fd_max_output d' = fd_max_output d /\ fd_bytes_output d' = fd_bytes_output d /\ idle dict id d'
  | Panic => False
  | NoFuel => True
  end.

Lemma read_more_any dict id fuel at_ d : at_block dict id at_ d -> more_any dict id d (read_more xxh32 fuel d).
Proof.
  intros Hat. pose proof (read_more_chunks fuel d) as He.
  assert (Hok : forall t, ended (read_more xxh32 fuel (chunked t d)) ->
    more_post xxh32 dict id at_ (chunked t d) (read_more xxh32 fuel (chunked t d))).
  { intros t Hend. rewrite <-(read_more_mono xxh32 fuel (fuel + S (length (concat t)))) by done || lia.
    apply read_more_ok; [by apply at_block_reader|]. unfold left_over. cbn. lia. }
  destruct (read_more xxh32 fuel d) as [[d' n]|[d' x]| |]; cbn in He |- *; [| | |done].
  - destruct He as (t & r & He). specialize (Hok t). rewrite He in Hok.
    destruct (Hok ltac:(done)) as (Hm & [(-> & Hi & _ & Hb & _)|(info & content & data & -> & Hn & Hd & _ & Hb & _)]);
      cbn [fd_max_output fd_bytes_output image with_reader] in Hm, Hb.
    + split; [done|]. split; [lia|]. left. split; [done|]. by apply idle_reader in Hi.
    + split; [done|]. split; [done|]. right. exists info, content, data. split; [done|]. split; [done|].
      by apply decoded_reader in Hd.
  - destruct He as (t & r & x' & He & _). specialize (Hok t). rewrite He in Hok.
    destruct (Hok ltac:(done)) as (_ & Hi & Hm & Hb & _). cbn [fd_max_output fd_bytes_output image with_reader] in Hm, Hb.
    split; [done|]. split; [done|]. by apply idle_reader in Hi.
  - destruct He as (t & He). specialize (Hok t). rewrite He in Hok. by apply Hok.
Qed.

Definition fill_any dict id d (m : res (FrameDecoder R * IoError) (FrameDecoder R * bytes)) : Prop :=
  match m with
  | Ok (d', b) => b = pending d' /\ kept d d' /\ exists at', open_at dict id at' d'
  | Err (d', _) => kept d d' /\ idle dict id d'
  | Panic => False
  | NoFuel => True
  end.

Lemma pending_slice dict id at_ d : open_at dict id at_ d ->
  slice (E:=FrameDecoder R * IoError) (fd_dst d) (fd_dst_start d) (fd_dst_end d) = Ok (pending d).
Proof. intros []. by apply slice_ok. Qed.

Lemma handed_empty d : fd_dst_start d = fd_dst_end d -> handed d = fd_bytes_output d.
Proof. unfold handed. lia. Qed.

Lemma fill_buf_any dict id fuel at_ d : open_at dict id at_ d -> fill_any dict id d (fill_buf xxh32 fuel d).
Proof.
  intros Ho. unfold fill_buf. destruct (N.eqb_spec (fd_dst_start d) (fd_dst_end d)) as [He|He].
  - pose proof Ho as [_ _ _ Hat]. rewrite set_dst_pos_same in Hat by done. unfold fill_any, kept.
    pose proof (read_more_any _ _ fuel _ _ Hat) as H. rewrite (handed_empty _ He).
    destruct (read_more xxh32 fuel d) as [[d' n]|[d' x]| |]; cbn in H; mstep; [| |done..].
    + destruct H as (Hm & Hb & [(-> & Hi)|(info & content & data & -> & Hn & Hd)]).
      * assert (Ho' : open_at dict id None d') by (by apply open_at_block). rewrite (pending_slice _ _ _ _ Ho').
        cbn. rewrite (handed_empty d') by apply Hi. split; [done|]. split; [split; [done|lia]|by exists None].
      * pose proof (open_at_decoded xxh32 _ _ _ _ _ _ Hd) as Ho'. rewrite (pending_slice _ _ _ _ Ho').
        pose proof (length_pending_out xxh32 _ _ _ _ Ho') as Hl. destruct Hd as [_ _ Hp]. rewrite Hp in *. cbn.
        split; [done|]. split; [split; [done|unfold handed; lia]|by eexists].
    + destruct H as (Hm & Hb & Hi). rewrite (handed_empty d') by apply Hi. done.
  - mstep. rewrite (pending_slice _ _ _ _ Ho). cbn. split; [done|]. split; [done|by exists at_].
Qed.

(** Handing out [k] of the pending bytes. *)
Lemma hand_out dict id at_ d k : open_at dict id at_ d -> k <= len (pending d) ->
  let d' := set_dst_pos (fd_dst_start d + k) (fd_dst_end d) d in
  open_at dict id at_ d' /\ handed d' = handed d + k /\
  slice (E:=FrameDecoder R * IoError) (fd_dst d) (fd_dst_start d) (fd_dst_start d + k)
    = Ok (take (N.to_nat k) (pending d)) /\
  consume d k = Ok d'.
Proof.
  intros Ho Hk d'. rewrite (length_pending_out xxh32 _ _ _ _ Ho) in Hk. destruct Ho. subst d'. split_and!.
  - by split; dfields; [lia|lia|lia|].
  - unfold handed. dfields. lia.
  - rewrite slice_ok by lia. unfold pending, sub. rewrite take_take. do 2 f_equal. lia.
  - unfold consume, assert. access. by rewrite (proj2 (N.leb_le _ _)) by lia.
Qed.

Abbreviation post := (call_post (R := R)).

Lemma failed_post dict id d d' x : kept d d' -> idle dict id d' -> post dict id d (d', [], Some x).
Proof.
  intros [Hm Hh] Hi. apply (failed_call xxh32); [done| |done]. cbn [length]. lia.
Qed.

Definition any_post dict id d (m : res Empty_set (FrameDecoder R * bytes * option IoError)) : Prop :=
  match m with Ok p => post dict id d p | Err _ | Panic => False | NoFuel => True end.

Lemma read_any dict id fuel d n : usable dict id d ->
  any_post dict id d (client_call xxh32 fuel d (DRead n)).
Proof.
  intros (at_ & Ho). cbn [client_call]. unfold read. cbn [read_loop].
  assert (Hpend : forall d at', open_at dict id at' d ->
    fd_dst_end d - fd_dst_start d = len (pending d)) by (intros e at' He; by rewrite (length_pending_out xxh32 _ _ _ _ He)).
  assert (Hout : forall d1 at', open_at dict id at' d1 -> kept d d1 ->
    post dict id d (set_dst_pos (fd_dst_start d1 + N.min (len (pending d1)) n) (fd_dst_end d1) d1,
      take (N.to_nat (N.min (len (pending d1)) n)) (pending d1), None)).
  { intros d1 at' Ho1 [Hm Hh]. destruct (hand_out _ _ _ _ (N.min (len (pending d1)) n) Ho1 ltac:(lia)) as (Ho2 & Hh2 & _).
    split; [by exists at'|]. split; [rewrite Hh2, Hh; len_lia|]. by split. }
  assert (Hslice : forall d at', open_at dict id at' d -> _) by
    (intros e at' He; exact (proj1 (proj2 (proj2 (hand_out _ _ _ _ (N.min (len (pending e)) n) He ltac:(lia)))))).
  destruct (N.ltb_spec (fd_dst_start d) (fd_dst_end d)).
  { rewrite (Hpend _ _ Ho), (Hslice _ _ Ho). mstep. by apply (Hout d at_). }
  assert (He : fd_dst_start d = fd_dst_end d) by (destruct Ho; lia).
  pose proof Ho as [_ _ _ Hat]. rewrite set_dst_pos_same in Hat by done.
  pose proof (read_more_any _ _ fuel _ _ Hat) as Hmore. unfold kept in *. rewrite (handed_empty _ He) in *.
  destruct (read_more xxh32 fuel d) as [[d' k]|[d' x]| |]; cbn in Hmore; mstep; [| |done..].
  - destruct Hmore as (Hm & Hb & [(-> & Hi)|(info & content & data & -> & Hn & Hd)]); cbn [N.eqb].
    + apply (usable_idle xxh32) in Hi as Hu. split; [done|]. rewrite (handed_empty _ He), (handed_empty d') by apply Hi.
      split; [cbn; lia|]. by split.
    + rewrite (proj2 (N.eqb_neq _ _) Hn). pose proof (open_at_decoded xxh32 _ _ _ _ _ _ Hd) as Ho'.
      assert (Hl : len (pending d') = len data) by (by destruct Hd as [_ _ ->]).
      rewrite (proj2 (N.ltb_lt _ _)) by (rewrite <-(Hpend _ _ Ho') in Hl; lia).
      rewrite (Hpend _ _ Ho'), (Hslice _ _ Ho'). mstep. apply (Hout d' _ Ho').
      split; [done|]. rewrite <-(Hpend _ _ Ho') in Hl. unfold handed. lia.
  - destruct Hmore as (Hm & Hb & Hi). apply failed_post; [|done]. split; [done|].
    by rewrite (handed_empty _ He), (handed_empty d') by apply Hi.
Qed.

Lemma take_any dict id fuel d n : usable dict id d ->
  any_post dict id d (client_call xxh32 fuel d (DTake n)).
Proof.
  intros (at_ & Ho). cbn [client_call]. pose proof (fill_buf_any _ _ fuel _ _ Ho) as H.
  destruct (fill_buf xxh32 fuel d) as [[d1 b]|[d1 x]| |]; cbn in H; [| |done..].
  - destruct H as (-> & [Hm Hh] & at1 & Ho1).
    destruct (hand_out _ _ _ _ (N.min n (len (pending d1))) Ho1 ltac:(lia)) as (Ho2 & Hh2 & _ & ->).
    split; [by exists at1|]. split; [rewrite Hh2, Hh; len_lia|]. by split.
  - destruct H as [Hk Hi]. by apply failed_post.
Qed.

Lemma read_to_end_any dict id fuel d buf written : usable dict id d ->
  match read_to_end xxh32 fuel d buf written with
  | Ok (d', buf', _) => exists out, buf' = buf ++ out /\ post dict id d (d', out, None)
  | Err (d', buf', x) => exists out, buf' = buf ++ out /\ post dict id d (d', out, Some x)
  | Panic => False
  | NoFuel => True
  end.
Proof.
  revert d buf written. induction fuel as [|fuel IH]; intros d buf written (at_ & Ho); [done|]. cbn [read_to_end].
  pose proof (fill_buf_any _ _ (S fuel) _ _ Ho) as H.
  destruct (fill_buf xxh32 (S fuel) d) as [[d1 b]|[d1 x]| |]; cbn [fill_any] in H; [| |done..].
  - destruct H as (-> & [Hm Hh] & at1 & Ho1). destruct (pending d1) as [|y p] eqn:Hp.
    { exists []. rewrite app_nil_r. split; [done|]. split; [by exists at1|]. cbn [length]. split; [lia|]. by split. }
    set (d2 := set_content_reserve None d1).
    pose proof (open_at_reserve _ _ _ _ None Ho1) as Ho2. fold d2 in Ho2.
    change (slice (fd_dst d2) (fd_dst_start d2) (fd_dst_end d2)) with
      (slice (E:=FrameDecoder R * bytes * IoError) (fd_dst d1) (fd_dst_start d1) (fd_dst_end d1)).
    rewrite slice_ok by (destruct Ho1; done). mstep. change (sub (fd_dst d1) _ _) with (pending d2).
    destruct (hand_out _ _ _ _ (len (pending d2)) Ho2 (N.le_refl _)) as (Ho3 & Hh3 & _ & ->). mstep.
    set (d3 := set_dst_pos _ _ d2) in *. change (handed d2) with (handed d1) in Hh3.
    specialize (IH d3 (buf ++ pending d2) (written + len (pending d2)) (ex_intro _ at1 Ho3)).
    assert (Hpost : forall e out x, post dict id d3 (e, out, x) -> post dict id d (e, pending d2 ++ out, x)).
    { intros e out x (Hu & Hhe & Hme & Hx). split; [done|]. split; [rewrite Hhe, Hh3, Hh; len_lia|].
      split; [by rewrite Hme, <-Hm|done]. }
    destruct (read_to_end _ _ d3 _ _) as [[[e b] k]|[[e b] x]| |]; [| |done..];
      (destruct IH as (out & -> & H); exists (pending d2 ++ out); split; [by rewrite app_assoc|by apply Hpost]).
  - destruct H as [[Hm Hh] Hi]. destruct (is_interrupted x).
    + specialize (IH d1 buf written (usable_idle xxh32 _ _ _ Hi)).
      assert (Hpost : forall e out x, post dict id d1 (e, out, x) -> post dict id d (e, out, x)).
      { intros e out y (Hu & Hhe & Hme & Hx). split; [done|]. split; [congruence|]. split; [congruence|done]. }
      destruct (read_to_end _ _ d1 _ _) as [[[e b] k]|[[e b] y]| |]; [| |done..];
        (destruct IH as (out & -> & H); exists out; split; [done|by apply Hpost]).
    + exists []. rewrite app_nil_r. split; [done|]. by apply failed_post.
Qed.

Lemma client_call_any dict id fuel d c : usable dict id d -> any_post dict id d (client_call xxh32 fuel d c).
Proof.
  intros Hu. destruct c as [n|n|buf|r]; [by apply read_any|by apply take_any|..].
  - cbn [client_call]. pose proof (read_to_end_any _ _ fuel d buf 0 Hu) as H.
    destruct (read_to_end _ _ _ _ _) as [[[e b] k]|[[e b] x]| |]; [| |done..];
      (destruct H as (out & -> & H); by rewrite drop_app_length).
  - cbn. split; [|split_and!; try done; unfold handed, get_mut; dfields; lia].
    destruct Hu as (at_ & Ho). exists at_. destruct Ho as [? ? ? Hb]. split; try done.
    by apply (at_block_reader _ _ _ (set_dst_pos _ _ d) r).
Qed.

(** The calls of a client that goes on after an error, each with its fuel. *)
Fixpoint client_run d (cs : list (nat * dcall R))
  : res Empty_set (FrameDecoder R * list (bytes * option IoError)) :=
  match cs with
  | [] => Ok (d, [])
  | (fuel, c) :: cs =>
      '(d, b, x) ← client_call xxh32 fuel d c;
      '(d, l) ← client_run d cs;
      Ok (d, (b, x) :: l)
  end.

(** All bytes that the client has got. *)
Definition got (l : list (bytes * option IoError)) : bytes := concat (fst <$> l).

Lemma client_run_any dict id cs d : usable dict id d ->
  match client_run d cs with
  | Ok (d', l) => usable dict id d' /\ handed d' = handed d + len (got l) /\ fd_max_output d' = fd_max_output d
  | Err _ | Panic => False
  | NoFuel => True
  end.
Proof.
  revert d. induction cs as [|[fuel c] cs IH]; intros d Hu; cbn [client_run].
  { split; [done|]. cbn. split; [lia|done]. }
  pose proof (client_call_any dict id fuel d c Hu) as Hc.
  destruct (client_call _ _ _ _) as [[[d1 b] x]|[]| |]; cbn [any_post] in Hc; mstep; [|done..].
  destruct Hc as (Hu1 & Hh1 & Hm1 & _). specialize (IH d1 Hu1).
  destruct (client_run d1 cs) as [[d2 l]|[]| |]; mstep; [|done..]. destruct IH as (Hu2 & Hh2 & Hm2).
  split; [done|]. change (got ((b, x) :: l)) with (b ++ got l). split; [len_lia|congruence].
Qed.
End ops.
