(* ===== verification/FrameInterrupts.v ===== *)
(** * Interrupted reads

    [read_to_end] retries a call that was interrupted.  The decoder reads with
    [Read::read] only before a header, so a retry loses nothing: with a reader
    whose calls of [read] are interrupted at any times the result is that of
    the reader below it. *)

From S2P Require Import Prelude Core Decompress FrameHeader FrameIO FrameDecoder FrameDecoderProofs FrameDecoderStream FrameReaders FrameAnyReader.

(** A reader that is interrupted in the calls of [read] that the schedule says;
    [read_exact] retries by itself. *)
Record Interrupting (R : Type) := { it_reader : R; it_when : list bool }.
Arguments Build_Interrupting {R}. Arguments it_reader {R}. Arguments it_when {R}.

(** The outcome of a call on the reader below. *)
Definition below {R A} (s : list bool) (m : res (R * IoError) (R * A))
  : res (Interrupting R * IoError) (Interrupting R * A) :=
  match m with
  | Ok (r, a) => Ok ({| it_reader := r; it_when := s |}, a)
  | Err (r, x) => Err ({| it_reader := r; it_when := s |}, x)
  | Panic => Panic
  | NoFuel => NoFuel
  end.

#[export] Instance Interrupting_Read {R} `{Read R} : Read (Interrupting R) := {
  read r n :=
    match it_when r with
    | true :: s => Err ({| it_reader := it_reader r; it_when := s |}, Simple Interrupted)
    | false :: s => below s (FrameIO.read (it_reader r) n)
    | [] => below [] (FrameIO.read (it_reader r) n)
    end;
  read_exact r n := below (it_when r) (FrameIO.read_exact (it_reader r) n)
}.

#[export, refine] Instance Interrupting_sound {R} `{Read R} `{!ReadSound R} : ReadSound (Interrupting R) := {}.
Proof.
  - intros [r s] n. pose proof (read_sound r n) as Hr. destruct s as [|[] s]; cbn; [|done|];
      by destruct (FrameIO.read r n) as [[]|[]| |].
  - intros [r s] n. pose proof (read_exact_sound r n) as Hr. cbn. by destruct (FrameIO.read_exact r n) as [[]|[]| |].
Defined.

Section ops.
Context `{T : Target} (xxh32 : bytes -> N) {R : Type} {HR : Read R} {HS : ReadSound R}.
Implicit Types (d : FrameDecoder (Interrupting R)).
Import FrameDecoderImpl.

Definition inner d : FrameDecoder R := with_reader (it_reader (fd_r d)) d.
Definition schedule d : list bool := it_when (fd_r d).

(** The decoder on the reader below, and the schedule after the call. *)
Definition follows {A} (s : list bool) (m : res (FrameDecoder (Interrupting R) * IoError) (FrameDecoder (Interrupting R) * A))
  (m' : res (FrameDecoder R * IoError) (FrameDecoder R * A)) : Prop :=
  match m with
  | Ok (d, a) => m' = Ok (inner d, a) /\ schedule d = s
  | Err (d, x) => m' = Err (inner d, x) /\ schedule d = s
  | Panic => m' = Panic
  | NoFuel => m' = NoFuel
  end.

(** ** Two uses of [replays]

    The reader below, and the same reader with another schedule, which a call
    that does not use [read] does not look at. *)

Definition to_inner (_ : list bytes) (r : Interrupting R) : R := it_reader r.
Definition to_schedule (s : list bool) (_ : list bytes) (r : Interrupting R) : Interrupting R :=
  {| it_reader := it_reader r; it_when := s |}.

Lemma exact_inner (r : Interrupting R) n :
  replays (fun '(r, x) '(r', x') => r' = it_reader r /\ x' = x) (fun t (p : Interrupting R * bytes) => (to_inner t p.1, p.2))
    (FrameIO.read_exact r n) (fun t => FrameIO.read_exact (to_inner t r) n).
Proof.
  destruct r as [r s]. cbn. destruct (FrameIO.read_exact r n) as [[r' b]|[r' x]| |] eqn:Hr; cbn; [by exists []| |by exists []..].
  eexists [], _. by split.
Qed.

Lemma exact_schedule s (r : Interrupting R) n :
  replays (fun '(r, x) '(r', x') => r' = to_schedule s [] r /\ x' = x)
    (fun t (p : Interrupting R * bytes) => (to_schedule s t p.1, p.2))
    (FrameIO.read_exact r n) (fun t => FrameIO.read_exact (to_schedule s t r) n).
Proof.
  destruct r as [r s']. cbn. destruct (FrameIO.read_exact r n) as [[r' b]|[r' x]| |]; cbn; [by exists []| |by exists []..].
  eexists [], _. by split.
Qed.

Lemma follows_intro {A} d m (m2 : FrameDecoder (Interrupting R) -> _) m' :
  replays (same_failure (fun r r' => r' = it_reader r) (fun x x' => x' = x)) (image_with (A:=A) to_inner) m (fun _ => m') ->
  (forall s, replays (same_failure (fun r r' => r' = to_schedule s [] r) (fun x x' => x' = x))
     (image_with (A:=A) (to_schedule s)) m (fun _ => m2 (image (to_schedule s) [] d))) ->
  m2 d = m -> follows (schedule d) m m'.
Proof.
  intros Hi Hs Hm. specialize (Hs (schedule d)).
  assert (Hd : image (to_schedule (schedule d)) [] d = d) by (by destruct d as [[]]). rewrite Hd, Hm in Hs.
  destruct m as [[e a]|[e x]| |]; cbn in Hi, Hs |- *.
  - destruct Hi as (_ & Hi), Hs as (_ & Hs). rewrite (Hi []). split; [done|]. specialize (Hs []).
    injection Hs as Hs. unfold schedule at 1. by rewrite Hs.
  - destruct Hi as (_ & [e' x'] & Hi & (r & -> & ->) & ->), Hs as (_ & [e' x'] & Hs & (r & -> & ->) & ->).
    rewrite Hi. split; [done|]. injection Hs as Hs. unfold schedule at 1. by rewrite Hs.
  - by destruct Hi as (_ & ->).
  - by destruct Hi as (_ & ->).
Qed.

Lemma read_block_follows d : follows (schedule d) (read_block xxh32 d) (read_block xxh32 (inner d)).
Proof.
  eapply (follows_intro d _ (read_block xxh32)); [| |done].
  - by apply (read_block_run xxh32 to_inner (fun r r' => r' = it_reader r) (fun x x' => x' = x)); [..|apply exact_inner].
  - intros s. by apply (read_block_run xxh32 (to_schedule s) (fun r r' => r' = to_schedule s [] r) (fun x x' => x' = x));
      [..|apply exact_schedule].
Qed.

Lemma frame_header_follows d b : follows (schedule d) (frame_header xxh32 d b) (frame_header xxh32 (inner d) b).
Proof.
  eapply (follows_intro d _ (fun d => frame_header xxh32 d b)); [| |done].
  - by apply (frame_header_run xxh32 to_inner (fun r r' => r' = it_reader r) (fun x x' => x' = x)); [..|apply exact_inner].
  - intros s. by apply (frame_header_run xxh32 (to_schedule s) (fun r r' => r' = to_schedule s [] r) (fun x x' => x' = x));
      [..|apply exact_schedule].
Qed.

(** ** The methods *)

(** The call follows the one below, with no more interruptions left than
    before. *)
Definition goes_on {A} d (m : res (FrameDecoder (Interrupting R) * IoError) (FrameDecoder (Interrupting R) * A)) m' : Prop :=
  exists s, (length s <= length (schedule d))%nat /\ follows s m m'.

(** The call was interrupted: a retry does what the call below does, which is
    given by [below]. *)
Definition stops {A} d (m : res (FrameDecoder (Interrupting R) * IoError) A) (later : FrameDecoder (Interrupting R) -> Prop) : Prop :=
  exists d1, m = Err (d1, Simple Interrupted) /\ (length (schedule d1) < length (schedule d))%nat /\ later d1.

Lemma read_frame_info_inner d :
  goes_on d (read_frame_info xxh32 d) (read_frame_info xxh32 (inner d)) \/
  stops d (read_frame_info xxh32 d) (fun d1 => inner d1 = inner d).
Proof.
  destruct (match schedule d with true :: _ => true | _ => false end) eqn:Hs.
  - right. unfold read_frame_info, read_some, on_r, schedule in *. destruct d as [[r s]]. cbn in *.
    destruct s as [|[] s]; try done. eexists. split; [done|]. split; [cbn; lia|done].
  - left. rewrite !read_frame_info_eq. unfold read_some, on_r, goes_on, schedule in *. destruct d as [[r s]]. cbn in *.
    set (s' := match s with [] => [] | _ :: s => s end).
    assert (Hread : (match s with
        | true :: s => Err ({| it_reader := r; it_when := s |}, Simple Interrupted)
        | false :: s => below s (FrameIO.read r MAGIC_NUMBER_SIZE)
        | [] => below [] (FrameIO.read r MAGIC_NUMBER_SIZE)
        end) = below s' (FrameIO.read r MAGIC_NUMBER_SIZE)) by (by destruct s as [|[] s]).
    rewrite Hread. exists s'. split; [subst s'; destruct s; cbn; lia|].
    destruct (FrameIO.read r MAGIC_NUMBER_SIZE) as [[r' b]|[r' x]| |]; cbn; [|done..].
    match goal with |- follows _ (frame_header _ ?e _) _ => exact (frame_header_follows e b) end.
Qed.

(** An interrupted loop stands before a header. *)
Lemma read_more_inner fuel d :
  goes_on d (read_more xxh32 fuel d) (read_more xxh32 fuel (inner d)) \/
  stops d (read_more xxh32 fuel d) (fun d1 => exists fuel', (fuel' <= fuel)%nat /\
    read_more xxh32 fuel (inner d) = read_more xxh32 fuel' (inner d1)).
Proof.
  revert d. induction fuel as [|fuel IH]; intros d; [left; by exists (schedule d)|]. cbn [read_more].
  change (fd_current_frame_info (inner d)) with (fd_current_frame_info d).
  set (pass := fun e : FrameDecoder (Interrupting R) => '(d, n) ← map_err (fun '(d, x) => (set_current None d, x)) (read_block xxh32 e);
    if negb (n =? 0) then Ok (d, n) else read_more xxh32 fuel d).
  set (pass' := fun e : FrameDecoder R => '(d, n) ← map_err (fun '(d, x) => (set_current None d, x)) (read_block xxh32 e);
    if negb (n =? 0) then Ok (d, n) else read_more xxh32 fuel d).
  assert (Hpass : forall e, goes_on e (pass e) (pass' (inner e)) \/
    stops e (pass e) (fun d1 => exists fuel', (fuel' <= fuel)%nat /\ pass' (inner e) = read_more xxh32 fuel' (inner d1))).
  { intros e. subst pass pass'. cbv beta. pose proof (read_block_follows e) as H.
    destruct (read_block xxh32 e) as [[e1 n]|[e1 x]| |]; cbn in H |- *;
      [destruct H as [-> Hs]|destruct H as [-> Hs]|rewrite H..]; cbn.
    - destruct (negb (n =? 0)); [left; exists (schedule e); by split|].
      destruct (IH e1) as [(s & Hl & Hf)|(d1 & Hd & Hl & Hlater)].
      + left. exists s. by rewrite Hs in Hl.
      + right. exists d1. by rewrite Hs in Hl.
    - left. by exists (schedule e).
    - left. by exists (schedule e).
    - left. by exists (schedule e). }
  destruct (fd_current_frame_info d) eqn:Hcur; cbn [mbind res_bind negb].
  { destruct (Hpass d) as [|(d1 & ? & ? & k & ? & ?)]; [by left|]. right. exists d1. split_and!; try done. exists k. split; [lia|done]. }
  destruct (read_frame_info_inner d) as [(s & Hl & Hf)|(d1 & Hd & Hl & Hlater)].
  - destruct (read_frame_info xxh32 d) as [[e n]|[e x]| |]; cbn in Hf |- *;
      [destruct Hf as [-> Hs]|destruct Hf as [-> Hs]|rewrite Hf..]; cbn; try (by left; exists s).
    destruct (N.eqb_spec n 0); cbn [negb]; [by left; exists s|].
    destruct (Hpass e) as [(s2 & Hl2 & Hf2)|(d1 & Hd & Hl2 & f & Hfuel & Hlater)].
    + left. exists s2. rewrite Hs in Hl2. split; [lia|done].
    + right. exists d1. rewrite Hs in Hl2. split; [done|]. split; [lia|]. exists f. split; [lia|done].
  - right. rewrite Hd. exists d1. cbn. split; [done|]. split; [done|]. exists (S fuel). split; [done|].
    rewrite Hlater. cbn [read_more].
    change (fd_current_frame_info (inner d)) with (fd_current_frame_info d). by rewrite Hcur.
Qed.

Lemma fill_buf_inner dict id fuel d : usable dict id d -> ended (fill_buf xxh32 fuel (inner d)) ->
  goes_on d (fill_buf xxh32 fuel d) (fill_buf xxh32 fuel (inner d)) \/
  stops d (fill_buf xxh32 fuel d) (fun d1 => usable dict id d1 /\
    fill_buf xxh32 fuel (inner d1) = fill_buf xxh32 fuel (inner d)).
Proof.
  intros (at_ & Ho) He. unfold fill_buf in *.
  change (fd_dst_start (inner d) =? fd_dst_end (inner d)) with (fd_dst_start d =? fd_dst_end d) in *.
  assert (Hslice : forall d1 s, (length s <= length (schedule d))%nat -> schedule d1 = s ->
    goes_on d (data ← slice (fd_dst d1) (fd_dst_start d1) (fd_dst_end d1); Ok (d1, data))
      (data ← slice (fd_dst (inner d1)) (fd_dst_start (inner d1)) (fd_dst_end (inner d1)); Ok (inner d1, data))).
  { intros d1 s Hl Hs. exists s. split; [done|]. cbn [fd_dst fd_dst_start fd_dst_end inner with_reader].
    unfold slice. by destruct (_ && _). }
  destruct (N.eqb_spec (fd_dst_start d) (fd_dst_end d)) as [Heq|Hne]; [|left; by apply (Hslice d (schedule d))].
  pose proof Ho as [_ _ _ Hat]. rewrite set_dst_pos_same in Hat by done.
  pose proof (read_more_any xxh32 _ _ fuel _ _ Hat) as Hany.
  destruct (read_more_inner fuel d) as [(s & Hl & Hf)|(d1 & Hd & Hl & fuel' & Hfuel & Hlater)].
  - left. destruct (read_more xxh32 fuel d) as [[e n]|[e x]| |]; cbn in Hf |- *;
      [destruct Hf as [-> Hs]|destruct Hf as [-> Hs]|rewrite Hf..]; cbn; [|by exists s..]. by apply (Hslice e s).
  - right. rewrite Hd in Hany |- *. cbn in Hany. destruct Hany as (_ & _ & Hi). exists d1. cbn. split; [done|]. split; [done|].
    split; [by apply (usable_idle xxh32)|]. pose proof (id_empty _ _ _ Hi) as Hemp.
    change (fd_dst_start (inner d1) =? fd_dst_end (inner d1)) with (fd_dst_start d1 =? fd_dst_end d1).
    rewrite (proj2 (N.eqb_eq _ _) Hemp).
    rewrite Hlater in He |- *. rewrite (read_more_mono xxh32 fuel' fuel); [done..|]. intros Hn. by rewrite Hn in He.
Qed.

(** The outcomes of [read_to_end]. *)
Definition same_end (m : res (FrameDecoder (Interrupting R) * bytes * IoError) (FrameDecoder (Interrupting R) * bytes * N))
  (m' : res (FrameDecoder R * bytes * IoError) (FrameDecoder R * bytes * N)) : Prop :=
  match m' with
  | Ok (e, buf, n) => exists d, m = Ok (d, buf, n) /\ inner d = e
  | Err (e, buf, x) => exists d, m = Err (d, buf, x) /\ inner d = e
  | Panic => m = Panic
  | NoFuel => True
  end.

Lemma consume_inner d n d' : consume d n = Ok d' -> consume (inner d) n = Ok (inner d').
Proof.
  unfold consume, usub, assert. cbn [fd_dst_start fd_dst_end inner with_reader].
  destruct (_ <=? fd_dst_end d); cbn [mbind res_bind]; [|done]. destruct (_ <=? _); cbn [mbind res_bind]; [|done].
  by intros [= <-].
Qed.

Lemma read_to_end_inner dict id fuel k d buf written : usable dict id d -> (length (schedule d) <= k)%nat ->
  ended (read_to_end xxh32 fuel (inner d) buf written) ->
  same_end (read_to_end xxh32 (fuel + k) d buf written) (read_to_end xxh32 fuel (inner d) buf written).
Proof.
  remember (fuel + k)%nat as g eqn:Hg. revert fuel k d buf written Hg.
  induction g as [|g IH]; intros [|fuel] k d buf written Hg Hu Hk He; [done|lia|by destruct He|].
  assert (Hf : ended (fill_buf xxh32 (S fuel) (inner d))) by (intros Hn; cbn [read_to_end] in He; by rewrite Hn in He).
  destruct (fill_buf_inner _ _ _ _ Hu Hf) as [(s & Hl & Hs)|(d1 & Hd & Hl & Hu1 & Hsame)].
  - cbn [read_to_end] in He |- *. rewrite (fill_buf_mono xxh32 (S fuel) (S g)); [|lia|].
    2:{ intros Hn. rewrite Hn in Hs. cbn in Hs. by rewrite Hs in Hf. }
    pose proof Hu as (at_ & Ho). pose proof (fill_buf_any xxh32 _ _ (S fuel) _ _ Ho) as Hany.
    destruct (fill_buf xxh32 (S fuel) d) as [[e b]|[e x]| |]; cbn [fill_any follows] in Hs, Hany; [| |done|by rewrite Hs in Hf].
    + destruct Hs as [Hs Hsch]. rewrite Hs in He |- *. destruct b as [|y b]; [by exists e|].
      destruct Hany as (Hp & _ & at1 & Ho1). pose proof Ho1 as [? ? _ _].
      set (e2 := set_content_reserve None e) in *.
      change (slice (E:=FrameDecoder R * bytes * IoError) (fd_dst (set_content_reserve None (inner e))) _ _) with
        (slice (E:=FrameDecoder R * bytes * IoError) (fd_dst e2) (fd_dst_start e2) (fd_dst_end e2)) in *.
      rewrite !slice_ok in * by done. change (sub (fd_dst e2) _ _) with (pending e2) in *.
      cbn [mbind res_bind] in *. pose proof (open_at_reserve _ _ _ _ None Ho1) as Ho2. fold e2 in Ho2.
      destruct (hand_out xxh32 _ _ _ _ (len (pending e2)) Ho2 (N.le_refl _)) as (Ho3 & _ & _ & Hc). rewrite Hc.
      pose proof (consume_inner e2 _ _ Hc) as Hc'. change (set_content_reserve None (inner e)) with (inner e2) in *.
      rewrite Hc' in He |- *. cbn [map_err mbind res_bind] in He |- *. apply (IH fuel k); [lia|by exists at1| |done].
      change (length (schedule e) <= k)%nat. rewrite Hsch. lia.
    + destruct Hs as [Hs Hsch]. rewrite Hs in He |- *. destruct Hany as [_ Hi].
      destruct (is_interrupted x); [|by exists e]. apply (IH fuel k); [lia|by apply (usable_idle xxh32)|rewrite Hsch; lia|done].
  - assert (Hstep : read_to_end xxh32 (S g) d buf written = read_to_end xxh32 g d1 buf written).
    { cbn [read_to_end]. rewrite (fill_buf_mono xxh32 (S fuel) (S g)) by (lia || (intros Hn; by rewrite Hn in Hd)).
      by rewrite Hd. }
    assert (Hbelow : read_to_end xxh32 (S fuel) (inner d1) buf written = read_to_end xxh32 (S fuel) (inner d) buf written)
      by (cbn [read_to_end]; by rewrite Hsame).
    rewrite Hstep, <-Hbelow. rewrite <-Hbelow in He. apply (IH (S fuel) (k - 1)%nat); [lia|done|lia|done].
Qed.
End ops.
