(* ===== verification/FrameDecoderTheorems.v ===== *)
(** * Theorems on the outcomes of the frame decoder

    Exactly one of two things is true of a byte string: it is a sequence of
    frames that fits the limit, or it breaks at a first defect. *)

From Stdlib Require Import String.
From S2P Require Import Prelude BlockSpec Core Primitives Decompress DecompressProofs DecoderTheorems FrameHeader Display FrameIO FrameSpec FrameDecoder FrameDecoderSpec FrameDecoderProofs FrameDecoderStream FrameDecoderLive FrameDecoderMemory FrameFaults FrameDamage FrameReaders FrameTheorems FrameCodecTheorems Reuse FrameDecoderReuse FrameAnyReader.

Section outcome.
Context `{T : Target} (xxh32 : bytes -> N) {R : Type} {HR : Read R} {HL : ReadLaws R}.
Import FrameDecoderImpl.

(** The error of a defect, for a closed decoder. *)
Lemma defect_reported dict id (d : FrameDecoder R) P out (buf : bytes) fuel : idle dict id d ->
  broken xxh32 dict id (fd_bytes_output d + len out) (fd_max_output d) P (left_over d) out ->
  fd_bytes_output d + len out <= fd_max_output d -> (length (left_over d) < fuel)%nat ->
  exists dec' x, read_to_end xxh32 fuel d buf 0 = Err (dec', buf ++ out, x) /\ P x.
Proof.
  intros Hi Hb Hlim Hf. pose proof (handed_empty _ (id_empty _ _ _ Hi)) as Hh. rewrite <-Hh in *.
  pose proof (read_to_end_ok xxh32 _ _ fuel None d buf 0 (open_at_block xxh32 _ _ None _ Hi)
    (or_intror (conj (pending_nil _ (id_empty _ _ _ Hi)) Hf))) as He.
  destruct (read_to_end_defect xxh32 dict id (handed d + len out) P (fuel + length out) d buf out 0) as (d' & x & Hr & HP);
    [|done|lia|].
  { exists None, out. split; [by apply (open_at_block xxh32)|]. rewrite pending_nil by apply Hi.
    split; [done|]. split; [by apply broken_owes|lia]. }
  exists d', x. split; [|done]. rewrite <-Hr. symmetry. apply read_to_end_mono; [lia|].
  intros Hn. by rewrite Hn in He.
Qed.

(** C5: what the decoder returns for any byte string, after any history.  A
    client may have made any calls; when no frame is open and nothing is
    pending, [read_to_end] on a reader of the string has one of two outcomes.
    The string is a sequence of frames whose content fits what is left of the
    output limit; the vector is extended by it and its length is returned.  Or
    the string breaks at a first defect: a cut header, block or checksum, a
    header that the format or the dictionary of the decoder excludes, a block
    that is too large, does not decode or exceeds the limit, a wrong checksum or
    a wrong size.  Then the vector is extended by the data of all whole blocks
    before the defect, and the error is the one that [broken] states for it: the
    fault of the header by the values of its bytes ([bad_header]), the numbers of
    a wrong size or an exceeded limit, the end of the input where it is cut; for a
    block that does not decode it is a [DecompressionError], and its inner error is
    not specified.  Either way no frame is open afterwards. *)
Theorem read_to_end_outcome r0 o (cs : list (dcall R)) before dec r buf fuel :
  opt_limit o <= usize_max ->
  decoder_run xxh32 (with_options r0 o) cs = Ok (dec, before) -> closed dec ->
  (length (stream r) < fuel)%nat ->
  let breaks P out := broken xxh32 (opt_dict o) (opt_id o) (len before + len out) (opt_limit o) P (stream r) out in
  exists dec' out, len before + len out <= opt_limit o /\ closed dec' /\
    ((frames xxh32 (opt_dict o) (opt_id o) (stream r) out /\
      read_to_end xxh32 fuel (get_mut dec r) buf 0 = Ok (dec', buf ++ out, len out)) \/
     ((exists P, breaks P out) /\
      exists x, read_to_end xxh32 fuel (get_mut dec r) buf 0 = Err (dec', buf ++ out, x) /\
        forall P out', len before + len out' <= opt_limit o -> breaks P out' -> out' = out /\ P x)).
Proof.
  intros Hl Hrun Hc Hf breaks. destruct (with_options_idle xxh32 r0 o Hl) as (Hi & Hm & Hh & _).
  destruct (decoder_run_usable xxh32 _ _ cs _ (usable_idle xxh32 _ _ _ Hi)) as ([d out] & Hr & Hu & Hh' & Hm').
  rewrite Hrun in Hr. injection Hr as <- <-. rewrite Hh in Hh'. rewrite Hm in Hm'.
  pose proof (usable_limit xxh32 _ _ _ Hu) as Hlim. set (d := get_mut dec r).
  assert (Hid : idle (opt_dict o) (opt_id o) d) by (apply usable_closed; [by apply usable_replace|done]).
  assert (Hb : fd_bytes_output d = len before) by (rewrite <-(handed_empty _ (id_empty _ _ _ Hid)); exact Hh').
  assert (Hdm : fd_max_output d = opt_limit o) by exact Hm'.
  assert (Hrep : forall P out', len before + len out' <= opt_limit o -> breaks P out' ->
    exists dec' x, read_to_end xxh32 fuel d buf 0 = Err (dec', buf ++ out', x) /\ P x).
  { intros P out' Hfit HP. apply (defect_reported _ _ d P out' buf fuel Hid); [|by rewrite Hb, Hdm|done].
    by rewrite Hb, Hdm. }
  pose proof (read_to_end_ok xxh32 _ _ fuel None d buf 0 (open_at_block xxh32 _ _ None _ Hid)
    (or_intror (conj (pending_nil _ (id_empty _ _ _ Hid)) Hf))) as He.
  destruct (whole_or_broken xxh32 (opt_dict o) (opt_id o) (opt_limit o) (stream r) (len before) ltac:(lia))
    as (out & Hfit & [Hfr|(P & HP)]).
  - assert (Hrem : remaining xxh32 (opt_dict o) (opt_id o) None d out) by (apply remaining_block; [apply Hid|done]).
    destruct (read_to_end xxh32 fuel d buf 0) as [[[d' b] n]|[[d' b] x]| |] eqn:Hend; [| |done..]; cbn [end_post] in He.
    + destruct He as (out' & -> & -> & _ & _ & _ & Hx & Hi' & _). rewrite (Hx _ Hrem) in *.
      exists d', out'. split; [done|]. split; [by destruct Hi'|]. by left.
    + exfalso. destruct He as (out' & _ & _ & _ & _ & Hx). specialize (Hx _ Hrem).
      rewrite (handed_empty _ (id_empty _ _ _ Hid)), Hb, Hdm in Hx. lia.
  - destruct (Hrep P out Hfit HP) as (d' & x & Hend & _). rewrite Hend in He. cbn [end_post] in He.
    destruct He as (_ & _ & _ & _ & Hi' & _). exists d', out. split; [done|]. split; [by destruct Hi'|]. right.
    split; [by exists P|]. exists x. split; [done|]. intros P' out' Hfit' HP'.
    destruct (Hrep P' out' Hfit' HP') as (d2 & x2 & Hend' & HP2). rewrite Hend in Hend'.
    injection Hend' as _ Hout <-. by apply app_inv_head in Hout as ->.
Qed.

(** C17: the memory for frames that declare their sizes, after any history and for
    any block size.  No frame is open, nothing is pending, and a reader delivers
    frames whose headers declare the sizes of their contents, none above [c], and
    whose content fits the output limit.  [read_to_end] returns the content.  The
    output buffer, which no call makes shorter, ends no longer than [c] or than it
    was, and the capacity that has been reserved for it is at most the larger of
    [c], the former length and what had been reserved before.  The buffer of
    compressed bytes is no longer than the reader's bytes or than it was, and no
    more is reserved for it than the largest of [c], the reader's bytes, its former
    length and what had been reserved before. *)
Theorem declared_size_memory r0 o (cs : list (dcall R)) before dec r content c buf fuel :
  opt_limit o <= usize_max ->
  decoder_run xxh32 (with_options r0 o) cs = Ok (dec, before) -> closed dec ->
  declared_frames xxh32 c (opt_dict o) (opt_id o) (stream r) content ->
  len before + len content <= opt_limit o -> (length (stream r) < fuel)%nat ->
  exists dec', read_to_end xxh32 fuel (get_mut dec r) buf 0 = Ok (dec', buf ++ content, len content) /\
    len (fd_dst dec') <= N.max (len (fd_dst dec)) c /\
    len (fd_src dec') <= N.max (len (fd_src dec)) (len (stream r)) /\
    fd_dst_reserve dec' <= N.max (fd_dst_reserve dec) (N.max (len (fd_dst dec)) c) /\
    fd_src_reserve dec' <= N.max (fd_src_reserve dec) (N.max (len (fd_src dec)) (N.max (len (stream r)) c)).
Proof.
  intros Hl Hrun Hc Hd Hlim Hf. destruct (with_options_idle xxh32 r0 o Hl) as (Hi & Hm & Hh & _).
  destruct (decoder_run_usable xxh32 _ _ cs _ (usable_idle xxh32 _ _ _ Hi)) as ([d out] & Hr & Hu & Hh' & Hm').
  rewrite Hrun in Hr. injection Hr as <- <-. rewrite Hh in Hh'. rewrite Hm in Hm'.
  pose proof (usable_closed _ _ _ (usable_replace _ _ _ r Hu) Hc) as Hid.
  set (rd := N.max (fd_dst_reserve dec) _). set (rs := N.max (fd_src_reserve dec) _).
  assert (Ht : tidy xxh32 c rd rs (N.max (len (fd_dst dec)) c) (N.max (len (fd_src dec)) (len (stream r)))
    (opt_dict o) (opt_id o) None (get_mut dec r)).
  { subst rd rs. split; [by apply (open_at_block xxh32)| |apply N.le_max_l|apply N.le_max_l|apply N.le_max_r
      |apply N.le_max_l|apply N.le_max_l|lia].
    by apply (declared_small xxh32 _ _ _ _ content). }
  pose proof (closed_to_end xxh32 _ _ _ r buf fuel Hu Hc Hf) as H. apply declared_are_frames in Hd.
  destruct (read_to_end xxh32 fuel _ buf 0) as [[[dec' b] n]|[[dec' b] x]| |] eqn:Hend; [| |done..].
  - destruct H as (out & -> & -> & _ & Hout). apply Hout in Hd as <-. exists dec'. split; [done|].
    destruct (read_to_end_tidy xxh32 _ _ _ _ _ _ _ _ _ _ _ _ _ _ _ Ht Hend) as (at' & []). done.
  - destruct H as (out & _ & _ & Hout). specialize (Hout _ Hd). lia.
Qed.

(** C40: the text of a wrong dictionary names the two identifiers the wrong way
    round.  For a frame with the identifier [actual], a decoder that was made for
    the dictionary [expected] reports that the frame declares [expected] and the
    decoder has [actual]. *)
Theorem dict_mismatch_text_swapped simple r dict expected actual info l buf fuel :
  info_ok info -> dict_id info = Some actual -> actual <> expected ->
  stream r = header_bytes xxh32 info ++ l -> (length (stream r) < fuel)%nat ->
  exists dec' x, read_to_end xxh32 fuel (with_dictionary r dict expected) buf 0 = Err (dec', buf, x) /\
    ErrorDisplay.io_fmt simple x =
      ("dictionary ID mismatch: frame declares " ++ hex32 expected ++ ", decoder has " ++ hex32 actual)%string.
Proof.
  intros Hi Hid Hne Hs Hf. set (o := {| dictionary := Some (dict, expected); max_output := None |}).
  destruct (with_options_idle xxh32 r o (N.le_refl _)) as (Hidle & Hm & Hh & Hl).
  destruct (defect_reported _ _ _ (is_error (DictIdMismatch expected actual)) [] buf fuel Hidle) as (dec' & x & Hr & Hx).
  - rewrite Hl. apply (broken_between _ _ _ _ _ _ []); [constructor|]. apply (bad_dictionary _ _ _ info l); [done..|].
    rewrite Hid. by constructor.
  - rewrite Hm. cbn -[usize_max]. lia.
  - by rewrite Hl.
  - exists dec', x. rewrite app_nil_r in Hr. split; [exact Hr|]. by rewrite Hx.
Qed.
End outcome.

(** ** Witnesses *)

#[local] Existing Instance x86_64.

(** A frame, and one that declares five bytes and holds three. *)
Definition short_info : FrameInfo :=
  {| content_size := Some 5; dict_id := None; block_size := Max64KB; block_mode := Independent;
     block_checksums := false; content_checksum := false |}.
Definition short_stream : bytes :=
  plain_stream ++ header_bytes toy_hash short_info ++ (to_le 4 (3 + 2 ^ 31) ++ plain_data) ++ to_le 4 0.
Definition short_reader : SliceReader := {| sr_bytes := short_stream; sr_chunk := 5 |}.

Lemma short_broken : broken toy_hash (opt_dict plain_options) (opt_id plain_options) (len ([] : bytes) + 6) (opt_limit plain_options)
  (is_error (ContentLengthError 5 3)) (stream short_reader) (plain_data ++ plain_data).
Proof.
  apply (broken_inside toy_hash [] None _ _ _ plain_stream plain_data short_info (to_le 4 (3 + 2 ^ 31) ++ plain_data) plain_data (to_le 4 0)).
  - exact plain_frames.
  - split; [done|]. split; [|by intros n [=]]. by intros n [= <-].
  - done.
  - pose proof (carries_raw toy_hash short_info [] [] plain_data ltac:(concrete)) as H.
    exact (emitted_snoc toy_hash short_info [] [] [] _ plain_data (emitted_nil _ _ _) H).
  - exact (damage_content_size toy_hash short_info [] plain_data _ _ 5 [] eq_refl ltac:(done)).
Defined.

Lemma read_to_end_outcome_witness :
  exists dec, decoder_run toy_hash plain_decoder plain_calls = Ok (dec, []) /\ closed dec /\
  let breaks P out := broken toy_hash (opt_dict plain_options) (opt_id plain_options) (len ([] : bytes) + len out)
    (opt_limit plain_options) P (stream short_reader) out in
  breaks (is_error (ContentLengthError 5 3)) (plain_data ++ plain_data) /\
  exists dec' out, len ([] : bytes) + len out <= opt_limit plain_options /\ closed dec' /\
    ((frames toy_hash (opt_dict plain_options) (opt_id plain_options) (stream short_reader) out /\
      FrameDecoderImpl.read_to_end toy_hash 100 (FrameDecoderImpl.get_mut dec short_reader) [x2a] 0 = Ok (dec', [x2a] ++ out, len out)) \/
     ((exists P, breaks P out) /\
      exists x, FrameDecoderImpl.read_to_end toy_hash 100 (FrameDecoderImpl.get_mut dec short_reader) [x2a] 0 = Err (dec', [x2a] ++ out, x) /\
        forall P out', len ([] : bytes) + len out' <= opt_limit plain_options -> breaks P out' -> out' = out /\ P x)).
Proof.
  destruct plain_run as (dec & Hr & Hc). exists dec. split; [exact Hr|]. split; [exact Hc|].
  split; [exact short_broken|].
  exact (read_to_end_outcome toy_hash plain_reader plain_options plain_calls [] dec short_reader [x2a] 100
    plain_limit Hr Hc ltac:(apply Nat.ltb_lt; concrete)).
Defined.

(** A frame of 4 MiB blocks that declares its three bytes. *)
Definition tiny_info : FrameInfo :=
  {| content_size := Some 3; dict_id := None; block_size := Max4MB; block_mode := Linked;
     block_checksums := false; content_checksum := false |}.
Definition tiny_frame : bytes := header_bytes toy_hash tiny_info ++ (to_le 4 (3 + 2 ^ 31) ++ plain_data) ++ to_le 4 0.
Definition tiny_reader : SliceReader := {| sr_bytes := tiny_frame; sr_chunk := 4 |}.

Lemma tiny_declared : declared_frames toy_hash 3 [] None (stream tiny_reader) plain_data.
Proof.
  pose proof (carries_raw toy_hash tiny_info [] [] plain_data ltac:(concrete)) as Hb.
  assert (Hf : is_frame toy_hash tiny_info [] tiny_frame plain_data).
  { split; [split; [done|split; [by intros n [= <-]|by intros n [=]]]|]. eexists. split; [reflexivity|].
    eapply (body_block toy_hash tiny_info [] [] _ plain_data); [exact Hb|].
    apply (body_end toy_hash tiny_info [] plain_data). by intros n [= <-]. }
  exact (declared_cons toy_hash 3 [] None tiny_info tiny_frame plain_data [] [] eq_refl eq_refl ltac:(done) Hf
    (declared_nil _ _ _ _)).
Defined.

Lemma declared_size_memory_witness :
  exists dec, decoder_run toy_hash plain_decoder plain_calls = Ok (dec, []) /\ closed dec /\
  exists dec', FrameDecoderImpl.read_to_end toy_hash 100 (FrameDecoderImpl.get_mut dec tiny_reader) [x2a] 0
      = Ok (dec', [x2a] ++ plain_data, 3) /\
    len (fd_dst dec') <= N.max (len (fd_dst dec)) 3 /\
    len (fd_src dec') <= N.max (len (fd_src dec)) (len (stream tiny_reader)) /\
    fd_dst_reserve dec' <= N.max (fd_dst_reserve dec) (N.max (len (fd_dst dec)) 3) /\
    fd_src_reserve dec' <= N.max (fd_src_reserve dec) (N.max (len (fd_src dec)) (N.max (len (stream tiny_reader)) 3)).
Proof.
  destruct plain_run as (dec & Hr & Hc). exists dec. split; [exact Hr|]. split; [exact Hc|].
  exact (declared_size_memory toy_hash plain_reader plain_options plain_calls [] dec tiny_reader plain_data 3 [x2a] 100
    plain_limit Hr Hc tiny_declared ltac:(done) ltac:(apply Nat.ltb_lt; concrete)).
Defined.

(** A frame of dictionary 7 for a decoder of dictionary 9. *)
Definition dict_info : FrameInfo :=
  {| content_size := None; dict_id := Some 7; block_size := Max64KB; block_mode := Independent;
     block_checksums := false; content_checksum := false |}.
Definition dict_reader : SliceReader := {| sr_bytes := header_bytes toy_hash dict_info ++ to_le 4 0; sr_chunk := 2 |}.

Lemma dict_mismatch_text_swapped_witness :
  exists dec' x, FrameDecoderImpl.read_to_end toy_hash 100
      (FrameDecoderImpl.with_dictionary dict_reader plain_data 9) [x2a] 0 = Err (dec', [x2a], x) /\
    ErrorDisplay.io_fmt (fun _ => EmptyString) x =
      "dictionary ID mismatch: frame declares 0x00000009, decoder has 0x00000007"%string.
Proof.
  apply (dict_mismatch_text_swapped toy_hash (fun _ => EmptyString) dict_reader plain_data 9 7 dict_info (to_le 4 0) [x2a] 100).
  - split; [done|]. split; [by intros n [=]|]. by intros n [= <-].
  - done.
  - done.
  - done.
  - apply Nat.ltb_lt. concrete.
Defined.
