(* ===== verification/ReaderTheorems.v ===== *)
(** * Theorems on the frame decoder over readers that fail *)

From S2P Require Import Prelude BlockSpec Core Primitives Decompress DecompressProofs FrameHeader FrameIO FrameSpec FrameDecoder FrameDecoderProofs FrameDecoderStream FrameTheorems FrameCodecTheorems Reuse FrameDecoderReuse FrameReaders FrameAnyReader FrameInterrupts.

Section readers.
Context `{T : Target} (xxh32 : bytes -> N) {R : Type} {HR : Read R} {HS : ReadSound R}.
Import FrameDecoderImpl.

(** [with_options_idle] on any reader. *)
Lemma new_idle (r : R) o : opt_limit o <= usize_max ->
  idle (opt_dict o) (opt_id o) (with_options r o) /\ fd_max_output (with_options r o) = opt_limit o /\
  handed (with_options r o) = 0.
Proof.
  intros Hl. destruct (with_options_idle xxh32 {| cr_chunks := [] |} o Hl) as (Hi & Hm & Hh & _).
  assert (Hr : with_options r o = with_reader r (with_options {| cr_chunks := [] |} o))
    by (by destruct o as [[[]|] [|]]).
  rewrite Hr. split; [by apply (idle_reader (R := ChunkReader))|done].
Qed.

Lemma client_run_same cs (d1 d2 : FrameDecoder R) : alike SameRoom d1 d2 ->
  agree (fun _ _ => False) (fun '(_, l1) '(_, l2) => Forall2 same_result l1 l2)
    (client_run xxh32 d1 cs) (client_run xxh32 d2 cs).
Proof.
  revert d1 d2. induction cs as [|[fuel c] cs IH]; intros d1 d2 Ha; [by cbn|]. cbn [client_run].
  eapply agree_bind; [by apply (client_call_same xxh32 SameRoom)|]. intros [[e1 b1] x1] [[e2 b2] x2] [Hr He].
  eapply agree_bind; [by apply IH|]. intros [f1 l1] [f2 l2] Hl. by constructor.
Qed.

(** C14: the decoder over any reader at all, which may fail at any call, end and
    go on, or never end.  Whatever a client calls, nothing panics; the output
    stays within the limit, the buffers and their reserved capacities within their
    bounds, and a call that returns an error leaves the decoder closed.  A closed decoder goes on like
    a new one over the same reader with as much of the limit left. *)
Theorem any_reader (r : R) o cs : opt_limit o <= usize_max ->
  match client_run xxh32 (with_options r o) cs with
  | Ok (dec, l) => len (got l) <= opt_limit o /\ (len (fd_dst dec) <= max_dst /\ fd_dst_reserve dec <= max_dst) /\
      (len (fd_src dec) <= max_src /\ fd_src_reserve dec <= max_src) /\
      (forall fuel c, match client_call xxh32 fuel dec c with
       | Ok (dec', _, x) => x <> None -> closed dec'
       | Err _ | Panic => False
       | NoFuel => True
       end) /\
      (closed dec -> forall calls,
         agree (fun _ _ => False) (fun '(_, l1) '(_, l2) => Forall2 same_result l1 l2)
           (client_run xxh32 dec calls)
           (client_run xxh32 (with_options (fd_r dec) (remaining_options o (len (got l)))) calls))
  | Err _ | Panic => False
  | NoFuel => True
  end.
Proof.
  intros Hl. destruct (new_idle r o Hl) as (Hi & Hm & Hh).
  pose proof (client_run_any xxh32 _ _ cs _ (usable_idle xxh32 _ _ _ Hi)) as H.
  destruct (client_run _ _ _) as [[dec l]|[]| |]; [|done..]. destruct H as (Hu & Hh' & Hm').
  pose proof (usable_limit xxh32 _ _ _ Hu) as Hlim. destruct (usable_buffers _ _ _ Hu) as [Hd Hs].
  split; [lia|]. split; [done|]. split; [done|]. split.
  - intros fuel c. pose proof (client_call_any xxh32 _ _ fuel dec c Hu) as Hc.
    destruct (client_call _ _ _ _) as [[[dec' b] x]|[]| |]; [|done..]. apply Hc.
  - intros Hc calls. apply client_run_same. pose proof (usable_closed _ _ _ Hu Hc) as Hi'.
    assert (Ho : fd_bytes_output dec = len (got l)) by (destruct Hc as [_ He]; rewrite <-(handed_empty _ He); lia).
    rewrite <-Ho. replace dec with (get_mut dec (fd_r dec)) at 1 by by destruct dec.
    by apply (reused_alike xxh32 SameRoom); [|congruence].
Qed.
End readers.

(** C15: an interrupted read loses nothing.  The reader delivers a byte string, but
    any of its calls of [read] may be interrupted.  After any calls of a client,
    when no frame is open and nothing is pending, [read_to_end] succeeds exactly
    when what is left of the string is a sequence of frames whose content fits
    the rest of the output limit, and then the vector is extended by exactly
    that content; no interruption is reported. *)
Theorem interrupted_reads `{T : Target} (xxh32 : bytes -> N) {R} {HR : Read R} {HL : ReadLaws R}
    (r : Interrupting R) o cs dec l buf :
  opt_limit o <= usize_max -> client_run xxh32 (FrameDecoderImpl.with_options r o) cs = Ok (dec, l) -> closed dec ->
  let input := stream (it_reader (fd_r dec)) in
  match FrameDecoderImpl.read_to_end xxh32 (S (length input) + length (schedule dec)) dec buf 0 with
  | Ok (_, buf', n) => exists content, buf' = buf ++ content /\ n = len content /\
      len (got l) + len content <= opt_limit o /\
      forall out, frames xxh32 (opt_dict o) (opt_id o) input out <-> out = content
  | Err (_, buf', x) => (exists content, buf' = buf ++ content /\ len (got l) + len content <= opt_limit o) /\
      FrameDecoderImpl.is_interrupted x = false /\
      forall out, frames xxh32 (opt_dict o) (opt_id o) input out -> opt_limit o < len (got l) + len out
  | Panic | NoFuel => False
  end.
Proof.
  intros Hl Hrun Hc input. destruct (new_idle xxh32 r o Hl) as (Hi & Hm & Hh).
  pose proof (client_run_any xxh32 _ _ cs _ (usable_idle xxh32 _ _ _ Hi)) as H. rewrite Hrun in H.
  destruct H as (Hu & Hh' & Hm').
  assert (Hin : usable (opt_dict o) (opt_id o) (inner dec)).
  { apply (usable_idle xxh32). apply (idle_reader (R := Interrupting R)). by apply (usable_closed _ _ _ Hu). }
  pose proof (closed_to_end xxh32 _ _ (inner dec) (fd_r (inner dec)) buf (S (length input)) Hin Hc
    (Nat.lt_succ_diag_r _)) as Hbelow.
  replace (FrameDecoderImpl.get_mut (inner dec) (fd_r (inner dec))) with (inner dec) in Hbelow by done.
  change (fd_max_output (inner dec)) with (fd_max_output dec) in Hbelow.
  change (handed (inner dec)) with (handed dec) in Hbelow. change (stream (fd_r (inner dec))) with input in Hbelow.
  rewrite Hm', Hm, Hh', Hh, N.add_0_l in Hbelow.
  pose proof (read_to_end_inner xxh32 _ _ (S (length input)) (length (schedule dec)) dec buf 0 Hu (Nat.le_refl _)) as Hs.
  pose proof (read_to_end_error xxh32 (S (length input)) (inner dec) buf 0) as Hx.
  destruct (FrameDecoderImpl.read_to_end xxh32 _ (inner dec) _ _) as [[[e b] n]|[[e b] x]| |];
    [specialize (Hs ltac:(done))..|done|done]; cbn [same_end] in Hs.
  - destruct Hs as (d & -> & _). exact Hbelow.
  - destruct Hs as (d & -> & _). destruct Hbelow as (content & -> & Hlim & Hout). split; [by exists content|].
    split; [by apply (Hx _ _ _ eq_refl)|done].
Qed.

(** ** Witnesses *)

#[local] Existing Instance x86_64.

(** A reader of the frame of [plain_stream] that is interrupted three times, the
    second time in the middle of the calls. *)
Definition interrupted_reader : Interrupting SliceReader :=
  {| it_reader := plain_reader; it_when := [true; true; false; true] |}.

Definition interrupted_calls : list (nat * dcall (Interrupting SliceReader)) := [(9%nat, DRead 2); (9%nat, DTake 1)].

Lemma any_reader_witness :
  match client_run toy_hash (FrameDecoderImpl.with_options interrupted_reader plain_options) interrupted_calls with
  | Ok (dec, l) => len (got l) <= opt_limit plain_options /\ (len (fd_dst dec) <= max_dst /\ fd_dst_reserve dec <= max_dst) /\
      (len (fd_src dec) <= max_src /\ fd_src_reserve dec <= max_src) /\
      (forall fuel c, match client_call toy_hash fuel dec c with
       | Ok (dec', _, x) => x <> None -> closed dec'
       | Err _ | Panic => False
       | NoFuel => True
       end) /\
      (closed dec -> forall calls,
         agree (fun _ _ => False) (fun '(_, l1) '(_, l2) => Forall2 same_result l1 l2)
           (client_run toy_hash dec calls)
           (client_run toy_hash (FrameDecoderImpl.with_options (fd_r dec)
              (remaining_options plain_options (len (got l)))) calls))
  | Err _ | Panic => False
  | NoFuel => True
  end.
Proof. exact (any_reader toy_hash interrupted_reader plain_options interrupted_calls plain_limit). Defined.

Lemma interrupted_run : exists dec l,
  client_run toy_hash (FrameDecoderImpl.with_options interrupted_reader plain_options) interrupted_calls = Ok (dec, l) /\
  closed dec.
Proof. vm_compute. eexists _, _. split; [reflexivity|split; reflexivity]. Defined.

Lemma interrupted_reads_witness : exists dec l,
  client_run toy_hash (FrameDecoderImpl.with_options interrupted_reader plain_options) interrupted_calls = Ok (dec, l) /\
  closed dec /\
  let input := stream (it_reader (fd_r dec)) in
  match FrameDecoderImpl.read_to_end toy_hash (S (length input) + length (schedule dec)) dec [x2a] 0 with
  | Ok (_, buf', n) => exists content, buf' = [x2a] ++ content /\ n = len content /\
      len (got l) + len content <= opt_limit plain_options /\
      forall out, frames toy_hash (opt_dict plain_options) (opt_id plain_options) input out <-> out = content
  | Err (_, buf', x) => (exists content, buf' = [x2a] ++ content /\ len (got l) + len content <= opt_limit plain_options) /\
      FrameDecoderImpl.is_interrupted x = false /\
      forall out, frames toy_hash (opt_dict plain_options) (opt_id plain_options) input out ->
        opt_limit plain_options < len (got l) + len out
  | Panic | NoFuel => False
  end.
Proof.
  destruct interrupted_run as (dec & l & Hr & Hc). exists dec, l. split; [exact Hr|]. split; [exact Hc|].
  exact (interrupted_reads toy_hash interrupted_reader plain_options interrupted_calls dec l [x2a] plain_limit Hr Hc).
Defined.
