(* ===== verification/Bindings.v ===== *)
(** * The WebAssembly bindings ([jsr/wasm/src/lib.rs])

    Every function is a composition of the library's; the compressor and the
    trainer are objects with state.  A [JsError] is the error whose text it
    shows. *)

From S2P Require Import Prelude Core Decompress HashTable Compress DictTrainer FrameHeader FrameIO FrameEncoder FrameDecoder.

Definition FLAG_HAS_DICTIONARY : N := N.shiftl 1 0.
Definition FLAG_LINKED_BLOCKS : N := N.shiftl 1 1.
Definition FLAG_BLOCK_CHECKSUMS : N := N.shiftl 1 2.
Definition FLAG_CONTENT_CHECKSUM : N := N.shiftl 1 3.
Definition FLAG_CONTENT_SIZE : N := N.shiftl 1 4.

Inductive JsError :=
| JsDecompress (e : DecompressError)
| JsFrame (e : Error)
| JsIo (e : IoError)
| JsSizeMismatch (expected got : N)
| JsConsumed.

Section functions.
Context `{T : Target} (xxh32 : bytes -> N).
Implicit Types (input output dictionary : bytes).

(** [output.len() == uncompressed_size] *)
Definition validate_exact_size output (uncompressed_size : N) : res JsError bytes :=
  if len output =? uncompressed_size then Ok output
  else Err (JsSizeMismatch uncompressed_size (len output)).

Definition compress_bound (input_len : N) : res JsError N := get_maximum_output_size input_len.

Definition compress input : res JsError bytes := unwrap (Compress.compress input).

Definition decompress input (uncompressed_size : N) : res JsError bytes :=
  output ← map_err JsDecompress (Decompress.decompress input uncompressed_size);
  validate_exact_size output uncompressed_size.

(** The [FrameInfo] of the flags. *)
Definition info_of_flags (flags input_len : N) : FrameInfo :=
  let frame_info := FrameInfoImpl.content_checksum
    (FrameInfoImpl.block_checksums FrameInfoImpl.new (flag flags FLAG_BLOCK_CHECKSUMS))
    (flag flags FLAG_CONTENT_CHECKSUM) in
  let frame_info := if flag flags FLAG_LINKED_BLOCKS
                    then FrameInfoImpl.block_mode frame_info Linked else frame_info in
  if flag flags FLAG_CONTENT_SIZE
  then FrameInfoImpl.content_size frame_info (Some input_len) else frame_info.

(** [Write::write_all] of the standard library, over the encoder's [write]. *)
Fixpoint write_all (fuel : nat) (e : FrameEncoder VecWriter) (buf : bytes)
  : res (FrameEncoder VecWriter * IoError) (FrameEncoder VecWriter) :=
  match buf with
  | [] => Ok e
  | _ =>
      match fuel with
      | O => NoFuel
      | S fuel =>
          match FrameEncoderImpl.write xxh32 e buf with
          | Ok (e, n) => if n =? 0 then Err (e, Simple WriteZero)
                         else write_all fuel e (drop (N.to_nat n) buf)
          | Err (e, x) => if FrameDecoderImpl.is_interrupted x then write_all fuel e buf else Err (e, x)
          | Panic => Panic
          | NoFuel => NoFuel
          end
      end
  end.

Definition compress_frame input dictionary (dict_id flags : N) : res JsError bytes :=
  let frame_info := info_of_flags flags (len input) in
  encoder ← (if flag flags FLAG_HAS_DICTIONARY
             then map_err JsFrame (FrameEncoderImpl.with_dictionary ([] : VecWriter) dictionary dict_id
                                     (Some frame_info))
             else Ok (FrameEncoderImpl.with_frame_info frame_info ([] : VecWriter)));
  encoder ← map_err (fun '(_, x) => JsIo x) (write_all (S (length input)) encoder input);
  map_err JsFrame (FrameEncoderImpl.finish xxh32 encoder).

(** The reader is [&[u8]]: it fills the whole buffer of a read. *)
Definition decompress_frame input dictionary (dict_id : N) (has_dictionary : bool) (max_output : N)
    (has_max_output : bool) : res JsError bytes :=
  let decoder := FrameDecoderImpl.with_options {| sr_bytes := input; sr_chunk := len input |}
    {| dictionary := if has_dictionary then Some (dictionary, dict_id) else None;
       max_output := if has_max_output then Some max_output else None |} in
  '(_, output, _) ← map_err (fun '(_, _, x) => JsIo x)
                      (FrameDecoderImpl.read_to_end xxh32 (S (length input)) decoder [] 0);
  Ok output.
End functions.

(** ** Objects *)

Inductive CompressorInner :=
| Plain (c : CompressorN DEFAULT_NODICT_ENTRIES)
| Dict (c : DictCompressorN DEFAULT_DICT_ENTRIES).

Module JsCompressor.
Section ops.
Context `{T : Target}.

Definition new : CompressorInner := Plain CompressorNImpl.new.
Definition with_dict (dict : bytes) : res JsError CompressorInner :=
  c ← unwrap (DictCompressorNImpl.new dict); Ok (Dict c).

Definition compress (inner : CompressorInner) (input : bytes) : res JsError (CompressorInner * bytes) :=
  match inner with
  | Plain c => '(c, out) ← unwrap (CompressorNImpl.compress c input); Ok (Plain c, out)
  | Dict c => '(c, out) ← unwrap (DictCompressorNImpl.compress c input); Ok (Dict c, out)
  end.
End ops.
End JsCompressor.

Module JsDecompressor.
Section ops.
Context `{T : Target}.

Definition new : Decompressor := DecompressorImpl.new.
Definition with_dict (dict : bytes) : Decompressor := DecompressorImpl.with_dict dict.

Definition decompress (inner : Decompressor) (input : bytes) (uncompressed_size : N) : res JsError bytes :=
  output ← map_err JsDecompress (DecompressorImpl.decompress inner input uncompressed_size);
  validate_exact_size output uncompressed_size.
End ops.
End JsDecompressor.

(** The trainer until [train] takes it. *)
Module JsDictTrainer.
Definition t : Type := option DictTrainer.

Definition new (max_dict_size : N) : t := Some (DictTrainerImpl.new max_dict_size).

Definition add_sample (inner : t) (data : bytes) : res JsError t :=
  trainer ← ok_or JsConsumed inner;
  trainer ← DictTrainerImpl.add_sample trainer data;
  Ok (Some trainer).

Definition sample_count (inner : t) : res JsError N :=
  trainer ← ok_or JsConsumed inner; Ok (DictTrainerImpl.sample_count trainer).

Definition train `{T : Target} (inner : t) : res JsError (t * bytes) :=
  trainer ← ok_or JsConsumed inner;
  dict ← DictTrainerImpl.train trainer;
  Ok (None, dict).
End JsDictTrainer.
