(* ===== verification/BindingsTheorems.v ===== *)
(** * Theorems on the bindings

    The frame functions and the objects are inverse to each other, for all
    flags and any history of an object. *)

From S2P Require Import Prelude BlockSpec Core Primitives Decompress DecompressProofs DecompressSpec HashTable Compress EncoderSpec FrameHeader FrameIO FrameSpec FrameEncoder FrameEncoderProofs FrameSession FrameDecoder FrameDecoderProofs FrameDecoderStream DecoderTheorems EncoderTheorems FrameTheorems FrameCodecTheorems Bindings.

Section frames.
Context `{T : Target} (xxh32 : bytes -> N).
Implicit Types (input dictionary : bytes) (e : FrameEncoder VecWriter).

(** The arguments as those of an encoder. *)
Definition js_dict dictionary (id flags : N) : option (bytes * N) :=
  if flag flags FLAG_HAS_DICTIONARY then Some (dictionary, id) else None.

Definition js_calls input : list call := match input with [] => [] | _ => [CWrite input] end.

Lemma js_calls_bytes input : calls_bytes (js_calls input) = input.
Proof. destruct input; [done|]. unfold calls_bytes. cbn. by rewrite app_nil_r. Qed.

Lemma js_info flags n : dict_id (info_of_flags flags n) = None /\
  content_size (info_of_flags flags n) = if flag flags FLAG_CONTENT_SIZE then Some n else None.
Proof. unfold info_of_flags. destruct (flag flags FLAG_LINKED_BLOCKS), (flag flags FLAG_CONTENT_SIZE); done. Qed.

Lemma js_create_ok dictionary id flags n : id < 2 ^ 32 -> n < 2 ^ 64 -> len dictionary <= isize_max ->
  create_ok (js_dict dictionary id flags) (info_of_flags flags n).
Proof.
  intros Hid Hn Hd. destruct (js_info flags n) as [Hi Hc]. unfold js_dict.
  destruct (flag flags FLAG_HAS_DICTIONARY); (split; [split|]); cbn [create_info create_dict length]; try done.
  - cbn. rewrite Hc. destruct (flag _ _); [by intros ? [= <-]|done].
  - by intros ? [= <-].
  - rewrite Hc. destruct (flag _ _); [by intros ? [= <-]|done].
  - by rewrite Hi.
  - lia.
Qed.

(** One session: a frame of the input, of the declared size. *)
Lemma js_session flags input :
  exists s, session_run (content_size (info_of_flags flags (len input))) new_session
    (js_calls input ++ [CTryFinish]) = Some s.
Proof.
  destruct (js_info flags (len input)) as [_ ->].
  destruct input as [|x l]; cbn -[len]; unfold finish_frame, size_matches; cbn -[len];
    destruct (flag flags FLAG_CONTENT_SIZE); try (by eexists); rewrite ?N.eqb_refl; by eexists.
Qed.

(** [write_all] is the call of [write]. *)
Lemma write_count e buf e' n : FrameEncoderImpl.write xxh32 e buf = Ok (e', n) -> n = len buf.
Proof.
  unfold FrameEncoderImpl.write. destruct (fe_failed e); [done|]. cbv zeta.
  intros (e1 & _ & H)%bind_Ok. by apply bind_Ok in H as (e2 & _ & [= _ <-]).
Qed.

Lemma write_all_run input e e' : run_calls xxh32 e (js_calls input) = Ok e' ->
  write_all xxh32 (S (length input)) e input = Ok e'.
Proof.
  destruct input as [|x l]; [by intros [= ->]|]. set (input := x :: l). cbn [js_calls run_calls call_encoder].
  intros (e1 & Hw & [= ->])%bind_Ok. unfold call_encoder, FrameEncoderImpl.as_frame, map_err in Hw.
  case_match eqn:Hb; try done. injection Hw as ->.
  apply bind_Ok in Hb as ([e2 n] & Hwr & [= ->]). pose proof (write_count _ _ _ _ Hwr) as ->.
  change (write_all xxh32 (S (length input)) e input) with
    (match FrameEncoderImpl.write xxh32 e input with
     | Ok (e, n) => if n =? 0 then Err (e, Simple WriteZero)
                    else write_all xxh32 (length input) e (drop (N.to_nat n) input)
     | Err (e, x) => if FrameDecoderImpl.is_interrupted x then write_all xxh32 (length input) e input else Err (e, x)
     | Panic => Panic
     | NoFuel => NoFuel
     end).
  rewrite Hwr. destruct (N.eqb_spec (len input) 0) as [H0|_]; [by cbn in H0|]. by rewrite drop_ge by lia.
Qed.

Lemma with_options_reader (r : SliceReader) o :
  FrameDecoderImpl.get_mut (FrameDecoderImpl.with_options r o) r = FrameDecoderImpl.with_options r o.
Proof. unfold FrameDecoderImpl.with_options. by destruct o as [[[d id]|] [m|]]. Qed.

(** C33: the frame functions are inverse to each other, for all flags: with the
    dictionary of the flags, and an output limit or none, [decompress_frame]
    returns the input of [compress_frame], and neither panics. *)
Theorem js_frame_round_trip input dictionary id flags limit has_limit :
  id < 2 ^ 32 -> len dictionary <= isize_max -> len input <= isize_max ->
  (has_limit = true -> len input <= limit <= usize_max) ->
  exists frame, compress_frame xxh32 input dictionary id flags = Ok frame /\
    decompress_frame xxh32 frame dictionary id (flag flags FLAG_HAS_DICTIONARY) limit has_limit = Ok input.
Proof.
  intros Hid Hd Hn Hl. pose proof usize_isize as Hu. pose proof usize_u64 as Hu64.
  assert (H64 : len input < 2 ^ 64) by (unfold u64_max in Hu64; lia).
  destruct (js_session flags input) as (s & Hs).
  pose proof (js_create_ok dictionary id flags (len input) Hid H64 Hd) as Hok.
  destruct (finished_frames xxh32 _ _ ([] : VecWriter) (js_calls input) s Hok) as (e1 & frame & F & Hr & Hf & HF & Hfr).
  { rewrite js_calls_bytes. lia. }
  { exact Hs. }
  rewrite js_calls_bytes in Hfr. cbn [sunk VecWriter_laws app] in HF. subst F. exists frame. split.
  - unfold compress_frame. set (enc := if flag flags FLAG_HAS_DICTIONARY then _ else _).
    assert (He : enc = Ok (set_dict (create_dict (js_dict dictionary id flags))
      (FrameEncoderImpl.with_frame_info (create_info (js_dict dictionary id flags) (info_of_flags flags (len input)))
         ([] : VecWriter)))) by (subst enc; unfold js_dict; by destruct (flag flags FLAG_HAS_DICTIONARY)).
    rewrite He. mstep. rewrite (write_all_run _ _ _ Hr). mstep. by rewrite Hf.
  - unfold decompress_frame. set (o := Build_FrameDecoderOptions _ _). set (r := Build_SliceReader _ _).
    assert (Ho : o = decoder_options (js_dict dictionary id flags) (if has_limit then Some limit else None)) by done.
    destruct (decoder_options_eq (js_dict dictionary id flags) (info_of_flags flags (len input))
      (if has_limit then Some limit else None)) as [H1 H2]; [intros _; apply js_info|]. rewrite <-Ho in H1, H2.
    assert (Hlim : len input <= opt_limit o <= usize_max).
    { subst o. unfold opt_limit. cbn [max_output]. destruct has_limit; [by apply Hl|lia]. }
    destruct (with_options_idle xxh32 r o (proj2 Hlim)) as (Hi & Hm & Hh & _).
    pose proof (closed_to_end xxh32 _ _ _ r [] (S (length frame)) (usable_idle xxh32 _ _ _ Hi)) as H.
    rewrite Hm, Hh, H1, H2, with_options_reader in H.
    destruct (FrameDecoderImpl.read_to_end _ _ _ _ _) as [[[d b] n]|[[d b] x]| |]; cbn [map_err]; mstep;
      (destruct H as (out & -> & H); [by destruct Hi|cbn; lia|]) || (exfalso; apply H; [by destruct Hi|cbn; lia]).
    + destruct H as (_ & _ & Hout). by rewrite <-(proj1 (Hout input) Hfr).
    + destruct H as (_ & Hout). specialize (Hout input Hfr). lia.
Qed.
End frames.

Lemma js_frame_round_trip_witness :
  exists frame, compress_frame (T:=x86_64) toy_hash text (take 20 text) 7 31 = Ok frame /\
    decompress_frame (T:=x86_64) toy_hash frame (take 20 text) 7 (flag 31 FLAG_HAS_DICTIONARY) 100 true = Ok text.
Proof.
  apply (js_frame_round_trip (T:=x86_64) toy_hash text (take 20 text) 7 31 100 true);
    [concrete..|]. intros _. split; concrete.
Defined.

(** ** Objects *)

(** The objects, with the dictionary of [withDict] or without one. *)
Definition js_compressor `{T : Target} (dict : option bytes) : res JsError CompressorInner :=
  match dict with Some d => JsCompressor.with_dict d | None => Ok JsCompressor.new end.
Definition js_decompressor (dict : option bytes) : Decompressor :=
  match dict with Some d => JsDecompressor.with_dict d | None => JsDecompressor.new end.

(** One compressor over a list of inputs. *)
Fixpoint js_compress_all `{T : Target} (c : CompressorInner) (inputs : list bytes)
  : res JsError (CompressorInner * list bytes) :=
  match inputs with
  | [] => Ok (c, [])
  | input :: inputs =>
      '(c, block) ← JsCompressor.compress c input;
      '(c, blocks) ← js_compress_all c inputs;
      Ok (c, block :: blocks)
  end.

Section objects.
Context `{T : Target}.
Implicit Types (dict : option bytes) (input block : bytes).

Definition inner_inv dict (c : CompressorInner) : Prop :=
  match c, dict with
  | Plain c, None => compressor_inv (cn_inner c)
  | Dict c, Some d => dict_compressor_inv (dict_used true d) c
  | _, _ => False
  end.

Lemma js_compressor_new dict : returns (js_compressor dict) (inner_inv dict).
Proof.
  destruct dict as [d|]; cbn [js_compressor].
  - destruct (dict_compressor_new_ok DEFAULT_DICT_ENTRIES d eq_refl) as (c & Hc & Hi).
    unfold JsCompressor.with_dict. rewrite Hc. cbn [unwrap]. mstep. by apply returns_ok.
  - apply returns_ok. by apply compressor_new_inv.
Qed.

(** The block of a call is one of its input after the dictionary. *)
Lemma js_compress_block dict c input : inner_inv dict c -> alloc_ok input ->
  returns (JsCompressor.compress c input) (fun '(c', block) => inner_inv dict c' /\
    block_decode (default [] dict) block = Some input /\ buffer_ok block).
Proof.
  intros Hi Ha. destruct c as [c|c], dict as [d|]; try done; cbn [JsCompressor.compress].
  - destruct (compressor_compress_ok _ input Hi Ha) as ([c' block] & Hc & Hc' & Hb).
    unfold CompressorNImpl.compress. rewrite Hc. mstep. cbn [unwrap]. mstep. apply returns_ok.
    split_and!; [done| |by eapply block_of_buffer]. by apply block_of_decode.
  - destruct (dict_compressor_compress_ok _ c input Hi Ha) as ([c' block] & -> & Hc' & Hb).
    cbn [unwrap]. mstep. apply returns_ok. split_and!; [done| |by eapply block_of_buffer].
    destruct (dict_used_suffix true d) as [P HP]. cbn [default]. rewrite HP.
    by apply block_decode_app_prefix, block_of_decode.
Qed.

(** The decompressor accepts a block at its exact size only. *)
Lemma js_decompress_exact dict block n out : buffer_ok block -> n + 1024 <= isize_max ->
  JsDecompressor.decompress (js_decompressor dict) block n = Ok out <->
  block_decode (default [] dict) block = Some out /\ n = len out.
Proof.
  intros Hb Hn. pose proof (fun d => decompress_vec_iff true (default [] dict) block n d Hb Hn) as H.
  assert (Hd : DecompressorImpl.decompress (js_decompressor dict) block n =
    '(v, _) ← map_err snd (decompress_append_internal true block [] n (default [] dict)); Ok v)
    by by destruct dict.
  unfold JsDecompressor.decompress. rewrite Hd. cbn [dict_of] in H. unfold validate_exact_size.
  destruct (_ ≫= _) as [d|e| |]; cbn [map_err]; mstep; cbn in H;
    [|split; [done|]; intros [Ho ->]; by specialize (proj2 (H out) (conj Ho (N.le_refl _)))..].
  destruct (proj1 (H d) eq_refl) as [-> Hl]. destruct (N.eqb_spec (len d) n) as [He|He].
  - split; [by intros [= <-]|by intros [[= ->] _]].
  - split; [done|]. intros [[= ->] ?]. lia.
Qed.

(** C34: one compressor object over any sequence of inputs gives blocks that a
    decompressor object with the same dictionary, or both without one, returns
    as the inputs in order, at their exact sizes and at no other size. *)
Theorem js_objects_round_trip dict (inputs : list bytes) : Forall alloc_ok inputs ->
  exists c c' blocks, js_compressor dict = Ok c /\ js_compress_all c inputs = Ok (c', blocks) /\
    Forall2 (fun input block => forall n out, n + 1024 <= isize_max ->
      JsDecompressor.decompress (js_decompressor dict) block n = Ok out <-> out = input /\ n = len input)
      inputs blocks.
Proof.
  intros Ha. destruct (js_compressor_new dict) as (c & Hc & Hi).
  enough (H : returns (js_compress_all c inputs) (fun '(_, blocks) => Forall2 (fun input block =>
    block_decode (default [] dict) block = Some input /\ buffer_ok block) inputs blocks)).
  { destruct H as ([c' blocks] & Hr & H). exists c, c', blocks. split_and!; [done..|].
    revert H. apply Forall2_impl. intros input block [Hd Hb] n out Hn.
    rewrite js_decompress_exact, Hd by done. naive_solver. }
  clear Hc. revert c Hi. induction Ha as [|input inputs Hx _ IH]; intros c Hi; cbn [js_compress_all];
    [by apply returns_ok|].
  destruct (js_compress_block _ _ _ Hi Hx) as ([c1 block] & -> & Hi1 & Hb). mstep.
  destruct (IH _ Hi1) as ([c2 blocks] & -> & H). mstep. apply returns_ok. by constructor.
Qed.
End objects.

Lemma js_objects_round_trip_witness :
  exists c c' blocks, js_compressor (T:=x86_64) (Some (take 20 text)) = Ok c /\
    js_compress_all (T:=x86_64) c [text; drop 1 text] = Ok (c', blocks) /\
    Forall2 (fun input block => forall n out, n + 1024 <= isize_max (T:=x86_64) ->
      JsDecompressor.decompress (T:=x86_64) (js_decompressor (Some (take 20 text))) block n = Ok out <->
      out = input /\ n = len input) [text; drop 1 text] blocks.
Proof.
  apply (js_objects_round_trip (T:=x86_64) (Some (take 20 text)) [text; drop 1 text]).
  repeat constructor; concrete.
Defined.
