(* ===== verification/Fuzz.v ===== *)
(** * The fuzz targets ([fuzz/fuzz_targets])

    A target is a program on its input, with the [unwrap]s and assertions of
    the source; it fails with [Panic].  A result that a target drops is
    [ignore]d.  What the targets use of other libraries is an [Environment]. *)

From Stdlib Require Import Ascii String.
From S2P Require Import Prelude BlockSpec Core Decompress Validate HashTable Sequences Compress DictTrainer FrameHeader Display FrameIO FrameEncoder FrameDecoder Bindings.

(** [let _ = m;] *)
Definition ignore {E A} (m : res E A) : res Empty_set unit :=
  match m with Ok _ | Err _ => Ok tt | Panic => Panic | NoFuel => NoFuel end.

(** [assert_eq!(a, b)] *)
Definition assert_eq {A} `{EqDecision A} (a b : A) : res Empty_set unit := assert (bool_decide (a = b)).

(** [data] [n] times. *)
Definition repeated (data : bytes) (n : N) : bytes := concat (replicate (N.to_nat n) data).

(** [b ^ n] on [u8] *)
Definition u8_xor (b : byte) (n : N) : byte := to_u8 (N.lxor (u8 b) n).

(** [(0..n).map(|i| first.wrapping_add(i as u8)).collect()] *)
Definition pattern (first : byte) (n : N) : bytes :=
  (fun i => to_u8 (u8 first + N.of_nat i)) <$> seq 0 (N.to_nat n).

(** The bytes of a string literal. *)
Definition text_bytes (s : string) : bytes := (fun c => to_u8 (N_of_ascii c)) <$> list_ascii_of_string s.

(** What the targets use of other code: the text of an [io::Error] without an
    inner error; the size of the buffer that the standard [read_to_end] offers,
    given the sizes of its reads so far; and the C library, which returns [None]
    on an error. *)
Record Environment := {
  io_text : ErrorKind -> string;
  read_room : list N -> N;
  c_compress_to_vec : bytes -> option bytes;
  c_decompress : bytes -> bytes -> option bytes
}.

(** [LZ4_MAX_INPUT_SIZE] of the C library. *)
Definition LZ4_MAX_INPUT_SIZE : N := 2113929216.

(** The documented behaviour: a read is offered a buffer that is not empty, the C
    compressor emits blocks of the format within [LZ4_compressBound], and the C decompressor decodes a
    block that follows the end rules of the format into a buffer of its size. *)
Record environment_ok (env : Environment) : Prop := {
  env_room sizes : 0 < read_room env sizes;
  env_compress data : len data <= LZ4_MAX_INPUT_SIZE -> exists block, c_compress_to_vec env data = Some block /\
    len block <= len data + len data / 255 + 16 /\ block_decode [] block = Some data;
  env_decompress ss last output : seqs_valid [] ss -> end_rules ss last ->
    length output = length (apply_seqs [] ss ++ last) ->
    c_decompress env (encode_block ss last) output = Some (apply_seqs [] ss ++ last)
}.

(** ** Blocks that are not valid *)

Module BitFlip.
Inductive Mutation :=
| FlipBit (pos_frac bit : byte)
| SetByte (pos_frac val : byte)
| Truncate (keep_frac : byte)
| InsertFF (pos_frac : byte).

Record Input := { data : bytes; repeat : N; mutations : list Mutation }.

(** [v[i] = f(v[i])] *)
Definition set_at (v : bytes) (i : N) (f : byte -> byte) : res Empty_set bytes :=
  b ← index v i; write_at v i [f b].

Definition mutate (corrupted : bytes) (m : Mutation) : res Empty_set bytes :=
  match m with
  | FlipBit pos_frac bit =>
      let pos := u8 pos_frac * len corrupted / 256 in
      last ← usub (len corrupted) 1;
      set_at corrupted (N.min pos last) (fun b => u8_xor b (N.shiftl 1 (N.land (u8 bit) 7)))
  | SetByte pos_frac val =>
      let pos := u8 pos_frac * len corrupted / 256 in
      last ← usub (len corrupted) 1;
      set_at corrupted (N.min pos last) (fun _ => val)
  | Truncate keep_frac =>
      let keep := (u8 keep_frac + 1) * len corrupted / 256 in
      let keep := N.min (N.max keep 1) (len corrupted) in
      Ok (take (N.to_nat keep) corrupted)
  | InsertFF pos_frac =>
      let pos := u8 pos_frac * len corrupted / 256 in
      let pos := N.min pos (len corrupted) in
      _ ← assert (pos <=? len corrupted);
      Ok (take (N.to_nat pos) corrupted ++ xff :: drop (N.to_nat pos) corrupted)
  end.

Fixpoint mutate_all (corrupted : bytes) (ms : list Mutation) : res Empty_set bytes :=
  match ms with
  | [] => Ok corrupted
  | m :: ms => if len corrupted =? 0 then Ok corrupted else
               corrupted ← mutate corrupted m; mutate_all corrupted ms
  end.

Definition target `{T : Target} (input : Input) : res Empty_set unit :=
  let payload := repeated (data input) (repeat input) in
  if len payload =? 0 then Ok tt else
  compressed ← unwrap (Compress.compress payload);
  if len compressed =? 0 then Ok tt else
  corrupted ← mutate_all compressed (mutations input);
  _ ← ignore (Decompress.decompress corrupted (len payload));
  _ ← ignore (Decompress.decompress corrupted (len payload * 2 + 1024));
  _ ← ignore (Decompress.decompress corrupted 0);
  ignore (decompress_into corrupted (replicate (length payload) x00)).
End BitFlip.

Module CraftTokens.
Record Token := {
  literal_len : byte; match_len : byte; offset : N; literal_fill : byte;
  extra_lit_ext : N; extra_match_ext : N; is_last : bool
}.
Record TokenSequence := { tokens : list Token; output_size : N; dict_size : N }.

(** The loop over the tokens, of which [is_last] says that the next is the last. *)
Fixpoint build_tokens (toks : list Token) : bytes :=
  match toks with
  | [] => []
  | tok :: toks =>
      let last := is_last tok || bool_decide (toks = []) in
      let lit_nibble := N.min (N.shiftr (u8 (literal_len tok)) 4) 15 in
      let match_nibble := N.min (N.land (u8 (match_len tok)) 15) 15 in
      let ext := N.land (u8 (literal_len tok)) 127 in
      let lit_ext := if lit_nibble =? 15
                     then replicate (N.to_nat (extra_lit_ext tok)) xff ++ [to_u8 ext] else [] in
      let lit_len := if lit_nibble =? 15 then lit_nibble + 255 * extra_lit_ext tok + ext else lit_nibble in
      let head := to_u8 (N.lor (N.shiftl lit_nibble 4) match_nibble)
        :: lit_ext ++ replicate (N.to_nat lit_len) (literal_fill tok) in
      if last && (match_nibble =? 0) && (lit_nibble <? 15) then head else
      let body := head ++ to_le 2 (offset tok) ++
        (if match_nibble =? 15
         then replicate (N.to_nat (extra_match_ext tok)) xff ++ [to_u8 (N.land (u8 (match_len tok)) 127)]
         else []) in
      if last then body else body ++ build_tokens toks
  end.

Definition build_block (seq : TokenSequence) : bytes :=
  build_tokens (take (Nat.min (length (tokens seq)) 32) (tokens seq)).

Definition target `{T : Target} (seq : TokenSequence) : res Empty_set unit :=
  let block := build_block seq in
  let output_size := N.min (output_size seq) (2 ^ 20) in
  let out := replicate (N.to_nat output_size) x00 in
  _ ← ignore (decompress_into block out);
  if 0 <? dict_size seq
  then ignore (DecompressorImpl.decompress_into
                 (DecompressorImpl.with_dict (pattern x00 (dict_size seq))) block out)
  else Ok tt.
End CraftTokens.

Module CorruptBlock.
Record FuzzData := { input : bytes; output_size : N; dict_size : N; dict_pattern : byte }.

Section target.
Context `{T : Target}.

Definition decode_into_size (input dict : bytes) (buf_size : N) : res Empty_set unit :=
  if (buf_size =? 0) && (len input =? 0) then Ok tt else
  let out := replicate (N.to_nat buf_size) x00 in
  match (if len dict =? 0 then decompress_into input out
         else DecompressorImpl.decompress_into (DecompressorImpl.with_dict dict) input out) with
  | Ok (out, n) => ignore (slice (E:=Empty_set) out 0 n)
  | m => ignore m
  end.

Definition target (data : FuzzData) : res Empty_set unit :=
  let dict := pattern (dict_pattern data) (dict_size data) in
  let size := output_size data in
  _ ← ignore (if len dict =? 0 then Decompress.decompress (input data) size
              else DecompressorImpl.decompress (DecompressorImpl.with_dict dict) (input data) size);
  _ ← decode_into_size (input data) dict size;
  _ ← decode_into_size (input data) dict (saturating_add size 1);
  decode_into_size (input data) dict (size - 1).
End target.
End CorruptBlock.

(** Two calls on different buffers. *)
Module NoOutputLeak.
Record FuzzData := { input : bytes; dict_size : N; dict_byte : byte }.

Section target.
Context `{T : Target}.

Definition decompress (input output dict : bytes) : res (bytes * DecompressError) (bytes * N) :=
  if len dict =? 0 then decompress_into input output
  else DecompressorImpl.decompress_into (DecompressorImpl.with_dict dict) input output.

Definition append (input output : bytes) (max_size : N) (dict : bytes) : res (bytes * DecompressError) (bytes * N) :=
  if len dict =? 0 then decompress_append input output max_size
  else DecompressorImpl.decompress_append (DecompressorImpl.with_dict dict) input output max_size.

(** [decompress(..).map(|len| output[..len].to_owned())] *)
Definition decompressed (input output dict : bytes) : res Empty_set (bytes + DecompressError) :=
  match decompress input output dict with
  | Ok (output, n) => s ← slice output 0 n; Ok (inl s)
  | Err (_, e) => Ok (inr e)
  | Panic => Panic
  | NoFuel => NoFuel
  end.

(** The vector after the call and its result. *)
Definition appended (input output : bytes) (max_size : N) (dict : bytes)
  : res Empty_set (bytes * (N + DecompressError)) :=
  match append input output max_size dict with
  | Ok (output, n) => Ok (output, inl n)
  | Err (output, e) => Ok (output, inr e)
  | Panic => Panic
  | NoFuel => NoFuel
  end.

Definition target (data : FuzzData) : res Empty_set unit :=
  let input := input data in
  let dict := pattern (dict_byte data) (dict_size data) in
  let buf_size := N.max 512 (len input * 4) in
  let filled b := replicate (N.to_nat buf_size) b in
  result1 ← decompressed input (filled x00) dict;
  let prefix := replicate 7 x55 in
  '(appended, result_append) ← appended input prefix buf_size dict;
  match result1 with
  | inl result1 =>
      _ ← assert_eq result_append (inl (len result1));
      tail ← slice_from appended (len prefix);
      _ ← assert_eq tail result1;
      result2 ← decompressed input (filled xff) dict;
      _ ← assert_eq (inl result1) result2;
      result3 ← decompressed input (filled xaa) dict;
      assert_eq (inl result1) result3
  | inr err =>
      _ ← assert_eq result_append (inr err);
      assert_eq appended prefix
  end.
End target.
End NoOutputLeak.

(** ** Round trips of blocks *)

(** [decompress_into(..).unwrap()] and the comparison of [&buf[..n]]. *)
Definition decompresses_to `{T : Target} (m : res (bytes * DecompressError) (bytes * N)) (payload : bytes)
  : res Empty_set bytes :=
  '(decomp_buf, decomp_len) ← unwrap m;
  out ← slice decomp_buf 0 decomp_len;
  _ ← assert_eq payload out;
  Ok decomp_buf.

Module RoundTrip.
Record Input := { data : bytes; repeat : N }.

Definition target `{T : Target} (input : Input) : res Empty_set unit :=
  let payload := repeated (data input) (repeat input) in
  compressed ← unwrap (Compress.compress payload);
  decompressed ← unwrap (Decompress.decompress compressed (len payload));
  _ ← assert_eq payload decompressed;
  max_out ← get_maximum_output_size (len payload);
  '(comp_buf, comp_len) ← unwrap (compress_into payload (replicate (N.to_nat max_out) x00));
  block ← slice comp_buf 0 comp_len;
  _ ← decompresses_to (decompress_into block (replicate (length payload) x00)) payload;
  Ok tt.
End RoundTrip.

Module RoundTripDict.
Record Input := { data : bytes; dict : bytes; repeat : N }.

Definition target `{T : Target} (input : Input) : res Empty_set unit :=
  let payload := repeated (data input) (repeat input) in
  if len payload =? 0 then Ok tt else
  let dict_len := N.min (len (dict input)) (128 * 1024) in
  dict ← slice (dict input) 0 dict_len;
  compressor ← unwrap (DictCompressorNImpl.new (n:=DEFAULT_DICT_ENTRIES) dict);
  let decompressor := DecompressorImpl.with_dict dict in
  '(compressor, compressed) ← unwrap (DictCompressorNImpl.compress compressor payload);
  decompressed ← unwrap (DecompressorImpl.decompress decompressor compressed (len payload));
  _ ← assert_eq payload decompressed;
  max_out ← get_maximum_output_size (len payload);
  '(compressor, comp_buf, comp_len) ←
    unwrap (DictCompressorNImpl.compress_into compressor payload (replicate (N.to_nat max_out) x00));
  block ← slice comp_buf 0 comp_len;
  _ ← decompresses_to (DecompressorImpl.decompress_into decompressor block (replicate (length payload) x00)) payload;
  ignore (Decompress.decompress compressed (len payload)).
End RoundTripDict.

Module RoundTripTinyTables.
Record Input := { data : bytes; dict : bytes; repeat : N }.

Section target.
Context `{T : Target}.

(** A block of the target without a dictionary: the two buffers after it. *)
Definition plain (n : N) (payload comp_buf decomp_buf : bytes) : res Empty_set (bytes * bytes) :=
  '(_, comp_buf, k) ← unwrap (CompressorRefNImpl.compress_into (CompressorRefNImpl.new (n:=n)) payload comp_buf);
  block ← slice comp_buf 0 k;
  decomp_buf ← decompresses_to (decompress_into block decomp_buf) payload;
  Ok (comp_buf, decomp_buf).

Definition with_dict (n : N) (payload dict comp_buf : bytes) : res Empty_set bytes :=
  comp ← unwrap (DictCompressorRefNImpl.new (n:=n) dict);
  '(_, comp_buf, k) ← unwrap (DictCompressorRefNImpl.compress_into comp payload comp_buf);
  block ← slice comp_buf 0 k;
  out ← unwrap (DecompressorImpl.decompress (DecompressorImpl.with_dict dict) block (len payload));
  _ ← assert_eq payload out;
  Ok comp_buf.

Definition target (input : Input) : res Empty_set unit :=
  let payload := repeated (data input) (repeat input) in
  if len payload =? 0 then Ok tt else
  max_out ← get_maximum_output_size (len payload);
  let comp_buf := replicate (N.to_nat max_out) x00 in
  let decomp_buf := replicate (length payload) x00 in
  '(comp_buf, decomp_buf) ← plain 256 payload comp_buf decomp_buf;
  '(comp_buf, _) ← plain 512 payload comp_buf decomp_buf;
  let dict_len := N.min (len (dict input)) (128 * 1024) in
  dict ← slice (dict input) 0 dict_len;
  comp_buf ← with_dict 256 payload dict comp_buf;
  _ ← with_dict 1024 payload dict comp_buf;
  Ok tt.
End target.
End RoundTripTinyTables.

(** ** The validator *)

Module ValidateBlock.
Record FuzzData := {
  encoded : bytes; payload : bytes; expected : N; mutation_index : N; mutation_mask : byte; truncation : N
}.

Section target.
Context `{T : Target}.

Definition check_implication (encoded : bytes) (expected : N) : res Empty_set unit :=
  match validate_block encoded expected with
  | Ok validation =>
      n ← match decompress_into encoded (replicate (N.to_nat expected) x00) with
          | Ok (_, n) => Ok (inl n) | Err (_, e) => Ok (inr e) | Panic => Panic | NoFuel => NoFuel
          end;
      _ ← assert_eq n (inl expected);
      assert_eq (decoded_len validation) expected
  | m => ignore m
  end.

Definition target (data : FuzzData) : res Empty_set unit :=
  _ ← check_implication (encoded data) (expected data);
  compressed ← unwrap (Compress.compress (payload data));
  validation ← unwrap (validate_block compressed (len (payload data)));
  _ ← assert_eq (decoded_len validation) (len (payload data));
  _ ← assert (negb (len compressed =? 0));
  mutated ← BitFlip.set_at compressed (mutation_index data mod len compressed)
              (fun b => u8_xor b (u8 (mutation_mask data)));
  _ ← check_implication mutated (len (payload data));
  let last := truncation data mod len compressed in
  truncated ← slice compressed 0 last;
  check_implication truncated (len (payload data)).
End target.
End ValidateBlock.

Module ValidateBlockDict.
Record FuzzData := {
  encoded : bytes; payload : bytes; dict : bytes; expected : N; mutation_index : N; mutation_mask : byte;
  truncation : N
}.

Section target.
Context `{T : Target}.

Definition check_implication (encoded : bytes) (expected : N) (dict : bytes) : res Empty_set unit :=
  match validate_block_with_dict encoded expected dict with
  | Ok validation =>
      n ← match decompress_into_with_dict encoded (replicate (N.to_nat expected) x00) dict with
          | Ok (_, n) => Ok (inl n) | Err (_, e) => Ok (inr e) | Panic => Panic | NoFuel => NoFuel
          end;
      _ ← assert_eq n (inl expected);
      assert_eq (decoded_len validation) expected
  | m => ignore m
  end.

Definition target (data : FuzzData) : res Empty_set unit :=
  let dict_len := N.min (len (dict data)) (128 * 1024) in
  dict ← slice (dict data) 0 dict_len;
  _ ← check_implication (encoded data) (expected data) dict;
  compressor ← unwrap (DictCompressorNImpl.new (n:=DEFAULT_DICT_ENTRIES) dict);
  '(_, compressed) ← unwrap (DictCompressorNImpl.compress compressor (payload data));
  validation ← unwrap (validate_block_with_dict compressed (len (payload data)) dict);
  _ ← assert_eq (decoded_len validation) (len (payload data));
  _ ← assert (negb (len compressed =? 0));
  mutated ← BitFlip.set_at compressed (mutation_index data mod len compressed)
              (fun b => u8_xor b (u8 (mutation_mask data)));
  _ ← check_implication mutated (len (payload data)) dict;
  let last := truncation data mod len compressed in
  truncated ← slice compressed 0 last;
  check_implication truncated (len (payload data)) dict.
End target.
End ValidateBlockDict.

(** ** Frames *)

(** The data of the frame targets: [sample] until there are [size] bytes. *)
Fixpoint fill_data (fuel : nat) (sample data : bytes) (size : N) : res Empty_set bytes :=
  if len data <? size
  then match fuel with O => NoFuel | S fuel => fill_data fuel sample (data ++ sample) size end
  else Ok (take (N.to_nat size) data).

(** [data.chunks(size)] *)
Fixpoint chunks (fuel : nat) (data : bytes) (size : N) : list bytes :=
  match fuel, data with
  | O, _ | _, [] => []
  | S fuel, _ => take (N.to_nat size) data :: chunks fuel (drop (N.to_nat size) data) size
  end.

Definition frame_data (sample : bytes) (data_size : N) : res Empty_set bytes :=
  fill_data (N.to_nat data_size) sample [] data_size.

(** The reader [&*compressed]. *)
Definition slice_reader (l : bytes) : SliceReader := {| sr_bytes := l; sr_chunk := len l |}.

Definition MAX_DATA_SIZE : N := 64 * 1024.

Module RoundTripFrame.
Record Input := { sample : bytes; data_size_seed : N; chunk_size_seed : N }.

Section target.
Context `{T : Target} (xxh32 : bytes -> N).

Fixpoint write_chunks (enc : FrameEncoder VecWriter) (cs : list bytes) : res Empty_set (FrameEncoder VecWriter) :=
  match cs with
  | [] => Ok enc
  | chunk :: cs =>
      '(enc, _) ← unwrap (FrameEncoderImpl.write xxh32 enc chunk);
      enc ← unwrap (FrameEncoderImpl.flush xxh32 enc);
      write_chunks enc cs
  end.

(** The reads into [decompressed], which is cut at the end. *)
Fixpoint read_chunks (fuel : nat) (dec : FrameDecoder SliceReader) (decompressed : bytes) (pos chunk_size : N)
  : res Empty_set bytes :=
  match fuel with
  | O => NoFuel
  | S fuel' =>
      buf ← slice decompressed pos (pos + chunk_size);
      '(dec, b) ← unwrap (FrameDecoderImpl.read xxh32 fuel dec (len buf));
      decompressed ← write_at decompressed pos b;
      if len b =? 0 then Ok (take (N.to_nat pos) decompressed)
      else read_chunks fuel' dec decompressed (pos + len b) chunk_size
  end.

Definition round_trip (data : bytes) (chunk_size : N) (fi : FrameInfo) : res Empty_set unit :=
  let enc := FrameEncoderImpl.with_frame_info fi ([] : VecWriter) in
  enc ← write_chunks enc (chunks (length data) data chunk_size);
  compressed ← unwrap (FrameEncoderImpl.finish xxh32 (W:=VecWriter) enc);
  let decompressed := replicate (N.to_nat (len data + chunk_size)) x00 in
  let dec := FrameDecoderImpl.new (slice_reader compressed) in
  decompressed ← read_chunks (S (length data + length compressed)) dec decompressed 0 chunk_size;
  assert_eq data decompressed.

(** The three loops over the frame descriptors. *)
Definition infos : list FrameInfo :=
  bm ← [Independent; Linked];
  bs ← [Max64KB; Max256KB; Max1MB; Max4MB];
  check_sum ← [true; false];
  [{| content_size := None; dict_id := None; block_size := bs; block_mode := bm;
      block_checksums := check_sum; content_checksum := check_sum |}].

Fixpoint all_infos (data : bytes) (chunk_size : N) (fis : list FrameInfo) : res Empty_set unit :=
  match fis with [] => Ok tt | fi :: fis => _ ← round_trip data chunk_size fi; all_infos data chunk_size fis end.

Definition target (input : Input) : res Empty_set unit :=
  if len (sample input) =? 0 then Ok tt else
  let chunk_size := N.max (chunk_size_seed input mod MAX_DATA_SIZE) 64 in
  let data_size := data_size_seed input mod MAX_DATA_SIZE in
  data ← frame_data (sample input) data_size;
  all_infos data chunk_size infos.
End target.
End RoundTripFrame.

Module RoundTripFrameDict.
Record Input := { sample : bytes; dict : bytes; data_size_seed : N; chunk_size_seed : N }.

Section target.
Context `{T : Target} (xxh32 : bytes -> N).

Fixpoint write_chunks (enc : FrameEncoder VecWriter) (cs : list bytes) : res Empty_set (FrameEncoder VecWriter) :=
  match cs with
  | [] => Ok enc
  | chunk :: cs =>
      enc ← unwrap (write_all xxh32 (S (length chunk)) enc chunk);
      write_chunks enc cs
  end.

(** A new decoder's [read_to_end]. *)
Definition decoded (dec : FrameDecoder SliceReader)
  : res (FrameDecoder SliceReader * bytes * IoError) (FrameDecoder SliceReader * bytes * N) :=
  FrameDecoderImpl.read_to_end xxh32 (S (length (sr_bytes (fd_r dec)))) dec [] 0.

Definition target (input : Input) : res Empty_set unit :=
  if len (sample input) =? 0 then Ok tt else
  let chunk_size := N.max (chunk_size_seed input mod MAX_DATA_SIZE) 64 in
  let data_size := data_size_seed input mod MAX_DATA_SIZE in
  data ← frame_data (sample input) data_size;
  let dict_len := N.min (len (dict input)) (64 * 1024) in
  dict ← slice (dict input) 0 dict_len;
  if len dict =? 0 then Ok tt else
  let dict_id := 305419896 in
  enc ← unwrap (FrameEncoderImpl.with_dictionary ([] : VecWriter) dict dict_id None);
  enc ← write_chunks enc (chunks (length data) data chunk_size);
  compressed ← unwrap (FrameEncoderImpl.finish xxh32 (W:=VecWriter) enc);
  '(_, decompressed, _) ←
    unwrap (decoded (FrameDecoderImpl.with_dictionary (slice_reader compressed) dict dict_id));
  _ ← assert_eq data decompressed;
  let wrong_dict := (fun b => to_u8 (u8 b + 1)) <$> dict in
  _ ← ignore (decoded (FrameDecoderImpl.with_dictionary (slice_reader compressed) wrong_dict dict_id));
  ignore (decoded (FrameDecoderImpl.new (slice_reader compressed))).
End target.
End RoundTripFrameDict.

Module CorruptFrame.
Section target.
Context `{T : Target} (xxh32 : bytes -> N).

Definition lz4rip_frame_decompress (input : bytes) : res Error bytes :=
  '(_, out, _) ← map_err (fun '(_, _, x) => error_of_io x)
    (FrameDecoderImpl.read_to_end xxh32 (S (length input)) (FrameDecoderImpl.new (slice_reader input)) [] 0);
  Ok out.

Fixpoint ignore_all (inputs : list bytes) : res Empty_set unit :=
  match inputs with
  | [] => Ok tt
  | input :: inputs => _ ← ignore (lz4rip_frame_decompress input); ignore_all inputs
  end.

Definition magic : bytes := [x04; x22; x4d; x18].
Definition headers : list bytes := [magic ++ [x60; x40; x82]; magic ++ [x40; x40; xc0]].

(** The inputs of the target, in order. *)
Definition inputs (data : bytes) : list bytes :=
  let size := to_le 4 (len data) in
  [data; data; magic ++ data] ++
  (prefix ← headers; [prefix ++ data; prefix ++ size ++ data ++ size ++ data]).

Definition target (data : bytes) : res Empty_set unit := ignore_all (inputs data).
End target.
End CorruptFrame.

(** ** A decoder that is used again *)

Module DecoderReuse.
Definition LIMIT : N := 2 ^ 20.
Definition BLOCK_CAPACITY : N := 2 ^ 16.
Definition DICT : bytes := text_bytes "level=INFO service=ingest event= message=lz4rip decoder reuse".
Definition DICT_ID : N := 219967489.

(** The bytes that were read and the text of the error. *)
Definition Outcome : Type := bytes * option string.

Section target.
Context `{T : Target} (xxh32 : bytes -> N) (env : Environment).

(** The empty frame of a combination, without its end mark and checksum. *)
Definition header (mode : BlockMode) (checksums : bool) (dict : option bytes) : res Empty_set bytes :=
  let info := {| content_size := None; dict_id := None; block_size := Max64KB; block_mode := mode;
                 block_checksums := checksums; content_checksum := checksums |} in
  encoder ← match dict with
            | Some dict => unwrap (FrameEncoderImpl.with_dictionary ([] : VecWriter) dict DICT_ID (Some info))
            | None => Ok (FrameEncoderImpl.with_frame_info info ([] : VecWriter))
            end;
  frame ← unwrap (FrameEncoderImpl.finish xxh32 (W:=VecWriter) encoder);
  let trailer := if checksums then 8 else 4 in
  last ← usub (len (frame : bytes)) trailer;
  slice (frame : bytes) 0 last.

(** The three loops over the combinations. *)
Definition combinations : list (BlockMode * bool * option bytes) :=
  mode ← [Independent; Linked]; checksums ← [false; true]; dict ← [None; Some DICT]; [(mode, checksums, dict)].

Fixpoint push_headers (headers : list bytes) (cs : list (BlockMode * bool * option bytes)) : res Empty_set (list bytes) :=
  match cs with
  | [] => Ok headers
  | (mode, checksums, dict) :: cs => h ← header mode checksums dict; push_headers (headers ++ [h]) cs
  end.

Definition HEADERS : res Empty_set (list bytes) := push_headers [[]] combinations.

Definition new_frame_decoder (input : bytes) (dict : bool) : FrameDecoder SliceReader :=
  if dict then FrameDecoderImpl.with_dictionary (slice_reader input) DICT DICT_ID
  else FrameDecoderImpl.new (slice_reader input).

(** A read of [Take], which does not ask its reader at the limit. *)
Definition take_read (d : FrameDecoder SliceReader) (limit room : N)
  : res (FrameDecoder SliceReader * IoError) (FrameDecoder SliceReader * bytes) :=
  if limit =? 0 then Ok (d, []) else
  '(d, b) ← FrameDecoderImpl.read xxh32 (S (S (length (sr_bytes (fd_r d))))) d (N.min room limit);
  _ ← assert (len b <=? limit);
  Ok (d, b).

(** The standard [read_to_end] on [decoder.by_ref().take(limit)]. *)
Fixpoint take_to_end (fuel : nat) (d : FrameDecoder SliceReader) (limit : N) (sizes : list N) (output : bytes)
  : res Empty_set (FrameDecoder SliceReader * Outcome) :=
  match fuel with
  | O => NoFuel
  | S fuel =>
      match take_read d limit (read_room env sizes) with
      | Ok (d, []) => Ok (d, (output, None))
      | Ok (d, b) => take_to_end fuel d (limit - len b) (len b :: sizes) (output ++ b)
      | Err (d, x) =>
          if FrameDecoderImpl.is_interrupted x then take_to_end fuel d limit sizes output
          else Ok (d, (output, Some (ErrorDisplay.io_fmt (io_text env) x)))
      | Panic => Panic
      | NoFuel => NoFuel
      end
  end.

Definition read_frames (decoder : FrameDecoder SliceReader) : res Empty_set (FrameDecoder SliceReader * Outcome) :=
  take_to_end (S (N.to_nat LIMIT)) decoder LIMIT [] [].

(** The decompressor's buffer and the result of the call. *)
Definition decode_block (decompressor : Decompressor) (input output : bytes)
  : res Empty_set (bytes * (bytes + DecompressError)) :=
  match DecompressorImpl.decompress_into decompressor input output with
  | Ok (output, n) => s ← slice output 0 n; Ok (output, inl s)
  | Err (output, e) => Ok (output, inr e)
  | Panic => Panic
  | NoFuel => NoFuel
  end.

(** The loop over the frames, with one decoder. *)
Fixpoint reuse_frames (dict : bool) (reused : FrameDecoder SliceReader) (inputs : list bytes) : res Empty_set unit :=
  match inputs with
  | [] => Ok tt
  | input :: inputs =>
      '(_, expected) ← read_frames (new_frame_decoder input dict);
      let reused := FrameDecoderImpl.get_mut reused (slice_reader input) in
      '(reused, actual) ← read_frames reused;
      _ ← assert_eq actual expected;
      let reused := if len (fst actual) =? LIMIT then new_frame_decoder [] dict else reused in
      reuse_frames dict reused inputs
  end.

(** The loop over the blocks, with one decompressor and its output buffer. *)
Fixpoint reuse_blocks (new_decompressor : unit -> Decompressor) (reused : Decompressor) (output : bytes)
    (inputs : list bytes) : res Empty_set unit :=
  match inputs with
  | [] => Ok tt
  | input :: inputs =>
      '(_, expected) ← decode_block (new_decompressor tt) input (replicate (N.to_nat BLOCK_CAPACITY) x00);
      '(output, actual) ← decode_block reused input output;
      _ ← assert_eq actual expected;
      reuse_blocks new_decompressor reused output inputs
  end.

Definition split_at (l : bytes) (n : N) : res Empty_set (bytes * bytes) :=
  _ ← assert (n <=? len l); Ok (take (N.to_nat n) l, drop (N.to_nat n) l).

Definition target (data : bytes) : res Empty_set unit :=
  match data with
  | selector :: split :: rest =>
      _ ← assert (u8 split * len rest <=? usize_max);
      '(first, second) ← split_at rest (u8 split * len rest / 255);
      headers ← HEADERS;
      h0 ← index headers (N.land (u8 selector) 15 mod len headers);
      h1 ← index headers (N.shiftr (u8 selector) 4 mod len headers);
      let frame0 := h0 ++ first in
      let frame1 := h1 ++ second in
      _ ← reuse_frames false (new_frame_decoder [] false) [frame0; frame1; frame0; frame1];
      _ ← reuse_frames true (new_frame_decoder [] true) [frame0; frame1; frame0; frame1];
      let output := replicate (N.to_nat BLOCK_CAPACITY) xa5 in
      let all_blocks new_decompressor :=
        reuse_blocks new_decompressor (new_decompressor tt) output [first; second; first; second] in
      _ ← all_blocks (fun _ => DecompressorImpl.new);
      all_blocks (fun _ => DecompressorImpl.with_dict DICT)
  | _ => Ok tt
  end.
End target.
End DecoderReuse.

(** ** The C library *)

Module RoundTripCpp.
Section target.
Context `{T : Target} (env : Environment).

(** Blocks of the C library. *)
Definition compress_target (data : bytes) : res Empty_set unit :=
  compressed ← match c_compress_to_vec env data with Some c => Ok c | None => Panic end;
  if len compressed =? 0 then Ok tt else
  decompressed ← unwrap (Decompress.decompress compressed (len data));
  assert_eq data decompressed.

(** Blocks for the C library. *)
Definition decompress_target (data : bytes) : res Empty_set unit :=
  compressed ← unwrap (Compress.compress data);
  decompressed ← match c_decompress env compressed (replicate (length data) x00) with
                 | Some d => Ok d | None => Panic end;
  assert_eq data decompressed.
End target.
End RoundTripCpp.

(** ** All targets *)

Inductive FuzzInput :=
| FuzzCompressBitflip (i : BitFlip.Input)
| FuzzCraftTokens (i : CraftTokens.TokenSequence)
| FuzzDecoderReuse (i : bytes)
| FuzzDecompCorruptBlock (i : CorruptBlock.FuzzData)
| FuzzDecompCorruptFrame (i : bytes)
| FuzzDecompNoOutputLeak (i : NoOutputLeak.FuzzData)
| FuzzRoundTrip (i : RoundTrip.Input)
| FuzzRoundTripCppCompress (i : bytes)
| FuzzRoundTripCppDecompress (i : bytes)
| FuzzRoundTripDict (i : RoundTripDict.Input)
| FuzzRoundTripFrame (i : RoundTripFrame.Input)
| FuzzRoundTripFrameDict (i : RoundTripFrameDict.Input)
| FuzzRoundTripTinyTables (i : RoundTripTinyTables.Input)
| FuzzValidateBlock (i : ValidateBlock.FuzzData)
| FuzzValidateBlockDict (i : ValidateBlockDict.FuzzData).

Definition fuzz_target `{T : Target} (xxh32 : bytes -> N) (env : Environment) (i : FuzzInput) : res Empty_set unit :=
  match i with
  | FuzzCompressBitflip i => BitFlip.target i
  | FuzzCraftTokens i => CraftTokens.target i
  | FuzzDecoderReuse i => DecoderReuse.target xxh32 env i
  | FuzzDecompCorruptBlock i => CorruptBlock.target i
  | FuzzDecompCorruptFrame i => CorruptFrame.target xxh32 i
  | FuzzDecompNoOutputLeak i => NoOutputLeak.target i
  | FuzzRoundTrip i => RoundTrip.target i
  | FuzzRoundTripCppCompress i => RoundTripCpp.compress_target env i
  | FuzzRoundTripCppDecompress i => RoundTripCpp.decompress_target env i
  | FuzzRoundTripDict i => RoundTripDict.target i
  | FuzzRoundTripFrame i => RoundTripFrame.target xxh32 i
  | FuzzRoundTripFrameDict i => RoundTripFrameDict.target xxh32 i
  | FuzzRoundTripTinyTables i => RoundTripTinyTables.target i
  | FuzzValidateBlock i => ValidateBlock.target i
  | FuzzValidateBlockDict i => ValidateBlockDict.target i
  end.
