(* ===== verification/FuzzReuse.v ===== *)
(** * The fuzz target of decoders that are used again

    [fuzz_decoder_reuse.rs] reads four inputs with one decoder and each of them
    with a new one.  Both have the default output limit, of which the decoder
    that is used again has less left; the limit is never met. *)

From S2P Require Import Prelude BlockSpec Core Primitives Decompress DecompressProofs DecompressSpec FrameHeader Display FrameIO FrameSpec FrameDecoder FrameDecoderSpec FrameDecoderProofs FrameDecoderStream FrameDamage Reuse FrameDecoderReuse Fuzz.

(** Far above the inputs of a fuzzer. *)
Definition fuzz_limit : N := 2 ^ 24.

Ltac flia := unfold fuzz_limit, buffer_ok in *; pose proof isize_large; pose proof usize_isize;
  change (2 ^ 24) with 16777216 in *; change (2 ^ 31) with 2147483648 in *;
  change (2 ^ 18) with 262144 in *; change (2 ^ 64) with 18446744073709551616 in *; len_lia.

Lemma assert_eq_ok {A} `{EqDecision A} (a b : A) : a = b -> assert_eq a b = Ok tt.
Proof. intros H. unfold assert_eq. by rewrite bool_decide_true. Qed.

Definition no_options : FrameDecoderOptions := {| dictionary := None; max_output := None |}.

Lemma usize_large `{T : Target} : 2 ^ 32 - 1 <= usize_max.
Proof. pose proof isize_large. pose proof usize_isize. lia. Qed.

Section reuse.
Context `{T : Target} (xxh32 : bytes -> N) (env : Environment) (Henv : environment_ok env).
Implicit Types (d e : FrameDecoder SliceReader) (input : bytes) (id : option N).
Import FrameDecoderImpl DecoderReuse.

(** ** One read *)

Definition read_post dict id d (n : N) (m : res (FrameDecoder SliceReader * IoError) (FrameDecoder SliceReader * bytes)) : Prop :=
  match m with
  | Ok (e, b) => len b <= n /\ usable dict id e /\ handed e = handed d + len b /\
      fd_max_output e = fd_max_output d /\ (b = [] -> 0 < n -> closed e)
  | Err (e, x) => is_interrupted x = false /\ usable dict id e /\ closed e /\ handed e = handed d /\
      fd_max_output e = fd_max_output d /\ (is_limit x = true -> fd_max_output d < handed d + 4194304)
  | Panic | NoFuel => False
  end.

Lemma read_reused dict id d n fuel : usable dict id d -> (length (left_over d) < fuel)%nat ->
  read_post dict id d n (read xxh32 fuel d n).
Proof.
  intros (at_ & Ho) Hf. rewrite (read_fill xxh32 _ _ _ _ _ _ Ho Hf).
  pose proof (fill_buf_ok xxh32 _ _ _ _ _ Ho Hf) as H.
  destruct (fill_buf xxh32 fuel d) as [[d1 b]|[d1 x]| |] eqn:Hfill; [| |done..]; cbn [fill_post] in H; mstep.
  - destruct H as (-> & Hm1 & Hh1 & at1 & Ho1 & _ & Hnil & _).
    destruct (consume_ok xxh32 _ _ _ _ (N.min (len (pending d1)) n) Ho1 ltac:(lia)) as (d2 & -> & Ho2 & Hp2 & Hh2 & Hm2 & _).
    mstep. cbn [read_post]. split; [len_lia|]. split; [by exists at1|]. split; [len_lia|]. split; [congruence|].
    intros Hb Hn. destruct (pending d1) as [|y p] eqn:Hp; [|by destruct (N.to_nat n) eqn:?; [lia|]].
    destruct (Hnil eq_refl) as [-> _]. pose proof (length_pending_out xxh32 _ _ _ _ Ho2) as Hl. rewrite Hp2, skipn_nil in Hl.
    destruct Ho2 as [Hse _ _ Hi]. cbn in Hl. rewrite set_dst_pos_same in Hi by lia. by destruct Hi.
  - destruct H as (Hx & Hi & Hm & Hh & _). split; [done|]. split; [by apply usable_idle|]. split; [by destruct Hi|].
    split; [done|]. split; [done|]. intros Hlim. unfold fill_buf in Hfill.
    destruct (N.eqb_spec (fd_dst_start d) (fd_dst_end d)) as [He|He].
    2:{ exfalso. unfold slice in Hfill. cbn [mbind res_bind] in Hfill. case_match; done. }
    pose proof Ho as [_ _ _ Hat]. rewrite set_dst_pos_same in Hat by done. unfold handed. rewrite He, N.sub_diag, N.sub_0_r.
    destruct (read_more xxh32 fuel d) as [[e k]|[e y]| |] eqn:Hr; cbn [mbind res_bind] in Hfill; [|injection Hfill as -> ->|done..].
    + exfalso. unfold slice in Hfill. case_match; done.
    + by apply (read_more_limit xxh32 dict id at_ fuel d d1 x).
Qed.

(** ** Two decoders *)

(** The limit is the largest, and far away. *)
Definition roomy d : Prop := fd_max_output d = usize_max /\ handed d + 4194304 <= usize_max.

Definition twins dict id d1 d2 : Prop :=
  usable dict id d1 /\ usable dict id d2 /\ alike AnyRoom d1 d2.

(** They return the same. *)
Lemma read_twins dict id d1 d2 n fuel : twins dict id d1 d2 -> roomy d1 -> roomy d2 ->
  (length (left_over d1) < fuel)%nat ->
  (exists e1 e2 b, read xxh32 fuel d1 n = Ok (e1, b) /\ read xxh32 fuel d2 n = Ok (e2, b) /\ alike AnyRoom e1 e2) \/
  (exists e1 e2 x, read xxh32 fuel d1 n = Err (e1, x) /\ read xxh32 fuel d2 n = Err (e2, x)).
Proof.
  intros (H1 & H2 & Ha) [Hm1 Hr1] [Hm2 Hr2] Hf.
  assert (Hl : left_over d2 = left_over d1) by (unfold left_over; by destruct Ha as [[-> _ _ _ _ _] _]).
  pose proof (read_reused _ _ _ n fuel H1 Hf) as P1. pose proof (read_reused _ _ _ n fuel H2 ltac:(by rewrite Hl)) as P2.
  pose proof (read_loop_same xxh32 AnyRoom 2 fuel d1 d2 n Ha) as H. unfold same in H.
  fold (read xxh32 fuel d1 n) (read xxh32 fuel d2 n) in H.
  assert (Hno : forall d e x, read_post dict id d n (Err (e, x)) -> roomy d -> is_limit x = false).
  { intros d e x (_ & _ & _ & _ & _ & Hx) [Hm Hr]. destruct (is_limit x); [|done]. specialize (Hx eq_refl). lia. }
  destruct (read xxh32 fuel d1 n) as [[e1 b1]|[e1 x1]| |] eqn:R1, (read xxh32 fuel d2 n) as [[e2 b2]|[e2 x2]| |] eqn:R2;
    try done; cbn in H; rewrite ?(Hno _ _ _ P1 (conj Hm1 Hr1)), ?(Hno _ _ _ P2 (conj Hm2 Hr2)) in H; try done.
  - destruct H as [He <-]. left. by exists e1, e2, b1.
  - destruct H as [[<-|[(? & ? & ->) _]] _]; [|by pose proof (Hno _ _ _ P1 (conj Hm1 Hr1))]. right. by exists e1, e2, x1.
Qed.

(** All reads of one call: as long as the limit of [Take] is not reached the
    decoder is closed afterwards. *)
Lemma frames_twins dict id fuel limit sizes (output : bytes) d1 d2 : twins dict id d1 d2 ->
  fd_max_output d1 = usize_max -> fd_max_output d2 = usize_max ->
  handed d1 + limit + 4194304 <= usize_max -> handed d2 + limit + 4194304 <= usize_max ->
  (N.to_nat limit < fuel)%nat ->
  exists e1 e2 (out : bytes) err, take_to_end xxh32 env fuel d1 limit sizes output = Ok (e1, (output ++ out, err)) /\
    take_to_end xxh32 env fuel d2 limit sizes output = Ok (e2, (output ++ out, err)) /\ len out <= limit /\
    usable dict id e1 /\ fd_max_output e1 = usize_max /\ handed e1 = handed d1 + len out /\
    (len out < limit -> closed e1).
Proof.
  revert limit sizes output d1 d2. induction fuel as [|fuel IH]; intros limit sizes output d1 d2 Ht Hm1 Hm2 Hh1 Hh2 Hf; [lia|].
  cbn [take_to_end]. unfold take_read. pose proof Ht as (Hu1 & Hu2 & Ha).
  destruct (N.eqb_spec limit 0) as [->|Hz].
  { exists d1, d2, [], None. rewrite app_nil_r. split_and!; try done; cbn; lia. }
  pose proof (env_room env Henv sizes) as Hroom. set (n := N.min (read_room env sizes) limit).
  assert (Hl : left_over d2 = left_over d1) by (unfold left_over; by destruct Ha as [[-> _ _ _ _ _] _]).
  change (sr_bytes (fd_r d1)) with (left_over d1). change (sr_bytes (fd_r d2)) with (left_over d2). rewrite Hl.
  set (f := S (S (length (left_over d1)))). assert (Hf1 : (length (left_over d1) < f)%nat) by (subst f; lia).
  pose proof (read_reused _ _ _ n f Hu1 Hf1) as P1. pose proof (read_reused _ _ _ n f Hu2 ltac:(by rewrite Hl)) as P2.
  destruct (read_twins dict id d1 d2 n f Ht) as [(e1 & e2 & b & R1 & R2 & He)|(e1 & e2 & x & R1 & R2)];
    [split; [done|lia]|split; [done|lia]|done|..]; rewrite R1 in P1 |- *; rewrite R2 in P2 |- *; cbn [mbind res_bind].
  - destruct P1 as (Hb & Hue1 & Hhe1 & Hme1 & Hc1), P2 as (_ & Hue2 & Hhe2 & Hme2 & _). unfold assert.
    rewrite (proj2 (N.leb_le _ _)) by lia. cbn [mbind res_bind]. destruct b as [|y b0].
    + exists e1, e2, [], None. rewrite app_nil_r. split_and!; try done; [cbn; lia|congruence|].
      intros _. apply Hc1; [done|lia].
    + set (b := y :: b0) in *. assert (0 < len b) by (subst b; cbn; lia).
      destruct (IH (limit - len b) (len b :: sizes) (output ++ b) e1 e2) as (g1 & g2 & out & err & -> & -> & Ho & Hg & Hmg & Hhg & Hcg);
        [done|congruence|congruence|lia|lia|lia|].
      exists g1, g2, (b ++ out), err. rewrite app_assoc. split_and!; try done; [len_lia|len_lia|]. intros Hlt. apply Hcg. len_lia.
  - destruct P1 as (Hx & Hue1 & Hc1 & Hhe1 & Hme1 & _). rewrite Hx.
    exists e1, e2, [], (Some (ErrorDisplay.io_fmt (io_text env) x)). rewrite app_nil_r.
    split_and!; try done; [cbn; lia|congruence|cbn; lia].
Qed.

(** ** The loop over the frames *)

Definition options_of (dict : bool) : FrameDecoderOptions :=
  if dict then {| dictionary := Some (DICT, DICT_ID); max_output := None |} else no_options.

Lemma new_decoder_options input dict :
  new_frame_decoder input dict = with_options (slice_reader input) (options_of dict).
Proof. by destruct dict. Qed.

(** A decoder between two inputs. *)
Definition reusable (dict : bool) d (handed_out : N) : Prop :=
  usable (opt_dict (options_of dict)) (opt_id (options_of dict)) d /\ closed d /\
  fd_max_output d = usize_max /\ handed d <= handed_out.

Lemma new_reusable input dict n : reusable dict (new_frame_decoder input dict) n.
Proof.
  rewrite new_decoder_options.
  destruct (with_options_idle xxh32 (slice_reader input) (options_of dict)) as (Hi & Hm & Hh & _); [by destruct dict|].
  split; [by apply usable_idle|]. split; [by destruct Hi|]. split; [by rewrite Hm; destruct dict|]. rewrite Hh. lia.
Qed.

Lemma reuse_frames_pass dict reused inputs n : reusable dict reused n ->
  n + LIMIT * len inputs + 4194304 <= usize_max -> reuse_frames xxh32 env dict reused inputs = Ok tt.
Proof.
  revert reused n. induction inputs as [|input inputs IH]; intros reused n (Hu & Hc & Hm & Hh) Hn; [done|].
  cbn [reuse_frames]. set (fresh := new_frame_decoder input dict). set (d := get_mut reused (slice_reader input)).
  destruct (new_reusable input dict 0) as (Hu0 & Hc0 & Hm0 & Hh0). fold fresh in Hu0, Hc0, Hm0, Hh0.
  assert (Hud : usable (opt_dict (options_of dict)) (opt_id (options_of dict)) d) by by apply usable_replace.
  assert (Ht : twins (opt_dict (options_of dict)) (opt_id (options_of dict)) d fresh).
  { split; [done|]. split; [done|]. subst d fresh. rewrite new_decoder_options.
    apply unlimited_alike; [done|by apply usable_closed|by destruct dict]. }
  unfold read_frames. rewrite length_cons in Hn. assert (LIMIT = 1048576) as HL by done.
  destruct (frames_twins _ _ (S (N.to_nat LIMIT)) LIMIT [] [] d fresh Ht)
    as (e1 & e2 & out & err & -> & -> & Ho & Hue & Hme & Hhe & Hce); [done|done| | |lia|].
  { change (handed d) with (handed reused). lia. }
  { lia. }
  change (handed d) with (handed reused) in Hhe. cbn [mbind res_bind fst app]. rewrite assert_eq_ok by done. mstep.
  destruct (N.eqb_spec (len out) LIMIT) as [Hfull|Hless].
  - apply (IH _ (n + LIMIT)); [apply new_reusable|lia].
  - apply (IH _ (n + LIMIT)); [|lia]. split; [done|]. split; [apply Hce; lia|]. split; [done|lia].
Qed.

(** ** The loop over the blocks *)

Lemma reuse_blocks_pass new_decompressor output inputs : len output = BLOCK_CAPACITY ->
  Forall (fun input => len input <= fuzz_limit) inputs ->
  reuse_blocks new_decompressor (new_decompressor tt) output inputs = Ok tt.
Proof.
  intros Hl Hi. revert output Hl. induction Hi as [|input inputs Hb Hi IH]; intros output Hl; [done|].
  cbn [reuse_blocks]. set (dec := new_decompressor tt). set (clean := replicate _ x00).
  assert (BLOCK_CAPACITY = 65536) as HB by done.
  assert (Hc : length clean = length output) by (subst clean; rewrite length_replicate; lia).
  pose proof (decompress_internal_stale true input output clean (d_dict dec) ltac:(flia) ltac:(flia) Hc) as H.
  assert (Hd : forall o, decode_block dec input o =
    match decompress_internal true input (OutSinkImpl.new o 0) (d_dict dec) with
    | Ok (s, n) => r ← slice (os_output s) 0 n; Ok (os_output s, inl r) | Err (s, e) => Ok (os_output s, inr e)
    | Panic => Panic | NoFuel => NoFuel
    end).
  { intros o. unfold decode_block, DecompressorImpl.decompress_into, DecompressorRefImpl.decompress_into,
      decompress_into_with_dict. cbn [DecompressorRefImpl.with_dict dr_dict].
    by destruct (decompress_internal true input (OutSinkImpl.new o 0) (d_dict dec)) as [[s n]|[s e]| |]. }
  rewrite !Hd. destruct (decompress_internal true input (OutSinkImpl.new output 0) _) as [[s n]|[s e]| |]; [| |done..].
  - destruct H as (s2 & -> & Ht & Hl1 & Hl2 & Hn). rewrite !slice_ok by lia. mstep.
    rewrite !N.sub_0_r, !sub_0, Ht, assert_eq_ok by done. mstep. apply IH. lia.
  - destruct H as (s2 & -> & Hl1 & Hl2). cbn [mbind res_bind]. rewrite assert_eq_ok by done. mstep. apply IH. lia.
Qed.

(** ** The headers *)

Lemma header_ok mode checksums dict : returns (header xxh32 mode checksums dict) (fun _ => True).
Proof. destruct mode, checksums, dict; vm_compute; by eexists. Qed.

Lemma push_headers_ok headers cs :
  returns (push_headers xxh32 headers cs) (fun hs => length hs = (length headers + length cs)%nat).
Proof.
  revert headers. induction cs as [|[[mode checksums] dict] cs IH]; intros headers; cbn [push_headers].
  { apply returns_ok. cbn. lia. }
  destruct (header_ok mode checksums dict) as (h & -> & _). mstep.
  destruct (IH (headers ++ [h])) as (hs & -> & Hl). apply returns_ok. rewrite length_app in Hl. cbn in *. lia.
Qed.

Lemma HEADERS_ok : returns (HEADERS xxh32) (fun hs => len hs <> 0).
Proof.
  unfold HEADERS. destruct (push_headers_ok [[]] combinations) as (hs & -> & Hl). apply returns_ok. cbn in Hl. lia.
Qed.

(** ** The target *)

(** Steps by rewriting: the headers are never evaluated. *)
Lemma bind_value {A B} (m : res Empty_set A) (k : A -> res Empty_set B) a : m = Ok a -> m ≫= k = k a.
Proof. by intros ->. Qed.

Lemma assert_true b : b = true -> assert (E:=Empty_set) b = Ok tt.
Proof. by intros ->. Qed.

Lemma decoder_reuse_passes data : len data <= fuzz_limit -> target xxh32 env data = Ok tt.
Proof.
  intros Hd. unfold target. destruct data as [|selector [|split rest]]; [done..|]. cbn [length] in Hd.
  pose proof usize_large as Hu. pose proof (u8_lt split) as Hs. unfold split_at.
  assert (Hrest : len rest <= 16777216) by (unfold fuzz_limit in Hd; lia).
  assert (Hprod : u8 split * len rest <= 255 * len rest) by (apply N.mul_le_mono_r; lia).
  change (2 ^ 32 - 1) with 4294967295 in Hu.
  assert (Hn : u8 split * len rest / 255 <= len rest) by (apply N.Div0.div_le_upper_bound; lia).
  assert (Hp : u8 split * len rest <= usize_max) by lia.
  set (first := take (N.to_nat (u8 split * len rest / 255)) rest).
  set (second := drop (N.to_nat (u8 split * len rest / 255)) rest).
  assert (Hfirst : len first <= fuzz_limit) by (subst first; len_lia).
  assert (Hsecond : len second <= fuzz_limit) by (subst second; len_lia).
  assert (Hsplit : (_ ← assert (u8 split * len rest / 255 <=? len rest); Ok (first, second)) = Ok (E:=Empty_set) (first, second)).
  { by rewrite (assert_true _ (proj2 (N.leb_le _ _) Hn)). }
  erewrite bind_value by (apply assert_true; by apply N.leb_le). cbv beta. rewrite Hsplit.
  clearbody first second. clear Hsplit. destruct HEADERS_ok as (hs & Hheaders & Hhs).
  rewrite (bind_value (Ok (first, second)) _ _ eq_refl). cbv beta iota. rewrite (bind_value _ _ _ Hheaders). cbv beta.
  clear Hheaders. assert (Hi : forall i, returns (E:=Empty_set) (index hs (i mod len hs)) (fun _ => True)).
  { intros i. destruct (index_ok (E:=Empty_set) hs (i mod len hs)) as (h & _ & ->); [by apply N.mod_lt|]. by apply returns_ok. }
  destruct (Hi (N.land (u8 selector) 15)) as (h0 & -> & _). mstep.
  destruct (Hi (N.shiftr (u8 selector) 4)) as (h1 & -> & _). mstep.
  assert (Hframes : forall dict, reuse_frames xxh32 env dict (new_frame_decoder [] dict)
    [h0 ++ first; h1 ++ second; h0 ++ first; h1 ++ second] = Ok tt).
  { intros dict. apply (reuse_frames_pass _ _ _ 0); [apply new_reusable|]. cbn [length].
    change (LIMIT * N.of_nat 4) with 4194304. lia. }
  rewrite !Hframes. mstep.
  assert (Hall : forall new_decompressor, reuse_blocks new_decompressor (new_decompressor tt)
    (replicate (N.to_nat BLOCK_CAPACITY) xa5) [first; second; first; second] = Ok tt).
  { intros new. apply reuse_blocks_pass; [by rewrite length_replicate, N2Nat.id|].
    by repeat (apply Forall_cons_2; [done|]). }
  rewrite !Hall. by mstep.
Qed.
End reuse.
