(* ===== verification/FuzzTheorems.v ===== *)
(** * No fuzz target fails

    Every target returns for all its inputs: no call panics, every [unwrap]
    finds a value and every assertion holds. *)

From Stdlib Require Import String.
From S2P Require Import Prelude BlockSpec Core Primitives Decompress DecompressProofs DecompressSpec Validate Sequences HashTable Compress CompressProofs DictTableProofs EncoderSpec FrameHeader FrameIO FrameSpec FrameEncoder FrameEncoderProofs FrameSession FrameDecoder FrameDecoderSpec FrameDecoderProofs FrameDecoderStream DecoderTheorems EncoderTheorems FrameTheorems FrameCodecTheorems Reuse Bindings BindingsTheorems Fuzz FuzzReuse.

(** ** Shared steps *)

Section steps.
Context `{T : Target}.
Implicit Types (input block payload dict : bytes).

Lemma fuzz_alloc payload : len payload <= fuzz_limit -> alloc_ok payload.
Proof. intros H. split; [split|]; flia. Qed.

Lemma ignore_vec USE_DICT D input size : buffer_ok input -> size + 1024 <= isize_max ->
  ignore ('(v, _) ← map_err snd (decompress_append_internal USE_DICT input [] size D); Ok v) = Ok tt.
Proof.
  intros Hb Hs. pose proof (append_post_ok USE_DICT input [] size D Hb ltac:(cbn; lia)) as H.
  by destruct (decompress_append_internal _ _ _ _ _) as [[o n]|[o e]| |].
Qed.

Lemma ignore_into input output : buffer_ok input -> buffer_ok output -> ignore (decompress_into input output) = Ok tt.
Proof. intros Hb Ho. pose proof (decompress_into_post input output Hb Ho) as H. by destruct (decompress_into _ _). Qed.

Lemma ignore_into_dict input output dict : buffer_ok input -> buffer_ok output ->
  ignore (decompress_into_with_dict input output dict) = Ok tt.
Proof.
  intros Hb Ho. pose proof (decompress_into_with_dict_post input output dict Hb Ho) as H.
  by destruct (decompress_into_with_dict _ _ _).
Qed.

(** A block that decodes, into a buffer with room. *)
Lemma decompresses_to_ok D block payload output r : entry_post D block output r ->
  block_decode D block = Some payload -> len payload <= len output ->
  exists output', decompresses_to r payload = Ok output' /\ length output' = length output.
Proof.
  intros Hp Hd Hl. destruct (proj2 (entry_post_iff _ _ _ _ payload Hp) (conj Hd Hl)) as (o & -> & Ht).
  destruct Hp as (Hlen & _). exists o. split; [|done]. unfold decompresses_to. cbn [unwrap]. mstep. access.
  rewrite N.sub_0_r, sub_0, Nat2N.id, Ht, assert_eq_ok by done. done.
Qed.

Lemma decode_vec USE_DICT D block payload : buffer_ok block -> len payload <= fuzz_limit ->
  block_decode (dict_of USE_DICT D) block = Some payload ->
  ('(v, _) ← map_err snd (decompress_append_internal USE_DICT block [] (len payload) D); Ok v) = Ok payload.
Proof. intros Hb Hp Hd. apply decompress_vec_iff; [done|flia|]. split; [done|lia]. Qed.

(** Blocks of the compressors. *)
Lemma block_of_dict dict payload block : block_of (dict_used true dict) payload 0 block ->
  block_decode dict block = Some payload.
Proof.
  intros Hb. destruct (dict_used_suffix true dict) as [P HP]. rewrite HP at 1.
  by apply block_decode_app_prefix, block_of_decode.
Qed.

(** A call into a buffer of the maximum size. *)
Lemma buffer_call_max D payload output r : alloc_ok payload -> len output = 20 + 110 * len payload / 100 ->
  buffer_call D payload output r -> returns r (fun '(output', n) =>
    length output' = length output /\ n <= len output /\ block_of D payload 0 (take (N.to_nat n) output')).
Proof.
  intros Ha Ho. unfold buffer_call. destruct (alloc_max_size (E:=CompressError) payload Ha) as [_ ->].
  destruct (N.ltb_spec (len output) (20 + 110 * len payload / 100)); [lia|done].
Qed.

Lemma state_call_max {S} (inv : S -> Prop) D payload output r : alloc_ok payload ->
  len output = 20 + 110 * len payload / 100 -> state_call inv D payload output r ->
  returns r (fun '(s, output', n) => inv s /\
    length output' = length output /\ n <= len output /\ block_of D payload 0 (take (N.to_nat n) output')).
Proof.
  intros Ha Ho. unfold state_call. destruct (alloc_max_size (E:=CompressError) payload Ha) as [_ ->].
  destruct (N.ltb_spec (len output) (20 + 110 * len payload / 100)); [lia|done].
Qed.
End steps.

(** ** Blocks that are not valid *)

Section blocks.
Context `{T : Target}.

Lemma mutate_ok v m : len v <> 0 -> returns (BitFlip.mutate v m) (fun v' => len v' <= len v + 1).
Proof.
  intros Hv. assert (Hset : forall i f, returns (BitFlip.set_at v (N.min i (len v - 1)) f) (fun v' => len v' <= len v + 1)).
  { intros i f. unfold BitFlip.set_at. destruct (index_ok (E:=Empty_set) v (N.min i (len v - 1))) as (b & _ & ->); [lia|].
    mstep. rewrite write_at_ok by (cbn [length]; lia). apply returns_ok. rewrite length_splice by (cbn [length]; lia). lia. }
  destruct m; cbn [BitFlip.mutate]; try (rewrite usub_ok by lia; mstep; apply Hset).
  - apply returns_ok. len_lia.
  - set (pos := N.min _ _). assert (Hpos : pos <= len v) by apply N.le_min_r. clearbody pos.
    unfold assert. bcase. mstep. apply returns_ok. len_lia.
Qed.

Lemma mutate_all_ok v ms : returns (BitFlip.mutate_all v ms) (fun v' => len v' <= len v + len ms).
Proof.
  revert v. induction ms as [|m ms IH]; intros v; cbn [BitFlip.mutate_all]; [apply returns_ok; lia|].
  destruct (N.eqb_spec (len v) 0); [apply returns_ok; cbn [length]; lia|].
  destruct (mutate_ok v m n) as (v1 & -> & H1). mstep. eapply returns_mono; [apply IH|].
  cbv beta in *. intros v' H. cbn [length]. lia.
Qed.

Lemma bitflip_passes i : len (repeated (BitFlip.data i) (BitFlip.repeat i)) <= fuzz_limit ->
  len (BitFlip.mutations i) <= fuzz_limit -> BitFlip.target i = Ok tt.
Proof.
  intros Hp Hm. unfold BitFlip.target. set (payload := repeated _ _) in *.
  destruct (len payload =? 0); [done|].
  destruct (compress_ok payload (fuzz_alloc _ Hp)) as (c & -> & _ & Hc & _). rewrite N.sub_0_r in Hc.
  cbn [unwrap]. mstep. destruct (len c =? 0); [done|].
  destruct (mutate_all_ok c (BitFlip.mutations i)) as (v & -> & Hv). mstep.
  assert (Hb : buffer_ok v) by flia.
  unfold Decompress.decompress, decompress_append.
  do 3 (rewrite ignore_vec by (done || flia); mstep). apply ignore_into; [done|flia].
Qed.

(** Every token adds a bounded number of bytes. *)
Lemma build_tokens_bound toks :
  Forall (fun t => CraftTokens.extra_lit_ext t <= 4 /\ CraftTokens.extra_match_ext t <= 4) toks ->
  len (CraftTokens.build_tokens toks) <= 2048 * len toks.
Proof.
  induction 1 as [|t toks [H1 H2] _ IH]; [done|]. cbn [CraftTokens.build_tokens].
  set (lit := N.min _ 15). assert (Hlit : lit <= 15) by apply N.le_min_r. clearbody lit.
  set (ext := N.land (u8 (CraftTokens.literal_len t)) 127).
  assert (Hext : ext <= 127) by (subst ext; rewrite (N.land_ones _ 7); pose proof (N.mod_lt (u8 (CraftTokens.literal_len t)) (2 ^ 7)); lia).
  clearbody ext. destruct (lit =? 15);
    repeat match goal with |- context [if ?b then _ else _] => destruct b end;
    cbn [length app]; autorewrite with lz4_len; rewrite ?length_to_le; cbn [length]; autorewrite with lz4_len;
    cbn [length]; lia.
Qed.

Lemma craft_tokens_passes seq :
  Forall (fun t => CraftTokens.extra_lit_ext t <= 4 /\ CraftTokens.extra_match_ext t <= 4) (CraftTokens.tokens seq) ->
  CraftTokens.target seq = Ok tt.
Proof.
  intros Ht. unfold CraftTokens.target. set (block := CraftTokens.build_block seq).
  assert (Hb : buffer_ok block).
  { assert (H : len block <= 2048 * 32).
    { subst block. unfold CraftTokens.build_block. etrans; [apply build_tokens_bound; by apply Forall_take|]. len_lia. }
    flia. }
  assert (Ho : buffer_ok (replicate (N.to_nat (N.min (CraftTokens.output_size seq) (2 ^ 20))) x00)) by
    (change (2 ^ 20) with 1048576; flia).
  rewrite ignore_into by done. mstep. case_match; [|done]. by apply ignore_into_dict.
Qed.

Lemma decode_into_size_passes input dict n : buffer_ok input -> n + 1024 <= isize_max ->
  CorruptBlock.decode_into_size input dict n = Ok tt.
Proof.
  intros Hb Hn. unfold CorruptBlock.decode_into_size. case_match; [done|].
  set (out := replicate _ _). assert (Ho : buffer_ok out) by (subst out; flia).
  assert (Hr : exists D r, entry_post D input out r /\ (if len dict =? 0 then decompress_into input out
      else DecompressorImpl.decompress_into (DecompressorImpl.with_dict dict) input out) = r).
  { destruct (len dict =? 0); eexists _, _; (split; [|done]);
      [by apply decompress_into_post|by apply decompress_into_with_dict_post]. }
  destruct Hr as (D & r & Hr & ->). destruct r as [[o k]|[o e]| |]; try done. destruct Hr as (Hl & Hk & _).
  by rewrite slice_ok by lia.
Qed.

Lemma corrupt_block_passes data : len (CorruptBlock.input data) <= fuzz_limit ->
  CorruptBlock.output_size data <= 65535 -> CorruptBlock.target data = Ok tt.
Proof.
  intros Hi Ho. assert (Hb : buffer_ok (CorruptBlock.input data)) by flia. unfold CorruptBlock.target.
  set (dict := pattern _ _).
  assert (Hv : ignore (if len dict =? 0 then Decompress.decompress (CorruptBlock.input data) (CorruptBlock.output_size data)
      else DecompressorImpl.decompress (DecompressorImpl.with_dict dict) (CorruptBlock.input data)
             (CorruptBlock.output_size data)) = Ok tt) by (case_match; apply ignore_vec; done || flia).
  rewrite Hv. mstep. unfold saturating_add. by rewrite !decode_into_size_passes by (done || flia).
Qed.

(** The calls of the target as those of the theorem on stale bytes. *)
Lemma no_output_leak_passes data : len (NoOutputLeak.input data) <= fuzz_limit ->
  NoOutputLeak.target data = Ok tt.
Proof.
  intros Hi. unfold NoOutputLeak.target. set (input := NoOutputLeak.input data) in *.
  set (dict := pattern _ _). set (size := N.max 512 (len input * 4)).
  assert (Hb : buffer_ok input) by flia. set (filled (b : byte) := replicate (N.to_nat size) b).
  assert (Hlen : forall b, length (filled b) = N.to_nat size) by (intros; subst filled; len_lia).
  set (use := negb (len dict =? 0)).
  assert (Hdec : forall b, NoOutputLeak.decompressed input (filled b) dict =
    match decompress_internal use input (OutSinkImpl.new (filled b) 0) (if use then dict else []) with
    | Ok (s, n) => r ← slice (os_output s) 0 n; Ok (inl r) | Err (_, e) => Ok (inr e) | Panic => Panic | NoFuel => NoFuel
    end).
  { intros b. unfold NoOutputLeak.decompressed, NoOutputLeak.decompress, decompress_into. subst use.
    destruct (len dict =? 0); cbn [negb]; unfold DecompressorImpl.decompress_into, DecompressorRefImpl.decompress_into,
      decompress_into_with_dict;
      cbn [DecompressorImpl.with_dict d_dict DecompressorRefImpl.with_dict dr_dict];
      by destruct (decompress_internal _ _ _ _) as [[s n]|[s e]| |]. }
  assert (Happ : NoOutputLeak.append input (replicate 7 x55) size dict =
    decompress_append_internal use input (replicate 7 x55) size (if use then dict else [])).
  { unfold NoOutputLeak.append. subst use. by destruct (len dict =? 0). }
  pose proof (fun b => decompress_internal_stale use input (filled x00) (filled b) (if use then dict else []) Hb
    ltac:(unfold buffer_ok; rewrite Hlen; flia) ltac:(by rewrite !Hlen)) as Hst.
  pose proof (decompress_append_stale use input (filled x00) (replicate 7 x55) (if use then dict else []) Hb
    ltac:(rewrite Hlen; flia)) as Ha.
  replace (len (filled x00)) with size in * by (rewrite Hlen; lia).
  unfold NoOutputLeak.appended. rewrite Happ, !Hdec.
  destruct (decompress_internal _ _ (OutSinkImpl.new (filled x00) 0) _) as [[s n]|[s e]| |]; [| |done..].
  - destruct (Hst xff) as (s2 & -> & Ht2 & Hl & Hl2 & Hn). destruct (Hst xaa) as (s3 & -> & Ht3 & _ & Hl3 & _).
    rewrite !slice_ok by (rewrite ?Hl, ?Hl2, ?Hl3, ?Hlen; lia). rewrite !N.sub_0_r, !sub_0. mstep. rewrite Ha. mstep.
    rewrite (assert_eq_ok (inl n)) by (rewrite length_take, Hl, Hlen; f_equal; lia). mstep. access.
    rewrite drop_app_length' by lia. by rewrite Ht2, Ht3, !assert_eq_ok.
  - mstep. rewrite Ha. mstep. rewrite assert_eq_ok by done. mstep. by rewrite assert_eq_ok.
Qed.
End blocks.

(** ** Round trips of blocks *)

Section round_trips.
Context `{T : Target}.

Lemma round_trip_passes i : len (repeated (RoundTrip.data i) (RoundTrip.repeat i)) <= fuzz_limit ->
  RoundTrip.target i = Ok tt.
Proof.
  intros Hp. unfold RoundTrip.target. set (payload := repeated _ _) in *. pose proof (fuzz_alloc payload Hp) as Ha.
  destruct (compress_ok payload Ha) as (c & -> & Hc). cbn [unwrap]. mstep.
  rewrite (decompress_block_of payload c Ha Hc). cbn [unwrap]. mstep. rewrite assert_eq_ok by done. mstep.
  destruct (alloc_max_size (E:=Empty_set) payload Ha) as [-> _]. mstep. set (out := replicate (N.to_nat _) x00).
  destruct (buffer_call_max [] payload out (compress_into payload out) Ha ltac:(subst out; len_lia)) as
    ([o n] & -> & Ho & Hn & Hb); [apply compress_into_ok; [apply Ha|subst out; destruct Ha as [_ Hmax]; len_lia]|].
  cbn [unwrap]. mstep. rewrite slice_ok by lia. rewrite N.sub_0_r, sub_0. mstep.
  destruct (decompresses_to_ok [] (take (N.to_nat n) o) payload (replicate (length payload) x00)
    (decompress_into (take (N.to_nat n) o) (replicate (length payload) x00))) as (w & -> & _); [| |len_lia|done].
  - apply decompress_into_post; [by eapply block_of_buffer|flia].
  - by apply block_of_decode.
Qed.

Lemma dict_window_slice (dict : bytes) (limit : N) :
  returns (E:=Empty_set) (slice dict 0 (N.min (len dict) limit)) (fun d => len d <= limit).
Proof. rewrite slice_ok by lia. apply returns_ok. rewrite length_sub by lia. lia. Qed.

Lemma round_trip_dict_passes i : len (repeated (RoundTripDict.data i) (RoundTripDict.repeat i)) <= fuzz_limit ->
  RoundTripDict.target i = Ok tt.
Proof.
  intros Hp. unfold RoundTripDict.target. set (payload := repeated _ _) in *. pose proof (fuzz_alloc payload Hp) as Ha.
  case_match; [done|]. destruct (dict_window_slice (RoundTripDict.dict i) (128 * 1024)) as (dict & -> & _). mstep.
  destruct (dict_compressor_new_ok DEFAULT_DICT_ENTRIES dict eq_refl) as (c & -> & Hc). cbn [unwrap]. mstep.
  destruct (dict_compressor_compress_ok _ c payload Hc Ha) as ([c1 block] & -> & Hc1 & Hb). cbn [unwrap]. mstep.
  pose proof (block_of_buffer _ _ _ Ha Hb) as Hbb. pose proof (block_of_dict _ _ _ Hb) as Hd.
  unfold DecompressorImpl.decompress, DecompressorRefImpl.decompress, DecompressorRefImpl.decompress_append.
  cbn [DecompressorImpl.with_dict DecompressorRefImpl.with_dict d_dict dr_dict].
  rewrite (decode_vec true dict block payload) by done. cbn [unwrap]. mstep. rewrite assert_eq_ok by done. mstep.
  destruct (alloc_max_size (E:=Empty_set) payload Ha) as [-> _]. mstep. set (out := replicate (N.to_nat _) x00).
  pose proof (dict_compressor_compress_into_ok _ c1 payload out Hc1 (proj1 Ha) ltac:(subst out; destruct Ha as [_ Hmax]; len_lia)) as Hs.
  apply (state_call_max _ _ payload out _ Ha ltac:(subst out; len_lia)) in Hs as ([[c2 o] n] & -> & _ & Ho & Hn & Hb2).
  cbn [unwrap]. mstep. rewrite slice_ok by lia. rewrite N.sub_0_r, sub_0. mstep.
  destruct (decompresses_to_ok dict (take (N.to_nat n) o) payload (replicate (length payload) x00)
    (decompress_into_with_dict (take (N.to_nat n) o) (replicate (length payload) x00) dict)) as (w & Hw & _).
  - apply decompress_into_with_dict_post; [by eapply block_of_buffer|flia].
  - by apply block_of_dict.
  - len_lia.
  - unfold DecompressorImpl.decompress_into, DecompressorRefImpl.decompress_into.
    cbn [DecompressorImpl.with_dict DecompressorRefImpl.with_dict d_dict dr_dict]. rewrite Hw. mstep.
    apply ignore_vec; [done|flia].
Qed.

(** The borrowing dictionary compressor, whose calls are those of the owning one. *)
Lemma ref_compressor_new n dict : assert_valid_entries n = true ->
  returns (DictCompressorRefNImpl.new (n:=n) dict) (fun c => dc_dict c = dict_used true dict /\
    dict_inv (dict_used true dict) (dc_table c, dc_pristine c, dc_main_base c)).
Proof.
  intros Hn. destruct (dict_compressor_new_ok n dict Hn) as (c & Hc & Hd & Hi).
  unfold DictCompressorNImpl.new in Hc. unfold DictCompressorRefNImpl.new.
  destruct (init_dict _ _) as [[p d]| | |]; [|done..]. revert Hc. mstep. intros [= <-]. apply returns_ok. done.
Qed.

Lemma tiny_plain n payload comp_buf decomp_buf : assert_valid_entries n = true -> len payload <= fuzz_limit ->
  len comp_buf = 20 + 110 * len payload / 100 -> len decomp_buf = len payload ->
  returns (RoundTripTinyTables.plain n payload comp_buf decomp_buf) (fun '(comp_buf', decomp_buf') =>
    length comp_buf' = length comp_buf /\ length decomp_buf' = length decomp_buf).
Proof.
  intros Hn Hp Hc Hd. pose proof (fuzz_alloc payload Hp) as Ha. unfold RoundTripTinyTables.plain.
  pose proof (compressor_compress_into_ok _ payload comp_buf (compressor_new_inv n Hn) (proj1 Ha) ltac:(flia)) as Hs.
  apply (state_call_max _ _ payload comp_buf _ Ha Hc) in Hs as ([[c o] k] & -> & _ & Ho & Hk & Hb).
  cbn [unwrap]. mstep. rewrite slice_ok by lia. rewrite N.sub_0_r, sub_0. mstep.
  destruct (decompresses_to_ok [] (take (N.to_nat k) o) payload decomp_buf
    (decompress_into (take (N.to_nat k) o) decomp_buf)) as (w & -> & Hw); [| |lia|].
  - apply decompress_into_post; [by eapply block_of_buffer|flia].
  - by apply block_of_decode.
  - mstep. by apply returns_ok.
Qed.

Lemma tiny_dict n payload dict comp_buf : assert_valid_entries n = true -> len payload <= fuzz_limit ->
  len comp_buf = 20 + 110 * len payload / 100 ->
  returns (RoundTripTinyTables.with_dict n payload dict comp_buf) (fun comp_buf' => length comp_buf' = length comp_buf).
Proof.
  intros Hn Hp Hc. pose proof (fuzz_alloc payload Hp) as Ha. unfold RoundTripTinyTables.with_dict.
  destruct (ref_compressor_new n dict Hn) as (c & -> & Hd & Hi). cbn [unwrap]. mstep.
  pose proof (compress_dict_tables_ok _ _ _ _ payload comp_buf Hi (proj1 Ha) ltac:(flia)) as Hs.
  apply (state_call_max _ _ payload comp_buf _ Ha Hc) in Hs as ([[t o] k] & Hr & _ & Ho & Hk & Hb).
  unfold DictCompressorRefNImpl.compress_into. rewrite Hd, Hr. cbn [map_err unwrap]. mstep. cbn [unwrap]. mstep.
  rewrite slice_ok by lia. rewrite N.sub_0_r, sub_0. mstep.
  unfold DecompressorImpl.decompress, DecompressorRefImpl.decompress, DecompressorRefImpl.decompress_append.
  cbn [DecompressorImpl.with_dict DecompressorRefImpl.with_dict d_dict dr_dict].
  rewrite (decode_vec true dict _ payload); [|by eapply block_of_buffer|done|by apply block_of_dict].
  cbn [unwrap]. mstep. rewrite assert_eq_ok by done. mstep. by apply returns_ok.
Qed.

Lemma tiny_tables_passes i : len (repeated (RoundTripTinyTables.data i) (RoundTripTinyTables.repeat i)) <= fuzz_limit ->
  RoundTripTinyTables.target i = Ok tt.
Proof.
  intros Hp. unfold RoundTripTinyTables.target. set (payload := repeated _ _) in *.
  case_match; [done|]. destruct (alloc_max_size (E:=Empty_set) payload (fuzz_alloc _ Hp)) as [-> _]. mstep.
  set (comp_buf := replicate (N.to_nat _) x00). set (decomp_buf := replicate (length payload) _).
  assert (Hc : len comp_buf = 20 + 110 * len payload / 100) by (subst comp_buf; len_lia).
  assert (Hd : len decomp_buf = len payload) by (subst decomp_buf; len_lia).
  destruct (tiny_plain 256 payload comp_buf decomp_buf eq_refl Hp Hc Hd) as ([c1 d1] & -> & H1 & H2). mstep.
  destruct (tiny_plain 512 payload c1 d1 eq_refl Hp ltac:(lia) ltac:(lia)) as ([c2 d2] & -> & H3 & _). mstep.
  destruct (dict_window_slice (RoundTripTinyTables.dict i) (128 * 1024)) as (dict & -> & _). mstep.
  destruct (tiny_dict 256 payload dict c2 eq_refl Hp ltac:(lia)) as (c3 & -> & H4). mstep.
  by destruct (tiny_dict 1024 payload dict c3 eq_refl Hp ltac:(lia)) as (c4 & -> & _).
Qed.

(** ** The validator *)

Lemma check_passes D input expected : buffer_ok input -> expected <= fuzz_limit ->
  forall (r : res (bytes * DecompressError) (bytes * N)),
  entry_post D input (replicate (N.to_nat expected) x00) r ->
  (match validate_block_internal input expected (len D) with
   | Ok validation =>
       n ← match r with Ok (_, n) => Ok (inl n) | Err (_, e) => Ok (inr e) | Panic => Panic | NoFuel => NoFuel end;
       _ ← assert_eq n (inl expected);
       assert_eq (decoded_len validation) expected
   | m => ignore m
   end) = Ok tt.
Proof.
  intros Hb He r Hr. pose proof (validate_post_ok D input expected Hb ltac:(flia)) as Hv.
  destruct (validate_block_internal _ _ _) as [v|e| |]; try done. cbn in Hv. destruct Hv as (Hv & d & Hd & Hl).
  destruct (proj2 (entry_post_iff _ _ _ _ d Hr)) as (o & -> & _); [split; [done|len_lia]|].
  mstep. rewrite Hl, assert_eq_ok by done. mstep. by rewrite assert_eq_ok.
Qed.

(** What the two targets do with a block that the compressor wrote. *)
Lemma validated D compressed payload : buffer_ok compressed -> len payload <= fuzz_limit ->
  block_decode D compressed = Some payload ->
  validate_block_internal compressed (len payload) (len D) = Ok {| decoded_len := len payload |} /\
  len compressed <> 0.
Proof.
  intros Hb Hp Hd. split; [|by destruct compressed].
  apply (validate_post_iff D compressed (len payload)); [apply validate_post_ok; [done|flia]|by exists payload].
Qed.

Lemma mutated_ok compressed i f : len compressed <> 0 -> returns (BitFlip.set_at compressed (i mod len compressed) f)
  (fun v => length v = length compressed).
Proof.
  intros Hz. pose proof (N.mod_lt i (len compressed) Hz). unfold BitFlip.set_at.
  destruct (index_ok (E:=Empty_set) compressed (i mod len compressed)) as (b & _ & ->); [done|]. mstep.
  rewrite write_at_ok by (cbn [length]; lia). apply returns_ok. apply length_splice. cbn [length]. lia.
Qed.

Lemma validate_block_passes data : len (ValidateBlock.encoded data) <= fuzz_limit ->
  len (ValidateBlock.payload data) <= fuzz_limit -> ValidateBlock.expected data <= 65535 ->
  ValidateBlock.target data = Ok tt.
Proof.
  intros He Hp Hx. unfold ValidateBlock.target. set (payload := ValidateBlock.payload data) in *.
  assert (Hcheck : forall input expected, buffer_ok input -> expected <= fuzz_limit ->
    ValidateBlock.check_implication input expected = Ok tt).
  { intros input expected Hb Hn. apply (check_passes [] input expected Hb Hn).
    apply decompress_into_post; [done|flia]. }
  rewrite Hcheck by flia. mstep. pose proof (fuzz_alloc payload Hp) as Ha.
  destruct (compress_ok payload Ha) as (c & -> & Hc). cbn [unwrap]. mstep.
  pose proof (block_of_buffer _ _ _ Ha Hc) as Hb.
  destruct (validated [] c payload Hb Hp (block_of_decode _ _ _ Hc)) as [Hv Hz].
  change (len ([] : bytes)) with 0 in Hv. unfold validate_block. rewrite Hv. cbn [unwrap]. mstep. cbn [decoded_len].
  rewrite assert_eq_ok by done. mstep. unfold assert. rewrite (proj2 (N.eqb_neq _ _)) by done. cbn [negb]. mstep.
  destruct (mutated_ok c (ValidateBlock.mutation_index data)
    (fun b => u8_xor b (u8 (ValidateBlock.mutation_mask data))) Hz) as (m & -> & Hm). mstep.
  rewrite Hcheck by (unfold buffer_ok in *; lia). mstep.
  pose proof (N.mod_lt (ValidateBlock.truncation data) (len c) Hz). rewrite slice_ok by lia. mstep.
  apply Hcheck; [|done]. unfold buffer_ok in *. rewrite length_sub by lia. lia.
Qed.

Lemma validate_block_dict_passes data : len (ValidateBlockDict.encoded data) <= fuzz_limit ->
  len (ValidateBlockDict.payload data) <= fuzz_limit -> ValidateBlockDict.expected data <= 65535 ->
  ValidateBlockDict.target data = Ok tt.
Proof.
  intros He Hp Hx. unfold ValidateBlockDict.target. set (payload := ValidateBlockDict.payload data) in *.
  destruct (dict_window_slice (ValidateBlockDict.dict data) (128 * 1024)) as (dict & -> & _). mstep.
  assert (Hcheck : forall input expected, buffer_ok input -> expected <= fuzz_limit ->
    ValidateBlockDict.check_implication input expected dict = Ok tt).
  { intros input expected Hb Hn. apply (check_passes dict input expected Hb Hn).
    apply decompress_into_with_dict_post; [done|flia]. }
  rewrite Hcheck by flia. mstep. pose proof (fuzz_alloc payload Hp) as Ha.
  destruct (dict_compressor_new_ok DEFAULT_DICT_ENTRIES dict eq_refl) as (k & -> & Hk). cbn [unwrap]. mstep.
  destruct (dict_compressor_compress_ok _ k payload Hk Ha) as ([k1 c] & -> & _ & Hc). cbn [unwrap]. mstep.
  pose proof (block_of_buffer _ _ _ Ha Hc) as Hb.
  destruct (validated dict c payload Hb Hp (block_of_dict _ _ _ Hc)) as [Hv Hz].
  unfold validate_block_with_dict. rewrite Hv. cbn [unwrap]. mstep. cbn [decoded_len].
  rewrite assert_eq_ok by done. mstep. unfold assert. rewrite (proj2 (N.eqb_neq _ _)) by done. cbn [negb]. mstep.
  destruct (mutated_ok c (ValidateBlockDict.mutation_index data)
    (fun b => u8_xor b (u8 (ValidateBlockDict.mutation_mask data))) Hz) as (m & -> & Hm). mstep.
  rewrite Hcheck by (unfold buffer_ok in *; lia). mstep.
  pose proof (N.mod_lt (ValidateBlockDict.truncation data) (len c) Hz). rewrite slice_ok by lia. mstep.
  apply Hcheck; [|done]. unfold buffer_ok in *. rewrite length_sub by lia. lia.
Qed.
End round_trips.

(** ** Frames *)

Section frames.
Context `{T : Target} (xxh32 : bytes -> N).
Implicit Types (data sample : bytes) (r : SliceReader) (o : FrameDecoderOptions).

Lemma fill_data_ok fuel sample data size : sample <> [] -> size <= len data + N.of_nat fuel ->
  returns (fill_data fuel sample data size) (fun d => len d = size).
Proof.
  intros Hs. revert data. induction fuel as [|fuel IH]; intros data Hf; cbn [fill_data].
  - bcase. apply returns_ok. len_lia.
  - bcase; [|apply returns_ok; len_lia]. apply IH. destruct sample; [done|]. cbn [length] in *. len_lia.
Qed.

Lemma frame_data_ok sample size : len sample <> 0 -> returns (frame_data sample size) (fun d => len d = size).
Proof. intros Hs. apply fill_data_ok; [by destruct sample|cbn [length]; lia]. Qed.

Lemma chunks_concat fuel data n : 0 < n -> (length data <= fuel)%nat ->
  concat (chunks fuel data n) = data /\ Forall (fun c => c <> []) (chunks fuel data n).
Proof.
  intros Hn. revert data. induction fuel as [|fuel IH]; intros data Hf.
  - destruct data; [by split|cbn in Hf; lia].
  - destruct data as [|x l]; [by split|]. cbn [chunks concat]. set (data := x :: l) in *.
    destruct (IH (drop (N.to_nat n) data)) as [H1 H2]; [subst data; len_lia|].
    rewrite H1, take_drop. split; [done|]. constructor; [|done].
    intros H%(f_equal length). subst data. rewrite length_take in H. cbn [length] in H. lia.
Qed.

(** A session without a declared content size never fails. *)
Lemma session_run_none s cs : is_Some (session_run None s cs).
Proof.
  revert s. induction cs as [|c cs IH]; intros s; [by eexists|]. cbn [session_run].
  assert (H : is_Some (session_call None s c)) by (destruct c as [[|]| |]; cbn; repeat case_match; by eexists).
  destruct H as [s1 ->]. apply IH.
Qed.

(** A finished stream, and what a new decoder makes of any stream. *)
Lemma fuzz_frame d info cs : create_ok d info -> content_size info = None -> len (calls_bytes cs) <= u64_max ->
  exists e1 F, run_calls xxh32 (set_dict (create_dict d)
      (FrameEncoderImpl.with_frame_info (create_info d info) ([] : VecWriter))) cs = Ok e1 /\
    FrameEncoderImpl.finish xxh32 e1 = Ok F /\
    FrameSpec.frames xxh32 (create_dict d) (dict_id (create_info d info)) F (calls_bytes cs).
Proof.
  intros Hok Hc Hl. destruct (session_run_none new_session (cs ++ [CTryFinish])) as [s Hs].
  destruct (finished_frames xxh32 d info ([] : VecWriter) cs s Hok Hl ltac:(by rewrite Hc)) as (e1 & w & F & H1 & H2 & H3 & H4).
  cbn [sunk VecWriter_laws app] in H3. subst w. by exists e1, F.
Qed.

Lemma fresh_decoder r o fuel : opt_limit o <= usize_max -> (length (stream r) < fuel)%nat ->
  match FrameDecoderImpl.read_to_end xxh32 fuel (FrameDecoderImpl.with_options r o) [] 0 with
  | Ok (_, out, _) => forall out', FrameSpec.frames xxh32 (opt_dict o) (opt_id o) (stream r) out' -> out' = out
  | Err _ => forall out, FrameSpec.frames xxh32 (opt_dict o) (opt_id o) (stream r) out -> opt_limit o < len out
  | Panic | NoFuel => False
  end.
Proof.
  intros Hl Hf. destruct (with_options_idle xxh32 r o Hl) as (Hi & Hm & Hh & _).
  pose proof (closed_to_end xxh32 _ _ _ r [] fuel (usable_idle xxh32 _ _ _ Hi)) as H.
  rewrite Hm, Hh, with_options_reader in H. assert (Hc : closed (FrameDecoderImpl.with_options r o)) by (by destruct Hi).
  specialize (H Hc Hf). destruct (FrameDecoderImpl.read_to_end _ _ _ _ _) as [[[d b] n]|[[d b] x]| |]; try done.
  - destruct H as (out & -> & _ & _ & Hout). intros out' Ho. by apply Hout in Ho.
  - destruct H as (out & _ & _ & Hout). intros out' Ho. specialize (Hout _ Ho). lia.
Qed.

Lemma ignore_fresh r o fuel : opt_limit o <= usize_max ->
  (length (stream r) < fuel)%nat ->
  ignore (FrameDecoderImpl.read_to_end xxh32 fuel (FrameDecoderImpl.with_options r o) [] 0) = Ok tt.
Proof.
  intros Hl Hf. pose proof (fresh_decoder r o fuel Hl Hf) as H.
  by destruct (FrameDecoderImpl.read_to_end _ _ _ _ _).
Qed.

Lemma corrupt_frame_passes data : CorruptFrame.target xxh32 data = Ok tt.
Proof.
  unfold CorruptFrame.target. induction (CorruptFrame.inputs data) as [|input inputs IH]; [done|].
  cbn [CorruptFrame.ignore_all]. unfold CorruptFrame.lz4rip_frame_decompress.
  change (FrameDecoderImpl.new (slice_reader input)) with (FrameDecoderImpl.with_options (slice_reader input) no_options).
  pose proof (fresh_decoder (slice_reader input) no_options (S (length input)) (N.le_refl _) (Nat.lt_succ_diag_r _)) as H.
  destruct (FrameDecoderImpl.read_to_end _ _ _ _ _) as [[[d b] n]|[[d b] x]| |]; try done; exact IH.
Qed.

(** ** The target that flushes and reads *)

Lemma map_err_Ok {E F A} (f : E -> F) (m : res E A) a : map_err f m = Ok a -> m = Ok a.
Proof. by destruct m; intros [= ->]. Qed.

Lemma run_write (e e1 : FrameEncoder VecWriter) buf : call_encoder xxh32 e (CWrite buf) = Ok e1 ->
  exists n, FrameEncoderImpl.write xxh32 e buf = Ok (e1, n).
Proof. intros ([e2 n] & Hw & [= <-])%map_err_Ok%bind_Ok. by exists n. Qed.

Definition flush_calls (cs : list bytes) : list call := concat ((fun c => [CWrite c; CFlush]) <$> cs).

Lemma flush_calls_bytes cs : calls_bytes (flush_calls cs) = concat cs.
Proof.
  induction cs as [|c cs IH]; [done|]. unfold flush_calls, calls_bytes in *. cbn in *. by rewrite IH.
Qed.

Lemma write_flush_run cs (e e' : FrameEncoder VecWriter) :
  run_calls xxh32 e (flush_calls cs) = Ok e' -> RoundTripFrame.write_chunks xxh32 e cs = Ok e'.
Proof.
  revert e. induction cs as [|c cs IH]; intros e; [by intros [= ->]|].
  change (flush_calls (c :: cs)) with (CWrite c :: CFlush :: flush_calls cs). cbn [run_calls].
  intros (e1 & H1 & (e2 & H2 & H3)%bind_Ok)%bind_Ok. apply run_write in H1 as [n H1].
  apply map_err_Ok in H2. cbn [RoundTripFrame.write_chunks]. rewrite H1. cbn [unwrap]. mstep. rewrite H2.
  cbn [unwrap]. mstep. by apply IH.
Qed.

(** The loop of reads returns what the decoder holds. *)
Lemma read_chunks_ok dict id fuel dec buf data out n :
  holds xxh32 dict id dec out -> (length out + length (left_over dec) < fuel)%nat -> 0 < n ->
  take (length data) buf = data -> len buf = len data + len out + n ->
  RoundTripFrame.read_chunks xxh32 fuel dec buf (len data) n = Ok (data ++ out).
Proof.
  revert dec buf data out. induction fuel as [|fuel IH]; intros dec buf data out Hh Hf Hn Ht Hb; [lia|].
  cbn [RoundTripFrame.read_chunks]. access. rewrite length_sub by lia.
  destruct (read_holds xxh32 _ _ (S fuel) _ _ (N.of_nat (N.to_nat (len data + n - len data))) Hh ltac:(lia))
    as ([d1 b] & -> & out' & -> & Hh1 & Hbn & Hend & Hleft). cbn [unwrap]. mstep.
  rewrite length_app in *. access. destruct (N.eqb_spec (len b) 0) as [Hz|Hz].
  - destruct b; [|by cbn in Hz]. destruct Hend as [|Hend]; [done|lia|]. cbn [app] in Hend |- *. subst out'.
    rewrite app_nil_r, take_splice_le, Nat2N.id by (cbn [length]; lia). by rewrite Ht.
  - replace (len data + len b) with (len (data ++ b)) by len_lia. rewrite app_assoc. apply IH; [done|lia|done| |].
    + replace (length (data ++ b)) with (N.to_nat (len data + len b)) by len_lia.
      rewrite take_splice, Nat2N.id, Ht by lia. done.
    + rewrite length_splice by lia. len_lia.
Qed.

Lemma frame_round_trip_passes data n fi : 0 < n -> len data <= 65536 -> fi ∈ RoundTripFrame.infos ->
  len data + n <= usize_max ->
  RoundTripFrame.round_trip xxh32 data n fi = Ok tt.
Proof.
  intros Hn Hd Hfi Hu. unfold RoundTripFrame.round_trip. destruct (chunks_concat (length data) data n Hn (le_n _)) as [Hc _].
  assert (Hok : create_ok None fi /\ content_size fi = None /\ dict_id fi = None).
  { assert (H : Forall (fun fi => create_ok None fi /\ content_size fi = None /\ dict_id fi = None) RoundTripFrame.infos).
    { repeat constructor; cbn; try done; lia. }
    rewrite list.Forall_forall in H. by apply H. }
  destruct Hok as (Hok & Hcs & Hid).
  destruct (fuzz_frame None fi (flush_calls (chunks (length data) data n)) Hok Hcs) as (e1 & F & H1 & H2 & H3).
  { rewrite flush_calls_bytes, Hc. unfold u64_max. lia. }
  apply write_flush_run in H1. rewrite flush_calls_bytes, Hc in H3. cbn [create_dict create_info] in *. rewrite Hid in H3.
  change (set_dict [] (FrameEncoderImpl.with_frame_info fi [])) with
    (FrameEncoderImpl.with_frame_info fi ([] : VecWriter)) in H1. rewrite H1. cbn [unwrap]. mstep. rewrite H2. cbn [unwrap]. mstep.
  set (r := slice_reader F). change (FrameDecoderImpl.new r) with (FrameDecoderImpl.with_options r no_options).
  pose proof (read_chunks_ok [] None (S (length data + length F)) (FrameDecoderImpl.with_options r no_options)
    (replicate (N.to_nat (len data + n)) x00) [] data n) as Hr.
  change (len ([] : bytes)) with 0 in Hr. rewrite Hr.
  - mstep. by apply assert_eq_ok.
  - apply (with_options_holds xxh32 r no_options); [cbn; lia|exact H3|cbn; lia].
  - destruct (with_options_idle xxh32 r no_options (N.le_refl _)) as (_ & _ & _ & ->). cbn. lia.
  - done.
  - done.
  - cbn [length]. len_lia.
Qed.

Lemma chunk_size_bounds seed : 0 < N.max (seed mod MAX_DATA_SIZE) 64 <= 65536.
Proof. pose proof (N.mod_lt seed MAX_DATA_SIZE ltac:(done)). unfold MAX_DATA_SIZE in *. lia. Qed.

Lemma frame_target_passes i : RoundTripFrame.target xxh32 i = Ok tt.
Proof.
  unfold RoundTripFrame.target. destruct (N.eqb_spec (len (RoundTripFrame.sample i)) 0) as [|Hs]; [done|].
  pose proof (chunk_size_bounds (RoundTripFrame.chunk_size_seed i)) as Hn. set (n := N.max _ 64) in *. clearbody n.
  destruct (frame_data_ok (RoundTripFrame.sample i) (RoundTripFrame.data_size_seed i mod MAX_DATA_SIZE) Hs) as (data & -> & Hd).
  mstep. pose proof (N.mod_lt (RoundTripFrame.data_size_seed i) MAX_DATA_SIZE ltac:(done)) as Hm. rewrite <-Hd in Hm.
  unfold MAX_DATA_SIZE in Hm. pose proof usize_large. change (2 ^ 32) with 4294967296 in *.
  assert (Hall : forall fis, (forall fi, fi ∈ fis -> fi ∈ RoundTripFrame.infos) ->
    RoundTripFrame.all_infos xxh32 data n fis = Ok tt); [|by apply Hall].
  induction fis as [|fi fis IH]; intros Hin; [done|]. cbn [RoundTripFrame.all_infos].
  rewrite frame_round_trip_passes by (lia || (apply Hin; constructor)). mstep. apply IH. intros f Hf. apply Hin. by constructor.
Qed.

(** ** The target with a dictionary *)

Lemma write_all_chunks cs (e e' : FrameEncoder VecWriter) : Forall (fun c => c <> []) cs ->
  run_calls xxh32 e (CWrite <$> cs) = Ok e' -> RoundTripFrameDict.write_chunks xxh32 e cs = Ok e'.
Proof.
  intros Hcs. revert e. induction Hcs as [|c cs Hc _ IH]; intros e; [by intros [= ->]|].
  cbn [fmap list_fmap run_calls RoundTripFrameDict.write_chunks]. intros (e1 & H1 & H2)%bind_Ok.
  rewrite (write_all_run xxh32 c e e1); [cbn [unwrap]; mstep; by apply IH|].
  destruct c; [done|]. cbn [js_calls run_calls]. by rewrite H1.
Qed.

Lemma write_calls_bytes cs : calls_bytes (CWrite <$> cs) = concat cs.
Proof. induction cs as [|c cs IH]; [done|]. unfold calls_bytes in *. cbn in *. by rewrite IH. Qed.

Lemma frame_dict_passes i : RoundTripFrameDict.target xxh32 i = Ok tt.
Proof.
  unfold RoundTripFrameDict.target. destruct (N.eqb_spec (len (RoundTripFrameDict.sample i)) 0) as [|Hs]; [done|].
  pose proof (chunk_size_bounds (RoundTripFrameDict.chunk_size_seed i)) as [Hn _]. set (n := N.max _ 64) in *. clearbody n.
  destruct (frame_data_ok (RoundTripFrameDict.sample i) (RoundTripFrameDict.data_size_seed i mod MAX_DATA_SIZE) Hs)
    as (data & -> & Hd).
  mstep. pose proof (N.mod_lt (RoundTripFrameDict.data_size_seed i) MAX_DATA_SIZE ltac:(done)) as Hm. rewrite <-Hd in Hm.
  unfold MAX_DATA_SIZE in Hm. pose proof usize_large. change (2 ^ 32) with 4294967296 in *.
  destruct (dict_window_slice (RoundTripFrameDict.dict i) (64 * 1024)) as (dict & -> & Hdict). mstep.
  case_match; [done|]. destruct (chunks_concat (length data) data n Hn (le_n _)) as [Hc Hne].
  set (id := 305419896). set (d := Some (dict, id)). set (info := FrameInfoImpl.default).
  assert (Hok : create_ok d info).
  { split; [split|]; cbn; try done; [by intros ? [= <-]|]. pose proof isize_large.
    change (2 ^ 31) with 2147483648 in *. lia. }
  destruct (fuzz_frame d info (CWrite <$> chunks (length data) data n) Hok eq_refl) as (e1 & F & H1 & H2 & H3).
  { rewrite write_calls_bytes, Hc. unfold u64_max. lia. }
  apply write_all_chunks in H1; [|done]. rewrite write_calls_bytes, Hc in H3.
  unfold FrameEncoderImpl.with_dictionary. cbn [unwrap]. mstep.
  change (set_dict dict _) with (set_dict (create_dict d)
    (FrameEncoderImpl.with_frame_info (create_info d info) ([] : VecWriter))).
  rewrite H1. cbn [unwrap]. mstep. rewrite H2. cbn [unwrap]. mstep.
  unfold RoundTripFrameDict.decoded.
  assert (Hdec : forall o, opt_limit o <= usize_max ->
    ignore (FrameDecoderImpl.read_to_end xxh32 (S (length F)) (FrameDecoderImpl.with_options (slice_reader F) o) [] 0)
      = Ok tt) by (intros o Ho; apply ignore_fresh; [done|cbn; lia]).
  unfold FrameDecoderImpl.with_dictionary.
  set (o := {| dictionary := Some (dict, id); max_output := None |}).
  change (sr_bytes (fd_r (FrameDecoderImpl.with_options (slice_reader F) o))) with F.
  pose proof (fresh_decoder (slice_reader F) o (S (length F)) (N.le_refl _) (Nat.lt_succ_diag_r _)) as Hr.
  destruct (FrameDecoderImpl.read_to_end _ _ (FrameDecoderImpl.with_options (slice_reader F) o) _ _)
    as [[[? out] ?]|?| |]; [| |done..].
  2:{ specialize (Hr _ H3). cbn -[usize_max] in Hr. lia. }
  cbn [unwrap]. mstep. rewrite (Hr _ H3), assert_eq_ok by done. mstep.
  pose proof (fun w => Hdec {| dictionary := Some (w, id); max_output := None |} (N.le_refl _)) as Hw.
  pose proof (Hdec no_options (N.le_refl _)) as Hno.
  etrans; [|exact Hno]. by rewrite Hw.
Qed.
End frames.

(** ** The C library *)

Section cpp.
Context `{T : Target} (env : Environment) (Henv : environment_ok env).
Implicit Types (data : bytes).

Lemma cpp_compress_passes data : len data <= fuzz_limit -> RoundTripCpp.compress_target env data = Ok tt.
Proof.
  intros Hd. unfold RoundTripCpp.compress_target.
  destruct (env_compress env Henv data) as (block & -> & Hl & Hb); [unfold LZ4_MAX_INPUT_SIZE; flia|]. mstep.
  case_match; [done|]. assert (Hbo : buffer_ok block).
  { assert (len data / 255 <= len data) by (apply N.Div0.div_le_upper_bound; lia). flia. }
  assert (Hdec : Decompress.decompress block (len data) = Ok data) by exact (decode_vec false [] block data Hbo Hd Hb).
  rewrite Hdec.
  cbn [unwrap]. mstep. by apply assert_eq_ok.
Qed.

Lemma cpp_decompress_passes data : len data <= fuzz_limit -> RoundTripCpp.decompress_target env data = Ok tt.
Proof.
  intros Hd. unfold RoundTripCpp.decompress_target. destruct (compress_ok data (fuzz_alloc data Hd)) as (c & -> & Hc).
  cbn [unwrap]. mstep. destruct Hc as (_ & _ & ss & last & -> & Hv & Ha & He). change (N.to_nat 0) with 0%nat in *.
  rewrite take_0 in *. cbn [app] in *. rewrite (env_decompress env Henv) by (by rewrite ?length_replicate, ?Ha).
  mstep. by apply assert_eq_ok.
Qed.
End cpp.

(** ** All targets *)

(** Bounds on the inputs: far above a fuzzer's, or those of the attributes in the
    source. *)
Definition fuzz_input_ok (i : FuzzInput) : Prop :=
  match i with
  | FuzzCompressBitflip i => len (repeated (BitFlip.data i) (BitFlip.repeat i)) <= fuzz_limit /\
      len (BitFlip.mutations i) <= fuzz_limit
  | FuzzCraftTokens i => Forall (fun t => CraftTokens.extra_lit_ext t <= 4 /\ CraftTokens.extra_match_ext t <= 4)
      (CraftTokens.tokens i)
  | FuzzDecoderReuse i | FuzzRoundTripCppCompress i | FuzzRoundTripCppDecompress i => len i <= fuzz_limit
  | FuzzDecompCorruptBlock i => len (CorruptBlock.input i) <= fuzz_limit /\ CorruptBlock.output_size i <= 65535
  | FuzzDecompCorruptFrame _ | FuzzRoundTripFrame _ | FuzzRoundTripFrameDict _ => True
  | FuzzDecompNoOutputLeak i => len (NoOutputLeak.input i) <= fuzz_limit
  | FuzzRoundTrip i => len (repeated (RoundTrip.data i) (RoundTrip.repeat i)) <= fuzz_limit
  | FuzzRoundTripDict i => len (repeated (RoundTripDict.data i) (RoundTripDict.repeat i)) <= fuzz_limit
  | FuzzRoundTripTinyTables i =>
      len (repeated (RoundTripTinyTables.data i) (RoundTripTinyTables.repeat i)) <= fuzz_limit
  | FuzzValidateBlock i => len (ValidateBlock.encoded i) <= fuzz_limit /\
      len (ValidateBlock.payload i) <= fuzz_limit /\ ValidateBlock.expected i <= 65535
  | FuzzValidateBlockDict i => len (ValidateBlockDict.encoded i) <= fuzz_limit /\
      len (ValidateBlockDict.payload i) <= fuzz_limit /\ ValidateBlockDict.expected i <= 65535
  end.

(** C35: no fuzz target fails.  For every input whose buffers have at most [2 ^ 24]
    bytes and whose numbers are within the limits of the attributes, and of any size
    for three of the targets of frames, every target runs to its end: blocks and frames of any
    bytes never make a decoder panic, all round trips succeed, also those through
    the smallest tables and those with the C library, stale output is never seen,
    a decoder that is used again reads every frame and block as a new one does,
    and a validated block decompresses. *)
Theorem fuzz_targets_pass `{T : Target} (xxh32 : bytes -> N) env i :
  environment_ok env -> fuzz_input_ok i -> fuzz_target xxh32 env i = Ok tt.
Proof.
  intros Henv. destruct i; cbn [fuzz_input_ok fuzz_target]; intros H.
  - apply bitflip_passes; apply H.
  - by apply craft_tokens_passes.
  - by apply decoder_reuse_passes.
  - apply corrupt_block_passes; apply H.
  - apply corrupt_frame_passes.
  - by apply no_output_leak_passes.
  - by apply round_trip_passes.
  - by apply cpp_compress_passes.
  - by apply cpp_decompress_passes.
  - by apply round_trip_dict_passes.
  - apply frame_target_passes.
  - apply frame_dict_passes.
  - by apply tiny_tables_passes.
  - apply validate_block_passes; apply H.
  - apply validate_block_dict_passes; apply H.
Qed.

(** An environment: buffers that grow, and a C library that stores all bytes as
    literals. *)
Definition sample_environment : Environment := {|
  io_text := fun _ => "failed to fill whole buffer"%string;
  read_room := fun sizes => 32 + foldr N.add 0 sizes;
  c_compress_to_vec := fun data => Some (encode_block [] data);
  c_decompress := fun block output => block_decode [] block
|}.

Lemma sample_environment_ok : environment_ok sample_environment.
Proof.
  split; cbn [io_text read_room c_compress_to_vec c_decompress sample_environment].
  - intros sizes. lia.
  - intros data _. exists (encode_block [] data). split; [done|]. split.
    + destruct (length_encode_len (len data)) as [Hl _]. cbn [encode_block]. unfold encode_last. len_lia.
    + by apply block_decode_encode.
  - intros ss last output Hv _ _. by apply block_decode_encode.
Qed.

Lemma fuzz_targets_pass_witness :
  fuzz_target (T:=x86_64) toy_hash sample_environment (FuzzCompressBitflip {|
    BitFlip.data := text; BitFlip.repeat := 2;
    BitFlip.mutations := [BitFlip.FlipBit x80 x03; BitFlip.InsertFF x10; BitFlip.Truncate xf0] |}) = Ok tt /\
  fuzz_target (T:=x86_64) toy_hash sample_environment (FuzzValidateBlockDict {|
    ValidateBlockDict.encoded := dict_block; ValidateBlockDict.payload := text;
    ValidateBlockDict.dict := take 20 text; ValidateBlockDict.expected := 9;
    ValidateBlockDict.mutation_index := 70; ValidateBlockDict.mutation_mask := x21;
    ValidateBlockDict.truncation := 5 |}) = Ok tt /\
  fuzz_target (T:=x86_64) toy_hash sample_environment (FuzzDecoderReuse (x12 :: x80 :: dict_block)) = Ok tt /\
  fuzz_target (T:=x86_64) toy_hash sample_environment (FuzzRoundTripCppDecompress text) = Ok tt.
Proof.
  split; [|split; [|split]]; apply (fuzz_targets_pass (T:=x86_64) toy_hash sample_environment);
    try exact sample_environment_ok; cbn [fuzz_input_ok]; try split; try split; concrete.
Defined.
