(* ===== verification/Quickstart.v ===== *)
(** * The quickstart example ([examples/quickstart.rs])

    The program of the documentation: a block, a block with a dictionary and a
    frame, each written and read back.  It ends with no failed assertion. *)

From Stdlib Require Import Ascii String.
From S2P Require Import Prelude BlockSpec Core Primitives Decompress DecompressProofs DecompressSpec HashTable Compress CompressProofs DictTableProofs EncoderSpec EncoderTheorems FrameHeader FrameIO FrameSpec FrameEncoder FrameEncoderProofs FrameSession FrameDecoder FrameDecoderSpec FrameDecoderProofs FrameDecoderStream FrameTheorems FrameCodecTheorems Bindings BindingsTheorems Fuzz FuzzReuse FuzzTheorems.

(** ** Definitions *)

Definition input : bytes := text_bytes "Hello people, what's up?".

(** A literal of JSON, with an apostrophe for each quotation mark. *)
Definition json (s : string) : bytes :=
  (fun b => if bool_decide (b = "'"%byte) then to_u8 34 else b) <$> text_bytes s.

Definition dict : bytes := json
  "{'sensor_id':'','temperature':0.0,'humidity':0.0,'timestamp':'2025-01-01T00:00:00Z','location':{'building':'','floor':0,'room':''},'status':'online'}".
Definition msg : bytes := json
  "{'sensor_id':'env-7f3a','temperature':22.4,'humidity':51.3,'timestamp':'2025-06-04T14:30:07Z','location':{'building':'HQ','floor':3,'room':'3-117'},'status':'online'}".

Section main.
Context `{T : Target} (xxh32 : bytes -> N) (env : Environment).

(** The lengths that a line prints. *)
Definition block : res Empty_set (N * N) :=
  compressed ← unwrap (Compress.compress input);
  uncompressed ← unwrap (Decompress.decompress compressed (len input));
  _ ← assert_eq input uncompressed;
  Ok (len input, len compressed).

Definition block_with_dict : res Empty_set (N * N * N) :=
  comp ← unwrap (DictCompressorNImpl.new (n:=DEFAULT_DICT_ENTRIES) dict);
  '(_, compressed) ← unwrap (DictCompressorNImpl.compress comp msg);
  no_dict ← unwrap (Compress.compress msg);
  original ← unwrap (DecompressorImpl.decompress (DecompressorImpl.with_dict dict) compressed (len msg));
  _ ← assert_eq original msg;
  Ok (len msg, len compressed, len no_dict).

(** [io::copy]: reads into a buffer that is not empty, until the end. *)
Fixpoint copy (fuel : nat) (d : FrameDecoder SliceReader) (sizes : list N) (output : bytes)
  : res (FrameDecoder SliceReader * IoError) (FrameDecoder SliceReader * bytes) :=
  match fuel with
  | O => NoFuel
  | S fuel =>
      match FrameDecoderImpl.read xxh32 (S (length (sr_bytes (fd_r d)))) d (read_room env sizes) with
      | Ok (d, []) => Ok (d, output)
      | Ok (d, b) => copy fuel d (len b :: sizes) (output ++ b)
      | Err (d, x) => if FrameDecoderImpl.is_interrupted x then copy fuel d sizes output else Err (d, x)
      | Panic => Panic
      | NoFuel => NoFuel
      end
  end.

Definition frame : res Empty_set (N * N) :=
  let encoder := FrameEncoderImpl.new ([] : VecWriter) in
  encoder ← unwrap (Bindings.write_all xxh32 (S (length input)) encoder input);
  compressed ← unwrap (FrameEncoderImpl.finish xxh32 (W:=VecWriter) encoder);
  let decoder := FrameDecoderImpl.new (slice_reader compressed) in
  '(_, output) ← unwrap (copy (S (S (length input))) decoder [] []);
  _ ← assert_eq output input;
  Ok (len output, len (compressed : bytes)).

Definition main : res Empty_set (N * N * (N * N * N) * (N * N)) :=
  b ← block; d ← block_with_dict; f ← frame; Ok (b, d, f).

(** ** The example runs *)

Lemma block_runs : returns block (fun '(n, _) => n = len input).
Proof.
  assert (Ha : alloc_ok input) by (apply fuzz_alloc; done). unfold block.
  destruct (compress_ok input Ha) as (c & -> & Hc). cbn [unwrap]. mstep.
  rewrite (decompress_block_of input c Ha Hc). cbn [unwrap]. mstep. rewrite assert_eq_ok by done. mstep. by apply returns_ok.
Qed.

Lemma block_with_dict_runs : returns block_with_dict (fun '(n, _, _) => n = len msg).
Proof.
  assert (Ha : alloc_ok msg) by (apply fuzz_alloc; done). unfold block_with_dict.
  destruct (dict_compressor_new_ok DEFAULT_DICT_ENTRIES dict eq_refl) as (c & -> & Hc). cbn [unwrap]. mstep.
  destruct (dict_compressor_compress_ok _ c msg Hc Ha) as ([c1 b] & -> & _ & Hb). cbn [unwrap]. mstep.
  destruct (compress_ok msg Ha) as (n & -> & _). cbn [unwrap]. mstep.
  unfold DecompressorImpl.decompress, DecompressorRefImpl.decompress, DecompressorRefImpl.decompress_append.
  cbn [DecompressorImpl.with_dict DecompressorRefImpl.with_dict d_dict dr_dict].
  rewrite (decode_vec true dict b msg); [|by eapply block_of_buffer|done|by apply block_of_dict]. cbn [unwrap]. mstep.
  rewrite assert_eq_ok by done. mstep. by apply returns_ok.
Qed.

Context (Henv : environment_ok env).

(** Every read but the last returns a byte. *)
Lemma copy_ok D id fuel d sizes output out : holds xxh32 D id d out -> (length out < fuel)%nat ->
  returns (copy fuel d sizes output) (fun '(_, o) => o = output ++ out).
Proof.
  revert d sizes output out. induction fuel as [|fuel IH]; intros d sizes output out Hh Hf; [lia|]. cbn [copy].
  destruct (read_holds xxh32 _ _ (S (length (sr_bytes (fd_r d)))) d out (read_room env sizes) Hh (Nat.lt_succ_diag_r _))
    as ([d1 b] & -> & out' & -> & Hh1 & _ & Hend & _).
  pose proof (env_room env Henv sizes) as Hroom. rewrite length_app in Hf. destruct b as [|x b].
  - destruct (Hend eq_refl) as [|Hnil]; [lia|]. cbn [app] in Hnil |- *. subst. rewrite app_nil_r. by apply returns_ok.
  - rewrite app_assoc. apply IH; [done|]. cbn [length] in Hf. lia.
Qed.

Lemma frame_runs : returns frame (fun '(n, _) => n = len input).
Proof.
  unfold frame. destruct (fuzz_frame xxh32 None FrameInfoImpl.default (js_calls input)) as (e1 & F & H1 & H2 & H3);
    [repeat constructor; cbn; try done; lia|done|by rewrite js_calls_bytes|].
  change (FrameEncoderImpl.new ([] : VecWriter)) with
    (set_dict [] (FrameEncoderImpl.with_frame_info FrameInfoImpl.default ([] : VecWriter))).
  cbn [create_dict create_info] in H1, H3. rewrite (write_all_run xxh32 input _ e1 H1). cbn [unwrap]. mstep. rewrite H2. cbn [unwrap]. mstep.
  rewrite js_calls_bytes in H3. set (r := slice_reader F).
  change (FrameDecoderImpl.new r) with (FrameDecoderImpl.with_options r no_options).
  destruct (copy_ok [] None (S (S (length input))) (FrameDecoderImpl.with_options r no_options) [] [] input)
    as ([d o] & -> & ->); [|lia|].
  { apply (with_options_holds xxh32 r no_options); [done|exact H3|cbn [opt_limit no_options max_output]].
    pose proof usize_large as Hu. change (2 ^ 32) with 4294967296 in Hu. transitivity 1000; [done|lia]. }
  cbn [unwrap app]. mstep. rewrite assert_eq_ok by done. mstep. by apply returns_ok.
Qed.

(** The example runs to its end on every target, with any checksum and any
    buffer sizes of the standard copy: no call panics, every [unwrap] finds a value
    and every assertion holds; it prints the lengths of its inputs. *)
Theorem quickstart_runs : returns main (fun '((n, _), (m, _, _), (k, _)) => n = len input /\ m = len msg /\ k = len input).
Proof.
  apply returns_bind. eapply returns_mono; [exact block_runs|]. intros [n c] Hn.
  apply returns_bind. eapply returns_mono; [exact block_with_dict_runs|]. intros [[m c1] c2] Hm.
  apply returns_bind. eapply returns_mono; [exact frame_runs|]. intros [k c3] Hk. by apply returns_ok.
Qed.
End main.

Lemma quickstart_runs_witness :
  returns (main (T:=x86_64) toy_hash sample_environment) (fun '((n, _), (m, _, _), (k, _)) =>
    n = len input /\ m = len msg /\ k = len input).
Proof. exact (quickstart_runs (T:=x86_64) toy_hash sample_environment sample_environment_ok). Defined.
