(* ===== verification/Bench.v ===== *)
(** * The benchmark ([crates/bench-app/src/lib.rs], [examples/lz4rip_bench.rs])

    The program that measures: it compresses and decompresses inputs with every
    codec, checks what they decode, and times both in [bench_loop].  The other
    codecs, the C functions and the clock are [Libraries].  Times are [f64], in
    the [SpecFloat] of the standard library.  The files are a function; the
    downloads and the saved rows are in [BenchCache].  The messages are left out. *)

From Stdlib Require Import Ascii String SpecFloat ZArith.
From stdpp Require Import strings pretty.
From S2P Require Import Prelude BlockSpec Core Decompress HashTable Sequences Compress DictTrainer Fuzz.

#[local] Open Scope string_scope.
#[local] Open Scope list_scope.
#[local] Open Scope N_scope.

(** ** [crates/bench-app]: the codecs as an application calls them *)

Module App.
Section app.
Context `{T : Target}.

Definition compress_into (input output : bytes) : res CompressError (bytes * N) := Compress.compress_into input output.

Definition decompress_into (input output : bytes) : res (bytes * DecompressError) (bytes * N) :=
  Decompress.decompress_into input output.

Record Compressor := { compressor : CompressorN DEFAULT_NODICT_ENTRIES }.
Record DictCompressor := { dict_compressor : DictCompressorN DEFAULT_DICT_ENTRIES }.
Record Decompressor := { decompressor : Decompress.Decompressor }.
End app.

Module CompressorImpl.
Section ops.
Context `{T : Target}.
Definition new : Compressor := {| compressor := CompressorNImpl.new |}.
Definition compress_into (c : Compressor) (input output : bytes)
  : res (Compressor * CompressError) (Compressor * bytes * N) :=
  '(c, out, n) ← map_err (fun '(c, e) => ({| compressor := c |}, e))
                   (CompressorNImpl.compress_into (compressor c) input output);
  Ok ({| compressor := c |}, out, n).
End ops.
End CompressorImpl.

Module DictCompressorImpl.
Section ops.
Context `{T : Target}.
Definition new (dict : bytes) : res CompressError DictCompressor :=
  c ← DictCompressorNImpl.new dict; Ok {| dict_compressor := c |}.
Definition compress_into (c : DictCompressor) (input output : bytes)
  : res (DictCompressor * CompressError) (DictCompressor * bytes * N) :=
  '(c, out, n) ← map_err (fun '(c, e) => ({| dict_compressor := c |}, e))
                   (DictCompressorNImpl.compress_into (dict_compressor c) input output);
  Ok ({| dict_compressor := c |}, out, n).
End ops.
End DictCompressorImpl.

Module DecompressorImpl.
Section ops.
Context `{T : Target}.
Definition with_dict (dict : bytes) : Decompressor := {| decompressor := Decompress.DecompressorImpl.with_dict dict |}.
Definition decompress_into (d : Decompressor) (input output : bytes) : res (bytes * DecompressError) (bytes * N) :=
  Decompress.DecompressorImpl.decompress_into (decompressor d) input output.
End ops.
End DecompressorImpl.
End App.

(** ** Other code *)

(** A codec: its bound for the size of a block, and its calls into a buffer, which
    return the buffer and a count; [None] is an error. *)
Record Codec := {
  max_compressed : N -> N;
  codec_compress : bytes -> bytes -> option (bytes * N);
  codec_decompress : bytes -> bytes -> option (bytes * N)
}.

(** [lz4_flex] in two configurations, the C library through [lzzzz] and through its
    streams, and the clock.  A null stream is [None].  The C functions take the
    sizes that they are passed, as [c_int]s, and return what they write.  The clock
    has a resolution: [clock_stall] is how many readings in a row may be equal. *)
Record Libraries := {
  flex : Codec;
  flex_unsafe : Codec;
  lzzzz : Codec;
  Stream : Type;
  LZ4_createStream : option Stream;
  LZ4_resetStream_fast : Stream -> Stream;
  LZ4_loadDictSlow : Stream -> bytes -> Z -> Stream;
  LZ4_attach_dictionary : Stream -> Stream -> Stream;
  LZ4_compress_fast_continue : Stream -> bytes -> bytes -> Z -> Z -> Z -> Stream * bytes * Z;
  LZ4_decompress_safe_usingDict : bytes -> bytes -> Z -> Z -> bytes -> Z -> bytes * Z;
  Clock : Type;
  clock_gettime : Clock -> N * N * Clock;
  clock_stall : nat
}.

(** [n as c_int] *)
Definition c_int (n : N) : Z :=
  let n := (Z.of_N n mod 2 ^ 32)%Z in if (n <? 2 ^ 31)%Z then n else (n - 2 ^ 32)%Z.

(** *** What they promise *)

(** [block] is a block of the format that restores [data] after [dict]. *)
Definition encodes (dict data block : bytes) : Prop :=
  exists ss last, block = encode_block ss last /\ seqs_valid dict ss /\ end_rules ss last /\
    apply_seqs dict ss ++ last = dict ++ data.

(** A call that compressed [data] into a buffer of the length of [out]. *)
Definition compressed_into (dict data out out' : bytes) (n : N) : Prop :=
  length out' = length out /\ n <= len out /\ encodes dict data (take (N.to_nat n) out').

(** A codec compresses into a buffer of its bound, which is within that of lz4rip,
    and decodes any block of the format into a buffer of the size of its data. *)
Record codec_ok (c : Codec) : Prop := {
  bound_ok n : n <= LZ4_MAX_INPUT_SIZE -> max_compressed c n <= 20 + 110 * n / 100;
  compress_codec data out : len data <= LZ4_MAX_INPUT_SIZE -> max_compressed c (len data) <= len out ->
    exists out' n, codec_compress c data out = Some (out', n) /\ compressed_into [] data out out' n;
  decompress_codec data block out : encodes [] data block -> length out = length data ->
    codec_decompress c block out = Some (data, len data)
}.

(** [LZ4_compressBound] of a size up to [LZ4_MAX_INPUT_SIZE]. *)
Definition compress_bound (n : N) : N := n + n / 255 + 16.

(** The streams of the C library, for sizes that are [c_int]s. *)
Record libraries_ok (libs : Libraries) : Prop := {
  flex_ok : codec_ok (flex libs);
  flex_unsafe_ok : codec_ok (flex_unsafe libs);
  lzzzz_ok : codec_ok (lzzzz libs);
  lzzzz_bound n : n <= LZ4_MAX_INPUT_SIZE -> max_compressed (lzzzz libs) n = compress_bound n;
  create_ok : is_Some (LZ4_createStream libs);
  compress_stream stream data out : len data <= LZ4_MAX_INPUT_SIZE ->
    compress_bound (len data) <= len out < 2 ^ 31 ->
    exists stream' out' n,
      LZ4_compress_fast_continue libs (LZ4_resetStream_fast libs stream) data out (c_int (len data)) (c_int (len out)) 1
        = (stream', out', Z.of_N n) /\ 0 < n /\ compressed_into [] data out out' n;
  compress_dict stream stream' dict data out : len data <= LZ4_MAX_INPUT_SIZE -> len dict < 2 ^ 31 ->
    compress_bound (len data) <= len out < 2 ^ 31 ->
    exists stream'' out' n,
      LZ4_compress_fast_continue libs
        (LZ4_attach_dictionary libs (LZ4_resetStream_fast libs stream)
           (LZ4_loadDictSlow libs stream' dict (c_int (len dict))))
        data out (c_int (len data)) (c_int (len out)) 1
        = (stream'', out', Z.of_N n) /\ 0 < n /\ compressed_into dict data out out' n;
  decompress_dict dict data block out : encodes dict data block -> length out = length data ->
    len dict < 2 ^ 31 -> len data <= LZ4_MAX_INPUT_SIZE -> len block < 2 ^ 31 ->
    LZ4_decompress_safe_usingDict libs block out (c_int (len block)) (c_int (len out)) dict (c_int (len dict))
      = (data, Z.of_N (len data))
}.

(** The next [n] readings of the clock do not go back below [last] and fit 64 bits;
    it is still [last] for [wait] readings at most, and a later value for no more
    than [clock_stall] after the first. *)
Fixpoint ticks (libs : Libraries) (n wait : nat) (last : N) (k : Clock libs) : Prop :=
  match n with
  | O => True
  | S n =>
      let '(tv_sec, tv_nsec, k) := clock_gettime libs k in
      let now := tv_sec * 1000000000 + tv_nsec in
      now <= u64_max /\
      (last < now /\ ticks libs n (clock_stall libs) now k \/
       now = last /\ match wait with O => False | S wait => ticks libs n wait now k end)
  end.

(** A clock of CPU time that goes on, with a resolution that [2 ^ 17] readings
    exceed. *)
Definition steady (libs : Libraries) (n : nat) (last : N) (k : Clock libs) : Prop :=
  (N.of_nat (clock_stall libs) < 2 ^ 17) /\ ticks libs n (clock_stall libs) last k.

(** ** [f64] *)

Definition f64 := spec_float.
Definition f64_of (n : N) : f64 := binary_normalize 53 1024 (Z.of_N n) 0 false.
Definition f64_div : f64 -> f64 -> f64 := SFdiv 53 1024.
Definition f64_MAX : f64 := S754_finite false 9007199254740991 971.

Record BenchResult := {
  codec : string;
  input_name : string;
  input_size : N;
  compressed_size : N;
  compress_ns : f64;
  decompress_ns : f64
}.

(** A [for] loop that changes a state. *)
Fixpoint for_each {A St} (body : A -> St -> res Empty_set St) (l : list A) (s : St) : res Empty_set St :=
  match l with [] => Ok s | x :: l => s ← body x s; for_each body l s end.

(** [s.contains(t)] *)
Definition contains (t s : string) : bool := match String.index 0 t s with Some _ => true | None => false end.

Section bench.
Context `{T : Target} (libs : Libraries).

(** ** Timing *)

Definition MIN_BATCH_NS : N := 100000.

Definition cpu_nanos (k : Clock libs) : res Empty_set (N * Clock libs) :=
  let '(tv_sec, tv_nsec, k) := clock_gettime libs k in
  now ← checked_sum u64_max (tv_sec * 1000000000) tv_nsec; Ok (now, k).

(** [cpu_nanos() - start] *)
Definition elapsed (start : N) (k : Clock libs) : res Empty_set (N * Clock libs) :=
  '(now, k) ← cpu_nanos k; d ← usub now start; Ok (d, k).

Section loop.
Context {St : Type} (f : St -> res Empty_set St).

Fixpoint times (n : nat) (s : St) : res Empty_set St :=
  match n with O => Ok s | S n => s ← f s; times n s end.

(** The batch is doubled until it runs long enough. *)
Fixpoint calibrate (fuel : nat) (batch : N) (s : St) (k : Clock libs) : res Empty_set (N * St * Clock libs) :=
  match fuel with
  | O => NoFuel
  | S fuel =>
      '(start, k) ← cpu_nanos k;
      s ← times (N.to_nat batch) s;
      '(d, k) ← elapsed start k;
      if (MIN_BATCH_NS <=? d) || (2 ^ 20 <=? batch) then Ok (batch, s, k) else calibrate fuel (batch * 2) s k
  end.

(** Batches until [target_ns] have passed. *)
Fixpoint sample (fuel : nat) (target_ns start batch iters : N) (s : St) (k : Clock libs)
  : res Empty_set (N * St * Clock libs) :=
  match fuel with
  | O => NoFuel
  | S fuel =>
      s ← times (N.to_nat batch) s;
      iters ← checked_sum u64_max iters batch;
      '(d, k) ← elapsed start k;
      if target_ns <=? d then Ok (iters, s, k) else sample fuel target_ns start batch iters s k
  end.

Fixpoint bench_rounds (rounds : nat) (target_ns batch : N) (best : f64) (s : St) (k : Clock libs)
  : res Empty_set (f64 * St * Clock libs) :=
  match rounds with
  | O => Ok (best, s, k)
  | S rounds =>
      '(start, k) ← cpu_nanos k;
      '(iters, s, k) ← sample (S (N.to_nat target_ns) * S (clock_stall libs)) target_ns start batch 0 s k;
      '(elapsed, k) ← elapsed start k;
      let ns_per_op := f64_div (f64_of elapsed) (f64_of iters) in
      let best := if SFltb ns_per_op best then ns_per_op else best in
      bench_rounds rounds target_ns batch best s k
  end.

(** The calibration ends at a batch of [2^20]. *)
Definition bench_loop (warmup : nat) (target_ns : N) (rounds : nat) (s : St) (k : Clock libs)
  : res Empty_set (f64 * St * Clock libs) :=
  s ← times warmup s;
  '(batch, s, k) ← calibrate 21 1 s k;
  bench_rounds rounds target_ns batch f64_MAX s k.
End loop.

(** The C library with a dictionary. *)
Record CDict := { work : Stream libs; dict_stream : Stream libs; cd_dict : bytes }.

Definition CDict_new (dict : bytes) : res Empty_set CDict :=
  work ← or_panic (LZ4_createStream libs);
  dict_stream ← or_panic (LZ4_createStream libs);
  Ok {| work := work; dict_stream := LZ4_loadDictSlow libs dict_stream dict (c_int (len dict)); cd_dict := dict |}.

Definition CDict_compress (c : CDict) (src dst : bytes) : res Empty_set (CDict * bytes * N) :=
  let work := LZ4_attach_dictionary libs (LZ4_resetStream_fast libs (work c)) (dict_stream c) in
  let '(work, dst, n) := LZ4_compress_fast_continue libs work src dst (c_int (len src)) (c_int (len dst)) 1 in
  _ ← assert (0 <? n)%Z;
  Ok ({| work := work; dict_stream := dict_stream c; cd_dict := cd_dict c |}, dst, Z.to_N n).

Definition CDict_decompress (c : CDict) (src dst : bytes) : bytes * Z :=
  LZ4_decompress_safe_usingDict libs src dst (c_int (len src)) (c_int (len dst)) (cd_dict c) (c_int (len (cd_dict c))).

Definition CDict_roundtrip (c : CDict) (data comp_buf decomp_buf : bytes)
  : res Empty_set (CDict * bytes * bytes * bytes) :=
  '(c, comp_buf, n) ← CDict_compress c data comp_buf;
  compressed ← slice comp_buf 0 n;
  let '(decomp_buf, m) := CDict_decompress c compressed decomp_buf in
  _ ← assert_eq m (c_int (len data));
  decoded ← slice decomp_buf 0 (len data);
  _ ← assert_eq decoded data;
  Ok (c, comp_buf, decomp_buf, compressed).

(** ** One input *)

(** [let _ =] on a call into a buffer: a call that compresses fails before it
    writes. *)
Definition keep_buffer {E} (old : bytes) (m : res E (bytes * N)) : res Empty_set bytes :=
  match m with Ok (b, _) => Ok b | Err _ => Ok old | Panic => Panic | NoFuel => NoFuel end.
Definition keep_output {E} (m : res (bytes * E) (bytes * N)) : res Empty_set bytes :=
  match m with Ok (b, _) | Err (b, _) => Ok b | Panic => Panic | NoFuel => NoFuel end.
Definition keep_state {S E} (old : bytes) (m : res (S * E) (S * bytes * N)) : res Empty_set (S * bytes) :=
  match m with Ok (s, b, _) => Ok (s, b) | Err (s, _) => Ok (s, old) | Panic => Panic | NoFuel => NoFuel end.
Definition keep_option (old : bytes) (m : option (bytes * N)) : res Empty_set bytes :=
  Ok (match m with Some (b, _) => b | None => old end).

Definition LZ4RIP_CODEC : string := "lz4rip".
Definition LZ4RIP_DICT_CODEC : string := "lz4rip (dict 2K)".

Definition zeroed (n : N) : bytes := replicate (N.to_nat n) x00.

Definition bench_lz4rip (data : bytes) (name : string) (target_ns : N) (k : Clock libs)
  : res Empty_set (BenchResult * Clock libs) :=
  max_out ← get_maximum_output_size (len data);
  '(comp_buf, comp_len) ← unwrap (App.compress_into data (zeroed max_out));
  compressed ← slice comp_buf 0 comp_len;
  '(c_ns, _, k) ← bench_loop (fun b => keep_buffer b (App.compress_into data b)) 3 target_ns 10 comp_buf k;
  '(d_ns, _, k) ← bench_loop (fun b => keep_output (App.decompress_into compressed b)) 3 target_ns 10
                    (zeroed (len data)) k;
  Ok ({| codec := LZ4RIP_CODEC; input_name := name; input_size := len data; compressed_size := comp_len;
         compress_ns := c_ns; decompress_ns := d_ns |}, k).

Definition bench_codec (c : Codec) (codec_name : string) (data : bytes) (name : string) (target_ns : N)
    (k : Clock libs) : res Empty_set (BenchResult * Clock libs) :=
  '(comp_buf, comp_len) ← or_panic (codec_compress c data (zeroed (max_compressed c (len data))));
  compressed ← slice comp_buf 0 comp_len;
  '(c_ns, _, k) ← bench_loop (fun b => keep_option b (codec_compress c data b)) 3 target_ns 10 comp_buf k;
  '(d_ns, _, k) ← bench_loop (fun b => keep_option b (codec_decompress c compressed b)) 3 target_ns 10
                    (zeroed (len data)) k;
  Ok ({| codec := codec_name; input_name := name; input_size := len data; compressed_size := comp_len;
         compress_ns := c_ns; decompress_ns := d_ns |}, k).

Definition bench_lz4_flex_upstream := bench_codec (flex libs) "lz4_flex".
Definition bench_lz4_flex_unsafe := bench_codec (flex_unsafe libs) "lz4_flex unsafe".
Definition bench_c_lz4 := bench_codec (lzzzz libs) "C lz4".

Definition bench_lz4rip_dict (data dict : bytes) (name : string) (target_ns : N) (k : Clock libs)
  : res Empty_set (BenchResult * Clock libs) :=
  compressor ← unwrap (App.DictCompressorImpl.new dict);
  max_out ← get_maximum_output_size (len data);
  '(compressor, comp_buf, comp_len) ←
    unwrap (App.DictCompressorImpl.compress_into compressor data (zeroed max_out));
  compressed ← slice comp_buf 0 comp_len;
  let decompressor := App.DecompressorImpl.with_dict dict in
  '(decomp_buf, check) ←
    unwrap (App.DecompressorImpl.decompress_into decompressor compressed (zeroed (len data)));
  _ ← assert_eq check (len data);
  _ ← assert_eq decomp_buf data;
  '(c_ns, _, k) ← bench_loop (fun '(c, b) => keep_state b (App.DictCompressorImpl.compress_into c data b))
                    3 target_ns 10 (compressor, comp_buf) k;
  '(d_ns, _, k) ← bench_loop (fun b => keep_output (App.DecompressorImpl.decompress_into decompressor compressed b))
                    3 target_ns 10 decomp_buf k;
  Ok ({| codec := LZ4RIP_DICT_CODEC; input_name := name; input_size := len data; compressed_size := comp_len;
         compress_ns := c_ns; decompress_ns := d_ns |}, k).

Definition bench_c_lz4_dict (data dict : bytes) (name : string) (target_ns : N) (k : Clock libs)
  : res Empty_set (BenchResult * Clock libs) :=
  c_dict ← CDict_new dict;
  '(c_dict, comp_buf, decomp_buf, compressed) ←
    CDict_roundtrip c_dict data (zeroed (max_compressed (lzzzz libs) (len data))) (zeroed (len data));
  '(c_ns, s, k) ← bench_loop (fun '(c, b) => '(c, b, _) ← CDict_compress c data b; Ok (c, b))
                    3 target_ns 10 (c_dict, comp_buf) k;
  '(d_ns, _, k) ← bench_loop (fun b => Ok (fst (CDict_decompress (fst s) compressed b))) 3 target_ns 10 decomp_buf k;
  Ok ({| codec := "C lz4 (dict 2K)"; input_name := name; input_size := len data; compressed_size := len compressed;
         compress_ns := c_ns; decompress_ns := d_ns |}, k).

(** ** Many messages *)

Definition SLICES : N := 64.

(** [source.chunks_exact(size).take(SLICES)] *)
Definition rotating_slices (source : bytes) (size : N) : list bytes :=
  (fun i => sub source (N.of_nat i * size) size) <$> seq 0 (N.to_nat (N.min SLICES (len source / size))).

Definition prefixed_input_name (name : string) (size : N) : string := name +:+ "_" +:+ pretty size.

(** [blocks.iter().map(Vec::len).sum()] *)
Fixpoint total_len (blocks : list bytes) : res Empty_set N :=
  match blocks with [] => Ok 0 | b :: blocks => n ← total_len blocks; checked_sum usize_max (len b) n end.

Definition per_message (codec name : string) (slices blocks : list bytes) (compress_ns decompress_ns : f64)
  : res Empty_set BenchResult :=
  let n := len slices in
  total ← total_len blocks;
  first ← index slices 0;
  total ← checked_sum usize_max total (n / 2);
  Ok {| codec := codec; input_name := name; input_size := len first; compressed_size := total / n;
        compress_ns := f64_div compress_ns (f64_of n); decompress_ns := f64_div decompress_ns (f64_of n) |}.

Section encode.
Context {St : Type} (compress : St -> bytes -> bytes -> res Empty_set (St * bytes * N)).

Fixpoint collect (slices : list bytes) (s : St) (out : bytes) : res Empty_set (list bytes * St * bytes) :=
  match slices with
  | [] => Ok ([], s, out)
  | d :: slices =>
      '(s, out, n) ← compress s d out;
      block ← slice out 0 n;
      '(blocks, s, out) ← collect slices s out;
      Ok (block :: blocks, s, out)
  end.

Definition time_encode (slices : list bytes) (s : St) (out : bytes) (target_ns : N) (k : Clock libs)
  : res Empty_set (f64 * list bytes * St * Clock libs) :=
  '(blocks, s, out) ← collect slices s out;
  '(ns, (s, _), k) ← bench_loop (for_each (fun d '(s, out) => '(s, out, _) ← compress s d out; Ok (s, out)) slices)
                       3 target_ns 10 (s, out) k;
  Ok (ns, blocks, s, k).
End encode.

(** A decoder that has no state of its own. *)
Definition time_decode (blocks slices : list bytes) (target_ns : N)
    (decode : bytes -> bytes -> res Empty_set (bytes * N)) (k : Clock libs) : res Empty_set (f64 * Clock libs) :=
  first ← index slices 0;
  out ← for_each (fun '(b, s) out =>
          '(out, n) ← decode b out;
          _ ← assert_eq n (len s);
          _ ← assert_eq out s;
          Ok out) (zip blocks slices) (zeroed (len first));
  '(ns, _, k) ← bench_loop (for_each (fun b out => '(out, _) ← decode b out; Ok out) blocks) 3 target_ns 10 out k;
  Ok (ns, k).

(** [|d, o| compress_into(d, o).unwrap()] and the like *)
Definition stateless (compress : bytes -> bytes -> option (bytes * N)) (_ : unit) (d o : bytes)
  : res Empty_set (unit * bytes * N) := '(o, n) ← or_panic (compress d o); Ok (tt, o, n).
Definition c_compress (stream : Stream libs) (data out : bytes) : res Empty_set (Stream libs * bytes * N) :=
  let stream := LZ4_resetStream_fast libs stream in
  let '(stream, out, n) := LZ4_compress_fast_continue libs stream data out (c_int (len data)) (c_int (len out)) 1 in
  _ ← assert (0 <? n)%Z; Ok (stream, out, Z.to_N n).

(** The arm of C lz4 writes [time_encode] out. *)
Definition small_encode (codec : string) (slices : list bytes) (target_ns : N) (k : Clock libs)
  : res Empty_set (f64 * list bytes * Clock libs) :=
  first ← index slices 0;
  max_out ← get_maximum_output_size (len first);
  let out := zeroed max_out in
  if bool_decide (codec = "C lz4") then
    stream ← or_panic (LZ4_createStream libs);
    '(ns, blocks, _, k) ← time_encode c_compress slices stream out target_ns k; Ok (ns, blocks, k)
  else if bool_decide (codec = "lz4_flex unsafe") then
    '(ns, blocks, _, k) ← time_encode (stateless (codec_compress (flex_unsafe libs))) slices tt out target_ns k;
    Ok (ns, blocks, k)
  else if bool_decide (codec = "lz4_flex") then
    '(ns, blocks, _, k) ← time_encode (stateless (codec_compress (flex libs))) slices tt out target_ns k;
    Ok (ns, blocks, k)
  else
    '(ns, blocks, _, k) ← time_encode (fun c d o => unwrap (App.CompressorImpl.compress_into c d o)) slices
                            App.CompressorImpl.new out target_ns k;
    Ok (ns, blocks, k).

Definition small_decode (codec : string) (blocks slices : list bytes) (target_ns : N) (k : Clock libs)
  : res Empty_set (f64 * Clock libs) :=
  if bool_decide (codec = "C lz4") then
    time_decode blocks slices target_ns (fun b o => or_panic (codec_decompress (lzzzz libs) b o)) k
  else if bool_decide (codec = "lz4_flex unsafe") then
    time_decode blocks slices target_ns (fun b o => or_panic (codec_decompress (flex_unsafe libs) b o)) k
  else if bool_decide (codec = "lz4_flex") then
    time_decode blocks slices target_ns (fun b o => or_panic (codec_decompress (flex libs) b o)) k
  else time_decode blocks slices target_ns (fun b o => unwrap (App.decompress_into b o)) k.

Definition dict_encode_decode (codec : string) (dict : bytes) (slices : list bytes) (target_ns : N) (k : Clock libs)
  : res Empty_set (f64 * f64 * list bytes * Clock libs) :=
  first ← index slices 0;
  max_out ← get_maximum_output_size (len first);
  let out := zeroed max_out in
  if String.prefix "C lz4" codec then
    c_dict ← CDict_new dict;
    '(enc, blocks, c_dict, k) ← time_encode CDict_compress slices c_dict out target_ns k;
    '(dec, k) ← time_decode blocks slices target_ns (fun b o =>
        let '(o, n) := CDict_decompress c_dict b o in
        _ ← assert (0 <=? n)%Z; Ok (o, Z.to_N n)) k;
    Ok (enc, dec, blocks, k)
  else
    compressor ← unwrap (App.DictCompressorImpl.new dict);
    let decompressor := App.DecompressorImpl.with_dict dict in
    '(enc, blocks, _, k) ← time_encode (fun c d o => unwrap (App.DictCompressorImpl.compress_into c d o)) slices
                             compressor out target_ns k;
    '(dec, k) ← time_decode blocks slices target_ns (fun b o =>
        unwrap (App.DecompressorImpl.decompress_into decompressor b o)) k;
    Ok (enc, dec, blocks, k).

(** ** The runs *)

Definition TARGET_NS : N := 20000000.

(** [only.is_empty() || only.iter().any(|o| codec.contains(o))] *)
Definition selected (only : list string) (codec : string) : bool :=
  match only with [] => true | _ => existsb (fun o => contains o codec) only end.

Definition train_silesia_dict_from_inputs (inputs : list (string * bytes)) : res Empty_set bytes :=
  trainer ← for_each (fun '(_, data) trainer =>
      let sample_len := N.min 1024 (len data) in
      if sample_len <? 4 then Ok trainer
      else
        let start := (len data - sample_len) / 2 in
        s ← slice data start (start + sample_len);
        DictTrainerImpl.add_sample trainer s) inputs (DictTrainerImpl.new 2048);
  DictTrainerImpl.train trainer.

Definition SWEEP_SIZES : list N :=
  [64; 128; 256; 512; 1024; 2048; 4096; 8192; 16384; 32768; 65536; 131072; 262144; 524288; 1048576].
Definition SMALL_PREFIXES : list string := ["dickens"; "nci"; "xml"; "x-ray"].
Definition SMALL_SIZES : list N :=
  [512; 1024; 2048; 4096; 8192; 16384; 32768; 65536; 131072; 262144; 524288; 1048576].
Definition STRUCTURED_SIZES : list N := [256; 512; 1024; 2048; 4096; 8192].
Definition STRUCTURED_CODECS : list string := ["C lz4"; "lz4rip"; "lz4_flex unsafe"; "lz4_flex"].
Definition SWEEP_CODECS : list string := ["lz4rip"; "lz4rip (dict)"; "C lz4"; "C lz4 (dict)"].

(** The rows so far and the clock. *)
Definition progress : Type := list BenchResult * Clock libs.

Definition run_sweep (dict : bytes) (inputs : list (string * bytes)) (k : Clock libs) : res Empty_set progress :=
  for_each (fun size => for_each (fun '(source_name, source) '(rows, k) =>
    let slices := rotating_slices source size in
    match slices with
    | [] => Ok (rows, k)
    | _ =>
        let name := prefixed_input_name source_name size in
        for_each (fun codec '(rows, k) =>
          '(compress_ns, decompress_ns, blocks, k) ←
            (if contains "dict" codec then dict_encode_decode codec dict slices TARGET_NS k
             else
               '(enc, blocks, k) ← small_encode codec slices TARGET_NS k;
               '(dec, k) ← small_decode codec blocks slices TARGET_NS k;
               Ok (enc, dec, blocks, k));
          r ← per_message codec name slices blocks compress_ns decompress_ns;
          Ok (rows ++ [r], k)) SWEEP_CODECS (rows, k)
    end) inputs) SWEEP_SIZES ([], k).

Definition run_small (only : list string) (inputs : list (string * bytes)) (k : Clock libs) : res Empty_set progress :=
  for_each (fun '(source_name, source) '(rows, k) =>
    if negb (bool_decide (source_name ∈ SMALL_PREFIXES)) then Ok (rows, k) else
    for_each (fun size '(rows, k) =>
      let slices := rotating_slices source size in
      match slices with
      | [] => Ok (rows, k)
      | _ =>
          let name := prefixed_input_name source_name size in
          let total_in := size * len slices in
          '(_, c_blocks, k) ← small_encode "C lz4" slices (TARGET_NS / 10) k;
          for_each (fun codec '(rows, k) =>
            if negb (selected only codec) then Ok (rows, k) else
            '(compress_ns, own, k) ← small_encode codec slices TARGET_NS k;
            compressed_size ← total_len own;
            let row codec decompress_ns :=
              {| codec := codec; input_name := name; input_size := total_in; compressed_size := compressed_size;
                 compress_ns := compress_ns; decompress_ns := decompress_ns |} in
            '(rows, k) ← (if negb (bool_decide (codec = "C lz4")) then
                            '(own_ns, k) ← small_decode codec own slices TARGET_NS k;
                            Ok (rows ++ [row (codec +:+ " (own)") own_ns], k)
                          else Ok (rows, k));
            '(c_ns, k) ← small_decode codec c_blocks slices TARGET_NS k;
            Ok (rows ++ [row codec c_ns], k))
            [LZ4RIP_CODEC; "C lz4"; "lz4_flex unsafe"; "lz4_flex"] (rows, k)
      end) SMALL_SIZES (rows, k)) inputs ([], k).

Definition run_structured (only : list string) (inputs : list (string * bytes)) (k : Clock libs)
  : res Empty_set progress :=
  for_each (fun '(source_name, source) => for_each (fun size '(rows, k) =>
    let slices := rotating_slices source size in
    match slices with
    | [] => Ok (rows, k)
    | _ =>
        let name := prefixed_input_name source_name size in
        for_each (fun codec '(rows, k) =>
          if negb (selected only codec) then Ok (rows, k) else
          '(compress_ns, blocks, k) ← small_encode codec slices TARGET_NS k;
          '(decompress_ns, k) ← small_decode codec blocks slices TARGET_NS k;
          r ← per_message codec name slices blocks compress_ns decompress_ns;
          Ok (rows ++ [r], k)) STRUCTURED_CODECS (rows, k)
    end) STRUCTURED_SIZES) inputs ([], k).

Definition run_structured_dict (only : list string) (inputs : list (string * bytes)) (dict : bytes) (k : Clock libs)
  : res Empty_set progress :=
  for_each (fun '(source_name, source) => for_each (fun size '(rows, k) =>
    let slices := rotating_slices source size in
    match slices with
    | [] => Ok (rows, k)
    | _ =>
        let name := prefixed_input_name source_name size in
        for_each (fun codec '(rows, k) =>
          if negb (selected only codec) then Ok (rows, k) else
          '(compress_ns, decompress_ns, blocks, k) ← dict_encode_decode codec dict slices TARGET_NS k;
          r ← per_message codec name slices blocks compress_ns decompress_ns;
          Ok (rows ++ [r], k)) ["C lz4 (dict 2K)"; "lz4rip (dict 2K)"] (rows, k)
    end) STRUCTURED_SIZES) inputs ([], k).
End bench.

(** ** [main] *)

Record Args := {
  only : list string;
  dict_path : option string;
  dict_silesia : bool;
  sweep_dict : option string;
  structured : bool;
  structured_dict : bool;
  small : bool;
  file_filter : list string;
  extra_files : list string
}.

Definition no_args : Args :=
  {| only := []; dict_path := None; dict_silesia := false; sweep_dict := None; structured := false;
     structured_dict := false; small := false; file_filter := []; extra_files := [] |}.

Definition set_only v a : Args :=
  {| only := v; dict_path := dict_path a; dict_silesia := dict_silesia a; sweep_dict := sweep_dict a;
     structured := structured a; structured_dict := structured_dict a; small := small a; file_filter := file_filter a; extra_files := extra_files a |}.
Definition set_dict_path v a : Args :=
  {| only := only a; dict_path := v; dict_silesia := dict_silesia a; sweep_dict := sweep_dict a;
     structured := structured a; structured_dict := structured_dict a; small := small a; file_filter := file_filter a; extra_files := extra_files a |}.
Definition set_dict_silesia v a : Args :=
  {| only := only a; dict_path := dict_path a; dict_silesia := v; sweep_dict := sweep_dict a;
     structured := structured a; structured_dict := structured_dict a; small := small a; file_filter := file_filter a; extra_files := extra_files a |}.
Definition set_sweep_dict v a : Args :=
  {| only := only a; dict_path := dict_path a; dict_silesia := dict_silesia a; sweep_dict := v;
     structured := structured a; structured_dict := structured_dict a; small := small a; file_filter := file_filter a; extra_files := extra_files a |}.
Definition set_structured v a : Args :=
  {| only := only a; dict_path := dict_path a; dict_silesia := dict_silesia a; sweep_dict := sweep_dict a;
     structured := v; structured_dict := structured_dict a; small := small a; file_filter := file_filter a; extra_files := extra_files a |}.
Definition set_structured_dict v a : Args :=
  {| only := only a; dict_path := dict_path a; dict_silesia := dict_silesia a; sweep_dict := sweep_dict a;
     structured := structured a; structured_dict := v; small := small a; file_filter := file_filter a; extra_files := extra_files a |}.
Definition set_small v a : Args :=
  {| only := only a; dict_path := dict_path a; dict_silesia := dict_silesia a; sweep_dict := sweep_dict a;
     structured := structured a; structured_dict := structured_dict a; small := v; file_filter := file_filter a; extra_files := extra_files a |}.
Definition set_file_filter v a : Args :=
  {| only := only a; dict_path := dict_path a; dict_silesia := dict_silesia a; sweep_dict := sweep_dict a;
     structured := structured a; structured_dict := structured_dict a; small := small a; file_filter := v; extra_files := extra_files a |}.
Definition set_extra_files v a : Args :=
  {| only := only a; dict_path := dict_path a; dict_silesia := dict_silesia a; sweep_dict := sweep_dict a;
     structured := structured a; structured_dict := structured_dict a; small := small a; file_filter := file_filter a; extra_files := v |}.

(** [s.split(sep)] *)
Fixpoint split (sep : ascii) (s : string) : list string :=
  match s with
  | EmptyString => [EmptyString]
  | String c s =>
      if bool_decide (c = sep) then EmptyString :: split sep s
      else match split sep s with [] => [] | piece :: pieces => String c piece :: pieces end
  end.

(** An option at the end that lacks its value is ignored. *)
Fixpoint parse_args (args : list string) (a : Args) : Args :=
  match args with
  | [] => a
  | arg :: rest =>
      let with_value (set : string -> Args) := match rest with [] => a | v :: rest => parse_args rest (set v) end in
      if bool_decide (arg = "--impl") then with_value (fun v => set_only (only a ++ [v]) a)
      else if bool_decide (arg = "--dict") then with_value (fun v => set_dict_path (Some v) a)
      else if bool_decide (arg = "--dict-silesia") then parse_args rest (set_dict_silesia true a)
      else if bool_decide (arg = "--sweep") then
        match rest with
        | v :: rest' =>
            if String.prefix "-" v then parse_args rest (set_sweep_dict (Some EmptyString) a)
            else parse_args rest' (set_sweep_dict (Some v) a)
        | [] => set_sweep_dict (Some EmptyString) a
        end
      else if bool_decide (arg = "--structured") then parse_args rest (set_structured true a)
      else if bool_decide (arg = "--structured-dict") then parse_args rest (set_structured_dict true a)
      else if bool_decide (arg = "--small") then parse_args rest (set_small true a)
      else if bool_decide (arg = "--files") then
        with_value (fun v => set_file_filter (file_filter a ++ split "," v) a)
      else if bool_decide (arg = "--extra") then with_value (fun v => set_extra_files (extra_files a ++ [v]) a)
      else parse_args rest a
  end.

Definition CODECS : list string := ["C lz4"; "lz4rip"; "lz4_flex"; "lz4_flex unsafe"].
Definition DICT_CODECS : list string := ["C lz4 (dict 2K)"; "lz4rip (dict 2K)"].

(** The paths of [SILESIA_DOWNLOADS], which are [ALL_FILES]. *)
Definition ALL_FILES : list string :=
  ["corpus/silesia/dickens"; "corpus/silesia/mozilla"; "corpus/silesia/mr"; "corpus/silesia/nci";
   "corpus/silesia/ooffice"; "corpus/silesia/osdb"; "corpus/silesia/reymont"; "corpus/silesia/samba";
   "corpus/silesia/sao"; "corpus/silesia/webster"; "corpus/silesia/x-ray"; "corpus/silesia/xml"].

Section main.
Context `{T : Target} (libs : Libraries) (read_file : string -> option bytes).

(** [path.rsplit('/').next()] *)
Definition file_name (path : string) : string := default EmptyString (list.last (split "/" path)).

Definition load_silesia_inputs : list (string * bytes) :=
  omap (fun path => data ← read_file path; Some (file_name path, data)) ALL_FILES.

Definition bench_one (codec : string) (data : bytes) (dict_data : option bytes) (name : string) (k : Clock libs)
  : res Empty_set (BenchResult * Clock libs) :=
  if bool_decide (codec = LZ4RIP_CODEC) then bench_lz4rip libs data name TARGET_NS k
  else if bool_decide (codec = LZ4RIP_DICT_CODEC) then
    dict ← or_panic dict_data; bench_lz4rip_dict libs data dict name TARGET_NS k
  else if bool_decide (codec = "C lz4") then bench_c_lz4 libs data name TARGET_NS k
  else if bool_decide (codec = "lz4_flex") then bench_lz4_flex_upstream libs data name TARGET_NS k
  else if bool_decide (codec = "lz4_flex unsafe") then bench_lz4_flex_unsafe libs data name TARGET_NS k
  else if bool_decide (codec = "C lz4 (dict 2K)") then
    dict ← or_panic dict_data; bench_c_lz4_dict libs data dict name TARGET_NS k
  else Panic.

(** The loop over whole files.  A codec that is not asked for gets its cached row,
    if it has one. *)
Definition run_files (a : Args) (dict_data : option bytes) (codecs : list string) (cached : list BenchResult)
    (k : Clock libs) : res Empty_set (progress libs) :=
  for_each (fun path '(rows, k) =>
    let name := file_name path in
    let wanted := match file_filter a with [] => true | filter => bool_decide (name ∈ filter) end in
    if negb wanted then Ok (rows, k) else
    match read_file path with
    | None => Ok (rows, k)
    | Some data =>
        for_each (fun codec '(rows, k) =>
          let row := find (fun c => bool_decide (Bench.codec c = codec) && bool_decide (input_name c = name)) cached in
          match (if selected (only a) codec then None else row) with
          | Some c => Ok (rows ++ [c], k)
          | None => '(r, k) ← bench_one codec data dict_data name k; Ok (rows ++ [r], k)
          end) codecs (rows, k)
    end) (ALL_FILES ++ extra_files a) ([], k).

(** Where a run saves its rows: in a directory of results, or in the cache of some
    codecs. *)
Inductive Destination := Results (subdir : string) | Cache (codecs : list string).

(** [main] for the arguments after the name of the program and the results of
    [load_cache], up to the files that it writes. *)
Definition measure (args : list string) (load_cache : list string -> list BenchResult) (k : Clock libs)
  : res Empty_set (Destination * list BenchResult * Clock libs) :=
  let a := parse_args args no_args in
  if small a then
    '(rows, k) ← run_small libs (only a) load_silesia_inputs k; Ok (Results "small", rows, k)
  else if structured a then
    '(rows, k) ← run_structured libs (only a) load_silesia_inputs k; Ok (Results "structured", rows, k)
  else if structured_dict a then
    dict ← train_silesia_dict_from_inputs load_silesia_inputs;
    '(rows, k) ← run_structured_dict libs (only a) load_silesia_inputs dict k; Ok (Results "structured", rows, k)
  else match sweep_dict a with
  | Some dp =>
      dict ← (if bool_decide (dp = EmptyString) then train_silesia_dict_from_inputs load_silesia_inputs
              else or_panic (read_file dp));
      '(rows, k) ← run_sweep libs dict load_silesia_inputs k; Ok (Results "sweep", rows, k)
  | None =>
      dict_data ← (if dict_silesia a then dict ← train_silesia_dict_from_inputs load_silesia_inputs; Ok (Some dict)
                   else match dict_path a with Some p => dict ← or_panic (read_file p); Ok (Some dict) | None => Ok None end);
      let codecs := match dict_data with Some _ => DICT_CODECS | None => CODECS end in
      '(rows, k) ← run_files a dict_data codecs (load_cache codecs) k; Ok (Cache codecs, rows, k)
  end.
End main.
