(* ===== verification/BenchText.v ===== *)
(** * The rows of the benchmark as text ([examples/lz4rip_bench.rs])

    [BenchResult::to_json] and [BenchResult::from_json], with the parts of the
    standard library that they use: decimal integers, [f64] with one decimal and
    from a decimal, and searches in strings.  Text is the list of the bytes of a
    string in UTF-8.  A row that was written is read back with its times rounded to
    tenths. *)

From Stdlib Require Import Ascii String SpecFloat ZArith.
From stdpp Require Import strings pretty.
From S2P Require Import Prelude Core Fuzz Bench.

#[local] Open Scope string_scope.
#[local] Open Scope list_scope.
#[local] Open Scope N_scope.

Abbreviation text := (list ascii) (only parsing).

(** ** Searches *)

Definition quote : ascii := ascii_of_N 34.
Definition chars : string -> text := list_ascii_of_string.

(** A literal with an apostrophe for each quotation mark. *)
Definition quoted (s : string) : text := (fun c => if bool_decide (c = "'"%char) then quote else c) <$> chars s.

(** [line.find(p)? + p.len()], as the text from there. *)
Fixpoint after (p s : text) : option text :=
  if bool_decide (p `prefix_of` s) then Some (drop (length p) s)
  else match s with [] => None | _ :: s => after p s end.

(** The text before the first of some characters. *)
Fixpoint until (stop : ascii -> bool) (s : text) : option text :=
  match s with [] => None | c :: s => if stop c then Some [] else t ← until stop s; Some (c :: t) end.

Fixpoint drop_while (p : ascii -> bool) (s : text) : text :=
  match s with c :: s' => if p c then drop_while p s' else s | [] => [] end.

(** [trim_matches] *)
Definition trim_matches (p : ascii -> bool) (s : text) : text := reverse (drop_while p (reverse (drop_while p s))).

Fixpoint starts_with (p s : text) : bool :=
  match p, s with [], _ => true | a :: p, b :: s => Ascii.eqb a b && starts_with p s | _, [] => false end.

(** The characters of the property [White_Space] of Unicode. *)
Definition white_space : list text :=
  map (map ascii_of_N)
    ([[9]; [10]; [11]; [12]; [13]; [32]; [194; 133]; [194; 160]; [225; 154; 128]; [226; 129; 159]; [227; 128; 128]] ++
     map (fun n => [226; 128; n]) [128; 129; 130; 131; 132; 133; 134; 135; 136; 137; 138; 168; 169; 175]).

(** Drops characters of the list, as many as [fuel] at most, from the front. *)
Fixpoint drop_chars (fuel : nat) (cs : list text) (s : text) : text :=
  match fuel with
  | O => s
  | S fuel =>
      match filter (fun c => starts_with c s) cs with
      | c :: _ => drop_chars fuel cs (drop (length c) s)
      | [] => s
      end
  end.

(** [trim] *)
Definition trim (s : text) : text :=
  let s := drop_chars (length s) white_space s in
  reverse (drop_chars (length s) (map (@reverse ascii) white_space) (reverse s)).

(** ** Numbers *)

Definition show (n : N) : text := chars (pretty n).

Definition digit (c : ascii) : option N :=
  let n := N_of_ascii c in if (48 <=? n) && (n <=? 57) then Some (n - 48) else None.

Fixpoint digits_from (acc : N) (s : text) : option N :=
  match s with [] => Some acc | c :: s => d ← digit c; digits_from (10 * acc + d) s end.

(** [str::parse::<usize>] *)
Definition parse_usize `{T : Target} (s : text) : option N :=
  let s := match s with c :: (_ :: _) as s' => if bool_decide (c = "+"%char) then tail s else s | _ => s end in
  match s with
  | [] => None
  | _ => n ← digits_from 0 s; if n <=? usize_max then Some n else None
  end.

(** [a / b], rounded to the nearest integer and to an even one in the middle. *)
Definition half_even (a b : Z) : Z :=
  let q := (a / b)%Z in
  match (2 * (a mod b) ?= b)%Z with Lt => q | Gt => (q + 1)%Z | Eq => if Z.even q then q else (q + 1)%Z end.

(** The tenths of [m * 2 ^ e]. *)
Definition tenths (m : positive) (e : Z) : N :=
  Z.to_N (if (0 <=? e)%Z then Z.pos m * 10 * 2 ^ e else half_even (Z.pos m * 10) (2 ^ (- e))).

Definition sign_of (s : bool) : text := if s then ["-"%char] else [].

Definition show_tenths (n : N) : text := show (n / 10) ++ "."%char :: show (n mod 10).

(** [{:.1}] *)
Definition show_f64 (x : f64) : text :=
  match x with
  | S754_zero s => sign_of s ++ show_tenths 0
  | S754_finite s m e => sign_of s ++ show_tenths (tenths m e)
  | S754_infinity s => sign_of s ++ chars "inf"
  | S754_nan => chars "NaN"
  end.

(** The [f64] nearest to [m * 10 ^ e]. *)
Definition decimal (neg : bool) (m : N) (e : Z) : f64 :=
  match m with
  | N0 => S754_zero neg
  | Npos m =>
      if (0 <=? e)%Z then
        binary_normalize 53 1024 ((if neg then Z.neg m else Z.pos m) * 10 ^ e) 0 neg
      else SFdiv 53 1024 (S754_finite neg m 0) (S754_finite false (Z.to_pos (10 ^ (- e))) 0)
  end.

(** The digits at the front. *)
Fixpoint span_digits (s : text) : text * text :=
  match s with
  | c :: s' => match digit c with Some _ => let '(d, r) := span_digits s' in (c :: d, r) | None => ([], s) end
  | [] => ([], [])
  end.

Definition take_sign (s : text) : bool * text :=
  match s with
  | c :: s' => if bool_decide (c = "-"%char) then (true, s') else if bool_decide (c = "+"%char) then (false, s') else (false, s)
  | [] => (false, [])
  end.

(** The exponent, if the rest of the text is one. *)
Definition parse_exponent (s : text) : option Z :=
  match s with
  | [] => Some 0%Z
  | c :: s =>
      if bool_decide (c = "e"%char \/ c = "E"%char) then
        let '(neg, s) := take_sign s in
        match s with
        | [] => None
        | _ => n ← digits_from 0 s; Some (if neg then - Z.of_N n else Z.of_N n)%Z
        end
      else None
  end.

Definition parse_number (neg : bool) (s : text) : option f64 :=
  let '(whole, s) := span_digits s in
  let '(fraction, s) :=
    match s with c :: s' => if bool_decide (c = "."%char) then span_digits s' else ([], s) | [] => ([], []) end in
  match whole ++ fraction with
  | [] => None
  | ds => e ← parse_exponent s; m ← digits_from 0 ds; Some (decimal neg m (e - Z.of_nat (length fraction)))
  end.

Definition lower (c : ascii) : ascii :=
  let n := N_of_ascii c in if (65 <=? n) && (n <=? 90) then ascii_of_N (n + 32) else c.

Definition parse_inf_nan (neg : bool) (s : text) : option f64 :=
  let s := lower <$> s in
  if bool_decide (s = chars "inf" \/ s = chars "infinity") then Some (S754_infinity neg)
  else if bool_decide (s = chars "nan") then Some S754_nan else None.

(** [str::parse::<f64>] *)
Definition parse_f64 (s : text) : option f64 :=
  let '(neg, s) := take_sign s in
  match parse_number neg s with Some x => Some x | None => parse_inf_nan neg s end.

(** ** [BenchResult] *)

Module BenchResultImpl.
Section json.
Context `{T : Target}.

Definition to_json (r : BenchResult) : text :=
  quoted "{'codec': '" ++ chars (codec r) ++ quoted "', 'input': '" ++ chars (input_name r) ++
  quoted "', 'input_size': " ++ show (input_size r) ++ quoted ", 'compressed_size': " ++ show (compressed_size r) ++
  quoted ", 'compress_ns': " ++ show_f64 (compress_ns r) ++ quoted ", 'decompress_ns': " ++ show_f64 (decompress_ns r) ++
  quoted "}".

(** The closure [get]. *)
Definition get (line : text) (key : string) : option text :=
  rest ← after (quoted ("'" +:+ key +:+ "': ")) line;
  match rest with
  | c :: stripped =>
      if bool_decide (c = quote) then until (fun c => bool_decide (c = quote)) stripped
      else Some (default rest (until (fun c => bool_decide (c = ","%char \/ c = "}"%char)) rest))
  | [] => Some []
  end.

Definition from_json (line : text) : option BenchResult :=
  let line := trim_matches (fun c => bool_decide (c = ","%char)) (trim line) in
  if bool_decide (line = chars "[" \/ line = chars "]" \/ line = []) then None else
  codec ← get line "codec";
  input_name ← get line "input";
  input_size ← get line "input_size" ≫= parse_usize;
  compressed_size ← get line "compressed_size" ≫= parse_usize;
  compress_ns ← get line "compress_ns" ≫= parse_f64;
  decompress_ns ← get line "decompress_ns" ≫= parse_f64;
  Some {| codec := string_of_list_ascii codec; input_name := string_of_list_ascii input_name;
          input_size := input_size; compressed_size := compressed_size;
          compress_ns := compress_ns; decompress_ns := decompress_ns |}.
End json.
End BenchResultImpl.
