(* ===== verification/BenchTextProofs.v ===== *)
(** * A row that was written is read back

    A line is taken apart at its quotation marks: a key is found where a piece is
    the key and the next one begins with a colon. *)

From Stdlib Require Import Ascii String SpecFloat ZArith.
From stdpp Require Import strings pretty.
From S2P Require Import Prelude Core Fuzz Bench BenchText.

#[local] Open Scope string_scope.
#[local] Open Scope list_scope.
#[local] Open Scope N_scope.

(** ** Texts without some characters *)

(** No character of [s] is one of [p]. *)
Definition without (p : ascii -> bool) (s : list ascii) : Prop := Forall (fun c => p c = false) s.

Definition is_quote (c : ascii) : bool := bool_decide (c = quote).

Lemma without_app p s t : without p (s ++ t) <-> without p s /\ without p t.
Proof. apply Forall_app. Qed.

Lemma without_impl (p q : ascii -> bool) s : without p s -> (forall c, q c = true -> p c = true) -> without q s.
Proof.
  intros H Hpq. eapply list.Forall_impl; [exact H|]. cbn. intros c Hc.
  destruct (q c) eqn:Hq; [|done]. apply Hpq in Hq. congruence.
Qed.

Lemma until_app p s c r : without p s -> p c = true -> until p (s ++ c :: r) = Some s.
Proof. intros Hs Hc. induction Hs as [|x s Hx _ IH]; cbn; [by rewrite Hc|]. by rewrite Hx, IH. Qed.

Lemma chars_app a b : chars (a +:+ b) = chars a ++ chars b.
Proof. induction a as [|c a IH]; [done|]. change (c :: chars (a +:+ b) = c :: chars a ++ chars b). by rewrite IH. Qed.

Lemma chars_id s : string_of_list_ascii (chars s) = s.
Proof. apply string_of_list_ascii_of_string. Qed.

(** ** Numbers *)

Definition is_digit (c : ascii) : bool := match digit c with Some _ => true | None => false end.

(** Every number below ten. *)
Ltac each_digit n := destruct n as [|p]; [|do 4 (try destruct p as [p|p|])]; first [done|lia].

Lemma digit_pretty n : n < 10 -> digit (pretty_N_char n) = Some n.
Proof. intros Hn. each_digit n. Qed.

(** Reading the digits of [n] after those of nothing. *)
Lemma digits_go n s : digits_from 0 (chars (pretty_N_go n s)) = digits_from n (chars s).
Proof.
  revert s. induction (N.lt_wf_0 n) as [n _ IH]. intros s.
  destruct (decide (n = 0)) as [->|Hn]; [by rewrite pretty_N_go_0|].
  rewrite pretty_N_go_step by lia. rewrite IH by (apply N.div_lt; lia).
  cbn [chars list_ascii_of_string digits_from]. rewrite digit_pretty by (apply N.mod_lt; lia).
  cbn [mbind option_bind]. f_equal. lia.
Qed.

Lemma digits_show n : digits_from 0 (show n) = Some n.
Proof. unfold show, pretty, pretty_N. case_decide as Hn; [by subst|]. by rewrite digits_go. Qed.

Lemma show_digits n : Forall (fun c => is_digit c = true) (show n) /\ show n <> [].
Proof.
  assert (Hgo : forall n s, Forall (fun c => is_digit c = true) (chars s) ->
    Forall (fun c => is_digit c = true) (chars (pretty_N_go n s)) /\ (n <> 0 \/ chars s <> [] -> chars (pretty_N_go n s) <> [])).
  { intros m. induction (N.lt_wf_0 m) as [m _ IH]. intros s Hs.
    destruct (decide (m = 0)) as [->|Hm]; [rewrite pretty_N_go_0; split; [done|naive_solver]|].
    rewrite pretty_N_go_step by lia. destruct (IH (m / 10) ltac:(apply N.div_lt; lia)
      (String (pretty_N_char (m mod 10)) s)) as [H1 H2].
    - cbn. constructor; [|done]. unfold is_digit. by rewrite digit_pretty by (apply N.mod_lt; lia).
    - split; [done|]. intros _. apply H2. by right. }
  unfold show, pretty, pretty_N. case_decide as Hn; [split; [by repeat constructor|done]|].
  destruct (Hgo n "" (Forall_nil_2 _)) as [H1 H2]. split; [done|]. apply H2. by left.
Qed.

(** A class of characters that has no digits. *)
Definition not_digits (p : ascii -> bool) : Prop := forall c, is_digit c = true -> p c = false.

Lemma show_without p n : not_digits p -> without p (show n).
Proof. intros Hp. eapply list.Forall_impl; [apply show_digits|]. cbn. auto. Qed.

Lemma parse_usize_show `{T : Target} n : n <= usize_max -> parse_usize (show n) = Some n.
Proof.
  intros Hn. unfold parse_usize. pose proof (digits_show n) as Hd. destruct (show_digits n) as [Hs Hne].
  destruct (show n) as [|c s]; [done|]. inversion Hs as [|? ? Hc _]; subst.
  assert (Hplus : bool_decide (c = "+"%char) = false).
  { apply bool_decide_eq_false_2. intros ->. done. }
  replace (match s with [] => c :: s | _ :: _ => if bool_decide (c = "+"%char) then tail (c :: s) else c :: s end)
    with (c :: s) by (rewrite Hplus; by destruct s).
  rewrite Hd. cbn. bcase. done.
Qed.

Lemma span_show n s : match s with [] => True | c :: _ => is_digit c = false end -> span_digits (show n ++ s) = (show n, s).
Proof.
  intros Hs. destruct (show_digits n) as [Hd _]. induction Hd as [|c d Hc _ IH]; cbn [app span_digits].
  - destruct s as [|c s]; [done|]. cbn. unfold is_digit in Hs. by destruct (digit c).
  - unfold is_digit in Hc. destruct (digit c); [|done]. by rewrite IH.
Qed.

Lemma show_digit n : n < 10 -> show n = [pretty_N_char n].
Proof. intros Hn. each_digit n. Qed.

Lemma digits_app acc s t : digits_from acc (s ++ t) = a ← digits_from acc s; digits_from a t.
Proof. revert acc. induction s as [|c s IH]; intros acc; [done|]. cbn. destruct (digit c); [|done]. cbn. apply IH. Qed.

Lemma parse_tenths neg n : parse_number neg (show_tenths n) = Some (decimal neg n (-1)).
Proof.
  unfold parse_number, show_tenths. rewrite (span_show (n / 10) ("."%char :: show (n mod 10))) by done.
  rewrite bool_decide_eq_true_2 by done. rewrite <-(app_nil_r (show (n mod 10))), span_show by done.
  destruct (show_digits (n / 10)) as [_ Hne]. pose proof (digits_show (n / 10)) as Hd.
  destruct (show (n / 10)) as [|c d]; [done|]. cbn [app]. cbn [parse_exponent]. rewrite app_comm_cons, digits_app, Hd.
  rewrite show_digit by (apply N.mod_lt; lia). cbn [mbind option_bind digits_from]. rewrite digit_pretty by (apply N.mod_lt; lia).
  cbn. do 2 f_equal. lia.
Qed.

(** The time that a written row has when it is read. *)
Definition rounded_f64 (x : f64) : f64 :=
  match x with S754_finite s m e => decimal s (tenths m e) (-1) | _ => x end.

Lemma parse_show_f64 x : parse_f64 (show_f64 x) = Some (rounded_f64 x).
Proof.
  assert (Htenths : forall s n, parse_f64 (sign_of s ++ show_tenths n) = Some (decimal s n (-1))).
  { intros s n. unfold parse_f64. assert (Hs : take_sign (sign_of s ++ show_tenths n) = (s, show_tenths n)).
    { destruct s; [done|]. cbn [sign_of app]. unfold show_tenths. destruct (show_digits (n / 10)) as [Hd Hne].
      destruct (show (n / 10)) as [|c d]; [done|]. inversion Hd as [|? ? Hc _]; subst. cbn [app take_sign].
      rewrite !bool_decide_eq_false_2; [done|intros ->; done..]. }
    rewrite Hs, parse_tenths. done. }
  destruct x as [s|s| |s m e]; cbn [show_f64 rounded_f64]; [apply (Htenths s 0)|by destruct s|done|apply Htenths].
Qed.

(** The tenths of a time are the nearest ones. *)
Lemma half_even_nearest a b : (0 < b)%Z -> (Z.abs (2 * (half_even a b * b - a)) <= b)%Z.
Proof.
  intros Hb. unfold half_even. pose proof (Z.div_mod a b ltac:(lia)). pose proof (Z.mod_pos_bound a b Hb).
  destruct (Z.compare_spec (2 * (a mod b)) b); [destruct (Z.even _)|..]; nia.
Qed.

Lemma show_f64_without p x : not_digits p -> without p (chars "-.infNa") -> without p (show_f64 x).
Proof.
  intros Hp Hc. unfold without, chars in Hc. cbn in Hc. repeat (apply Forall_cons_1 in Hc as [? Hc]).
  assert (Htenths : forall n, without p (show_tenths n)).
  { intros n. unfold show_tenths. apply without_app. split; [by apply show_without|].
    constructor; [done|by apply show_without]. }
  assert (Hsign : forall s, without p (sign_of s)) by (intros []; repeat constructor; done).
  destruct x as [s|s| |s m e]; cbn [show_f64]; try (apply without_app; split); auto; repeat constructor; done.
Qed.

(** ** Lines in pieces *)

Definition pieces (ps : list (list ascii)) : list ascii := concat (cons quote <$> ps).

Definition colon : list ascii := chars ": ".

(** What follows a key: the rest of the piece after it. *)
Fixpoint find_piece (key : list ascii) (ps : list (list ascii)) : option (list ascii) :=
  match ps with
  | w :: (v :: ps') as rest =>
      if bool_decide (w = key) && bool_decide (colon `prefix_of` v) then Some (drop 2 v ++ pieces ps')
      else find_piece key rest
  | _ => None
  end.

Lemma prefix_cons_split {A} (x y : A) (l1 l2 : list A) : (x :: l1) `prefix_of` (y :: l2) <-> x = y /\ l1 `prefix_of` l2.
Proof.
  split; [|intros [-> H]; by apply prefix_cons].
  intros H. split; [by apply prefix_cons_inv_1 in H|by apply prefix_cons_inv_2 in H].
Qed.

Lemma prefix_piece (key w s t : list ascii) : without is_quote key -> without is_quote w ->
  (key ++ quote :: s) `prefix_of` (w ++ quote :: t) <-> w = key /\ s `prefix_of` t.
Proof.
  intros Hk. revert w. induction Hk as [|c key Hc _ IH]; intros w Hw; (destruct Hw as [|d w Hd Hw]; cbn [app]);
    rewrite prefix_cons_split; unfold is_quote in *.
  - naive_solver.
  - split; [|by intros [? _]]. intros [<- _]. by rewrite bool_decide_eq_true_2 in Hd.
  - split; [|by intros [? _]]. intros [-> _]. by rewrite bool_decide_eq_true_2 in Hc.
  - rewrite IH by done. naive_solver.
Qed.

Lemma prefix_last_piece (key w s : list ascii) : without is_quote w -> ~ (key ++ quote :: s) `prefix_of` w.
Proof.
  intros Hw [t ->]. rewrite <-app_assoc in Hw. apply without_app in Hw as [_ Hw].
  apply Forall_cons_1 in Hw as [Hw _]. unfold is_quote in Hw. by rewrite bool_decide_eq_true_2 in Hw.
Qed.

Lemma colon_prefix v ps : without is_quote v -> (colon `prefix_of` v ++ pieces ps) <-> colon `prefix_of` v.
Proof.
  intros Hv. split; [|apply prefix_app_r]. unfold colon. cbn. destruct v as [|c v]; cbn [app].
  - destruct ps as [|p ps]; cbn; [by intros ?%prefix_nil_inv|]. by intros [? _]%prefix_cons_split.
  - rewrite !prefix_cons_split. intros [<- H]. split; [done|]. destruct v as [|c v]; cbn [app] in H.
    + exfalso. destruct ps as [|p ps]; cbn in H; [by apply prefix_nil_inv in H|]. by apply prefix_cons_split in H as [? _].
    + apply prefix_cons_split in H as [<- _]. apply prefix_cons, prefix_nil.
Qed.

Lemma after_skip key s a t : without is_quote a -> after (quote :: key ++ s) (a ++ t) = after (quote :: key ++ s) t.
Proof.
  induction 1 as [|c a Hc _ IH]; [done|]. cbn [app after]. rewrite bool_decide_eq_false_2; [exact IH|].
  intros [<- _]%prefix_cons_split. unfold is_quote in Hc. by rewrite bool_decide_eq_true_2 in Hc.
Qed.

Lemma after_pieces key ps : without is_quote key -> Forall (without is_quote) ps ->
  after (quote :: key ++ quote :: colon) (pieces ps) = find_piece key ps.
Proof.
  intros Hk. induction 1 as [|w ps Hw Hps IH]; [done|]. cbn [pieces fmap list_fmap concat app].
  fold (pieces ps). cbn [after find_piece]. set (P := key ++ quote :: colon) in *.
  rewrite (bool_decide_ext _ (P `prefix_of` (w ++ pieces ps))) by (rewrite prefix_cons_split; naive_solver).
  assert (Hskip : after (quote :: P) (w ++ pieces ps) = after (quote :: P) (pieces ps)) by by apply after_skip.
  rewrite Hskip. clear Hskip. destruct Hps as [|v ps Hv Hps].
  - rewrite bool_decide_eq_false_2; [exact IH|]. cbn [pieces fmap list_fmap concat]. rewrite app_nil_r.
    by apply prefix_last_piece.
  - change (pieces (v :: ps)) with (quote :: v ++ pieces ps) in *.
    rewrite (bool_decide_ext _ (w = key /\ colon `prefix_of` v)) by (subst P; rewrite prefix_piece, colon_prefix by done; done).
    destruct (decide (w = key)) as [->|Hne]; [|by rewrite !(bool_decide_eq_false_2 (w = key)), bool_decide_eq_false_2 by tauto].
    rewrite (bool_decide_eq_true_2 (key = key)) by done. cbn [andb].
    destruct (decide (colon `prefix_of` v)) as [[u ->]|Hnc]; [|by rewrite !bool_decide_eq_false_2 by tauto].
    rewrite !bool_decide_eq_true_2 by (try split; try done; by exists u). f_equal. cbn [length drop]. subst P.
    rewrite length_app. cbn [length]. rewrite <-drop_drop, drop_app_length. cbn. done.
Qed.

(** ** Rows *)

Section rows.
Context `{T : Target}.
Import BenchResultImpl.

(** The names of a row fit a line and its quotation marks. *)
Definition plain (s : string) : Prop :=
  without (fun c => bool_decide (c = quote \/ c = ascii_of_N 10)) (chars s).

Definition savable (r : BenchResult) : Prop :=
  plain (codec r) /\ plain (input_name r) /\ input_size r <= usize_max /\ compressed_size r <= usize_max.

(** What is read back of a row. *)
Definition rounded (r : BenchResult) : BenchResult :=
  {| codec := codec r; input_name := input_name r; input_size := input_size r; compressed_size := compressed_size r;
     compress_ns := rounded_f64 (compress_ns r); decompress_ns := rounded_f64 (decompress_ns r) |}.

Definition row_pieces (r : BenchResult) : list (list ascii) :=
  [chars "codec"; colon; chars (codec r); chars ", "; chars "input"; colon; chars (input_name r); chars ", ";
   chars "input_size"; colon ++ show (input_size r) ++ chars ", "; chars "compressed_size";
   colon ++ show (compressed_size r) ++ chars ", "; chars "compress_ns"; colon ++ show_f64 (compress_ns r) ++ chars ", ";
   chars "decompress_ns"; colon ++ show_f64 (decompress_ns r) ++ chars "}"].

Lemma to_json_pieces r : to_json r = chars "{" ++ pieces (row_pieces r).
Proof.
  unfold to_json, pieces, row_pieces. cbn [fmap list_fmap concat app]. rewrite <-!app_assoc. reflexivity.
Qed.

Lemma plain_quote s : plain s -> without is_quote (chars s).
Proof.
  intros H. eapply without_impl; [exact H|]. unfold is_quote. intros c Hc%bool_decide_eq_true_1.
  apply bool_decide_eq_true_2. by left.
Qed.

Lemma quote_not_digits : not_digits is_quote.
Proof. intros c Hc. apply bool_decide_eq_false_2. intros ->. done. Qed.

Lemma literal_without p (s : list ascii) : forallb (fun c => negb (p c)) s = true -> without p s.
Proof. unfold without. rewrite Forall_forall, forallb_forall. intros H c Hc. specialize (H c Hc). by apply negb_true_iff. Qed.

Lemma row_pieces_plain r : savable r -> Forall (without is_quote) (row_pieces r).
Proof.
  intros (Hc & Hn & _). assert (Hshow : forall n, without is_quote (show n)) by (intros; apply show_without, quote_not_digits).
  assert (Htime : forall x, without is_quote (show_f64 x)).
  { intros x. apply show_f64_without; [apply quote_not_digits|by apply literal_without]. }
  unfold row_pieces. rewrite !list.Forall_cons. split_and!; try (by apply literal_without); try (by apply plain_quote); try done;
    apply without_app; (split; [by apply literal_without|]); apply without_app; (split; [auto|by apply literal_without]).
Qed.

Lemma get_pieces ps key : quoted ("'" +:+ key +:+ "': ") = quote :: chars key ++ quote :: colon ->
  without is_quote (chars key) -> Forall (without is_quote) ps ->
  get (chars "{" ++ pieces ps) key = rest ← find_piece (chars key) ps;
    match rest with
    | c :: stripped =>
        if bool_decide (c = quote) then until is_quote stripped
        else Some (default rest (until (fun c => bool_decide (c = ","%char \/ c = "}"%char)) rest))
    | [] => Some []
    end.
Proof.
  intros Hq Hk Hps. unfold get. rewrite Hq. rewrite (after_skip (chars key) (quote :: colon) (chars "{")) by (by apply literal_without).
  by rewrite after_pieces.
Qed.

(** A number after its key. *)
Lemma number_piece (n e rest : list ascii) : n <> [] -> without is_quote n ->
  without (fun c => bool_decide (c = ","%char \/ c = "}"%char)) n ->
  (exists c, head e = Some c /\ (c = ","%char \/ c = "}"%char)) ->
  match n ++ e ++ rest with
  | c :: stripped =>
      if bool_decide (c = quote) then until is_quote stripped
      else Some (default (n ++ e ++ rest) (until (fun c => bool_decide (c = ","%char \/ c = "}"%char)) (n ++ e ++ rest)))
  | [] => Some []
  end = Some n.
Proof.
  intros Hne Hq Hn (c & He & Hc). destruct e as [|? e]; [done|]. injection He as ->.
  rewrite <-!app_comm_cons, (until_app (fun c => bool_decide (c = ","%char \/ c = "}"%char))) by (done || by apply bool_decide_eq_true_2).
  destruct n as [|x n]; [done|]. cbn [app default from_option id]. apply Forall_cons_1 in Hq as [Hq _].
  unfold is_quote in Hq. by rewrite Hq.
Qed.

Lemma find_hit key v ps : find_piece key (key :: (colon ++ v) :: ps) = Some (v ++ pieces ps).
Proof.
  cbn [find_piece]. rewrite (bool_decide_eq_true_2 (key = key)), (bool_decide_eq_true_2 (colon `prefix_of` colon ++ v)); [done|by exists v|done].
Qed.

Lemma find_miss key w v ps : w <> key \/ ~ colon `prefix_of` v -> find_piece key (w :: v :: ps) = find_piece key (v :: ps).
Proof.
  intros H. cbn [find_piece]. destruct H as [H|H]; rewrite (bool_decide_eq_false_2 _ H); [done|by rewrite andb_false_r].
Qed.

Lemma find_text key ps : find_piece key (key :: colon :: ps) = Some (pieces ps).
Proof. exact (find_hit key [] ps). Qed.

(** Walks to the piece of a key. *)
Ltac find_key :=
  repeat (rewrite find_miss by first [by left; discriminate | by right; apply (bool_decide_unpack _)]);
  first [rewrite find_text | rewrite find_hit]; cbn [mbind option_bind].

Definition is_stop (c : ascii) : bool := bool_decide (c = ","%char \/ c = "}"%char).

Lemma stop_not_digits : not_digits is_stop.
Proof. intros c Hc. apply bool_decide_eq_false_2. by intros [->| ->]. Qed.

Lemma show_field n : show n <> [] /\ without is_quote (show n) /\ without is_stop (show n).
Proof. split_and!; [apply show_digits|apply show_without, quote_not_digits|apply show_without, stop_not_digits]. Qed.

Lemma time_field x : show_f64 x <> [] /\ without is_quote (show_f64 x) /\ without is_stop (show_f64 x).
Proof.
  split_and!; [|apply show_f64_without; [apply quote_not_digits|by apply literal_without]
               |apply show_f64_without; [apply stop_not_digits|by apply literal_without]].
  intros H. pose proof (parse_show_f64 x) as Hp. rewrite H in Hp. done.
Qed.

Lemma from_json_fields r : savable r ->
  let line := to_json r in
  get line "codec" = Some (chars (codec r)) /\ get line "input" = Some (chars (input_name r)) /\
  get line "input_size" = Some (show (input_size r)) /\ get line "compressed_size" = Some (show (compressed_size r)) /\
  get line "compress_ns" = Some (show_f64 (compress_ns r)) /\ get line "decompress_ns" = Some (show_f64 (decompress_ns r)).
Proof.
  intros Hr. cbv zeta. rewrite to_json_pieces. pose proof (row_pieces_plain r Hr) as Hps. destruct Hr as (Hc & Hn & _).
  assert (Hcomma : exists c, head (chars ", ") = Some c /\ (c = ","%char \/ c = "}"%char)) by (eexists; split; [done|by left]).
  assert (Hbrace : exists c, head (chars "}") = Some c /\ (c = ","%char \/ c = "}"%char)) by (eexists; split; [done|by right]).
  split_and!; rewrite get_pieces by (done || by apply literal_without); unfold row_pieces.
  1-2: find_key; cbn [pieces fmap list_fmap concat app]; rewrite bool_decide_eq_true_2 by done;
    apply (until_app is_quote); [by apply plain_quote|done].
  all: find_key; rewrite <-!app_assoc; apply number_piece; try done; apply show_field || apply time_field.
Qed.

Lemma trim_id p (s : list ascii) c d : head s = Some c -> list.last s = Some d -> p c = false -> p d = false ->
  trim_matches p s = s.
Proof.
  intros Hc Hd Hpc Hpd. unfold trim_matches. destruct s as [|c' s]; [done|]. injection Hc as ->. cbn [drop_while]. rewrite Hpc.
  apply last_Some in Hd as [s' Hs]. rewrite Hs, reverse_app. cbn [reverse app drop_while].
  change (reverse [d] ++ reverse s') with (d :: reverse s'). cbn [drop_while]. rewrite Hpd.
  rewrite reverse_cons, reverse_involutive. done.
Qed.

(** Text that begins with a brace and ends in one is not trimmed. *)
Definition is_brace (c : ascii) : bool := Ascii.eqb c "{" || Ascii.eqb c "}".
Definition no_brace (w : list ascii) : bool := match w with x :: _ => negb (is_brace x) | [] => false end.

Lemma drop_chars_none n ws c (s : list ascii) : is_brace c = true -> forallb no_brace ws = true ->
  drop_chars n ws (c :: s) = c :: s.
Proof.
  intros Hc Hws. destruct n as [|n]; [done|]. cbn [drop_chars].
  assert (filter (fun w => starts_with w (c :: s)) ws = []) as ->; [|done].
  induction ws as [|w ws IH]; [done|]. cbn [forallb] in Hws. apply andb_prop in Hws as [Hw Hws].
  rewrite filter_cons_False; [by apply IH|]. destruct w as [|x w]; [done|]. cbn [no_brace starts_with] in *.
  destruct (Ascii.eqb_spec x c) as [->|]; [by rewrite Hc in Hw|by intros []].
Qed.

Lemma trim_braces (s : list ascii) : head s = Some "{"%char -> list.last s = Some "}"%char -> trim s = s.
Proof.
  intros Hh Hl. unfold trim. cbv zeta. destruct s as [|c s]; [done|]. injection Hh as ->.
  rewrite drop_chars_none by done. apply last_Some in Hl as [t ->]. rewrite reverse_app.
  change (reverse ["}"%char] ++ reverse t) with ("}"%char :: reverse t).
  rewrite drop_chars_none by done. by rewrite reverse_cons, reverse_involutive.
Qed.

Example trim_unicode : trim (map ascii_of_N [32; 194; 160; 97; 227; 128; 128; 10]) = ["a"%char].
Proof. reflexivity. Qed.

(** A row that [to_json] wrote is read by [from_json], with its times in tenths. *)
Lemma from_json_to_json r : savable r -> from_json (to_json r) = Some (rounded r).
Proof.
  intros Hr. pose proof (from_json_fields r Hr) as (H1 & H2 & H3 & H4 & H5 & H6). cbv zeta in *.
  assert (Hh : head (to_json r) = Some "{"%char) by (by rewrite to_json_pieces).
  assert (Hl : list.last (to_json r) = Some "}"%char) by (unfold to_json; by rewrite !last_app).
  unfold from_json. rewrite trim_braces by done. rewrite (trim_id _ (to_json r) "{"%char "}"%char) by done.
  rewrite bool_decide_eq_false_2 by (intros [H|[H|H]]; rewrite H in Hh; done).
  rewrite H1, H2, H3, H4, H5, H6. destruct Hr as (_ & _ & Hs & Hz). cbn [mbind option_bind].
  rewrite !parse_usize_show, !parse_show_f64 by done. cbn [mbind option_bind]. by rewrite !chars_id.
Qed.
End rows.
