(* ===== verification/BenchCache.v ===== *)
(** * The files of the benchmark ([examples/lz4rip_bench.rs])

    A run downloads the files of the corpus that are missing.  It saves its rows,
    one to a line, in a file for each codec, and a run over whole files loads those
    of earlier runs.  The files of the cache are a map from paths to texts in which
    every file can be created; the others are a map from paths to bytes, on which
    the commands of the shell act.  [main] is the whole program. *)

From Stdlib Require Import Ascii String SpecFloat ZArith.
From stdpp Require Import strings gmap.
From S2P Require Import Prelude Core Fuzz Bench BenchText.

#[local] Open Scope string_scope.
#[local] Open Scope list_scope.
#[local] Open Scope N_scope.

Abbreviation Files := (gmap string (list ascii)) (only parsing).

Abbreviation Disk := (gmap string bytes) (only parsing).

(** ** The corpus *)

Definition SILESIA_DOWNLOADS : list (string * string) :=
  [("corpus/silesia/dickens", "https://sun.aei.polsl.pl/~sdeor/corpus/dickens.bz2");
   ("corpus/silesia/mozilla", "https://sun.aei.polsl.pl/~sdeor/corpus/mozilla.bz2");
   ("corpus/silesia/mr", "https://sun.aei.polsl.pl/~sdeor/corpus/mr.bz2");
   ("corpus/silesia/nci", "https://sun.aei.polsl.pl/~sdeor/corpus/nci.bz2");
   ("corpus/silesia/ooffice", "https://sun.aei.polsl.pl/~sdeor/corpus/ooffice.bz2");
   ("corpus/silesia/osdb", "https://sun.aei.polsl.pl/~sdeor/corpus/osdb.bz2");
   ("corpus/silesia/reymont", "https://sun.aei.polsl.pl/~sdeor/corpus/reymont.bz2");
   ("corpus/silesia/samba", "https://sun.aei.polsl.pl/~sdeor/corpus/samba.bz2");
   ("corpus/silesia/sao", "https://sun.aei.polsl.pl/~sdeor/corpus/sao.bz2");
   ("corpus/silesia/webster", "https://sun.aei.polsl.pl/~sdeor/corpus/webster.bz2");
   ("corpus/silesia/x-ray", "https://sun.aei.polsl.pl/~sdeor/corpus/x-ray.bz2");
   ("corpus/silesia/xml", "https://sun.aei.polsl.pl/~sdeor/corpus/xml.bz2")].

(** The command of a download. *)
Definition download (url path : string) : string :=
  "curl -fSL '" +:+ url +:+ "' | bzip2 -d > '" +:+ path +:+ "'".

(** [sh -c] gives the files that a command leaves and whether it succeeds. *)
Definition ensure_corpus (sh : string -> Disk -> Disk * bool) (disk : Disk) : Disk :=
  foldl (fun disk '(path, url) =>
    match disk !! path with
    | Some _ => disk
    | None => let '(disk, success) := sh (download url path) disk in if success then disk else delete path disk
    end) disk SILESIA_DOWNLOADS.

(** [std::fs::read] *)
Definition read_disk (disk : Disk) (path : string) : option bytes := disk !! path.

(** ** The cache *)

Definition newline : ascii := ascii_of_N 10.
Definition carriage_return : ascii := ascii_of_N 13.

(** [PathBuf::join] for a relative path. *)
Definition join (base name : string) : string :=
  match list.last (chars base) with
  | None => name
  | Some c => if bool_decide (c = "/"%char) then base +:+ name else base +:+ "/" +:+ name
  end.

(** A line, whose carriage return belongs to the newline. *)
Definition strip_return (line : list ascii) : list ascii :=
  match reverse line with c :: l => if bool_decide (c = carriage_return) then reverse l else line | [] => [] end.

(** [str::lines] *)
Fixpoint lines_from (line s : list ascii) : list (list ascii) :=
  match s with
  | [] => match line with [] => [] | _ => [line] end
  | c :: s => if bool_decide (c = newline) then strip_return line :: lines_from [] s else lines_from (line ++ [c]) s
  end.
Definition lines : list ascii -> list (list ascii) := lines_from [].

(** The environment: [HOME], the architecture, and the order in which a [HashMap]
    yields its keys. *)
Record System := {
  home : option string;
  ARCH : string;
  hash_order : list string -> list string
}.

Section cache.
Context `{T : Target} (sys : System).

Definition cache_dir_for (subdir : string) : string :=
  join (join (join (join (default "." (home sys)) ".cache") "lz4rip") (ARCH sys)) subdir.

Definition cache_dir : string := cache_dir_for "".

Definition file_of_codec (codec : string) : string :=
  let name := (fun c => if bool_decide (c = " "%char) then "_"%char else c) <$> chars codec in
  string_of_list_ascii (filter (fun c => c <> "("%char /\ c <> ")"%char) name) +:+ ".jsonl".

Definition codec_cache_path (codec : string) : string := join cache_dir (file_of_codec codec).

Definition codec_cache_path_in (subdir codec : string) : string := join (cache_dir_for subdir) (file_of_codec codec).

(** The rows of a file. *)
Definition load_file (fs : Files) (path : string) : list BenchResult :=
  match fs !! path with Some content => omap BenchResultImpl.from_json (lines content) | None => [] end.

Definition load_cache (fs : Files) (codecs : list string) : list BenchResult :=
  concat ((fun codec => load_file fs (codec_cache_path codec)) <$> codecs).

(** [writeln] for each row *)
Definition rows_text (entries : list BenchResult) : list ascii :=
  concat ((fun r => BenchResultImpl.to_json r ++ [newline]) <$> entries).

Definition entries_of (results : list BenchResult) (codec : string) : list BenchResult :=
  filter (fun r => Bench.codec r = codec) results.

Definition save_codec (results : list BenchResult) (codec : string) (fs : Files) : Files :=
  match entries_of results codec with
  | [] => fs
  | entries => <[codec_cache_path codec := rows_text entries]> fs
  end.

Definition save_cache (results : list BenchResult) (codecs : list string) (fs : Files) : Files :=
  foldl (fun fs codec => save_codec results codec fs) fs codecs.

Definition save_results_to (subdir : string) (results : list BenchResult) (fs : Files) : Files :=
  foldl (fun fs codec => <[codec_cache_path_in subdir codec := rows_text (entries_of results codec)]> fs)
    fs (hash_order sys (remove_dups (Bench.codec <$> results))).

Definition save (d : Destination) (results : list BenchResult) (fs : Files) : Files :=
  match d with Results subdir => save_results_to subdir results fs | Cache codecs => save_cache results codecs fs end.

Definition main (libs : Libraries) (sh : string -> Disk -> Disk * bool) (args : list string) (disk : Disk) (fs : Files)
    (k : Clock libs) : res Empty_set (Disk * Files * Clock libs) :=
  let disk := ensure_corpus sh disk in
  '(d, rows, k) ← measure libs (read_disk disk) args (load_cache fs) k;
  Ok (disk, save d rows fs, k).
End cache.
