(* ===== verification/BenchCacheProofs.v ===== *)
(** * The rows that a run saves are those that are loaded

    A row is a line of its file, and the codecs of the benchmark have files of
    their own. *)

From Stdlib Require Import Ascii String SpecFloat ZArith.
From stdpp Require Import strings gmap.
From S2P Require Import Prelude Core Fuzz Bench BenchText BenchTextProofs BenchCache.

#[local] Open Scope string_scope.
#[local] Open Scope list_scope.
#[local] Open Scope N_scope.

(** ** Lines *)

Definition is_newline (c : ascii) : bool := bool_decide (c = newline).

Lemma newline_not_digits : not_digits is_newline.
Proof. intros c Hc. apply bool_decide_eq_false_2. intros ->. done. Qed.

Lemma lines_line line s rest : without is_newline s ->
  lines_from line (s ++ newline :: rest) = strip_return (line ++ s) :: lines rest.
Proof.
  intros H. revert line. induction H as [|c s Hc _ IH]; intros line; cbn [app lines_from].
  - by rewrite bool_decide_eq_true_2, app_nil_r.
  - unfold is_newline in Hc. rewrite Hc, IH, <-app_assoc. done.
Qed.

Lemma strip_return_id s c : list.last s = Some c -> c <> carriage_return -> strip_return s = s.
Proof.
  intros [s' ->]%last_Some Hc. unfold strip_return. rewrite reverse_snoc. cbv iota.
  by rewrite bool_decide_eq_false_2.
Qed.

Section rows.
Context `{T : Target}.
Import BenchResultImpl.

Lemma plain_newline s : plain s -> without is_newline (chars s).
Proof.
  intros H. eapply without_impl; [exact H|]. unfold is_newline. intros c Hc%bool_decide_eq_true_1.
  apply bool_decide_eq_true_2. by right.
Qed.

Lemma row_line r : savable r -> without is_newline (to_json r).
Proof.
  intros (Hc & Hn & _). unfold to_json.
  assert (Hshow : forall n, without is_newline (show n)) by (intros; apply show_without, newline_not_digits).
  assert (Htime : forall x, without is_newline (show_f64 x)).
  { intros x. apply show_f64_without; [apply newline_not_digits|by apply literal_without]. }
  repeat (apply without_app; split); auto using plain_newline; by apply literal_without.
Qed.

Lemma row_last r : list.last (to_json r) = Some "}"%char.
Proof. unfold to_json. by rewrite !last_app. Qed.

Lemma lines_rows_text rows : Forall savable rows -> lines (rows_text rows) = to_json <$> rows.
Proof.
  induction 1 as [|r rows Hr _ IH]; [done|]. unfold rows_text. cbn [fmap list_fmap concat].
  rewrite <-app_assoc. unfold lines. cbn [app]. rewrite lines_line by by apply row_line.
  cbn [app]. rewrite (strip_return_id _ "}"%char) by (apply row_last || done). f_equal. exact IH.
Qed.

(** A file of rows is read back. *)
Lemma load_rows fs path rows : fs !! path = Some (rows_text rows) -> Forall savable rows ->
  load_file fs path = rounded <$> rows.
Proof.
  intros Hf Hr. unfold load_file. rewrite Hf, lines_rows_text by done. clear Hf.
  induction Hr as [|r rows Hr _ IH]; [done|]. cbn [fmap list_fmap omap list_omap].
  rewrite from_json_to_json by done. by rewrite <-IH.
Qed.

(** The numbers of a row that was read are those of the target. *)
Lemma parse_usize_max s n : parse_usize s = Some n -> n <= usize_max.
Proof.
  unfold parse_usize. destruct (match s with c :: (_ :: _) as s' => _ | _ => s end) as [|c t]; [done|].
  destruct (digits_from 0 (c :: t)) as [n'|]; [|done]. cbn. bcase; [|done]. by intros [= <-].
Qed.

Definition fits (r : BenchResult) : Prop := input_size r <= usize_max /\ compressed_size r <= usize_max.

Lemma from_json_fits line r : from_json line = Some r -> fits r.
Proof.
  unfold from_json. destruct (bool_decide _); [done|].
  intros (codec & _ & (name & _ & (n & Hn & (z & Hz & (a & _ & (b & _ & H)%bind_Some)%bind_Some)%bind_Some)%bind_Some)%bind_Some)%bind_Some.
  apply bind_Some in Hn as (s & _ & Hn), Hz as (t & _ & Hz). apply parse_usize_max in Hn, Hz.
  apply (f_equal (from_option fits True)) in H. cbn [from_option] in H. by rewrite <-H.
Qed.

Lemma load_file_fits fs path : Forall fits (load_file fs path).
Proof.
  unfold load_file. destruct (fs !! path) as [s|]; [|constructor]. induction (lines s) as [|line ls IH]; [constructor|].
  cbn [omap list_omap]. destruct (from_json line) as [r|] eqn:Hr; [|done]. constructor; [by eapply from_json_fits|done].
Qed.
End rows.

(** ** The corpus *)

(** A command that changes one path. *)
Definition writes_only (sh : string -> gmap string bytes -> gmap string bytes * bool) : Prop :=
  forall url path disk p, p <> path -> fst (sh (download url path) disk) !! p = disk !! p.

Lemma corpus_kept sh disk p : writes_only sh ->
  is_Some (disk !! p) \/ p ∉ fst <$> SILESIA_DOWNLOADS -> ensure_corpus sh disk !! p = disk !! p.
Proof.
  intros Hsh. unfold ensure_corpus. revert disk. induction SILESIA_DOWNLOADS as [|[path url] files IH]; intros disk Hp; [done|].
  cbn [foldl]. destruct (disk !! path) as [data|] eqn:Hd; [apply IH; set_solver|].
  assert (Hne : p <> path) by (destruct Hp as [[d Hp]|Hp]; [intros ->; congruence|set_solver]).
  pose proof (Hsh url path disk p Hne) as Hw. destruct (sh _ disk) as [disk' success]. cbn [fst] in Hw.
  assert (Hk : (if success then disk' else delete path disk') !! p = disk !! p) by (destruct success; [|rewrite lookup_delete_ne]; done).
  rewrite IH; [done|]. rewrite Hk. set_solver.
Qed.

(** ** Files *)

Section files.
Context `{T : Target} (sys : System).

Lemma join_inj base a b : join base a = join base b -> a = b.
Proof.
  unfold join. destruct (list.last _) as [c|]; [|done].
  case_bool_decide; [apply String.app_inj|]. by intros Heq%String.app_inj%String.app_inj.
Qed.

Lemma cache_path codec : codec_cache_path sys codec = codec_cache_path_in sys "" codec.
Proof. done. Qed.

(** Every codec of a row. *)
Definition ROW_CODECS : list string :=
  CODECS ++ DICT_CODECS ++ ["lz4rip (dict)"; "C lz4 (dict)"; "lz4rip (own)"; "lz4_flex unsafe (own)"; "lz4_flex (own)"].

Lemma row_files : NoDup (file_of_codec <$> ROW_CODECS).
Proof. apply (bool_decide_unpack _). vm_compute. exact I. Qed.

Lemma path_inj subdir c c' : c ∈ ROW_CODECS -> c' ∈ ROW_CODECS ->
  codec_cache_path_in sys subdir c = codec_cache_path_in sys subdir c' -> c = c'.
Proof.
  intros Hc Hc' H%join_inj. pose proof row_files as Hd.
  apply list_elem_of_lookup in Hc as [i Hi], Hc' as [j Hj].
  assert (i = j) as <-; [|by simplify_eq].
  apply (NoDup_lookup _ i j (file_of_codec c) Hd); rewrite list_lookup_fmap; [by rewrite Hi|by rewrite Hj, H].
Qed.

(** Files that are written one for each codec. *)
Section fold.
Context (subdir : string) (write : string -> Files -> Files) (out : string -> option (list ascii)).
Context (Hwrite : forall codec fs p, write codec fs !! p =
  if bool_decide (p = codec_cache_path_in sys subdir codec) then match out codec with Some s => Some s | None => fs !! p end
  else fs !! p).

Lemma fold_other codecs fs p : (forall codec, codec ∈ codecs -> p = codec_cache_path_in sys subdir codec -> out codec = None) ->
  foldl (fun fs codec => write codec fs) fs codecs !! p = fs !! p.
Proof.
  revert fs. induction codecs as [|c codecs IH]; intros fs Hp; [done|]. cbn [foldl].
  rewrite IH by (intros; apply Hp; [by constructor|done]). rewrite Hwrite. case_bool_decide as Hc; [|done].
  by rewrite (Hp c) by (done || constructor).
Qed.

Lemma fold_written codecs fs codec s : Forall (fun c => c ∈ ROW_CODECS) codecs -> codec ∈ codecs -> out codec = Some s ->
  foldl (fun fs codec => write codec fs) fs codecs !! codec_cache_path_in sys subdir codec = Some s.
Proof.
  intros Hall Hin Hs. assert (Hrow : codec ∈ ROW_CODECS) by (rewrite list.Forall_forall in Hall; auto).
  revert fs. induction Hall as [|c codecs Hc Hall IH]; intros fs; [by apply not_elem_of_nil in Hin|]. cbn [foldl].
  destruct (decide (codec ∈ codecs)) as [Hin'|Hout]; [by apply IH|].
  apply elem_of_cons in Hin as [<-|Hin]; [|done].
  rewrite fold_other; [by rewrite Hwrite, bool_decide_eq_true_2, Hs by done|].
  intros c Hc' Hp. rewrite list.Forall_forall in Hall. apply path_inj in Hp; [|done|by apply Hall]. by subst.
Qed.
End fold.

(** The directory that a run saves to. *)
Definition directory (d : Destination) : string := match d with Results subdir => subdir | Cache _ => "" end.

(** What a run leaves in the files: those of its codecs hold its rows, and the
    others are as before. *)
Definition saved (subdir : string) (rows : list BenchResult) (fs fs' : Files) : Prop :=
  (forall codec, codec ∈ Bench.codec <$> rows ->
     load_file fs' (codec_cache_path_in sys subdir codec) = rounded <$> entries_of rows codec) /\
  (forall p, p ∉ codec_cache_path_in sys subdir <$> (Bench.codec <$> rows) -> fs' !! p = fs !! p).

Lemma entries_nil rows codec : codec ∉ Bench.codec <$> rows -> entries_of rows codec = [].
Proof.
  intros H. apply elem_of_nil_inv. intros r (Hc & Hr)%list_elem_of_filter. apply H. rewrite <-Hc. by apply list_elem_of_fmap_2.
Qed.

Lemma entries_savable rows codec : Forall savable rows -> Forall savable (entries_of rows codec).
Proof. rewrite !list.Forall_forall. intros H r [_ Hr]%list_elem_of_filter. auto. Qed.

Lemma save_results_ok subdir rows fs : (forall l, hash_order sys l ≡ₚ l) -> Forall savable rows ->
  Forall (fun c => c ∈ ROW_CODECS) (Bench.codec <$> rows) -> saved subdir rows fs (save_results_to sys subdir rows fs).
Proof.
  intros Hh Hs Hc. unfold save_results_to. set (codecs := hash_order sys _).
  assert (Hin : forall c, c ∈ codecs <-> c ∈ Bench.codec <$> rows) by (intros c; subst codecs; rewrite Hh; apply elem_of_remove_dups).
  assert (Hw : forall codec (fs : Files) p, <[codec_cache_path_in sys subdir codec := rows_text (entries_of rows codec)]> fs !! p =
    if bool_decide (p = codec_cache_path_in sys subdir codec)
    then match Some (rows_text (entries_of rows codec)) with Some s => Some s | None => fs !! p end else fs !! p).
  { intros codec fs0 p. case_bool_decide as Hp; [by rewrite Hp, lookup_insert_eq|by rewrite lookup_insert_ne]. }
  split.
  - intros codec Hr. apply load_rows; [|by apply entries_savable].
    apply (fold_written subdir _ (fun codec => Some (rows_text (entries_of rows codec))) Hw); [|by apply Hin|done].
    apply list.Forall_forall. intros c ?%Hin. rewrite list.Forall_forall in Hc. auto.
  - intros p Hp. apply (fold_other subdir _ (fun codec => Some (rows_text (entries_of rows codec))) Hw).
    intros codec Hr ->. destruct Hp. by apply list_elem_of_fmap_2, Hin.
Qed.

Lemma save_cache_ok codecs rows fs : Forall savable rows -> Forall (fun c => c ∈ ROW_CODECS) codecs ->
  Forall (fun r => Bench.codec r ∈ codecs) rows -> saved "" rows fs (save_cache sys rows codecs fs).
Proof.
  intros Hs Hc Hr. unfold save_cache. set (out codec := match entries_of rows codec with [] => None | e => Some (rows_text e) end).
  assert (Hw : forall codec (fs : Files) p, save_codec sys rows codec fs !! p =
    if bool_decide (p = codec_cache_path_in sys "" codec)
    then match out codec with Some s => Some s | None => fs !! p end else fs !! p).
  { intros codec fs0 p. unfold save_codec, out. rewrite cache_path. destruct (entries_of rows codec); [by case_bool_decide|].
    case_bool_decide as Hp; [by rewrite Hp, lookup_insert_eq|by rewrite lookup_insert_ne]. }
  split.
  - intros codec (r & -> & Hin)%list_elem_of_fmap. apply load_rows; [|by apply entries_savable].
    apply (fold_written "" _ out Hw); [done|by rewrite list.Forall_forall in Hr; apply Hr|].
    unfold out. destruct (entries_of rows (Bench.codec r)) eqn:He; [|done].
    apply (elem_of_not_nil r) in He; [done|]. by apply list_elem_of_filter.
  - intros p Hp. apply (fold_other "" _ out Hw). intros codec _ ->. unfold out. rewrite entries_nil; [done|].
    intros Hin. by apply Hp, list_elem_of_fmap_2.
Qed.

(** Rows that a run can save. *)
Definition ready (d : Destination) (rows : list BenchResult) : Prop :=
  Forall (fun r => Bench.codec r ∈ ROW_CODECS /\ savable r) rows /\
  match d with
  | Cache codecs => Forall (fun c => c ∈ ROW_CODECS) codecs /\ Forall (fun r => Bench.codec r ∈ codecs) rows
  | Results _ => True
  end.

Lemma save_ok d rows fs : (forall l, hash_order sys l ≡ₚ l) -> ready d rows ->
  saved (directory d) rows fs (save sys d rows fs).
Proof.
  intros Hh [H Hd]. assert (Forall (fun c => c ∈ ROW_CODECS) (Bench.codec <$> rows) /\ Forall savable rows) as [Hc Hs].
  { rewrite list.Forall_fmap. split; (eapply list.Forall_impl; [exact H|]); by intros r []. }
  destruct d as [subdir|codecs]; cbn [directory save].
  - by apply save_results_ok.
  - destruct Hd. by apply save_cache_ok.
Qed.

Lemma load_cache_fits fs codecs : Forall fits (load_cache sys fs codecs).
Proof. unfold load_cache. induction codecs as [|c codecs IH]; [constructor|]. apply Forall_app. split; [apply load_file_fits|exact IH]. Qed.
End files.
