(* ===== verification/BenchProofs.v ===== *)
(** * The benchmark runs to its end

    The timing loop returns whatever it measures, for a clock that goes on;
    what it measures is a call that keeps an invariant. *)

From Stdlib Require Import Ascii String SpecFloat ZArith.
From stdpp Require Import strings.
From S2P Require Import Prelude BlockSpec Core Primitives Decompress DecompressProofs DecompressSpec Sequences HashTable Compress CompressProofs DictTableProofs EncoderSpec EncoderTheorems DictTrainer Fuzz FuzzReuse FuzzTheorems Bench.

Section timing.
Context {libs : Libraries}.
Implicit Types (k : Clock libs) (n m : nat).

Lemma ticks_weaken n w last k m w' last' : ticks libs n w last k -> (w <= clock_stall libs)%nat -> (m <= n)%nat ->
  last' < last \/ last' = last /\ (w <= w')%nat -> ticks libs m w' last' k.
Proof.
  revert n w last k w' last'. induction m as [|m IH]; intros n w last k w' last' H Hw Hm Hl; [done|].
  destruct n as [|n]; [lia|]. cbn [ticks] in *. destruct (clock_gettime libs k) as [[s ns] k']. cbv zeta in *.
  destruct H as [Hmax H]. split; [done|]. destruct H as [[Hlt H]|[He H]].
  - left. split; [lia|]. eapply IH; [exact H|lia|lia|right; by split].
  - destruct w as [|w]; [done|]. destruct Hl as [Hl|[-> Hle]].
    + left. split; [lia|]. eapply IH; [exact H|lia|lia|right; split; [done|lia]].
    + right. split; [done|]. destruct w' as [|w']; [lia|]. eapply IH; [exact H|lia|lia|right; split; [done|lia]].
Qed.

Lemma ticks_steady n w last k : N.of_nat (clock_stall libs) < 2 ^ 17 -> (w <= clock_stall libs)%nat ->
  ticks libs n w last k -> steady libs n last k.
Proof. intros Hs Hw H. split; [done|]. eapply ticks_weaken; [exact H|done|done|by right]. Qed.

Lemma steady_weaken n m last last' k : steady libs n last k -> (m <= n)%nat -> last' <= last -> steady libs m last' k.
Proof. intros [Hs H] Hm Hl. split; [done|]. eapply ticks_weaken; [exact H|lia|done|lia]. Qed.

(** A reading: the clock has gone on, or waits a reading less. *)
Lemma reading_ok n w last k : ticks libs (S n) w last k -> (w <= clock_stall libs)%nat ->
  returns (cpu_nanos libs k) (fun '(now, k') => last <= now /\ now <= u64_max /\
    exists w', (w' <= clock_stall libs)%nat /\ ticks libs n w' now k' /\ (now = last -> w = S w')).
Proof.
  cbn [ticks]. unfold cpu_nanos. destruct (clock_gettime libs k) as [[s ns] k']. cbv zeta. intros [Hmax H] Hw.
  unfold checked_sum. bcase. mstep. apply returns_ok. destruct H as [[Hlt H]|[He H]].
  - split; [lia|]. split; [done|]. exists (clock_stall libs). split; [done|]. split; [done|lia].
  - destruct w as [|w]; [done|]. split; [lia|]. split; [done|]. exists w. split; [lia|]. by split.
Qed.

Lemma cpu_nanos_ok n last k : steady libs (S n) last k ->
  returns (cpu_nanos libs k) (fun '(now, k') => last <= now /\ now <= u64_max /\ steady libs n now k').
Proof.
  intros [Hs H]. destruct (reading_ok n _ last k H ltac:(lia)) as ([now k'] & -> & Hn & Hmax & w & Hw & H' & _).
  apply returns_ok. split; [done|]. split; [done|]. by apply (ticks_steady _ w).
Qed.

Lemma elapsed_ok n start last k : steady libs (S n) last k -> start <= last ->
  returns (elapsed libs start k) (fun '(d, k') => steady libs n (start + d) k').
Proof.
  intros H Hs. unfold elapsed. destruct (cpu_nanos_ok n last k H) as ([now k'] & -> & Hn & _ & Hk). mstep.
  rewrite usub_ok by lia. mstep. apply returns_ok. by replace (start + (now - start)) with now by lia.
Qed.

(** The readings of [bench_loop] and of its ten rounds. *)
Definition readings (target_ns : N) : nat := (42 + 10 * (S (N.to_nat target_ns) * S (clock_stall libs) + 2))%nat.

Section loop.
Context {St : Type} (f : St -> res Empty_set St) (I : St -> Prop) (Hf : forall s, I s -> returns (f s) I).

Lemma times_ok n s : I s -> returns (times f n s) I.
Proof.
  revert s. induction n as [|n IH]; intros s Hs; cbn [times]; [by apply returns_ok|].
  destruct (Hf s Hs) as (s' & -> & Hs'). mstep. by apply IH.
Qed.

Lemma calibrate_ok fuel batch s k m : I s -> 1 <= batch -> batch < 2 ^ 21 -> 2 ^ 21 <= batch * 2 ^ N.of_nat fuel ->
  steady libs (2 * fuel + m) 0 k ->
  returns (calibrate libs f fuel batch s k) (fun '(batch, s, k) =>
    1 <= batch /\ batch < 2 ^ 21 /\ I s /\ steady libs m 0 k).
Proof.
  change (2 ^ 21) with 2097152. change (2 ^ 20) with 1048576.
  revert batch s k. induction fuel as [|fuel IH]; intros batch s k Hs Hb1 Hb Hfuel Hk; [cbn in Hfuel; lia|].
  cbn [calibrate]. replace (2 * S fuel + m)%nat with (S (S (2 * fuel + m))) in Hk by lia.
  destruct (cpu_nanos_ok _ _ _ Hk) as ([start k1] & -> & _ & _ & Hk1). mstep.
  destruct (times_ok (N.to_nat batch) s Hs) as (s1 & -> & Hs1). mstep.
  destruct (elapsed_ok _ start _ _ Hk1 ltac:(lia)) as ([d k2] & -> & Hk2). mstep.
  change (2 ^ 20) with 1048576. destruct (_ || _) eqn:Hend.
  - apply returns_ok. split_and!; [done..|]. eapply steady_weaken; [exact Hk2|lia..].
  - apply orb_false_iff in Hend as [_ Hend]. apply N.leb_gt in Hend. apply IH; [done|lia..| |].
    + rewrite Nat2N.inj_succ, N.pow_succ_r' in Hfuel. lia.
    + eapply steady_weaken; [exact Hk2|lia..].
Qed.

(** The clock gains a nanosecond, or one of the passes that it waits is over. *)
Lemma sample_ok fuel target_ns start batch iters last w s k m : I s -> start <= last -> (w <= clock_stall libs)%nat ->
  (start + target_ns - last) * (N.of_nat (clock_stall libs) + 1) + N.of_nat w < N.of_nat fuel ->
  1 <= batch -> iters + batch * N.of_nat fuel <= u64_max ->
  N.of_nat (clock_stall libs) < 2 ^ 17 -> ticks libs (fuel + m) w last k ->
  returns (sample libs f fuel target_ns start batch iters s k) (fun '(iters, s, k) =>
    I s /\ exists now, start <= now /\ steady libs m now k).
Proof.
  revert last w iters s k. induction fuel as [|fuel IH]; intros last w iters s k Hs Hl Hw Ht Hb Hi Hst Hk; [by destruct (N.nlt_0_r _ Ht)|].
  cbn [sample]. destruct (times_ok (N.to_nat batch) s Hs) as (s1 & -> & Hs1). mstep.
  unfold checked_sum. bcase. mstep. unfold elapsed.
  destruct (reading_ok _ w last k Hk Hw) as ([now k1] & -> & Hn & _ & w' & Hw' & Hk1 & Hstall). mstep.
  rewrite usub_ok by lia. mstep. destruct (N.leb_spec target_ns (now - start)) as [|Hlt].
  - apply returns_ok. split; [done|]. exists now. split; [lia|].
    apply (steady_weaken (fuel + m) m now now); [by apply (ticks_steady _ w')|lia..].
  - apply (IH now w'); [done|lia|done| |lia|lia|done|done].
    destruct (decide (now = last)) as [->|Hne]; [specialize (Hstall eq_refl); lia|].
    set (a := start + target_ns - now). assert (Ha : a + 1 <= start + target_ns - last) by lia.
    apply (N.mul_le_mono_r _ _ (N.of_nat (clock_stall libs) + 1)) in Ha. lia.
Qed.

Lemma rounds_ok rounds target_ns batch best s k m : I s -> target_ns <= 2 ^ 25 -> 1 <= batch -> batch < 2 ^ 21 ->
  steady libs (rounds * (S (N.to_nat target_ns) * S (clock_stall libs) + 2) + m) 0 k ->
  returns (bench_rounds libs f rounds target_ns batch best s k) (fun '(_, s, k) => I s /\ steady libs m 0 k).
Proof.
  set (fuel := (S (N.to_nat target_ns) * S (clock_stall libs))%nat).
  revert best s k. induction rounds as [|rounds IH]; intros best s k Hs Ht Hb1 Hb Hk; cbn [bench_rounds];
    [by apply returns_ok|]. fold fuel. pose proof Hk as [Hst _].
  replace (S rounds * (fuel + 2) + m)%nat with (S (fuel + S (rounds * (fuel + 2) + m)))%nat in Hk by lia.
  destruct (cpu_nanos_ok _ _ _ Hk) as ([start k1] & -> & _ & _ & [_ Hk1]). mstep.
  assert (Hfuel : N.of_nat fuel = (target_ns + 1) * (N.of_nat (clock_stall libs) + 1)) by (subst fuel; lia).
  assert (Hroom : (target_ns + 1) * (N.of_nat (clock_stall libs) + 1) <= (2 ^ 25 + 1) * 2 ^ 17)
    by (apply N.mul_le_mono; lia).
  assert (Hsum : batch * N.of_nat fuel <= 2 ^ 21 * ((2 ^ 25 + 1) * 2 ^ 17)) by (apply N.mul_le_mono; lia).
  destruct (sample_ok fuel target_ns start batch 0 start (clock_stall libs) s k1 _ Hs
    ltac:(lia) ltac:(lia) ltac:(lia) Hb1 ltac:(unfold u64_max in *; cbn in Hsum |- *; lia) Hst Hk1)
    as ([[iters s1] k2] & -> & Hs1 & now & Hnow & Hk2). mstep.
  destruct (elapsed_ok _ start now k2 Hk2 Hnow) as ([d k3] & -> & Hk3). mstep.
  apply IH; [done|lia..|]. eapply steady_weaken; [exact Hk3|lia..].
Qed.

Lemma bench_loop_ok target_ns s k m : I s -> target_ns <= 2 ^ 25 -> steady libs (readings target_ns + m) 0 k ->
  returns (bench_loop libs f 3 target_ns 10 s k) (fun '(_, s, k) => I s /\ steady libs m 0 k).
Proof.
  intros Hs Ht Hk. unfold bench_loop. destruct (times_ok 3 s Hs) as (s1 & -> & Hs1). mstep.
  destruct (calibrate_ok 21 1 s1 k (10 * (S (N.to_nat target_ns) * S (clock_stall libs) + 2) + m) Hs1 ltac:(lia) ltac:(done) ltac:(done))
    as ([[batch s2] k2] & -> & Hb1 & Hb & Hs2 & Hk2); [unfold readings in Hk; eapply steady_weaken; [exact Hk|lia..]|].
  mstep. by apply rounds_ok.
Qed.
End loop.

(** A loop whose passes read the clock at most [c] times each. *)
Lemma for_each_clock {A S} (I : S -> Prop) (c : nat) (body : A -> S * Clock libs -> res Empty_set (S * Clock libs)) l :
  (forall x s k m, x ∈ l -> I s -> steady libs (c + m) 0 k ->
     returns (body x (s, k)) (fun '(s, k) => I s /\ steady libs m 0 k)) ->
  forall s k m, I s -> steady libs (length l * c + m) 0 k ->
  returns (for_each body l (s, k)) (fun '(s, k) => I s /\ steady libs m 0 k).
Proof.
  induction l as [|x l IH]; intros Hbody s k m Hs Hk; cbn [for_each]; [by apply returns_ok|].
  destruct (Hbody x s k (length l * c + m)%nat) as ([s1 k1] & -> & Hs1 & Hk1); [constructor|done|by rewrite Nat.add_assoc|].
  mstep. apply IH; [|done..]. intros y s' k' m' Hy. apply Hbody. by constructor.
Qed.

Lemma for_each_ok {A S} (I : S -> Prop) (body : A -> S -> res Empty_set S) l :
  (forall x s, x ∈ l -> I s -> returns (body x s) I) -> forall s, I s -> returns (for_each body l s) I.
Proof.
  induction l as [|x l IH]; intros Hbody s Hs; cbn [for_each]; [by apply returns_ok|].
  destruct (Hbody x s) as (s1 & -> & Hs1); [constructor|done|]. mstep. apply IH; [|done].
  intros y s' Hy. apply Hbody. by constructor.
Qed.
End timing.
Arguments readings : clear implicits.

(** ** Blocks *)

Section blocks.
Context `{T : Target}.
Implicit Types (data dict block out : bytes) (slices blocks : list bytes).

Lemma encodes_decode D data block : encodes D data block -> block_decode D block = Some data.
Proof. intros (ss & last & -> & Hv & _ & Ha). by apply block_decode_encode with (1 := Hv). Qed.

Lemma block_of_encodes D data block : block_of D data 0 block -> encodes D data block.
Proof.
  intros (_ & _ & ss & last & -> & Hv & Ha & He). change (N.to_nat 0) with 0%nat in *.
  rewrite take_0, app_nil_r in *. by exists ss, last.
Qed.

(** A decoder on a buffer of the size of its data. *)
Lemma decodes_exactly D block data out r : entry_post D block out r -> block_decode D block = Some data ->
  length out = length data -> r = Ok (data, len data).
Proof.
  intros Hp Hd Hl. destruct (proj2 (entry_post_iff _ _ _ _ data Hp)) as (o & -> & Ht); [split; [done|lia]|].
  destruct Hp as (Ho & _). rewrite take_ge in Ht by lia. by subst.
Qed.

Definition small_slices (size : N) slices : Prop :=
  slices <> [] /\ 0 < size <= 2 ^ 20 /\ Forall (fun s => len s = size) slices /\ len slices <= SLICES.

Lemma rotating_slices_ok source size : 0 < size <= 2 ^ 20 -> rotating_slices source size <> [] ->
  small_slices size (rotating_slices source size).
Proof.
  intros Hs Hne. unfold small_slices, rotating_slices in *. split_and!; [done|lia|lia| |].
  - apply Forall_fmap, Forall_seq. intros j Hj. cbn. rewrite length_sub; [lia|]. nia.
  - rewrite length_fmap, length_seq. lia.
Qed.

Lemma small_alloc size data : size <= 2 ^ 20 -> len data = size -> alloc_ok data.
Proof.
  change (2 ^ 20) with 1048576. intros Hs Hl. pose proof isize_large. change (2 ^ 31) with 2147483648 in *.
  unfold alloc_ok, input_ok. change (2 ^ 18) with 262144. change (2 ^ 64) with 18446744073709551616. lia.
Qed.

(** ** Passes over messages *)

Section passes.
Context {libs : Libraries} (size : N) (Q : bytes -> bytes -> Prop).
Implicit Types (k : Clock libs) (n m : nat).

Definition room : N := 20 + 110 * size / 100.

Definition restores slices blocks : Prop := Forall2 Q slices blocks /\ Forall (fun b => len b <= room) blocks.

Section encode.
Context {St : Type} (compress : St -> bytes -> bytes -> res Empty_set (St * bytes * N)) (I : St -> Prop).
Hypothesis Hc : forall s d o, I s -> len d = size -> len o = room ->
  returns (compress s d o) (fun '(s', o', n) =>
    I s' /\ length o' = length o /\ n <= len o /\ Q d (take (N.to_nat n) o')).

Lemma collect_ok slices s out : Forall (fun d => len d = size) slices -> I s -> len out = room ->
  returns (collect compress slices s out) (fun '(blocks, s', out') =>
    restores slices blocks /\ I s' /\ len out' = room).
Proof.
  unfold restores. intros Hs. revert s out. induction Hs as [|d slices Hd _ IH]; intros s out HI Ho; cbn [collect].
  { apply returns_ok. done. }
  destruct (Hc s d out HI Hd Ho) as ([[s1 o1] n] & -> & H1 & Hl & Hn & HQ). mstep.
  rewrite slice_ok by lia. rewrite N.sub_0_r, sub_0. mstep.
  destruct (IH s1 o1 H1 ltac:(lia)) as ([[blocks s2] o2] & -> & [Hb Hr] & H2 & Ho2). mstep. apply returns_ok.
  split_and!; try done; constructor; [done..| |done]. len_lia.
Qed.

Lemma time_encode_ok slices s out target_ns k m : Forall (fun d => len d = size) slices -> I s -> len out = room ->
  target_ns <= 2 ^ 25 -> steady libs (readings libs target_ns + m) 0 k ->
  returns (time_encode libs compress slices s out target_ns k) (fun '(_, blocks, s', k) =>
    restores slices blocks /\ I s' /\ steady libs m 0 k).
Proof.
  intros Hs HI Ho Ht Hk. unfold time_encode.
  destruct (collect_ok slices s out Hs HI Ho) as ([[blocks s1] o1] & -> & Hb & H1 & Ho1). mstep.
  edestruct (bench_loop_ok (libs:=libs) (for_each (fun d '(s, out) => '(s, out, _) ← compress s d out; Ok (s, out)) slices)
    (fun '(s, out) => I s /\ len out = room)) as ([[ns [s2 o2]] k2] & -> & [H2 _] & Hk2); [|done|done|exact Hk|].
  - intros s' Hs'. apply for_each_ok; [|done]. intros d [s2 o2] Hd [H2 Ho2].
    rewrite list.Forall_forall in Hs. destruct (Hc s2 d o2 H2 (Hs d Hd) Ho2) as ([[s3 o3] n] & -> & H3 & Hl & _).
    mstep. apply returns_ok. split; [done|lia].
  - mstep. by apply returns_ok.
Qed.
End encode.

Lemma time_decode_ok decode slices blocks target_ns k m : small_slices size slices -> restores slices blocks ->
  (forall d b o, Q d b -> len d = size -> len b <= room -> length o = length d ->
     returns (decode b o) (fun '(o', n) => o' = d /\ n = len d)) ->
  target_ns <= 2 ^ 25 -> steady libs (readings libs target_ns + m) 0 k ->
  returns (time_decode libs blocks slices target_ns decode k) (fun '(_, k) => steady libs m 0 k).
Proof.
  intros (Hne & _ & Hs & _) [Hr Hb] Hd Ht Hk. unfold time_decode.
  destruct slices as [|first rest]; [done|]. inversion Hs as [|? ? Hfirst _]; subst.
  change (index (first :: rest) 0) with (Ok (E:=Empty_set) first). mstep.
  set (J := fun o : bytes => length o = length first).
  assert (Hpair : forall b s, (b, s) ∈ zip blocks (first :: rest) -> Q s b /\ length s = length first /\ len b <= room).
  { intros b s Hin. rewrite list.Forall_forall in Hs; rewrite list.Forall_forall in Hb. apply list_elem_of_lookup in Hin as [i Hi].
    apply lookup_zip_Some in Hi as [Hi1 Hi2]. split.
    - by eapply Forall2_lookup_lr.
    - apply list_elem_of_lookup_2 in Hi1, Hi2. specialize (Hs _ Hi2). specialize (Hb _ Hi1). cbn in *. lia. }
  apply returns_bind. apply (returns_mono _ J).
  { apply for_each_ok; [|unfold J, zeroed; rewrite length_replicate; lia]. intros [b s] o Hin Ho.
    destruct (Hpair b s Hin) as (HQ & Hl & Hlb).
    destruct (Hd s b o HQ ltac:(lia) Hlb ltac:(unfold J in Ho; lia)) as ([o' n] & -> & -> & ->). mstep.
    rewrite !assert_eq_ok by done. mstep. by apply returns_ok. }
  intros out Hout.
  edestruct (bench_loop_ok (libs:=libs) (for_each (fun b out => '(out, _) ← decode b out; Ok out) blocks) J)
    as ([[ns o2] k2] & -> & _ & Hk2); [|done|done|exact Hk|mstep; by apply returns_ok].
  intros s' Hs'. apply for_each_ok; [|done]. intros b o Hin Ho.
  apply list_elem_of_lookup in Hin as [i Hi]. pose proof (Forall2_length Hr) as Hlen.
  destruct (lookup_lt_is_Some_2 (first :: rest) i) as [s Hi2]; [apply lookup_lt_Some in Hi; lia|].
  destruct (Hpair b s) as (HQ & Hl & Hlb).
  { apply list_elem_of_lookup. exists i. by apply lookup_zip_Some. }
  destruct (Hd s b o HQ ltac:(lia) Hlb ltac:(unfold J in Ho; lia)) as ([o' n] & -> & -> & ->). mstep.
  by apply returns_ok.
Qed.
End passes.

(** ** The codecs *)

Section codecs.
Context (libs : Libraries) (Hlibs : libraries_ok libs).
Implicit Types (k : Clock libs) (n m : nat) (size : N).

Lemma small_sizes size data out : size <= 2 ^ 20 -> len data = size -> len out = room size ->
  alloc_ok data /\ buffer_ok out /\ len data <= LZ4_MAX_INPUT_SIZE /\
  compress_bound (len data) <= len out < 2 ^ 31 /\ len out = 20 + 110 * len data / 100.
Proof.
  intros Hs Hd Ho. pose proof (small_alloc size data Hs Hd) as Ha. unfold room, compress_bound, LZ4_MAX_INPUT_SIZE in *.
  change (2 ^ 20) with 1048576 in *. change (2 ^ 31) with 2147483648. destruct Ha as [Hi Hm].
  split_and!; [done|unfold buffer_ok|..]; lia.
Qed.

(** The calls of a codec in a pass. *)
Definition encodes_slice (size : N) (Q : bytes -> bytes -> Prop) {St} (I : St -> Prop)
    (compress : St -> bytes -> bytes -> res Empty_set (St * bytes * N)) : Prop :=
  forall s d o, I s -> len d = size -> len o = room size ->
    returns (compress s d o) (fun '(s', o', n) =>
      I s' /\ length o' = length o /\ n <= len o /\ Q d (take (N.to_nat n) o')).

Definition decodes_slice (size : N) (Q : bytes -> bytes -> Prop)
    (decode : bytes -> bytes -> res Empty_set (bytes * N)) : Prop :=
  forall d b o, Q d b -> len d = size -> len b <= room size -> length o = length d ->
    returns (decode b o) (fun '(o', n) => o' = d /\ n = len d).

Lemma stateless_ok c size : codec_ok c -> size <= 2 ^ 20 ->
  encodes_slice size (encodes []) (fun _ => True) (stateless (codec_compress c)).
Proof.
  intros Hc Hs s d o _ Hd Ho. destruct (small_sizes size d o Hs Hd Ho) as (_ & _ & Hmax & _ & Hr). unfold stateless.
  destruct (compress_codec c Hc d o Hmax) as (o' & n & -> & Hp & Hn & He);
    [rewrite Hr; by apply (bound_ok c Hc)|]. mstep. by apply returns_ok.
Qed.

Lemma c_compress_ok size : size <= 2 ^ 20 -> encodes_slice size (encodes []) (fun _ => True) (c_compress libs).
Proof.
  intros Hs s d o _ Hd Ho. destruct (small_sizes size d o Hs Hd Ho) as (_ & _ & Hmax & Hr & _). unfold c_compress.
  destruct (compress_stream libs Hlibs s d o Hmax Hr) as (s' & o' & n & -> & Hpos & Hp & Hn & He).
  unfold assert. destruct (Z.ltb_spec 0 (Z.of_N n)); [|lia]. mstep. rewrite N2Z.id. by apply returns_ok.
Qed.

Lemma lz4rip_compress_ok size : size <= 2 ^ 20 -> encodes_slice size (encodes [])
  (fun c => compressor_inv (cn_inner (App.compressor c))) (fun c d o => unwrap (App.CompressorImpl.compress_into c d o)).
Proof.
  intros Hs [[c]] d o Hc Hd Ho. destruct (small_sizes size d o Hs Hd Ho) as (Ha & Hb & _ & _ & Hr).
  pose proof (compressor_compress_into_ok c d o Hc (proj1 Ha) ltac:(unfold buffer_ok in Hb; lia)) as Hcall.
  apply state_call_max in Hcall as ([[c' o'] n] & Hcall & Hc' & Hl & Hn & Hblock); [|done..].
  unfold App.CompressorImpl.compress_into. unfold CompressorNImpl.compress_into. cbn [App.compressor cn_inner].
  rewrite Hcall. mstep. cbn [unwrap]. apply returns_ok. split_and!; [done..|]. by apply block_of_encodes.
Qed.

Lemma lz4rip_dict_compress_ok dict size : size <= 2 ^ 20 ->
  encodes_slice size (fun d b => block_decode dict b = Some d)
    (fun c => dict_compressor_inv (dict_used true dict) (App.dict_compressor c))
    (fun c d o => unwrap (App.DictCompressorImpl.compress_into c d o)).
Proof.
  intros Hs [c] d o Hc Hd Ho. destruct (small_sizes size d o Hs Hd Ho) as (Ha & Hb & _ & _ & Hr).
  pose proof (dict_compressor_compress_into_ok _ c d o Hc (proj1 Ha) ltac:(unfold buffer_ok in Hb; lia)) as Hcall.
  apply state_call_max in Hcall as ([[c' o'] n] & Hcall & Hc' & Hl & Hn & Hblock); [|done..].
  unfold App.DictCompressorImpl.compress_into. cbn [App.dict_compressor].
  rewrite Hcall. mstep. cbn [unwrap]. apply returns_ok. split_and!; [done..|]. by apply block_of_dict.
Qed.

Definition indexed dict (c : CDict libs) : Prop :=
  cd_dict libs c = dict /\ exists s, dict_stream libs c = LZ4_loadDictSlow libs s dict (c_int (len dict)).

Lemma CDict_compress_into dict c d o : indexed dict c -> len dict < 2 ^ 31 -> len d <= LZ4_MAX_INPUT_SIZE ->
  compress_bound (len d) <= len o < 2 ^ 31 ->
  returns (CDict_compress libs c d o) (fun '(c', o', n) => indexed dict c' /\ compressed_into dict d o o' n).
Proof.
  intros [HD [s Hds]] Hdict Hmax Hr. destruct c as [w ds D]. cbn in HD, Hds. subst D ds.
  unfold CDict_compress. cbn [work dict_stream cd_dict].
  destruct (compress_dict libs Hlibs w s dict d o Hmax Hdict Hr) as (w' & o' & n & -> & Hpos & Hc).
  unfold assert. destruct (Z.ltb_spec 0 (Z.of_N n)); [|lia]. mstep. rewrite N2Z.id. apply returns_ok.
  split; [|done]. split; [done|by exists s].
Qed.

Lemma CDict_compress_ok dict size : size <= 2 ^ 20 -> len dict < 2 ^ 31 ->
  encodes_slice size (encodes dict) (indexed dict) (CDict_compress libs).
Proof.
  intros Hs Hdict c d o Hc Hd Ho. destruct (small_sizes size d o Hs Hd Ho) as (_ & _ & Hmax & Hr & _).
  eapply returns_mono; [by apply (CDict_compress_into dict)|]. by intros [[c' o'] n] (? & ? & ? & ?).
Qed.

Lemma codec_decodes_ok c size : codec_ok c -> decodes_slice size (encodes []) (fun b o => or_panic (codec_decompress c b o)).
Proof.
  intros Hc d b o He _ _ Ho. rewrite (decompress_codec c Hc d b o He Ho). mstep. by apply returns_ok.
Qed.

Lemma room_buffer size data block : size <= 2 ^ 20 -> len data = size -> len block <= room size ->
  buffer_ok block /\ buffer_ok data /\ len block < 2 ^ 31 /\ len data <= LZ4_MAX_INPUT_SIZE.
Proof.
  intros Hs Hd Hb. destruct (small_alloc size data Hs Hd) as [_ Hm]. unfold room, buffer_ok, LZ4_MAX_INPUT_SIZE in *.
  change (2 ^ 20) with 1048576 in *. change (2 ^ 31) with 2147483648. lia.
Qed.

Lemma lz4rip_decodes_ok size : size <= 2 ^ 20 ->
  decodes_slice size (encodes []) (fun b o => unwrap (App.decompress_into b o)).
Proof.
  intros Hs d b o He Hd Hb Ho. destruct (room_buffer size d b Hs Hd Hb) as (Hbb & Hbd & _).
  unfold App.decompress_into. rewrite (decodes_exactly [] b d o (decompress_into b o)); [by apply returns_ok|..|done].
  - apply decompress_into_post; [done|]. unfold buffer_ok in *. lia.
  - by apply encodes_decode.
Qed.

Lemma lz4rip_dict_decodes_ok dict size : size <= 2 ^ 20 ->
  decodes_slice size (fun d b => block_decode dict b = Some d)
    (fun b o => unwrap (App.DecompressorImpl.decompress_into (App.DecompressorImpl.with_dict dict) b o)).
Proof.
  intros Hs d b o He Hd Hb Ho. destruct (room_buffer size d b Hs Hd Hb) as (Hbb & Hbd & _).
  unfold App.DecompressorImpl.decompress_into, DecompressorImpl.decompress_into, DecompressorRefImpl.decompress_into.
  cbn [App.DecompressorImpl.with_dict App.decompressor DecompressorImpl.with_dict DecompressorRefImpl.with_dict d_dict dr_dict].
  rewrite (decodes_exactly dict b d o (decompress_into_with_dict b o dict)); [by apply returns_ok|..|done|done].
  apply decompress_into_with_dict_post; [done|]. unfold buffer_ok in *. lia.
Qed.

Lemma CDict_decodes_ok c size : size <= 2 ^ 20 -> len (cd_dict libs c) < 2 ^ 31 ->
  decodes_slice size (encodes (cd_dict libs c)) (fun b o =>
    let '(o, n) := CDict_decompress libs c b o in _ ← assert (0 <=? n)%Z; Ok (o, Z.to_N n)).
Proof.
  intros Hs Hdict d b o He Hd Hb Ho. destruct (room_buffer size d b Hs Hd Hb) as (_ & _ & Hbl & Hmax).
  unfold CDict_decompress. rewrite (decompress_dict libs Hlibs _ d b o He Ho Hdict Hmax Hbl).
  unfold assert. destruct (Z.leb_spec 0 (Z.of_N (len d))); [|lia]. mstep. rewrite N2Z.id. by apply returns_ok.
Qed.
End codecs.
End blocks.
