(* ===== verification/BenchTheorems.v ===== *)
(** * Theorems on the benchmark

    Every run ends, with no failed assertion, and every row reports the sizes of
    inputs and of blocks that restore them. *)

From Stdlib Require Import Ascii String SpecFloat ZArith.
From stdpp Require Import strings gmap.
From S2P Require Import Prelude BlockSpec Core Primitives Decompress DecompressProofs DecompressSpec Sequences HashTable Compress CompressProofs DictTableProofs EncoderSpec EncoderTheorems DictTrainer DictTheorems Fuzz FuzzReuse FuzzTheorems Bench BenchText BenchTextProofs BenchCache BenchCacheProofs BenchProofs.

#[local] Open Scope string_scope.
#[local] Open Scope list_scope.
#[local] Open Scope N_scope.

(** ** What a row reports *)

(** Sizes of an input and of its block, or the sums or rounded means for slices of
    one size and their blocks, which restore the inputs after the dictionary [D]. *)
Inductive measured (D : bytes) (r : BenchResult) : Prop :=
| whole_file data block : block_decode D block = Some data ->
    input_size r = len data -> compressed_size r = len block -> measured D r
| sums slices blocks : Forall2 (fun s b => block_decode D b = Some s) slices blocks ->
    input_size r = len (concat slices) -> compressed_size r = len (concat blocks) -> measured D r
| means slices blocks : slices <> [] -> Forall2 (fun s b => block_decode D b = Some s) slices blocks ->
    Forall (fun s => len s = input_size r) slices ->
    compressed_size r = (len (concat blocks) + len slices / 2) / len slices -> measured D r.

(** The row of a codec and an input. *)
Definition row_for `{T : Target} (codec name : string) (r : BenchResult) : Prop :=
  Bench.codec r = codec /\ input_name r = name /\ fits r.

Section runs.
Context `{T : Target} (libs : Libraries) (Hlibs : libraries_ok libs).
Implicit Types (k : Clock libs) (n m : nat) (size : N) (slices blocks : list bytes) (name codec : string).

(** ** Passes *)

Lemma total_len_ok size slices blocks : size <= 2 ^ 20 -> len slices <= SLICES -> length blocks = length slices ->
  Forall (fun b => len b <= room size) blocks ->
  total_len blocks = Ok (len (concat blocks)) /\ len (concat blocks) <= 2 ^ 27.
Proof.
  unfold SLICES, room. change (2 ^ 20) with 1048576. change (2 ^ 27) with 134217728. intros Hs Hl Hlen Hb.
  pose proof usize_isize. pose proof isize_large. change (2 ^ 31) with 2147483648 in *.
  assert (Htot : total_len blocks = Ok (len (concat blocks)) /\ len (concat blocks) <= len blocks * 1200000);
    [|destruct Htot as [-> ?]; split; [done|lia]].
  assert (Hn : len blocks <= 64) by lia. clear Hl Hlen.
  induction Hb as [|b blocks Hb _ IH]; cbn [total_len concat]; [done|].
  cbn [length] in Hn. destruct IH as [-> IH]; [lia|]. mstep. rewrite length_app.
  unfold checked_sum. bcase. cbn [length]. split; [f_equal; lia|lia].
Qed.

Lemma div_below (a b : N) : a / b <= a.
Proof. destruct (N.eq_dec b 0) as [->|Hb]; [rewrite N.div_0_r; apply N.le_0_l|]. apply N.Div0.div_le_upper_bound. nia. Qed.

Lemma per_message_ok D size codec name slices blocks a b : small_slices size slices ->
  restores size (fun d b => block_decode D b = Some d) slices blocks ->
  returns (per_message codec name slices blocks a b) (fun r => row_for codec name r /\ measured D r).
Proof.
  intros (Hne & Hsize & Hs & Hl) [Hr Hb]. pose proof (Forall2_length Hr) as Hlen. unfold per_message.
  destruct (total_len_ok size slices blocks) as [-> Hmax]; [lia|done|done|done|]. mstep.
  destruct slices as [|first rest]; [done|]. change (index (first :: rest) 0) with (Ok (E:=Empty_set) first). mstep.
  pose proof usize_isize. pose proof isize_large. unfold SLICES in Hl.
  change (2 ^ 27) with 134217728 in *. change (2 ^ 31) with 2147483648 in *.
  unfold checked_sum. bcase. mstep. apply returns_ok.
  inversion Hs as [|? ? Hfirst _]; subst. split; [|by eapply means]. split_and!; [done..|].
  split; cbn [input_size compressed_size]; [lia|]. etransitivity; [apply div_below|]. lia.
Qed.

Lemma restores_mono size (Q Q' : bytes -> bytes -> Prop) slices blocks : (forall d b, Q d b -> Q' d b) ->
  restores size Q slices blocks -> restores size Q' slices blocks.
Proof. intros H [Hr Hb]. split; [|done]. by eapply list.Forall2_impl. Qed.

(** The length of the buffer for the blocks of a pass. *)
Lemma first_slice size slices : small_slices size slices -> exists first,
  index (E:=Empty_set) slices 0 = Ok first /\ get_maximum_output_size (E:=Empty_set) (len first) = Ok (room size) /\
  len first = size.
Proof.
  intros (Hne & Hsize & Hs & _). destruct slices as [|first rest]; [done|]. inversion Hs as [|? ? Hfirst _]; subst.
  exists first. split; [done|]. split; [|done]. unfold room.
  by apply (alloc_max_size (E:=Empty_set) first), (small_alloc (len first) first (proj2 Hsize)).
Qed.

Lemma length_zeroed (size : N) : len (zeroed size) = size.
Proof. unfold zeroed. rewrite length_replicate. lia. Qed.

Lemma small_encode_ok size codec slices target_ns k m : small_slices size slices -> target_ns <= 2 ^ 25 ->
  steady libs (readings libs target_ns + m) 0 k ->
  returns (small_encode libs codec slices target_ns k) (fun '(_, blocks, k) =>
    restores size (encodes []) slices blocks /\ steady libs m 0 k).
Proof.
  intros Hsl Ht Hk. destruct (first_slice size slices Hsl) as (first & Hi & Hmax & Hf). unfold small_encode.
  rewrite Hi. mstep. rewrite Hmax. mstep. destruct Hsl as (_ & [_ Hsize] & Hs & _).
  pose proof (length_zeroed (room size)) as Ho.
  assert (Hpass : forall St (compress : St -> bytes -> bytes -> res Empty_set (St * bytes * N)) I s,
    encodes_slice size (encodes []) I compress -> I s ->
    returns ('(ns, blocks, _, k) ← time_encode libs compress slices s (zeroed (room size)) target_ns k; Ok (ns, blocks, k))
      (fun '(_, blocks, k) => restores size (encodes []) slices blocks /\ steady libs m 0 k)).
  { intros St compress I s Hc HI.
    destruct (time_encode_ok size (encodes []) compress I Hc slices s (zeroed (room size)) target_ns k m Hs HI Ho Ht Hk)
      as ([[[ns blocks] s'] k'] & -> & Hb & _ & Hk'). mstep. by apply returns_ok. }
  repeat case_bool_decide.
  - destruct (create_ok libs Hlibs) as [stream ->]. mstep. eapply Hpass; [by apply c_compress_ok|done].
  - eapply Hpass; [apply stateless_ok; [by apply (flex_unsafe_ok libs)|done]|done].
  - eapply Hpass; [apply stateless_ok; [by apply (flex_ok libs)|done]|done].
  - eapply Hpass; [by apply lz4rip_compress_ok|]. by apply (compressor_new_inv DEFAULT_NODICT_ENTRIES).
Qed.

Lemma small_decode_ok size codec blocks slices target_ns k m : small_slices size slices ->
  restores size (encodes []) slices blocks -> target_ns <= 2 ^ 25 -> steady libs (readings libs target_ns + m) 0 k ->
  returns (small_decode libs codec blocks slices target_ns k) (fun '(_, k) => steady libs m 0 k).
Proof.
  intros Hsl Hr Ht Hk. unfold small_decode. pose proof (proj2 (proj1 (proj2 Hsl))) as Hsize.
  repeat case_bool_decide; eapply time_decode_ok; try done.
  - by apply codec_decodes_ok, (lzzzz_ok libs).
  - by apply codec_decodes_ok, (flex_unsafe_ok libs).
  - by apply codec_decodes_ok, (flex_ok libs).
  - by apply lz4rip_decodes_ok.
Qed.

Lemma c_int_small (n : N) : n < 2 ^ 31 -> c_int n = Z.of_N n.
Proof.
  change (2 ^ 31) with 2147483648. intros Hn. unfold c_int. change (2 ^ 32)%Z with 4294967296%Z.
  change (2 ^ 31)%Z with 2147483648%Z. rewrite Z.mod_small by lia. destruct (Z.ltb_spec (Z.of_N n) 2147483648); lia.
Qed.

Lemma CDict_new_ok dict : returns (CDict_new libs dict) (indexed libs dict).
Proof. unfold CDict_new. destruct (create_ok libs Hlibs) as [s ->]. mstep. apply returns_ok. split; eauto. Qed.

Lemma dict_encode_decode_ok size codec dict slices target_ns k m : small_slices size slices -> len dict < 2 ^ 31 ->
  target_ns <= 2 ^ 25 -> steady libs (readings libs target_ns + (readings libs target_ns + m)) 0 k ->
  returns (dict_encode_decode libs codec dict slices target_ns k) (fun '(_, _, blocks, k) =>
    restores size (fun d b => block_decode dict b = Some d) slices blocks /\ steady libs m 0 k).
Proof.
  intros Hsl Hdict Ht Hk. destruct (first_slice size slices Hsl) as (first & Hi & Hmax & Hf). unfold dict_encode_decode.
  rewrite Hi. mstep. rewrite Hmax. mstep. pose proof Hsl as (_ & [_ Hsize] & Hs & _).
  pose proof (length_zeroed (room size)) as Ho. destruct (String.prefix _ _).
  - destruct (CDict_new_ok dict) as (c & -> & Hc). mstep.
    edestruct (time_encode_ok size (encodes dict) (CDict_compress libs) _ (CDict_compress_ok libs Hlibs dict size Hsize Hdict)
      slices c (zeroed (room size)) target_ns k) as ([[[enc blocks] c'] k1] & -> & Hb & [HD Hds] & Hk1); [done..|exact Hk|].
    mstep. apply returns_bind. eapply returns_mono.
    { eapply (time_decode_ok size (encodes dict)); [done|exact Hb| |done|exact Hk1].
      rewrite <-HD. apply CDict_decodes_ok; [done..|by rewrite HD]. }
    intros [dec k2] Hk2. apply returns_ok. split; [|done]. eapply restores_mono; [|exact Hb]. intros d b. apply encodes_decode.
  - destruct (dict_compressor_new_ok DEFAULT_DICT_ENTRIES dict eq_refl) as (c & Hc & Hinv).
    unfold App.DictCompressorImpl.new. rewrite Hc. mstep. cbn [unwrap]. mstep.
    edestruct (time_encode_ok size (fun d b => block_decode dict b = Some d) _ _ (lz4rip_dict_compress_ok dict size Hsize)
      slices {| App.dict_compressor := c |} (zeroed (room size)) target_ns k)
      as ([[[enc blocks] c'] k1] & -> & Hb & _ & Hk1); [done..|exact Hk|].
    mstep. apply returns_bind. eapply returns_mono.
    { eapply (time_decode_ok size (fun d b => block_decode dict b = Some d));
        [done|exact Hb|by apply lz4rip_dict_decodes_ok|done|exact Hk1]. }
    intros [dec k2] Hk2. by apply returns_ok.
Qed.
(** ** Whole files *)

(** A file within the limits of the codecs. *)
Definition file_ok (data : bytes) : Prop := alloc_ok data /\ len data <= LZ4_MAX_INPUT_SIZE.

(** Both timings of an input, for calls that keep invariants. *)
Lemma bench_both {S1 S2} (I1 : S1 -> Prop) (I2 : S2 -> Prop) (f1 : S1 -> res Empty_set S1)
    (f2 : S1 -> S2 -> res Empty_set S2) s1 s2 (row : f64 -> f64 -> BenchResult) (P : BenchResult -> Prop)
    target_ns k m :
  (forall s, I1 s -> returns (f1 s) I1) -> (forall s s', I1 s -> I2 s' -> returns (f2 s s') I2) -> I1 s1 -> I2 s2 ->
  (forall a b, P (row a b)) -> target_ns <= 2 ^ 25 -> steady libs (readings libs target_ns + (readings libs target_ns + m)) 0 k ->
  returns ('(c_ns, s, k) ← bench_loop libs f1 3 target_ns 10 s1 k;
           '(d_ns, _, k) ← bench_loop libs (f2 s) 3 target_ns 10 s2 k; Ok (row c_ns d_ns, k))
    (fun '(r, k) => P r /\ steady libs m 0 k).
Proof.
  intros H1 H2 Hs1 Hs2 HP Ht Hk.
  destruct (bench_loop_ok f1 I1 H1 target_ns s1 k _ Hs1 Ht Hk) as ([[a s] k1] & -> & Hs & Hk1). mstep.
  destruct (bench_loop_ok (f2 s) I2 (fun s' => H2 s s' Hs) target_ns s2 k1 m Hs2 Ht Hk1) as ([[b s'] k2] & -> & _ & Hk2).
  mstep. by apply returns_ok.
Qed.

(** The row of a file and of a block within the bound of the codecs. *)
Lemma file_row codec name data (n : N) a b : file_ok data -> n <= 20 + 110 * len data / 100 ->
  row_for codec name {| Bench.codec := codec; input_name := name; input_size := len data; compressed_size := n;
                        compress_ns := a; decompress_ns := b |}.
Proof.
  intros [_ Hd] Hn. split_and!; [done..|]. pose proof usize_isize. pose proof isize_large.
  change (2 ^ 31) with 2147483648 in *. unfold LZ4_MAX_INPUT_SIZE in Hd.
  split; cbn [input_size compressed_size]; lia.
Qed.

Lemma bench_codec_ok c codec_name data name target_ns k m : codec_ok c -> file_ok data -> target_ns <= 2 ^ 25 ->
  steady libs (readings libs target_ns + (readings libs target_ns + m)) 0 k ->
  returns (bench_codec libs c codec_name data name target_ns k) (fun '(r, k) =>
    (row_for codec_name name r /\ measured [] r) /\ steady libs m 0 k).
Proof.
  intros Hc [Ha Hmax] Ht Hk. unfold bench_codec.
  destruct (compress_codec c Hc data (zeroed (max_compressed c (len data))) Hmax) as (o & n & -> & Hp & Hn & He);
    [by rewrite length_zeroed|]. mstep. rewrite slice_ok by lia. rewrite N.sub_0_r, sub_0. mstep.
  apply (bench_both (fun _ => True) (fun _ => True) _ (fun _ b => keep_option b (codec_decompress c (take (N.to_nat n) o) b))
    o _ (fun a b => {| Bench.codec := codec_name; input_name := name; input_size := len data; compressed_size := n;
                       compress_ns := a; decompress_ns := b |})); try done.
  - intros s _. unfold keep_option. by apply returns_ok.
  - intros s s' _ _. unfold keep_option. by apply returns_ok.
  - intros a b. split; [|apply (whole_file _ _ data (take (N.to_nat n) o)); [by apply encodes_decode|done|]].
    + apply file_row; [done|]. pose proof (bound_ok c Hc _ Hmax). pose proof (length_zeroed (max_compressed c (len data))). lia.
    + cbn [compressed_size]. rewrite length_take. lia.
Qed.

Lemma keep_output_ok D input b r : entry_post D input b r -> returns (keep_output r) (fun b' => length b' = length b).
Proof. destruct r as [[o n]|[o e]| |]; try done; intros [Hl _]; by apply returns_ok. Qed.

Lemma bench_lz4rip_ok data name target_ns k m : file_ok data -> target_ns <= 2 ^ 25 ->
  steady libs (readings libs target_ns + (readings libs target_ns + m)) 0 k ->
  returns (bench_lz4rip libs data name target_ns k) (fun '(r, k) =>
    (row_for LZ4RIP_CODEC name r /\ measured [] r) /\ steady libs m 0 k).
Proof.
  intros Hdata Ht Hk. pose proof Hdata as [Ha _]. unfold bench_lz4rip. destruct (alloc_max_size (E:=Empty_set) data Ha) as [-> _]. mstep.
  set (max_out := 20 + 110 * len data / 100).
  assert (Hcall : forall b, len b = max_out -> returns (App.compress_into data b) (fun '(b', n) =>
    length b' = length b /\ n <= len b /\ block_of [] data 0 (take (N.to_nat n) b'))).
  { intros b Hb. apply buffer_call_max; [done..|]. apply compress_into_ok; [apply Ha|].
    destruct Ha as [_ Hm]. subst max_out. lia. }
  destruct (Hcall (zeroed max_out) (length_zeroed _)) as ([o n] & -> & Hl & Hn & Hb). cbn [unwrap]. mstep.
  pose proof (length_zeroed max_out) as Hz. rewrite slice_ok by lia. rewrite N.sub_0_r, sub_0. mstep.
  pose proof (block_of_buffer _ _ _ Ha Hb) as Hbb.
  apply (bench_both (fun b => len b = max_out) (fun b => length b = length data) _
    (fun _ b => keep_output (App.decompress_into (take (N.to_nat n) o) b))
    o _ (fun a b => {| Bench.codec := LZ4RIP_CODEC; input_name := name; input_size := len data; compressed_size := n;
                       compress_ns := a; decompress_ns := b |})); try done.
  - intros s Hs. destruct (Hcall s Hs) as ([s' n'] & -> & Hs' & _). cbn [keep_buffer]. apply returns_ok. lia.
  - intros _ s _ Hs. eapply returns_mono; [eapply keep_output_ok, (decompress_into_post _ s Hbb)|cbn; lia].
    destruct Ha as [_ Hm]. unfold buffer_ok. lia.
  - lia.
  - unfold zeroed. rewrite length_replicate. lia.
  - intros a b. split; [apply file_row; [done|lia]|]. apply (whole_file _ _ data (take (N.to_nat n) o)); [by apply block_of_decode|done|].
    cbn [compressed_size]. rewrite length_take. lia.
Qed.

Lemma bench_lz4rip_dict_ok data dict name target_ns k m : file_ok data -> target_ns <= 2 ^ 25 ->
  steady libs (readings libs target_ns + (readings libs target_ns + m)) 0 k ->
  returns (bench_lz4rip_dict libs data dict name target_ns k) (fun '(r, k) =>
    (row_for LZ4RIP_DICT_CODEC name r /\ measured dict r) /\ steady libs m 0 k).
Proof.
  intros Hdata Ht Hk. pose proof Hdata as [Ha _]. unfold bench_lz4rip_dict, App.DictCompressorImpl.new.
  destruct (dict_compressor_new_ok DEFAULT_DICT_ENTRIES dict eq_refl) as (c & -> & Hinv). mstep. cbn [unwrap]. mstep.
  destruct (alloc_max_size (E:=Empty_set) data Ha) as [-> _]. mstep. set (max_out := 20 + 110 * len data / 100).
  set (I := fun c => dict_compressor_inv (dict_used true dict) (App.dict_compressor c)).
  assert (Hcall : forall c b, I c -> len b = max_out -> returns (App.DictCompressorImpl.compress_into c data b)
    (fun '(c', b', n) => I c' /\ length b' = length b /\ n <= len b /\
       block_of (dict_used true dict) data 0 (take (N.to_nat n) b'))).
  { intros [d] b Hd Hb. unfold App.DictCompressorImpl.compress_into. cbn [App.dict_compressor].
    assert (Hi : len b <= isize_max) by (destruct Ha as [_ Hm]; subst max_out; lia).
    pose proof (dict_compressor_compress_into_ok _ d data b Hd (proj1 Ha) Hi) as Hs.
    apply state_call_max in Hs as ([[d' b'] n] & -> & Hd' & Hr); [|done..]. mstep. by apply returns_ok. }
  destruct (Hcall {| App.dict_compressor := c |} (zeroed max_out) Hinv (length_zeroed _))
    as ([[c1 o] n] & -> & Hc1 & Hl & Hn & Hb). cbn [unwrap]. mstep.
  pose proof (length_zeroed max_out) as Hz. rewrite slice_ok by lia. rewrite N.sub_0_r, sub_0. mstep.
  pose proof (block_of_buffer _ _ _ Ha Hb) as Hbb. set (block := take (N.to_nat n) o) in *.
  set (decode := App.DecompressorImpl.decompress_into (App.DecompressorImpl.with_dict dict) block).
  assert (Hdec : forall b, length b = length data -> entry_post dict block b (decode b)).
  { intros b Hlen. apply (decompress_into_with_dict_post block b dict Hbb). destruct Ha as [_ Hm]. unfold buffer_ok. lia. }
  assert (Hzd : length (zeroed (len data)) = length data) by (unfold zeroed; rewrite length_replicate; lia).
  rewrite (decodes_exactly dict block data (zeroed (len data)) (decode (zeroed (len data))))
    by (auto using block_of_dict). cbn [unwrap]. mstep. rewrite !assert_eq_ok by done. mstep.
  apply (bench_both (fun '(c, b) => I c /\ len b = max_out) (fun b => length b = length data) _
    (fun _ b => keep_output (decode b)) (c1, o) data
    (fun a b => {| Bench.codec := LZ4RIP_DICT_CODEC; input_name := name; input_size := len data; compressed_size := n;
                   compress_ns := a; decompress_ns := b |})); try done.
  - intros [c2 b] [Hc2 Hlen]. destruct (Hcall c2 b Hc2 Hlen) as ([[c3 b'] n'] & -> & Hc3 & Hl' & _).
    cbn [keep_state]. apply returns_ok. split; [done|lia].
  - intros _ b _ Hlen. eapply returns_mono; [by eapply keep_output_ok, Hdec|cbn; lia].
  - split; [done|lia].
  - intros a b. split; [apply file_row; [done|lia]|]. apply (whole_file _ _ data block); [by apply block_of_dict|done|].
    cbn [compressed_size]. subst block. rewrite length_take. lia.
Qed.

Lemma bench_c_lz4_dict_ok data dict name target_ns k m : file_ok data -> len dict < 2 ^ 31 -> target_ns <= 2 ^ 25 ->
  steady libs (readings libs target_ns + (readings libs target_ns + m)) 0 k ->
  returns (bench_c_lz4_dict libs data dict name target_ns k) (fun '(r, k) =>
    (row_for "C lz4 (dict 2K)" name r /\ measured dict r) /\ steady libs m 0 k).
Proof.
  intros Hdata Hdict Ht Hk. pose proof Hdata as [_ Hmax]. unfold bench_c_lz4_dict. rewrite (lzzzz_bound libs Hlibs) by done.
  assert (Hroom : forall b : bytes, len b = compress_bound (len data) -> compress_bound (len data) <= len b < 2 ^ 31).
  { intros b ->. change (2 ^ 31) with 2147483648. unfold compress_bound, LZ4_MAX_INPUT_SIZE in *. lia. }
  destruct (CDict_new_ok dict) as (c & -> & Hc). mstep. unfold CDict_roundtrip.
  pose proof (length_zeroed (compress_bound (len data))) as Hz.
  destruct (CDict_compress_into libs Hlibs dict c data _ Hc Hdict Hmax (Hroom _ Hz))
    as ([[c1 o] n] & -> & Hc1 & Hl & Hn & He). mstep. rewrite slice_ok by lia. rewrite N.sub_0_r, sub_0. mstep.
  set (block := take (N.to_nat n) o) in *. assert (Hbl : len block < 2 ^ 31).
  { eapply N.le_lt_trans; [|apply (Hroom _ Hz)]. subst block. rewrite length_take. lia. }
  unfold CDict_decompress. rewrite (proj1 Hc1).
  rewrite (decompress_dict libs Hlibs dict data block (zeroed (len data)) He ltac:(unfold zeroed; rewrite length_replicate; lia)
    Hdict Hmax Hbl).
  rewrite c_int_small by (unfold LZ4_MAX_INPUT_SIZE in *; change (2 ^ 31) with 2147483648; lia).
  rewrite assert_eq_ok by done. mstep.
  rewrite slice_ok by lia. rewrite N.sub_0_r, sub_0, take_ge by lia. mstep. rewrite assert_eq_ok by done. mstep.
  apply (bench_both (fun '(c, b) => indexed libs dict c /\ len b = compress_bound (len data)) (fun _ => True)
    _ (fun s b => Ok (fst (CDict_decompress libs (fst s) block b))) (c1, o) data
    (fun a b => {| Bench.codec := "C lz4 (dict 2K)"; input_name := name; input_size := len data;
                   compressed_size := len block; compress_ns := a; decompress_ns := b |})); try done.
  - intros [c2 b] [Hc2 Hlen]. destruct (CDict_compress_into libs Hlibs dict c2 data b Hc2 Hdict Hmax (Hroom b Hlen))
      as ([[c3 b'] n'] & -> & Hc3 & Hl' & _). mstep. apply returns_ok. split; [done|lia].
  - intros. by apply returns_ok.
  - split; [done|lia].
  - intros a b. split; [|by apply (whole_file _ _ data block); [apply encodes_decode|..]]. apply file_row; [done|].
    clear Hbl. subst block. rewrite length_take. unfold compress_bound, LZ4_MAX_INPUT_SIZE in *. lia.
Qed.

(** ** The runs *)

Lemma steady_drop c m k : steady libs (c + m) 0 k -> steady libs m 0 k.
Proof. intros H. eapply steady_weaken; [exact H|lia..]. Qed.

(** The readings of one timing. *)
Definition tick : nat := readings libs TARGET_NS.

Lemma target_small : TARGET_NS <= 2 ^ 25.
Proof. done. Qed.

Lemma steady_target target_ns n k : target_ns <= TARGET_NS -> steady libs (tick + n) 0 k ->
  steady libs (readings libs target_ns + n) 0 k.
Proof.
  intros Ht Hk. eapply steady_weaken; [exact Hk| |lia]. unfold tick, readings.
  assert (S (N.to_nat target_ns) * S (clock_stall libs) <= S (N.to_nat TARGET_NS) * S (clock_stall libs))%nat
    by (apply Nat.mul_le_mono_r; lia). lia.
Qed.

Definition sizes_ok (sizes : list N) : Prop := Forall (fun size => 0 < size <= 2 ^ 20) sizes.

Lemma run_sizes : sizes_ok SWEEP_SIZES /\ sizes_ok SMALL_SIZES /\ sizes_ok STRUCTURED_SIZES.
Proof. split_and!; apply (bool_decide_unpack _); vm_compute; exact I. Qed.

Section rows.
Context (P : BenchResult -> Prop).

(** The rows for the slices of one size of a source: none, or those of a loop over
    codecs. *)
Lemma slices_rows c sizes size source rows k m (body : res Empty_set (progress libs)) :
  sizes_ok sizes -> size ∈ sizes -> Forall P rows -> steady libs (c + m) 0 k ->
  (small_slices size (rotating_slices source size) ->
     returns body (fun '(rows, k) => Forall P rows /\ steady libs m 0 k)) ->
  returns (match rotating_slices source size with [] => Ok (rows, k) | _ => body end)
    (fun '(rows, k) => Forall P rows /\ steady libs m 0 k).
Proof.
  intros Hsz Hin Hr Hk Hbody. pose proof (rotating_slices_ok source size) as Hok.
  destruct (rotating_slices source size) eqn:Hs.
  - apply returns_ok. split; [done|by eapply steady_drop].
  - apply Hbody, Hok; [|done]. unfold sizes_ok in Hsz. rewrite list.Forall_forall in Hsz. by apply Hsz.
Qed.

(** A row that is added for a codec. *)
Lemma add_row rows r : Forall P rows -> P r -> Forall P (rows ++ [r]).
Proof. intros. apply Forall_app. auto. Qed.
End rows.

(** A row of a run: its sizes are right, and it can be saved in the file of its
    codec. *)
Definition row_of (dict : bytes) (r : BenchResult) : Prop :=
  (measured [] r \/ measured dict r) /\ Bench.codec r ∈ ROW_CODECS /\ savable r.

Lemma row_codecs_plain : Forall plain ROW_CODECS.
Proof. apply (bool_decide_unpack _). vm_compute. exact I. Qed.

Lemma row_of_intro dict codec name r : codec ∈ ROW_CODECS -> plain name -> row_for codec name r ->
  measured [] r \/ measured dict r -> row_of dict r.
Proof.
  intros Hc Hn (Hrc & Hrn & Hf) Hm. split; [done|]. rewrite Hrc. split; [done|]. unfold savable. rewrite Hrc, Hrn.
  split; [|done]. pose proof row_codecs_plain as Hp. rewrite list.Forall_forall in Hp. by apply Hp.
Qed.

(** The lists of codecs are parts of it. *)
Lemma codecs_row (codecs : list string) codec : forallb (fun c => bool_decide (c ∈ ROW_CODECS)) codecs = true ->
  codec ∈ codecs -> codec ∈ ROW_CODECS.
Proof. rewrite forallb_forall. intros H Hc%list_elem_of_In%H. by apply bool_decide_eq_true_1 in Hc. Qed.

Lemma prefixed_plain name size : plain name -> plain (prefixed_input_name name size).
Proof.
  intros Hn. unfold plain, prefixed_input_name. rewrite !chars_app. apply without_app. split; [done|].
  apply without_app. split; [by apply literal_without|]. apply show_without.
  intros c Hc. apply bool_decide_eq_false_2. by intros [->| ->].
Qed.

(** The names of inputs can be in a row. *)
Definition names_ok (inputs : list (string * bytes)) : Prop := Forall (fun '(name, _) => plain name) inputs.

Lemma input_plain inputs name source size : names_ok inputs -> (name, source) ∈ inputs ->
  plain (prefixed_input_name name size).
Proof. intros H Hin. apply prefixed_plain. unfold names_ok in H. rewrite list.Forall_forall in H. exact (H _ Hin). Qed.

Lemma input_row dict codecs codec inputs name source size r :
  forallb (fun c => bool_decide (c ∈ ROW_CODECS)) codecs = true -> codec ∈ codecs ->
  names_ok inputs -> (name, source) ∈ inputs -> row_for codec (prefixed_input_name name size) r ->
  measured [] r \/ measured dict r -> row_of dict r.
Proof. intros Hc Hin Hn Hs. eapply row_of_intro; [by eapply codecs_row|by eapply input_plain]. Qed.

Lemma encodes_restores size slices blocks : restores size (encodes []) slices blocks ->
  restores size (fun d b => block_decode [] b = Some d) slices blocks.
Proof. apply restores_mono. intros d b. apply encodes_decode. Qed.

Lemma run_sweep_ok dict inputs k m : names_ok inputs -> len dict < 2 ^ 31 -> steady libs (15 * (length inputs * (4 * (tick + tick))) + m) 0 k ->
  returns (run_sweep libs dict inputs k) (fun '(rows, k) => Forall (row_of dict) rows /\ steady libs m 0 k).
Proof.
  intros Hin Hdict Hk. unfold run_sweep. eapply (for_each_clock (Forall (row_of dict))); [|constructor|exact Hk].
  intros size rows k1 m1 Hsize Hrows Hk1. eapply for_each_clock; [|done|exact Hk1].
  intros [name source] rows2 k2 m2 Hsource Hr2 Hk2. eapply slices_rows; [exact (proj1 run_sizes)|done|done|exact Hk2|]. intros Hsl.
  eapply for_each_clock; [|done|exact Hk2]. intros codec rows3 k3 m3 Hcodec Hr3 Hk3. rewrite <-Nat.add_assoc in Hk3.
  destruct (contains "dict" codec).
  - destruct (dict_encode_decode_ok size codec dict _ TARGET_NS k3 m3 Hsl Hdict target_small Hk3)
      as ([[[a b] blocks] k4] & -> & Hb & Hk4). mstep.
    edestruct (per_message_ok dict size codec) as (r & -> & Hrow & Hm); [exact Hsl|exact Hb|]. mstep. apply returns_ok.
    split; [|done]. apply add_row; [done|]. eapply input_row; [|exact Hcodec|exact Hin|exact Hsource|exact Hrow|by right]; done.
  - destruct (small_encode_ok size codec _ TARGET_NS k3 _ Hsl target_small Hk3) as ([[a blocks] k4] & -> & Hb & Hk4). mstep.
    destruct (small_decode_ok size codec blocks _ TARGET_NS k4 _ Hsl Hb target_small Hk4) as ([b k5] & -> & Hk5). mstep.
    edestruct (per_message_ok [] size codec) as (r & -> & Hrow & Hm); [exact Hsl|by apply encodes_restores|]. mstep.
    apply returns_ok. split; [|done]. apply add_row; [done|]. eapply input_row; [|exact Hcodec|exact Hin|exact Hsource|exact Hrow|by left]; done.
Qed.

Lemma run_structured_ok only inputs k m : names_ok inputs -> steady libs (length inputs * (6 * (4 * (tick + tick))) + m) 0 k ->
  returns (run_structured libs only inputs k) (fun '(rows, k) => Forall (row_of []) rows /\ steady libs m 0 k).
Proof.
  intros Hin Hk. unfold run_structured. eapply (for_each_clock (Forall (row_of []))); [|constructor|exact Hk].
  intros [name source] rows k1 m1 Hsource Hrows Hk1. eapply for_each_clock; [|done|exact Hk1].
  intros size rows2 k2 m2 Hsize Hr2 Hk2. eapply slices_rows; [exact (proj2 (proj2 run_sizes))|done|done|exact Hk2|]. intros Hsl.
  eapply for_each_clock; [|done|exact Hk2]. intros codec rows3 k3 m3 Hcodec Hr3 Hk3.
  destruct (selected only codec); cbn [negb]; [|apply returns_ok; split; [done|by eapply steady_drop]].
  rewrite <-Nat.add_assoc in Hk3.
  destruct (small_encode_ok size codec _ TARGET_NS k3 _ Hsl target_small Hk3) as ([[a blocks] k4] & -> & Hb & Hk4). mstep.
  destruct (small_decode_ok size codec blocks _ TARGET_NS k4 _ Hsl Hb target_small Hk4) as ([b k5] & -> & Hk5). mstep.
  edestruct (per_message_ok [] size codec) as (r & -> & Hrow & Hm); [exact Hsl|by apply encodes_restores|]. mstep.
  apply returns_ok. split; [|done]. apply add_row; [done|]. eapply input_row; [|exact Hcodec|exact Hin|exact Hsource|exact Hrow|by left]; done.
Qed.

Lemma run_structured_dict_ok only inputs dict k m : names_ok inputs -> len dict < 2 ^ 31 ->
  steady libs (length inputs * (6 * (2 * (tick + tick))) + m) 0 k ->
  returns (run_structured_dict libs only inputs dict k) (fun '(rows, k) => Forall (row_of dict) rows /\ steady libs m 0 k).
Proof.
  intros Hin Hdict Hk. unfold run_structured_dict. eapply (for_each_clock (Forall (row_of dict))); [|constructor|exact Hk].
  intros [name source] rows k1 m1 Hsource Hrows Hk1. eapply for_each_clock; [|done|exact Hk1].
  intros size rows2 k2 m2 Hsize Hr2 Hk2. eapply slices_rows; [exact (proj2 (proj2 run_sizes))|done|done|exact Hk2|]. intros Hsl.
  apply (for_each_clock (Forall (row_of dict)) (tick + tick)); [|done|exact Hk2]. intros codec rows3 k3 m3 Hcodec Hr3 Hk3.
  destruct (selected only codec); cbn [negb]; [|apply returns_ok; split; [done|by eapply steady_drop]].
  rewrite <-Nat.add_assoc in Hk3.
  destruct (dict_encode_decode_ok size codec dict _ TARGET_NS k3 m3 Hsl Hdict target_small Hk3)
    as ([[[a b] blocks] k4] & -> & Hb & Hk4). mstep.
  edestruct (per_message_ok dict size codec) as (r & -> & Hrow & Hm); [exact Hsl|exact Hb|]. mstep. apply returns_ok.
  split; [|done]. apply add_row; [done|]. eapply input_row; [|exact Hcodec|exact Hin|exact Hsource|exact Hrow|by right]; done.
Qed.

Lemma concat_sizes size slices : Forall (fun s => len s = size) slices -> len (concat slices) = size * len slices.
Proof. induction 1 as [|s slices Hs _ IH]; cbn [concat length]; [lia|]. rewrite length_app. lia. Qed.

Lemma sums_fit size slices total : size <= 2 ^ 20 -> len slices <= SLICES -> total <= 2 ^ 27 ->
  size * len slices <= usize_max /\ total <= usize_max.
Proof.
  unfold SLICES. change (2 ^ 20) with 1048576. change (2 ^ 27) with 134217728. intros Hs Hl Ht.
  pose proof usize_isize. pose proof isize_large. change (2 ^ 31) with 2147483648 in *. nia.
Qed.

Lemma own_codec codec : codec ∈ [LZ4RIP_CODEC; "C lz4"; "lz4_flex unsafe"; "lz4_flex"] -> codec <> "C lz4" ->
  codec +:+ " (own)" ∈ ROW_CODECS.
Proof.
  intros Hc Hne. repeat (apply elem_of_cons in Hc; destruct Hc as [->|Hc]); try (by apply not_elem_of_nil in Hc);
    try done; by apply (bool_decide_unpack _).
Qed.

Lemma run_small_ok only inputs k m : names_ok inputs -> steady libs (length inputs * (12 * (tick + 4 * (tick + (tick + tick)))) + m) 0 k ->
  returns (run_small libs only inputs k) (fun '(rows, k) => Forall (row_of []) rows /\ steady libs m 0 k).
Proof.
  intros Hin Hk. unfold run_small. eapply (for_each_clock (Forall (row_of []))); [|constructor|exact Hk].
  intros [name source] rows k1 m1 Hsource Hrows Hk1.
  destruct (negb _); [apply returns_ok; split; [done|by eapply steady_drop]|].
  eapply for_each_clock; [|done|exact Hk1]. intros size rows2 k2 m2 Hsize Hr2 Hk2.
  eapply slices_rows; [exact (proj1 (proj2 run_sizes))|done|done|exact Hk2|]. intros Hsl.
  set (slices := rotating_slices source size) in *. rewrite <-Nat.add_assoc in Hk2.
  destruct (small_encode_ok size "C lz4" slices (TARGET_NS / 10) k2 _ Hsl ltac:(done)
    (steady_target (TARGET_NS / 10) _ k2 ltac:(done) Hk2)) as ([[a c_blocks] k3] & -> & Hcb & Hk3). mstep.
  eapply for_each_clock; [|done|exact Hk3]. intros codec rows4 k4 m4 Hcodec Hr4 Hk4.
  destruct (selected only codec); cbn [negb]; [|apply returns_ok; split; [done|by eapply steady_drop]].
  rewrite <-Nat.add_assoc in Hk4.
  destruct (small_encode_ok size codec slices TARGET_NS k4 _ Hsl target_small Hk4) as ([[b own] k5] & -> & Hb & Hk5). mstep.
  pose proof Hsl as (_ & [_ Hmax] & Hs & Hn). pose proof (Forall2_length (proj1 Hb)) as Hlen.
  destruct (total_len_ok size slices own Hmax Hn (eq_sym Hlen) (proj2 Hb)) as [-> Hown]. mstep.
  assert (Hrow : forall codec d, codec ∈ ROW_CODECS -> row_of [] {| Bench.codec := codec; input_name := prefixed_input_name name size;
    input_size := size * len slices; compressed_size := len (concat own); compress_ns := b; decompress_ns := d |}).
  { intros c d Hc. eapply row_of_intro; [exact Hc|by eapply input_plain| |].
    - split_and!; [done..|]. by eapply sums_fit.
    - left. apply (sums _ _ slices own); [exact (proj1 (encodes_restores size _ _ Hb))|symmetry; by apply concat_sizes|done]. }
  rewrite <-Nat.add_assoc in Hk5.
  assert (Hrest : returns (if negb (bool_decide (codec = "C lz4")) then
      '(own_ns, k) ← small_decode libs codec own slices TARGET_NS k5;
      Ok (rows4 ++ [{| Bench.codec := codec +:+ " (own)"; input_name := prefixed_input_name name size;
        input_size := size * len slices; compressed_size := len (concat own); compress_ns := b;
        decompress_ns := own_ns |}], k) else Ok (rows4, k5))
    (fun '(rows, k) => Forall (row_of []) rows /\ steady libs (tick + m4) 0 k)).
  { case_bool_decide as Hc; cbn [negb]; [apply returns_ok; split; [done|by eapply steady_drop]|].
    destruct (small_decode_ok size codec own slices TARGET_NS k5 _ Hsl Hb target_small Hk5) as ([d k6] & -> & Hk6). mstep.
    apply returns_ok. split; [|done]. apply add_row, Hrow; [done|]. by apply own_codec. }
  destruct Hrest as ([rows5 k6] & -> & Hr5 & Hk6). mstep.
  destruct (small_decode_ok size codec c_blocks slices TARGET_NS k6 _ Hsl Hcb target_small Hk6) as ([d k7] & -> & Hk7).
  mstep. apply returns_ok. split; [|done]. apply add_row, Hrow; [done|]. by eapply codecs_row; [|exact Hcodec].
Qed.

(** ** [main] *)

Section main.
Context (read_file : string -> option bytes) (Hfiles : forall p data, read_file p = Some data -> file_ok data).
Context (sys : System) (fs : Files).

(** The codecs that [main] runs with a dictionary, or without one. *)
Definition codecs_for (dict_data : option bytes) : list string :=
  match dict_data with Some _ => DICT_CODECS | None => CODECS end.

Lemma bench_one_ok codec data dict_data name k m : file_ok data -> len (default [] dict_data) < 2 ^ 31 ->
  codec ∈ codecs_for dict_data -> steady libs (tick + (tick + m)) 0 k ->
  returns (bench_one libs codec data dict_data name k) (fun '(r, k) =>
    (row_for codec name r /\ measured (default [] dict_data) r) /\ steady libs m 0 k).
Proof.
  intros Hd Hdict Hin Hk.
  destruct dict_data as [dict|]; cbn [default from_option id] in *; unfold codecs_for, CODECS, DICT_CODECS in Hin;
    repeat (apply elem_of_cons in Hin; destruct Hin as [->|Hin]); try (by apply not_elem_of_nil in Hin); unfold bench_one;
    repeat first [rewrite bool_decide_eq_true_2 by done | rewrite bool_decide_eq_false_2 by done]; mstep.
  - by apply bench_c_lz4_dict_ok.
  - by apply bench_lz4rip_dict_ok.
  - apply bench_codec_ok; [by apply (lzzzz_ok libs)|done..].
  - by apply bench_lz4rip_ok.
  - apply bench_codec_ok; [by apply (flex_ok libs)|done..].
  - apply bench_codec_ok; [by apply (flex_unsafe_ok libs)|done..].
Qed.

Lemma codecs_for_row dict_data : Forall (fun c => c ∈ ROW_CODECS) (codecs_for dict_data).
Proof. apply list.Forall_forall. intros c Hc. destruct dict_data; by eapply codecs_row; [|exact Hc]. Qed.

(** The names of the files that the arguments add. *)
Definition extras_plain (a : Args) : Prop := Forall (fun p => plain (file_name p)) (extra_files a).

Lemma corpus_plain : Forall (fun p => plain (file_name p)) ALL_FILES.
Proof. apply (bool_decide_unpack _). vm_compute. exact I. Qed.

(** A row of whole files: a cached one or a new one. *)
Definition file_row_ok (dict_data : option bytes) (cached : list BenchResult) (r : BenchResult) : Prop :=
  (r ∈ cached \/ measured (default [] dict_data) r) /\ Bench.codec r ∈ codecs_for dict_data /\ savable r.

Lemma file_row_intro dict_data cached codec name r : codec ∈ codecs_for dict_data -> plain name -> row_for codec name r ->
  r ∈ cached \/ measured (default [] dict_data) r -> file_row_ok dict_data cached r.
Proof.
  intros Hc Hn (Hrc & Hrn & Hf) Hm. split; [done|]. rewrite Hrc. split; [done|]. unfold savable. rewrite Hrc, Hrn.
  split; [|done]. pose proof row_codecs_plain as Hp. pose proof (codecs_for_row dict_data) as Hr.
  rewrite list.Forall_forall in Hp, Hr. by apply Hp, Hr.
Qed.

Lemma run_files_ok a dict_data cached k m : len (default [] dict_data) < 2 ^ 31 -> Forall fits cached -> extras_plain a ->
  steady libs ((12 + length (extra_files a)) * (4 * (tick + tick)) + m) 0 k ->
  returns (run_files libs read_file a dict_data (codecs_for dict_data) cached k) (fun '(rows, k) =>
    Forall (file_row_ok dict_data cached) rows /\ steady libs m 0 k).
Proof.
  intros Hdict Hfit Hextra Hk. unfold run_files. set (P := file_row_ok dict_data cached).
  assert (Hplain : Forall (fun p => plain (file_name p)) (ALL_FILES ++ extra_files a)) by (apply Forall_app; split; [apply corpus_plain|done]).
  apply (for_each_clock (Forall P) (4 * (tick + tick))); [|constructor|by rewrite length_app].
  intros path rows k1 m1 Hpath Hrows Hk1. cbv zeta. destruct (negb _); [apply returns_ok; split; [done|by eapply steady_drop]|].
  destruct (read_file path) as [data|] eqn:Hdata; [|apply returns_ok; split; [done|by eapply steady_drop]].
  assert (Hname : plain (file_name path)) by (rewrite list.Forall_forall in Hplain; exact (Hplain _ Hpath)).
  apply Hfiles in Hdata. apply (for_each_clock (Forall P) (tick + tick)); [|done|].
  - intros codec rows2 k2 m2 Hin Hr2 Hk2. destruct (if selected _ _ then _ else _) as [row|] eqn:Hrow.
    + apply returns_ok. split; [|by eapply steady_drop]. apply add_row; [done|].
      destruct (selected _ _); [done|]. apply find_some in Hrow as [Hrow [Hc Hn]%andb_true_iff].
      apply list_elem_of_In in Hrow. apply bool_decide_eq_true_1 in Hc, Hn.
      apply (file_row_intro _ _ codec (file_name path)); [done..| |by left]. split_and!; [done..|].
      rewrite list.Forall_forall in Hfit. by apply Hfit.
    + rewrite <-Nat.add_assoc in Hk2.
      destruct (bench_one_ok codec data dict_data (file_name path) k2 m2 Hdata Hdict Hin Hk2) as ([r k3] & -> & [Hr Hm] & Hk3).
      mstep. apply returns_ok. split; [|done]. apply add_row; [done|]. eapply file_row_intro; [done..|by right].
  - eapply steady_weaken; [exact Hk1| |done]. apply Nat.add_le_mono_r, Nat.mul_le_mono_r. destruct dict_data; cbn; clear; lia.
Qed.

(** The inputs are the files of the corpus that can be read. *)
Lemma inputs_ok : (length (load_silesia_inputs read_file) <= 12)%nat /\
  Forall (fun '(_, data) => file_ok data) (load_silesia_inputs read_file).
Proof.
  unfold load_silesia_inputs. change 12%nat with (length ALL_FILES). induction ALL_FILES as [|p ps [IH1 IH2]]; [done|].
  cbn [omap list_omap]. destruct (read_file p) as [data|] eqn:Hp; cbn [mbind option_bind length].
  - split; [lia|]. constructor; [by apply (Hfiles p)|done].
  - split; [lia|done].
Qed.

(** Every sample of the training is at most 1024 bytes from the middle of a file. *)
Lemma train_inputs_ok inputs : Forall (fun '(_, data) => file_ok data) inputs ->
  returns (train_silesia_dict_from_inputs inputs) (fun dict => len dict <= 2048).
Proof.
  intros Hin. unfold train_silesia_dict_from_inputs. apply returns_bind.
  apply (returns_mono _ (fun t => trainer_ok t /\ max_dict_size t = 2048)).
  - apply for_each_ok; [|split; [apply new_ok|done]]. intros [name data] t _ [Ht Hmax]. cbv zeta.
    set (n := N.min 1024 (len data)). assert (Hn : n <= len data) by apply N.le_min_r. destruct (n <? 4); [by apply returns_ok|].
    rewrite slice_ok by lia. mstep. eapply returns_mono; [by apply (add_sample_ok (E:=Empty_set))|].
    intros t' (Ht' & Hmax' & _). split; [done|lia].
  - intros t [Ht Hmax]. eapply returns_mono; [apply (train_ok (E:=Empty_set)); [done|lia]|].
    intros dict H. rewrite Hmax in H. destruct (_ <? 2); [subst; cbn; lia|]. by destruct H.
Qed.

(** The dictionaries that [main] may use. *)
Definition dict_choice (a : Args) (D : bytes) : Prop :=
  D = [] \/ train_silesia_dict_from_inputs (load_silesia_inputs read_file) = Ok D \/
  exists p, (dict_path a = Some p \/ sweep_dict a = Some p) /\ read_file p = Some D.

Definition reported (a : Args) (r : BenchResult) : Prop :=
  (exists codecs, r ∈ load_cache sys fs codecs) \/ exists D, dict_choice a D /\ measured D r.

(** The readings of a run: at most thirteen timings for each codec, size and file. *)
Definition main_readings (a : Args) : nat := (1872 + 8 * length (extra_files a)) * tick.

(** The directory of the cache that a run saves to. *)
Definition run_directory (a : Args) : string :=
  if small a then "small" else if structured a || structured_dict a then "structured"
  else match sweep_dict a with Some _ => "sweep" | None => "" end.

(** What the measurements of a run give. *)
Definition run_ok (a : Args) (d : Destination) (rows : list BenchResult) : Prop :=
  directory d = run_directory a /\ Forall (reported a) rows /\ ready d rows.

(** The dictionary file that a run reads, if any; it can be read. *)
Definition dict_file (a : Args) : option string :=
  if small a || structured a || structured_dict a then None else
  match sweep_dict a with
  | Some dp => if bool_decide (dp = EmptyString) then None else Some dp
  | None => if dict_silesia a then None else dict_path a
  end.

Definition dicts_readable (a : Args) : Prop := forall p, dict_file a = Some p -> is_Some (read_file p).

Lemma file_dict p D : read_file p = Some D -> len D < 2 ^ 31.
Proof. intros [_ H]%Hfiles. change (2 ^ 31) with 2147483648. unfold LZ4_MAX_INPUT_SIZE in H. lia. Qed.

(** Weaker readings for a run of [n] sizes. *)
Lemma enough a n k : steady libs (main_readings a) 0 k -> (n <= (1872 + 8 * length (extra_files a)) * tick)%nat ->
  steady libs (n + 0) 0 k.
Proof. intros H Hn. eapply steady_weaken; [exact H| |done]. unfold main_readings. by rewrite Nat.add_0_r. Qed.

Lemma of_inputs (i c e t cost : nat) : (i <= 12)%nat -> cost = (c * t)%nat -> Nat.leb c 156 = true ->
  (i * cost <= (1872 + e) * t)%nat.
Proof.
  intros Hi -> Hc%Nat.leb_le. rewrite Nat.mul_assoc. apply Nat.mul_le_mono_r.
  transitivity (12 * 156)%nat; [by apply Nat.mul_le_mono|lia].
Qed.

(** The timings of an input in each run. *)
Lemma run_costs : (12 * (tick + 4 * (tick + (tick + tick))) = 156 * tick)%nat /\
  (6 * (4 * (tick + tick)) = 48 * tick)%nat /\ (6 * (2 * (tick + tick)) = 24 * tick)%nat /\
  (4 * (tick + tick) * 15 = 120 * tick)%nat /\ (4 * (tick + tick) = 8 * tick)%nat.
Proof. generalize tick. lia. Qed.

Lemma rows_reported a D subdir (m : res Empty_set (progress libs)) : dict_choice a D -> subdir = run_directory a ->
  returns m (fun '(rows, k) => Forall (row_of D) rows /\ steady libs 0 0 k) ->
  returns ('(rows, k) ← m; Ok (Results subdir, rows, k)) (fun '(d, rows, _) => run_ok a d rows).
Proof.
  intros HD Hsub ([rows k] & -> & [Hr _]). mstep. apply returns_ok. split_and!; [done| |].
  - eapply list.Forall_impl; [exact Hr|]. intros r [Hm _]. right. destruct Hm; [exists []|exists D]; (split; [|done]); [by left|done].
  - split; [|done]. eapply list.Forall_impl; [exact Hr|]. by intros r [_ ?].
Qed.

Lemma files_reported a dict_data (m : res Empty_set (progress libs)) : dict_choice a (default [] dict_data) ->
  run_directory a = EmptyString ->
  returns m (fun '(rows, k) =>
    Forall (file_row_ok dict_data (load_cache sys fs (codecs_for dict_data))) rows /\ steady libs 0 0 k) ->
  returns ('(rows, k) ← m; Ok (Cache (codecs_for dict_data), rows, k)) (fun '(d, rows, _) => run_ok a d rows).
Proof.
  intros HD Hsub ([rows k] & -> & [Hr _]). mstep. apply returns_ok. pose proof (codecs_for_row dict_data) as Hall. split_and!; [done| |].
  - eapply list.Forall_impl; [exact Hr|]. intros r [[Hc|Hm] _]; [left; by exists (codecs_for dict_data)|right].
    by exists (default [] dict_data).
  - repeat split; [|done|]; (eapply list.Forall_impl; [exact Hr|]); intros r (_ & Hc & Hs); [|done].
    split; [|done]. rewrite list.Forall_forall in Hall. by apply Hall.
Qed.

Lemma inputs_plain : names_ok (load_silesia_inputs read_file).
Proof.
  unfold names_ok, load_silesia_inputs. induction corpus_plain as [|p ps Hp _ IH]; [constructor|].
  cbn [omap list_omap]. destruct (read_file p); cbn [mbind option_bind]; [by constructor|done].
Qed.

Lemma trained : returns (train_silesia_dict_from_inputs (load_silesia_inputs read_file)) (fun dict =>
  len dict < 2 ^ 31 /\ forall a, dict_choice a dict).
Proof.
  destruct (train_inputs_ok _ (proj2 inputs_ok)) as (dict & Hd & Hl). exists dict. split; [done|]. split.
  - eapply N.le_lt_trans; [exact Hl|done].
  - intros a. by right; left.
Qed.

(** The dictionary of the sweep and that of the whole files. *)
Lemma sweep_dict_ok a dp : (dp <> EmptyString -> is_Some (read_file dp)) -> sweep_dict a = Some dp ->
  returns (if bool_decide (dp = EmptyString) then train_silesia_dict_from_inputs (load_silesia_inputs read_file)
           else or_panic (read_file dp)) (fun dict => len dict < 2 ^ 31 /\ dict_choice a dict).
Proof.
  intros Hdicts Hsweep. case_bool_decide as Hdp.
  - eapply returns_mono; [exact trained|]. intros dict [? HD]. by split.
  - destruct (Hdicts Hdp) as [dict Hread]. rewrite Hread. apply returns_ok.
    split; [by eapply file_dict|right; right; exists dp]. split; [by right|done].
Qed.

Lemma file_dict_ok a : (forall p, dict_silesia a = false -> dict_path a = Some p -> is_Some (read_file p)) ->
  returns (if dict_silesia a
           then dict ← train_silesia_dict_from_inputs (load_silesia_inputs read_file); Ok (Some dict)
           else match dict_path a with Some p => dict ← or_panic (read_file p); Ok (Some dict) | None => Ok None end)
    (fun dict_data => len (default [] dict_data) < 2 ^ 31 /\ dict_choice a (default [] dict_data)).
Proof.
  intros Hdicts. destruct (dict_silesia a) eqn:Hsil; [|destruct (dict_path a) as [p|] eqn:Hp].
  - destruct trained as (dict & -> & Hd & HD). mstep. by apply returns_ok.
  - destruct (Hdicts p eq_refl eq_refl) as [dict Hread]. rewrite Hread. mstep. apply returns_ok.
    split; [by eapply file_dict|right; right; exists p]. split; [by left|done].
  - apply returns_ok. split; [done|by left].
Qed.

Lemma measure_ok args k :
  let a := parse_args args no_args in
  dicts_readable a -> extras_plain a -> steady libs (main_readings a) 0 k ->
  returns (measure libs read_file args (load_cache sys fs) k) (fun '(d, rows, _) => run_ok a d rows).
Proof.
  intros a Hdicts Hextra Hk. destruct inputs_ok as [Hn _]. destruct run_costs as (C1 & C2 & C3 & C4 & C5).
  pose proof inputs_plain as Hplain. unfold measure. fold a. cbv zeta. pose proof (fun n => enough a n k Hk) as Hk'.
  destruct (small a) eqn:Hsmall; [|destruct (structured a) eqn:Hst; [|destruct (structured_dict a) eqn:Hsd;
    [|destruct (sweep_dict a) as [dp|] eqn:Hsweep]]].
  - eapply rows_reported; [by left|by unfold run_directory; rewrite Hsmall|]. apply run_small_ok; [done|]. apply Hk'.
    exact (of_inputs _ 156 _ _ _ Hn C1 eq_refl).
  - eapply rows_reported; [by left|by unfold run_directory; rewrite Hsmall, Hst|]. apply run_structured_ok; [done|].
    apply Hk'. exact (of_inputs _ 48 _ _ _ Hn C2 eq_refl).
  - destruct trained as (dict & -> & Hd & HD). mstep.
    eapply rows_reported; [apply HD|by unfold run_directory; rewrite Hsmall, Hst, Hsd|].
    apply run_structured_dict_ok; [done..|]. apply Hk'. exact (of_inputs _ 24 _ _ _ Hn C3 eq_refl).
  - assert (Hdp : dp <> EmptyString -> is_Some (read_file dp)).
    { intros Hne. apply Hdicts. unfold dict_file. by rewrite Hsmall, Hst, Hsd, Hsweep, bool_decide_false. }
    destruct (sweep_dict_ok a dp Hdp Hsweep) as (dict & -> & Hd & HD). mstep.
    eapply rows_reported; [exact HD|by unfold run_directory; rewrite Hsmall, Hst, Hsd, Hsweep|].
    apply run_sweep_ok; [done..|]. apply Hk'. rewrite (Nat.mul_comm 15), <-Nat.mul_assoc.
    exact (of_inputs _ 120 _ _ _ Hn C4 eq_refl).
  - assert (Hdp : forall p, dict_silesia a = false -> dict_path a = Some p -> is_Some (read_file p)).
    { intros p Hsil Hp. apply Hdicts. unfold dict_file. by rewrite Hsmall, Hst, Hsd, Hsweep, Hsil. }
    destruct (file_dict_ok a Hdp) as (dict_data & -> & Hd & HD). mstep. fold (codecs_for dict_data).
    apply files_reported; [done|by unfold run_directory; rewrite Hsmall, Hst, Hsd, Hsweep|].
    apply run_files_ok; [done|apply load_cache_fits|done|]. apply Hk'.
    rewrite C5, Nat.mul_assoc. apply Nat.mul_le_mono_r. clear. lia.
Qed.

Lemma measure_missing args p k :
  dict_file (parse_args args no_args) = Some p -> read_file p = None ->
  measure libs read_file args (load_cache sys fs) k = Panic.
Proof using Type.
  intros Hp Hr. unfold measure, dict_file in *. cbv zeta. set (a := parse_args args no_args) in *.
  destruct (small a), (structured a), (structured_dict a); try done. cbn [orb] in Hp.
  destruct (sweep_dict a) as [dp|].
  - case_bool_decide; [done|]. injection Hp as ->. by rewrite Hr.
  - destruct (dict_silesia a); [done|]. by rewrite Hp, Hr.
Qed.
End main.

(** ** The program *)

Section program.
Context (sys : System) (Hhash : forall l, hash_order sys l ≡ₚ l).
Context (sh : string -> gmap string bytes -> gmap string bytes * bool) (Hsh : writes_only sh).
Context (disk : gmap string bytes) (fs : Files).

(** The files that are there after the downloads. *)
#[local] Abbreviation corpus := (read_disk (ensure_corpus sh disk)) (only parsing).

(** C36: the benchmark runs to its end for any arguments and cache files, and
    panics for a dictionary file that it reads and that is not there.  Else no call
    panics, every block decodes to its input, every assertion holds and the timing
    loops return.  It saves rows that are cached ones or have the sizes of inputs
    and of blocks that restore them, and a later run that loads the file of a codec
    gets the rows of that codec in their order, with the times rounded to tenths;
    no other file of the cache and no file that was there changes.  It needs other
    codecs that read and write the format, downloads that write their file only,
    files below the limit of LZ4, extra files with plain names, and a clock that does
    not go back, fits 64 bits and is not equal for [2 ^ 17] readings in a row. *)
Theorem benchmark_passes args k :
  let a := parse_args args no_args in
  (forall path data, corpus path = Some data -> file_ok data) -> extras_plain a ->
  steady libs (main_readings a) 0 k ->
  (dicts_readable corpus a ->
   returns (BenchCache.main sys libs sh args disk fs k) (fun '(disk', fs', _) =>
    (forall path, is_Some (disk !! path) -> disk' !! path = disk !! path) /\
    exists rows, Forall (reported corpus sys fs a) rows /\ saved sys (run_directory a) rows fs fs')) /\
  forall p, dict_file a = Some p -> corpus p = None -> BenchCache.main sys libs sh args disk fs k = Panic.
Proof.
  intros a Hfiles Hextra Hk. unfold BenchCache.main. split.
  - intros Hdicts. apply returns_bind.
    eapply returns_mono; [exact (measure_ok _ Hfiles sys fs args k Hdicts Hextra Hk)|].
    intros [[d rows] k'] (Hdir & Hr & Hd). apply returns_ok. split.
    + intros path Hpath. apply corpus_kept; [done|by left].
    + exists rows. fold a in Hdir. rewrite <-Hdir. split; [done|by apply save_ok].
  - intros p Hp Hread. cbv zeta. by rewrite (measure_missing _ sys fs args p k Hp Hread).
Qed.
End program.
End runs.

(** ** A benchmark that can run

    Codecs that store their input in a block of literals, and a clock that gains a
    nanosecond at every second reading. *)

Definition stored (data out : bytes) : bytes := encode_block [] data ++ drop (length (encode_block [] data)) out.

Definition storing_codec : Codec := {|
  max_compressed := compress_bound;
  codec_compress data out := Some (stored data out, len (encode_block [] data));
  codec_decompress block out := d ← block_decode [] block; Some (d, len d)
|}.

Definition sample_libraries : Libraries := {|
  flex := storing_codec;
  flex_unsafe := storing_codec;
  lzzzz := storing_codec;
  Stream := unit;
  LZ4_createStream := Some tt;
  LZ4_resetStream_fast _ := tt;
  LZ4_loadDictSlow _ _ _ := tt;
  LZ4_attach_dictionary _ _ := tt;
  LZ4_compress_fast_continue _ data out _ _ _ := (tt, stored data out, Z.of_N (len (encode_block [] data)));
  LZ4_decompress_safe_usingDict block out _ _ dict _ :=
    match block_decode dict block with Some d => (d, Z.of_N (len d)) | None => (out, (-1)%Z) end;
  Clock := N;
  clock_gettime k := (k / 2 / 1000000000, k / 2 mod 1000000000, k + 1);
  clock_stall := 1
|}.

Lemma stored_ok dict data out : compress_bound (len data) <= len out ->
  compressed_into dict data out (stored data out) (len (encode_block [] data)) /\ 0 < len (encode_block [] data).
Proof.
  unfold compress_bound. intros Ho. assert (Hb : 0 < len (encode_block [] data) /\ len (encode_block [] data) <= len out).
  { cbn [encode_block]. unfold encode_last. cbn [length]. rewrite length_app.
    destruct (length_encode_len (len data)) as [H _]. lia. }
  split; [|lia]. unfold compressed_into, stored. split_and!; [len_lia|lia|].
  rewrite Nat2N.id, take_app_length. by exists [], data.
Qed.

Lemma storing_codec_ok : codec_ok storing_codec.
Proof.
  split.
  - cbn. unfold compress_bound. lia.
  - intros data out _ Ho. eexists _, _. split; [done|]. by apply stored_ok.
  - intros data block out He%encodes_decode _. cbn. by rewrite He.
Qed.

Lemma sample_libraries_ok : libraries_ok sample_libraries.
Proof.
  split; try apply storing_codec_ok.
  - done.
  - by exists tt.
  - intros [] data out _ [Ho _]. eexists _, _, _. split; [done|]. destruct (stored_ok [] data out Ho). done.
  - intros [] [] dict data out _ _ [Ho _]. eexists _, _, _. split; [done|]. destruct (stored_ok dict data out Ho). done.
  - intros dict data block out He%encodes_decode _ _ _ _. cbn. by rewrite He.
Qed.

Lemma sample_ticks n w last (k : N) : last < k / 2 \/ last = k / 2 /\ w = 1%nat /\ k mod 2 = 1 ->
  k + N.of_nat n <= u64_max -> ticks sample_libraries n w last k.
Proof.
  revert w last k. induction n as [|n IH]; intros w last k Hl Hn; [done|].
  cbn [ticks sample_libraries clock_gettime clock_stall]. cbv zeta.
  replace (k / 2 / 1000000000 * 1000000000 + k / 2 mod 1000000000) with (k / 2) by lia. split; [lia|].
  destruct Hl as [Hl|(-> & -> & Hodd)]; [left|right]; (split; [done|]); apply IH; lia.
Qed.

Lemma sample_steady n (k : N) : 1 < k -> k + N.of_nat n <= u64_max -> steady sample_libraries n 0 k.
Proof. intros Hk Hn. split; [done|]. apply sample_ticks; [lia|done]. Qed.

(** One file of the corpus that is there, and commands that fail. *)
Definition sample_disk : gmap string bytes := {["corpus/silesia/xml" := replicate 300 x61]}.
Definition sample_sh (command : string) (disk : gmap string bytes) : gmap string bytes * bool := (disk, false).
Definition sample_args : list string := ["--structured-dict"; "--impl"; "lz4rip"].

(** A home directory, and keys in the order of their list. *)
Definition sample_system : System := {| home := Some "/home/user"; ARCH := "x86_64"; hash_order keys := keys |}.

Lemma sample_files_ok `{T : Target} p data : read_disk (ensure_corpus sample_sh sample_disk) p = Some data -> file_ok data.
Proof.
  unfold read_disk, ensure_corpus. intros H. assert (Hp : sample_disk !! p = Some data).
  { revert H. generalize sample_disk. induction SILESIA_DOWNLOADS as [|[path url] files IH]; intros disk; [done|].
    cbn [foldl]. destruct (disk !! path) eqn:Hd; [apply IH|]. intros H%IH. cbv beta iota delta [sample_sh] in H.
    destruct (decide (p = path)) as [->|Hne]; [by rewrite lookup_delete_eq in H|by rewrite lookup_delete_ne in H]. }
  unfold sample_disk in Hp. apply lookup_singleton_Some in Hp as [_ <-]. split; [|done]. by apply (small_alloc 300).
Qed.

Lemma benchmark_passes_witness :
  returns (BenchCache.main (T:=x86_64) sample_system sample_libraries sample_sh sample_args sample_disk ∅ 2)
    (fun '(disk', fs', _) =>
      (forall path, is_Some (sample_disk !! path) -> disk' !! path = sample_disk !! path) /\
      exists rows, Forall (reported (T:=x86_64) (read_disk (ensure_corpus sample_sh sample_disk)) sample_system ∅ (parse_args sample_args no_args)) rows /\
        saved (T:=x86_64) sample_system "structured" rows ∅ fs').
Proof.
  apply (benchmark_passes (T:=x86_64) sample_libraries sample_libraries_ok sample_system (fun _ => reflexivity _)
    sample_sh (fun _ _ _ _ _ => eq_refl) sample_disk ∅ sample_args 2).
  - exact (sample_files_ok (T:=x86_64)).
  - constructor.
  - apply sample_steady; [reflexivity|]. unfold main_readings.
    change (length (extra_files (parse_args sample_args no_args))) with 0%nat. unfold tick, readings, TARGET_NS, u64_max.
    change (clock_stall sample_libraries) with 1%nat. lia.
  - intros p H. discriminate.
Defined.
